(* ===== verification/_CoqProject ===== *)
-Q . S2P
Prelude.v
Words.v
Md5Spec.v
Md5.v
Md5Correct.v
Pool.v
MysqlPool.v
MysqlExec.v
RedisPool.v
Singleton.v
CString.v
Users.v
Prog.v
Threads.v
Worker.v
Ledger.v
WorkerProps.v
WorkerSafety.v
Server.v
ServerProps.v
Objects.v
Client.v
ClientProps.v
ClientThreads.v
Stock.v
StockRef.v
Livelock.v
Lending.v
Tickets.v
Sale.v
TicketsRef.v
Whole.v
WholeRef.v
Opening.v
Effects.v
PsiThread.v
PsiThreadProps.v
PsiFile.v
PsiFileProps.v
PsiSocket.v
PsiSocketProps.v
PsiStatement.v
PsiStatementProps.v
Sds.v
ByteOrderGeneric.v
ByteOrderX86.v
ByteOrderX86_64.v
BigEndian.v
LittleEndian.v
Adapters.v
AdapterProps.v
IoCache.v
IoCacheProps.v
Counters.v
Encryption.v
Mysys.v
