(* ===== verification/Prelude.v ===== *)
(** * A verification library for the seckill server

    The repository is a flash-sale ("seckill") service: a gRPC server in C++
    ([src/GRPC/src/seckill_server.cc]) whose workers ([Worker.cc]) sell a limited number
    of items, with Redis as the front counter and MySQL as the record, over two connection
    pools ([mysqlpool.cc], [redispool.cc]); a test client ([seckill_client.cc]); and an MD5
    ([Md5.cc]) with which both derive the test users' keys.

    ** How the parts fit together

    [main] of the server fills MySQL and Redis ([prepareForSeckill]) and starts 20 threads
    that take events from gRPC's completion queue ([HandleRPCS]).  An event is a [Worker]:
    in state PROCESS it serves one request (is the user known, has he ordered, take one
    item) and puts its successor in place; in state FINISH it deletes itself.  An item is
    taken first in Redis (WATCH / MULTI / DECR / EXEC, retried) and then in MySQL (SELECT
    ... FOR UPDATE, UPDATE, INSERT, commit); without Redis only in MySQL.  [failedCount]
    counts what Redis gave out and MySQL refused, [successNum] the items sold; the list
    [work_list] in Redis holds one token per request in progress and throttles [HandleRPCS].

    ** The files

    - [Prelude]: lemmas on lists and counting, and the shared tactics.
    - [Words]: machine words as [Z] with explicit wrap-around; equality modulo 2^32 with
      its [Proper] instances and rewriting database; little-endian bytes.
    - [Md5Spec]: MD5 as RFC 1321 describes it.  [Md5]: [Md5.h] and [Md5.cc] function by
      function, 64-bit words and uninitialised storage included.  [Md5Correct]: the code
      computes the RFC digest, streams, prints and parses it.
    - [Pool]: the interface of a connection pool as a class with laws, and its clients.
      [MysqlPool], [RedisPool]: the two pools, each an instance; [MysqlExec]: the map
      that [executeSql] returns.  [Singleton]: [getMysqlPoolObject] and
      [getRedisPoolObject] as a step relation over any number of threads.
    - [CString]: [atoi], [to_string], [c_str], [strcasecmp].  [Users]: the users' keys.
    - [Prog]: programs over external calls as trees, their executions as traces of calls
      with answers, a weakest precondition over all executions.  [Threads]: threads of such
      programs interleaved call by call over a shared state, protocols with a ghost state
      per thread, invariants, schedules that run, and refinement between threads whose
      programs differ by calls that are hidden ([hiding_refines]).
    - [Worker]: [Worker.cc] as such programs.  [Ledger]: what a trace has done to the
      transaction, the counters and the lock.  [WorkerProps], [WorkerSafety]: theorems on
      every execution of the handlers.
    - [Server], [ServerProps]: [prepareForSeckill], [HandleRPCS], [Run], [main].
      [Livelock]: the threads under the throttle.
    - [Objects]: the workers as objects in the memory the threads share, reached through the
      tags of the queue; [Proceed] and [HandleRPCS] access by access.
    - [Stock], [StockRef]: concurrent requests over a database with row locks, and a
      concrete database at which the assumptions hold.
    - [Lending]: the server's threads over the two pools.  [Tickets]: the threads over Redis,
      with [total_count] and [failedCount].  [Sale]: both with the database.  [TicketsRef]:
      pools, Redis, MySQL and the counters executable, and schedules that run on them.
    - [Whole]: the threads of [Objects] refine those of the three files before, so their
      theorems hold of the server as it runs.  [WholeRef]: all services together, running.
      [Opening]: [main] up to the creation of the threads, alone over the services, and the
      state it leaves for them.
    - [Client], [ClientProps], [ClientThreads]: the test client.

    The repository also carries the headers of the two client libraries it is built with
    ([include/mysql], [include/hiredis]).  Those with inline functions or macros that compute
    are modelled as well:
    - [Effects]: programs over two families of calls, one of which can be answered by any
      implementation and watched by a monitor, and their comparison ([teq]).
    - [PsiThread], [PsiFile], [PsiSocket], [PsiStatement]: the wrappers of [mysql/psi] around
      the functions of the threads library, of stdio and [mysys], of the socket library, and
      the marks of statements, stages, tables and idle waits.  The calls of the performance
      schema are one family, those of the wrapped library the other.  [PsiThreadProps],
      [PsiFileProps], [PsiSocketProps], [PsiStatementProps]: their theorems.
    - [Sds]: the inline functions of [hiredis/sds.h] on a byte-addressed memory.
    - [ByteOrderGeneric], [ByteOrderX86], [ByteOrderX86_64]: the integers of MySQL's protocol
      as each processor reads and stores them.  [BigEndian], [LittleEndian]: the machine
      formats, [my_byteorder.h]'s [int4net] included.
    - [IoCache], [IoCacheProps]: the inline functions of [my_sys.h] on a buffered file; the
      functions they fall back on are a class with laws.
    - [Counters]: the macros of [my_pthread.h] on counters that threads share, over the
      wrappers of [PsiThread], with threads of such programs interleaved call by call.
      [Encryption]: the inline functions of [service_encryption.h]; a plugin is a class.
      [Mysys]: the macros that compute: sizes and bits, deadlines, classes of characters, kinds
      of columns, messages, decimals.
    - [Adapters], [AdapterProps]: the eight adapters of [hiredis/adapters] to event libraries;
      a library is a class with the documented effect of its functions.

    ** What is shown

    - No oversell: under every interleaving of any number of requests the committed stock
      and the committed orders make up the initial stock, and answers "1" are backed by
      orders ([Stock]).
    - The whole server ([Whole]): any number of threads in the loop of [HandleRPCS], sharing
      workers, queue, pools, Redis, MySQL and counters, sell what there is, answer "1" as many
      times as orders are committed and no more often than Redis had items, and never use a
      connection two at a time.  No worker is used after its [delete], by two threads, or
      leaked, and the number that wait for a request is kept ([Objects]).  [total_count] is
      never negative, and giving failed purchases back never adds an item ([Tickets]).
    - Each handler, on all executions: what a "1" and a "0" mean, bounded retries, lock and
      autocommit discipline, who reaches [seckillGoods], connections returned, one response
      and one successor per request, freedom from undefined behaviour for short names when
      there is a MySQL connection and a count in Redis ([WorkerProps], [WorkerSafety],
      [ServerProps]).
    - The pools give a connection to one client at a time; the singletons are single and
      every caller gets one; MD5 is RFC 1321; client and server agree on keys; the client's
      counts are exact and its check runs.
    - Instrumentation is transparent: with the performance schema's calls answered in any
      way, every wrapper makes the calls of the function it replaces and returns its result;
      what it announces it ends, once, after the call; a read or write reports the bytes moved
      ([PsiThreadProps], [PsiFileProps], [PsiSocketProps], [PsiStatementProps]).
    - The stores and reads of integers are inverse and the same on every processor; the
      updates of an [sds] header keep it well formed; a buffered file is read and written
      as the stream it is ([IoCacheProps]); counters under one mutex lose no update and their
      threads always end ([Counters]); what is encrypted is decrypted, in one piece
      ([Encryption]); sizes are rounded up, deadlines are in order, a decimal's text fits
      ([Mysys]); over any sequence of hooks and events, as long as no call of it fails, an
      adapter's library watches what the last hooks asked for, once only where the library
      does so ([AdapterProps]).
    - Where the code does not do what it means to, a theorem says so: reservations lost on
      a failed SELECT, items lost when [failedCount] is put back over a positive count, lost
      updates of [successNum], a schedule on which the last item is never sold, a commit whose
      code is ignored, an order overlooked when Redis gives no answer, a null Redis context
      used before the fallback, a null MySQL connection, a missing count, a malformed INSERT
      of the users, a buffer overrun, the livelock of the throttle, leaked connections,
      pointers into a released result set; in the headers, reports
      of failed writes, the length [mysql_socket_accept] loses, messages read behind their table,
      a context finished at an uninitialised offset, and what failed attaches, a refused
      [aeCreateFileEvent] and GLib's dispatch do with a context.

    ** Conventions, bounds and fuel

    A handler is a [prog]: at each call the environment answers and the handler goes on, so
    a theorem over its executions holds for all behaviours of Redis, MySQL, gRPC and the
    other threads.  Conditions on answers are explicit hypotheses, each with a witness.
    [Undef] marks behaviour C++ leaves undefined, and failed assertions.  So is the first use
    of a null [MYSQL *] by a function that is given one; a command on a null [redisContext]
    is left as a call with any answer, which adds executions and takes none away, and
    [request_defined] shows that none is made below [Proceed].  Sums of a pointer and a length
    ([IoCache]) are integers without bound.  The recursion of
    [seckillGoods] is given [RETRYCOUNT] + 1 levels, proved enough; [HandleRPCS n] is [n]
    turns of a loop the code never leaves; the loops of [md5_update] have their fuel computed
    from the length, proved enough.  The run of [mysql_fetch_row] up to NULL is one call
    that returns the remaining rows.  Threads interleave call by call over a sequentially
    consistent memory; each access to a variable or member they share is a call.  The session
    of MySQL that a thread uses is known by the thread's index, a context of Redis by the
    connection: a thread holds one of each during a turn, and none between turns.  What a
    service promises is a class on the shared state ([Lending], [Counter], [Database], [Heap])
    with a class of laws on its steps; a theorem on threads asks for the laws it needs, and an
    executable service satisfies them all at once.

    ** What is not modelled

    Console output; gRPC, hiredis and libmysqlclient beyond the calls made to them, and their
    binary libraries; the rest of their headers, which are declarations, types, tables of
    constants and macros that rename, cast or call through a pointer ([my_config.h],
    [mysqld_error.h], [sql_state.h], [plugin.h], the other services, the structures of
    [psi.h], ...); macros on floating point; the branches of the headers for
    Windows; the macros that only add [__FILE__] and [__LINE__]; the code generated from
    [seckill.proto]; containers, configuration and data files. *)
From Stdlib Require Import ZArith Lia Ascii String.
From stdpp Require Import base tactics numbers strings list.

Local Open Scope Z_scope.

(** ** Lists *)

Lemma foldl_ext_in {A B} (f g : A -> B -> A) (l : list B) (a : A) :
  (forall a x, In x l -> f a x = g a x) -> foldl f a l = foldl g a l.
Proof.
  revert a. induction l as [|x l IH]; intros a Hfg; [done|]. simpl.
  rewrite Hfg by (by left). apply IH. intros. apply Hfg. by right.
Qed.

Lemma foldl_map {A B C} (f : A -> B -> A) (h : C -> B) (l : list C) (a : A) :
  foldl f a (map h l) = foldl (fun a x => f a (h x)) a l.
Proof. revert a. induction l; simpl; auto. Qed.

(** An element of an updated list. *)
Lemma insert_cases {A} (l : list A) i x k y :
  <[i := x]> l !! k = Some y -> k = i /\ y = x \/ k <> i /\ l !! k = Some y.
Proof. intros [(-> & -> & _)|[? ?]]%list_lookup_insert_Some; auto. Qed.

(** ** Counting *)

Definition b2z (b : bool) : Z := if b then 1 else 0.

(** How many elements of a list satisfy [f]. *)
Definition tally {A} (f : A -> bool) (l : list A) : Z := foldr (fun x n => b2z (f x) + n) 0 l.

Lemma tally_insert {A} (f : A -> bool) (l : list A) i x y :
  l !! i = Some x -> tally f (<[i := y]> l) = tally f l - b2z (f x) + b2z (f y).
Proof.
  revert i. induction l as [|z l IH]; intros [|i]; simpl; [done|done|intros [= ->]; lia|].
  intros Hi. rewrite (IH i Hi). lia.
Qed.

Lemma tally_bounds {A} (f : A -> bool) (l : list A) :
  0 <= tally f l <= Z.of_nat (length l).
Proof. induction l as [|x l IH]; simpl; [lia|]. destruct (f x); simpl; lia. Qed.

Lemma tally_all {A} (f : A -> bool) (l : list A) :
  tally f l = Z.of_nat (length l) -> forall i x, l !! i = Some x -> f x = true.
Proof.
  induction l as [|y l IH]; intros Hl i x Hi; [done|]. simpl in Hl.
  pose proof (tally_bounds f l). destruct (f y) eqn:Hy; simpl in Hl; [|lia].
  destruct i as [|i]; simpl in Hi; [by simplify_eq|]. apply (IH ltac:(lia) i x Hi).
Qed.

Lemma tally_none {A} (f : A -> bool) (l : list A) :
  tally f l = 0 -> forall i x, l !! i = Some x -> f x = false.
Proof.
  induction l as [|y l IH]; intros Hl i x Hi; [done|]. simpl in Hl.
  pose proof (tally_bounds f l). destruct (f y) eqn:Hy; simpl in Hl; [lia|].
  destruct i as [|i]; simpl in Hi; [by simplify_eq|]. by apply (IH Hl i).
Qed.

Lemma tally_true {A} (f : A -> bool) (l : list A) :
  (forall x, x ∈ l -> f x = true) -> tally f l = Z.of_nat (length l).
Proof.
  intros Hf. induction l as [|x l IH]; simpl; [done|]. rewrite Hf by (by left).
  rewrite IH by (intros y Hy; apply Hf; by right). simpl. lia.
Qed.

Lemma tally_ext {A B} (f : A -> bool) (g : B -> bool) (P : A -> B -> Prop) l k :
  Forall2 P l k -> (forall x y, P x y -> f x = g y) -> tally f l = tally g k.
Proof. intros Hl Hfg. induction Hl as [|x y l k Hxy _ IH]; simpl; [done|]. by rewrite (Hfg x y Hxy), IH. Qed.

Lemma tally_le {A B} (f : A -> bool) (g : B -> bool) (P : A -> B -> Prop) l k :
  Forall2 P l k -> (forall x y, P x y -> f x = true -> g y = true) -> tally f l <= tally g k.
Proof.
  intros Hl Hfg. induction Hl as [|x y l k Hxy _ IH]; simpl; [done|].
  pose proof (Hfg x y Hxy). destruct (f x), (g y); simpl; naive_solver lia.
Qed.

Lemma tally_replicate {A} (f : A -> bool) n x :
  f x = false -> tally f (replicate n x) = 0.
Proof. intros Hx. induction n as [|n IH]; simpl; [done|]. by rewrite Hx, IH. Qed.

(** The sum of [f] over a list. *)
Definition sum_of {A} (f : A -> Z) (l : list A) : Z := foldr (fun x n => f x + n) 0 l.

Lemma sum_of_insert {A} (f : A -> Z) (l : list A) i x y :
  l !! i = Some x -> sum_of f (<[i := y]> l) = sum_of f l - f x + f y.
Proof.
  revert i. induction l as [|z l IH]; intros [|i]; simpl; [done|done|intros [= ->]; lia|].
  intros Hi. rewrite (IH i Hi). lia.
Qed.

(** The summands may change with the state: all but one stay what they are. *)
Lemma sum_of_insert_ext {A} (f f' : A -> Z) (l : list A) i x y :
  l !! i = Some x -> (forall j z, j <> i -> l !! j = Some z -> f' z = f z) ->
  sum_of f' (<[i := y]> l) = sum_of f l - f x + f' y.
Proof.
  revert i. induction l as [|z l IH]; intros i; [done|]. destruct i as [|i]; simpl.
  - intros [= ->] Hf. enough (sum_of f' l = sum_of f l) by lia. clear IH.
    assert (Hl : forall j z, l !! j = Some z -> f' z = f z) by (intros j z; apply (Hf (S j)); lia).
    clear Hf. induction l as [|z l IH]; simpl; [done|].
    rewrite (Hl 0%nat z eq_refl), (IH (fun j => Hl (S j))). done.
  - intros Hi Hf. rewrite (Hf 0%nat z) by done. rewrite (IH i Hi); [lia|].
    intros j w Hj. apply (Hf (S j)). lia.
Qed.

Lemma sum_of_nonneg {A} (f : A -> Z) (l : list A) :
  (forall i x, l !! i = Some x -> 0 <= f x) -> 0 <= sum_of f l.
Proof.
  induction l as [|z l IH]; intros Hf; simpl; [lia|].
  pose proof (Hf 0%nat z eq_refl). specialize (IH (fun i => Hf (S i))). lia.
Qed.

Lemma sum_of_tally {A B} (f : A -> Z) (g : B -> bool) (l : list A) (k : list B) :
  (forall i x y, l !! i = Some x -> k !! i = Some y -> f x <= b2z (g y)) -> length l = length k ->
  sum_of f l <= tally g k.
Proof.
  revert k. induction l as [|x l IH]; intros [|y k] Hf; simpl; [done|done|done|]. intros [= Hl].
  pose proof (Hf 0%nat x y eq_refl eq_refl). specialize (IH k (fun i => Hf (S i)) Hl). lia.
Qed.

Lemma sum_of_replicate {A} (f : A -> Z) n x : f x = 0 -> sum_of f (replicate n x) = 0.
Proof. intros Hx. induction n as [|n IH]; simpl; [done|]. by rewrite Hx, IH. Qed.

(** ** Tactics *)

(** Boolean tests as propositions. *)
Ltac bool_facts :=
  repeat match goal with
  | H : context [if ?x then _ else _] |- _ => let E := fresh "E" in destruct x eqn:E
  | H : negb _ = _ |- _ => rewrite ?negb_true_iff, ?negb_false_iff in H
  | H : (_ =? _)%Z = true |- _ => apply Z.eqb_eq in H
  | H : (_ =? _)%Z = false |- _ => apply Z.eqb_neq in H
  | H : (_ <? _)%Z = true |- _ => apply Z.ltb_lt in H
  | H : (_ <? _)%Z = false |- _ => apply Z.ltb_ge in H
  end; try discriminate.
