(* ===== verification/Words.v ===== *)
(** * Machine words

    The C++ code computes MD5 in [unsigned long int], which is 64 bits wide on
    the LP64 platform the server is built for, although the algorithm is defined
    on 32-bit words.  This file gives the wrap-around at both widths, the relation
    "equal in the low 32 bits" with the morphisms that make it rewritable, and the
    conversions between words and little-endian bytes. *)
From Stdlib Require Import ZArith Lia Setoid Morphisms.
From stdpp Require Import base tactics numbers list.
From S2P Require Import Prelude.

Local Open Scope Z_scope.

(** ** Wrap-around *)

Definition u8 (x : Z) : Z := x mod 2 ^ 8.
Definition u32 (x : Z) : Z := x mod 2 ^ 32.
Definition u64 (x : Z) : Z := x mod 2 ^ 64.

(** Signed 32-bit [int]: two's complement interpretation of the low 32 bits. *)
Definition i32 (x : Z) : Z := (x + 2 ^ 31) mod 2 ^ 32 - 2 ^ 31.

Definition is_int (x : Z) : Prop := - 2 ^ 31 <= x < 2 ^ 31.
Definition is_intb (x : Z) : bool := (- 2 ^ 31 <=? x) && (x <? 2 ^ 31).

(** C's complement of an [unsigned long]. *)
Definition not64 (x : Z) : Z := u64 (Z.lnot x).

(** A byte, as stored in an [unsigned char]. *)
Definition is_byte (x : Z) : Prop := 0 <= x < 2 ^ 8.

(** Equality of the low 32 bits. *)
Inductive eqm32 (x y : Z) : Prop := eqm32_intro : u32 x = u32 y -> eqm32 x y.

Declare Scope word_scope.
Delimit Scope word_scope with word.
Notation "x =32= y" := (eqm32 x y) (at level 70, no associativity) : word_scope.
Open Scope word_scope.

(** Rotation of a 32-bit word by [n] places to the left. *)
Definition rotl32 (x n : Z) : Z := u32 (Z.lor (Z.shiftl x n) (Z.shiftr x (32 - n))).

(** Little-endian bytes of the low [8 * n] bits. *)
Fixpoint le_bytes (n : nat) (x : Z) : list Z :=
  match n with
  | O => []
  | S n' => u8 x :: le_bytes n' (Z.shiftr x 8)
  end.

(** The word whose little-endian bytes are [bs]. *)
Fixpoint le_word (bs : list Z) : Z :=
  match bs with
  | [] => 0
  | b :: bs' => Z.lor b (Z.shiftl (le_word bs') 8)
  end.

(** ** Wrap-around and bits *)

Lemma u32_bits x i : 0 <= i -> Z.testbit (u32 x) i = (i <? 32) && Z.testbit x i.
Proof.
  intros Hi. unfold u32. destruct (Z.ltb_spec i 32).
  - by rewrite Z.mod_pow2_bits_low by lia.
  - by rewrite Z.mod_pow2_bits_high by lia.
Qed.

Lemma u64_bits x i : 0 <= i -> Z.testbit (u64 x) i = (i <? 64) && Z.testbit x i.
Proof.
  intros Hi. unfold u64. destruct (Z.ltb_spec i 64).
  - by rewrite Z.mod_pow2_bits_low by lia.
  - by rewrite Z.mod_pow2_bits_high by lia.
Qed.

Lemma u8_bits x i : 0 <= i -> Z.testbit (u8 x) i = (i <? 8) && Z.testbit x i.
Proof.
  intros Hi. unfold u8. destruct (Z.ltb_spec i 8).
  - by rewrite Z.mod_pow2_bits_low by lia.
  - by rewrite Z.mod_pow2_bits_high by lia.
Qed.

Lemma u8_byte x : is_byte (u8 x).
Proof. apply Z.mod_pos_bound. lia. Qed.

Lemma u32_range x : 0 <= u32 x < 2 ^ 32.
Proof. apply Z.mod_pos_bound. lia. Qed.

Lemma u64_range x : 0 <= u64 x < 2 ^ 64.
Proof. apply Z.mod_pos_bound. lia. Qed.

Lemma u32_small x : 0 <= x < 2 ^ 32 -> u32 x = x.
Proof. apply Z.mod_small. Qed.

Lemma u64_small x : 0 <= x < 2 ^ 64 -> u64 x = x.
Proof. apply Z.mod_small. Qed.

Lemma u32_idem x : u32 (u32 x) = u32 x.
Proof. apply Z.mod_mod. lia. Qed.

(** Two words agree modulo [2^32] exactly when their low 32 bits do. *)
Lemma eqm32_bits x y :
  x =32= y <-> forall i, 0 <= i < 32 -> Z.testbit x i = Z.testbit y i.
Proof.
  split.
  - intros [Heq] i Hi. pose proof (f_equal (fun z => Z.testbit z i) Heq) as Hb.
    cbn beta in Hb. rewrite !u32_bits in Hb by lia.
    by rewrite (proj2 (Z.ltb_lt i 32)) in Hb by lia.
  - intros Hb. constructor. apply Z.bits_inj'. intros i Hi. rewrite !u32_bits by lia.
    destruct (Z.ltb_spec i 32); [|done]. rewrite Hb by lia. done.
Qed.

(** ** The low 32 bits are a congruence for the operations MD5 uses *)

#[export] Instance eqm32_equivalence : Equivalence eqm32.
Proof.
  split; [by constructor | by intros ?? [] | intros ??? [] []; constructor; congruence].
Qed.

#[export] Instance eqm32_add : Proper (eqm32 ==> eqm32 ==> eqm32) Z.add.
Proof.
  intros x x' [Hx] y y' [Hy]. constructor. unfold u32 in *.
  rewrite Z.add_mod, Hx, Hy, <- Z.add_mod by lia. done.
Qed.

Ltac solve_eqm32_bits :=
  repeat intro; rewrite eqm32_bits in *; intros i Hi;
  rewrite ?Z.lxor_spec, ?Z.lor_spec, ?Z.land_spec, ?Z.lnot_spec by lia;
  repeat match goal with H : forall _, _ |- _ => rewrite H by lia end;
  try reflexivity.

#[export] Instance eqm32_lxor : Proper (eqm32 ==> eqm32 ==> eqm32) Z.lxor.
Proof. solve_eqm32_bits. Qed.

#[export] Instance eqm32_lor : Proper (eqm32 ==> eqm32 ==> eqm32) Z.lor.
Proof. solve_eqm32_bits. Qed.

#[export] Instance eqm32_land : Proper (eqm32 ==> eqm32 ==> eqm32) Z.land.
Proof. solve_eqm32_bits. Qed.

#[export] Instance eqm32_lnot : Proper (eqm32 ==> eqm32) Z.lnot.
Proof. solve_eqm32_bits. Qed.

#[export] Instance eqm32_u32 : Proper (eqm32 ==> eq) u32.
Proof. by intros x y []. Qed.

Lemma eqm32_u32_l x : u32 x =32= x.
Proof. constructor. apply u32_idem. Qed.

Lemma eqm32_u64_l x : u64 x =32= x.
Proof.
  apply eqm32_bits. intros i Hi. rewrite u64_bits by lia.
  by rewrite (proj2 (Z.ltb_lt i 64)) by lia.
Qed.

Lemma eqm32_not64 x : not64 x =32= Z.lnot x.
Proof. apply eqm32_u64_l. Qed.

Lemma eqm32_land_mask x : Z.land x 0xFFFFFFFF =32= x.
Proof.
  apply eqm32_bits. intros i Hi. rewrite Z.land_spec.
  change 0xFFFFFFFF with (Z.ones 32). rewrite Z.ones_spec_low by lia.
  by rewrite andb_true_r.
Qed.

Lemma land_mask_u32 x : Z.land x 0xFFFFFFFF = u32 x.
Proof. change 0xFFFFFFFF with (Z.ones 32). by apply Z.land_ones. Qed.

(** Rewriting away the wrap-arounds under [=32=]. *)
Create Rewrite HintDb eqm32.
#[export] Hint Rewrite eqm32_u32_l eqm32_u64_l eqm32_not64 : eqm32.

(** The C macro's rotation of a 64-bit word, of which only the low 32 bits are
    meaningful, is the 32-bit rotation of those bits. *)
Lemma rotl_64_32 x n :
  0 < n < 32 ->
  Z.lor (u64 (Z.shiftl x n)) (Z.shiftr (Z.land x 0xFFFFFFFF) (32 - n))
  =32= rotl32 (u32 x) n.
Proof.
  intros Hn. unfold rotl32. rewrite land_mask_u32, (eqm32_u32_l (Z.lor _ _)), eqm32_u64_l.
  apply eqm32_bits. intros i Hi. rewrite !Z.lor_spec. f_equal.
  rewrite !Z.shiftl_spec by lia.
  destruct (Z.ltb_spec (i - n) 0).
  - by rewrite !Z.testbit_neg_r by lia.
  - rewrite u32_bits by lia. by rewrite (proj2 (Z.ltb_lt (i - n) 32)) by lia.
Qed.

(** ** Little-endian bytes *)

Lemma length_le_bytes n x : length (le_bytes n x) = n.
Proof. revert x. induction n; simpl; auto. Qed.

Lemma le_bytes_bytes n x : Forall is_byte (le_bytes n x).
Proof. revert x. induction n; simpl; constructor; auto using u8_byte. Qed.

Lemma le_word_bytes n x : le_word (le_bytes n x) = x mod 2 ^ (8 * Z.of_nat n).
Proof.
  revert x. induction n as [|n IH]; intros x; cbn [le_bytes le_word].
  { by rewrite Z.mod_1_r. }
  rewrite IH. apply Z.bits_inj'. intros i Hi.
  rewrite Z.lor_spec, u8_bits, Z.shiftl_spec by lia.
  destruct (Z.ltb_spec i 8).
  - rewrite (Z.testbit_neg_r _ (i - 8)), orb_false_r by lia.
    rewrite Z.mod_pow2_bits_low by lia. done.
  - simpl. destruct (Z.ltb_spec i (8 * Z.of_nat (S n))).
    + rewrite !Z.mod_pow2_bits_low by lia.
      rewrite Z.shiftr_spec by lia. f_equal. lia.
    + rewrite !Z.mod_pow2_bits_high by lia. done.
Qed.

Lemma le_bytes_word bs :
  Forall is_byte bs -> le_bytes (length bs) (le_word bs) = bs.
Proof.
  induction 1 as [|b bs Hb _ IH]; [done|]. cbn [length le_bytes le_word]. f_equal.
  - apply Z.bits_inj'. intros i Hi.
    rewrite u8_bits, Z.lor_spec, Z.shiftl_spec by lia.
    rewrite <- (Z.mod_small b (2 ^ 8)) by done.
    destruct (Z.ltb_spec i 8).
    + rewrite (Z.testbit_neg_r _ (i - 8)) by lia. by rewrite orb_false_r.
    + by rewrite Z.mod_pow2_bits_high by lia.
  - etransitivity; [|exact IH]. f_equal. apply Z.bits_inj'. intros i Hi.
    rewrite Z.shiftr_spec, Z.lor_spec, Z.shiftl_spec by lia.
    rewrite <- (Z.mod_small b (2 ^ 8)) by done.
    rewrite Z.mod_pow2_bits_high by lia. simpl. f_equal. lia.
Qed.

Lemma le_bytes_u32 x : le_bytes 4 (u32 x) = le_bytes 4 x.
Proof.
  assert (Hu : forall k, 0 <= k <= 24 ->
    u8 (Z.shiftr (u32 x) k) = u8 (Z.shiftr x k)).
  { intros k Hk. apply Z.bits_inj'. intros i Hi.
    rewrite !u8_bits by lia. destruct (Z.ltb_spec i 8); [|done].
    rewrite !Z.shiftr_spec by lia. rewrite u32_bits by lia.
    by rewrite (proj2 (Z.ltb_lt (i + k) 32)) by lia. }
  cbn [le_bytes]. rewrite !Z.shiftr_shiftr by lia. cbn [Z.add Pos.add Pos.succ].
  rewrite !Hu by lia. pose proof (Hu 0) as H0. rewrite !Z.shiftr_0_r in H0.
  by rewrite H0 by lia.
Qed.

(** The four bytes stored by masking and shifting are the little-endian bytes. *)
Lemma land_ff x : Z.land x 0xFF = u8 x.
Proof. change 0xFF with (Z.ones 8). by apply Z.land_ones. Qed.

(** ** Checking a boolean statement on every byte *)

Lemma byte_forallb (P : Z -> bool) :
  forallb P (map Z.of_nat (seq 0 256)) = true -> forall b, is_byte b -> P b = true.
Proof.
  rewrite forallb_forall. intros HP b [Hb0 Hb1]. apply HP.
  rewrite <- (Z2Nat.id b) by done. apply in_map, in_seq. lia.
Qed.

Lemma byte_lxor x y : is_byte x -> is_byte y -> is_byte (Z.lxor x y).
Proof.
  intros Hx Hy. assert (Hxy : u8 (Z.lxor x y) = Z.lxor x y); [|rewrite <- Hxy; apply u8_byte].
  rewrite <- (Z.mod_small x (2 ^ 8)), <- (Z.mod_small y (2 ^ 8)) by done.
  apply Z.bits_inj'. intros i Hi. rewrite u8_bits, !Z.lxor_spec by lia.
  destruct (Z.ltb_spec i 8); [done|]. by rewrite !Z.mod_pow2_bits_high by lia.
Qed.

(** Exclusive or acts byte by byte. *)
Lemma le_word_lxor xs ys :
  Forall is_byte xs -> Forall is_byte ys -> length xs = length ys ->
  Z.lxor (le_word xs) (le_word ys) = le_word (zip_with Z.lxor xs ys).
Proof.
  intros Hxs. revert ys. induction Hxs as [|x xs Hx _ IH]; intros [|y ys] Hys Hl; try done.
  apply Forall_cons_iff in Hys as [Hy Hys]. injection Hl as Hl.
  cbn [le_word zip_with]. rewrite <- IH by done.
  rewrite Z.shiftl_lxor. apply Z.bits_inj'. intros i Hi.
  rewrite Z.lxor_spec, !Z.lor_spec, !Z.lxor_spec.
  destruct (Z.ltb_spec i 8).
  - rewrite !Z.shiftl_spec_low by lia. rewrite !orb_false_r. done.
  - assert (Hhigh : forall z, is_byte z -> Z.testbit z i = false).
    { intros z Hz. rewrite <- (Z.mod_small z (2 ^ 8)) by done.
      by rewrite Z.mod_pow2_bits_high by lia. }
    by rewrite (Hhigh x Hx), (Hhigh y Hy).
Qed.

Lemma le_bytes_lxor xs ys :
  Forall is_byte xs -> Forall is_byte ys -> length xs = length ys ->
  le_bytes (length xs) (Z.lxor (le_word xs) (le_word ys)) = zip_with Z.lxor xs ys.
Proof.
  intros Hxs Hys Hl. rewrite le_word_lxor by done.
  assert (Hz : length xs = length (zip_with Z.lxor xs ys))
    by (rewrite length_zip_with; lia).
  rewrite Hz. apply le_bytes_word.
  eapply Forall_zip_with_fst with (P := is_byte); [done|].
  eapply Forall_impl; [done|]. intros y Hy x Hx. by apply byte_lxor.
Qed.
