(* ===== verification/Md5Spec.v ===== *)
(** * The MD5 algorithm of RFC 1321

    A reference definition, written from the RFC and not from the code: 32-bit
    words, the four rounds as one loop over 64 steps with computed message indices,
    and the sine-derived table computed in fixed point.  [Md5.v] models the
    repository's implementation, [Md5Correct.v] relates the two. *)
From Stdlib Require Import ZArith Lia.
From stdpp Require Import base tactics numbers list.
From S2P Require Import Prelude Words.

Local Open Scope Z_scope.

(** ** The sine table: T[i] = floor (2^32 * |sin i|), i in radians *)

(** Fixed point with 128 fractional bits. *)
Definition fx_one : Z := 2 ^ 128.

(** Sum of [n] terms of the Taylor series at 1 whose current term is [t]; the next
    term divides by [-(k+1)(k+2)]. *)
Fixpoint fx_taylor (n : nat) (k t : Z) : Z :=
  match n with
  | O => 0
  | S n' => t + fx_taylor n' (k + 2) (- (t / ((k + 1) * (k + 2))))
  end.

Definition fx_sin1 : Z := Eval vm_compute in fx_taylor 20 1 fx_one.
Definition fx_cos1 : Z := Eval vm_compute in fx_taylor 20 0 fx_one.

(** [fx_sincos n] is (sin n, cos n), by the angle-addition formulas. *)
Fixpoint fx_sincos (n : nat) : Z * Z :=
  match n with
  | O => (0, fx_one)
  | S n' =>
      let '(s, c) := fx_sincos n' in
      ((s * fx_cos1 + c * fx_sin1) / fx_one, (c * fx_cos1 - s * fx_sin1) / fx_one)
  end.

(** The entry for the step numbered [i] from 0, and the table evaluated once. *)
Definition sine_entry (i : nat) : Z := Z.abs (fst (fx_sincos (S i))) / 2 ^ 96.
Definition rfc_table : list Z := Eval vm_compute in map sine_entry (seq 0 64).
Definition rfc_T (i : nat) : Z := nth i rfc_table 0.

(** ** The compression function *)

Definition rfc_F (x y z : Z) : Z := Z.lor (Z.land x y) (Z.land (Z.lnot x) z).
Definition rfc_G (x y z : Z) : Z := Z.lor (Z.land x z) (Z.land y (Z.lnot z)).
Definition rfc_H (x y z : Z) : Z := Z.lxor (Z.lxor x y) z.
Definition rfc_I (x y z : Z) : Z := Z.lxor y (Z.lor x (Z.lnot z)).

Definition rfc_fun (round : nat) : Z -> Z -> Z -> Z :=
  match round with
  | 0%nat => rfc_F | 1%nat => rfc_G | 2%nat => rfc_H | _ => rfc_I
  end.

(** Index of the message word used by step [i]. *)
Definition rfc_index (i : nat) : nat :=
  match (i / 16)%nat with
  | 0%nat => i mod 16
  | 1%nat => (5 * i + 1) mod 16
  | 2%nat => (3 * i + 5) mod 16
  | _ => (7 * i) mod 16
  end.

(** Rotation used by step [i]. *)
Definition rfc_shift (i : nat) : Z :=
  nth (i mod 4)
    (match (i / 16)%nat with
     | 0%nat => [7; 12; 17; 22]
     | 1%nat => [5; 9; 14; 20]
     | 2%nat => [4; 11; 16; 23]
     | _ => [6; 10; 15; 21]
     end) 0.

Definition regs : Type := Z * Z * Z * Z.

Definition rfc_init : regs := (0x67452301, 0xEFCDAB89, 0x98BADCFE, 0x10325476).

Definition rfc_step (M : nat -> Z) (r : regs) (i : nat) : regs :=
  let '(a, b, c, d) := r in
  let f := rfc_fun (i / 16) b c d in
  (d, u32 (b + rotl32 (u32 (a + f + M (rfc_index i) + rfc_T i)) (rfc_shift i)), b, c).

(** The sixteen little-endian words of a 64-byte block. *)
Definition block_word (block : list Z) (k : nat) : Z :=
  le_word (take 4 (drop (4 * k) block)).

Definition rfc_compress (r : regs) (block : list Z) : regs :=
  let '(a, b, c, d) := r in
  let '(a', b', c', d') := foldl (rfc_step (block_word block)) r (seq 0 64) in
  (u32 (a + a'), u32 (b + b'), u32 (c + c'), u32 (d + d')).

(** ** Padding and the whole digest *)

(** Zero bytes that follow the 0x80 so that the length is 56 modulo 64. *)
Definition rfc_zeros (len : nat) : nat := ((119 - len mod 64) mod 64)%nat.

Definition rfc_pad (msg : list Z) : list Z :=
  msg ++ [0x80] ++ replicate (rfc_zeros (length msg)) 0
      ++ le_bytes 8 (8 * Z.of_nat (length msg)).

(** Consecutive 64-byte blocks; a shorter rest is dropped. *)
Fixpoint chunks (n : nat) (l : list Z) : list (list Z) :=
  match n with
  | O => []
  | S n' => take 64 l :: chunks n' (drop 64 l)
  end.
Definition blocks (l : list Z) : list (list Z) := chunks (length l / 64) l.

Definition rfc_digest_bytes (r : regs) : list Z :=
  let '(a, b, c, d) := r in
  le_bytes 4 a ++ le_bytes 4 b ++ le_bytes 4 c ++ le_bytes 4 d.

Definition rfc_md5 (msg : list Z) : list Z :=
  rfc_digest_bytes (foldl rfc_compress rfc_init (blocks (rfc_pad msg))).

(** ** Facts about the block decomposition *)

Lemma chunks_app n m l1 l2 :
  length l1 = (64 * n)%nat -> chunks (n + m) (l1 ++ l2) = chunks n l1 ++ chunks m l2.
Proof.
  revert l1. induction n as [|n IH]; intros l1 Hl.
  - by destruct l1.
  - simpl. rewrite take_app_le, drop_app_le by lia. f_equal.
    apply IH. rewrite length_drop. lia.
Qed.

Lemma blocks_app l1 l2 k :
  length l1 = (64 * k)%nat -> blocks (l1 ++ l2) = blocks l1 ++ blocks l2.
Proof.
  intros Hl. unfold blocks. rewrite length_app, Hl.
  replace (64 * k + length l2)%nat with (k * 64 + length l2)%nat by lia.
  rewrite Nat.div_add_l by lia.
  replace (64 * k)%nat with (k * 64)%nat by lia.
  rewrite Nat.div_mul by lia. apply chunks_app. lia.
Qed.

Lemma blocks_one l : length l = 64%nat -> blocks l = [l].
Proof.
  intros Hl. unfold blocks. rewrite Hl. simpl. by rewrite take_ge by lia.
Qed.

Lemma blocks_short l : (length l < 64)%nat -> blocks l = [].
Proof. intros Hl. unfold blocks. by rewrite Nat.div_small by done. Qed.

(** The padded message is a whole number of blocks. *)
Lemma length_rfc_pad msg : (length (rfc_pad msg) mod 64 = 0)%nat.
Proof.
  unfold rfc_pad, rfc_zeros. rewrite !length_app, length_replicate, length_le_bytes.
  simpl length. set (n := length msg).
  pose proof (Nat.mod_upper_bound n 64 ltac:(lia)) as Hr.
  rewrite (Nat.div_mod_eq n 64) at 1. set (q := (n / 64)%nat). set (r := (n mod 64)%nat) in *.
  destruct (decide (r < 56)%nat).
  - replace ((119 - r) mod 64)%nat with (55 - r)%nat.
    2: { replace (119 - r)%nat with (55 - r + 1 * 64)%nat by lia.
         rewrite Nat.Div0.mod_add. by rewrite Nat.mod_small by lia. }
    replace (64 * q + r + (1 + (55 - r + 8)))%nat with ((q + 1) * 64)%nat by lia.
    apply Nat.Div0.mod_mul.
  - rewrite (Nat.mod_small (119 - r)) by lia.
    replace (64 * q + r + (1 + (119 - r + 8)))%nat with ((q + 2) * 64)%nat by lia.
    apply Nat.Div0.mod_mul.
Qed.

(** ** The test suite of RFC 1321, appendix A.5 *)

Definition bytes_of_word128 (x : Z) : list Z := rev (le_bytes 16 x).

Example rfc_md5_empty : rfc_md5 [] = bytes_of_word128 0xd41d8cd98f00b204e9800998ecf8427e.
Proof. vm_compute. reflexivity. Qed.

Example rfc_md5_abc :
  rfc_md5 [0x61; 0x62; 0x63] = bytes_of_word128 0x900150983cd24fb0d6963f7d28e17f72.
Proof. vm_compute. reflexivity. Qed.
