(* ===== verification/Md5.v ===== *)
(** * The MD5 implementation ([GRPC/src/Md5.h], [GRPC/src/Md5.cc])

    The C++ code keeps its words in [unsigned long int] ([#define uint32]), 64 bits
    wide here, and never masks them between steps.  Words are [Z] with the 64-bit
    wrap-around written out, memory areas are lists of byte values, and storage
    the code leaves uninitialised is an argument.  Correctness is in
    [Md5Correct.v]. *)
From Stdlib Require Import ZArith Lia.
From stdpp Require Import base tactics numbers strings list.
From S2P Require Import Prelude Words.

Local Open Scope Z_scope.

(** ** Memory helpers *)

(** [b[i]] of a byte array. *)
Definition byte_at (b : list Z) (i : nat) : Z := nth i b 0.

(** [memcpy (dst + off, src, length src)]. *)
Definition memcpy (dst : list Z) (off : nat) (src : list Z) : list Z :=
  take off dst ++ src ++ drop (off + length src) dst.

(** [GET_UINT32]. *)
Definition GET_UINT32 (b : list Z) (i : nat) : Z :=
  Z.lor (Z.lor (Z.lor (byte_at b i)
    (Z.shiftl (byte_at b (i + 1)) 8))
    (Z.shiftl (byte_at b (i + 2)) 16))
    (Z.shiftl (byte_at b (i + 3)) 24).

(** [PUT_UINT32]. *)
Definition PUT_UINT32 (n : Z) (b : list Z) (i : nat) : list Z :=
  memcpy b i
    [Z.land n 0xFF; Z.land (Z.shiftr n 8) 0xFF;
     Z.land (Z.shiftr n 16) 0xFF; Z.land (Z.shiftr n 24) 0xFF].

(** ** The context *)

(** [struct md5_context]: [total[0]], [total[1]], [state[0..3]], [buffer[64]]. *)
Record md5_context := Md5Context {
  total0 : Z;
  total1 : Z;
  state : Z * Z * Z * Z;
  buffer : list Z;
}.

Definition md5_starts (ctx : md5_context) : md5_context :=
  {| total0 := 0; total1 := 0;
     state := (0x67452301, 0xEFCDAB89, 0x98BADCFE, 0x10325476);
     buffer := buffer ctx |}.

(** ** [md5_process] *)

(** [#define S(x,n)] *)
Definition macro_S (x n : Z) : Z :=
  Z.lor (u64 (Z.shiftl x n)) (Z.shiftr (Z.land x 0xFFFFFFFF) (32 - n)).

(** The four definitions of [F], in order. *)
Definition macro_F1 (x y z : Z) : Z := Z.lxor z (Z.land x (Z.lxor y z)).
Definition macro_F2 (x y z : Z) : Z := Z.lxor y (Z.land z (Z.lxor x y)).
Definition macro_F3 (x y z : Z) : Z := Z.lxor (Z.lxor x y) z.
Definition macro_F4 (x y z : Z) : Z := Z.lxor y (Z.lor x (not64 z)).

(** The order in which a use of [P] passes the variables [A], [B], [C], [D]. *)
Inductive role := ABCD | DABC | CDAB | BCDA.

Definition view (r : role) (v : Z * Z * Z * Z) : Z * Z * Z * Z :=
  let '(A, B, C, D) := v in
  match r with
  | ABCD => (A, B, C, D)
  | DABC => (D, A, B, C)
  | CDAB => (C, D, A, B)
  | BCDA => (B, C, D, A)
  end.

Definition unview (r : role) (v : Z * Z * Z * Z) : Z * Z * Z * Z :=
  let '(a, b, c, d) := v in
  match r with
  | ABCD => (a, b, c, d)
  | DABC => (b, c, d, a)
  | CDAB => (c, d, a, b)
  | BCDA => (d, a, b, c)
  end.

(** [#define P(a,b,c,d,k,s,t)]: [a += F(b,c,d) + X[k] + t; a = S(a,s) + b;] *)
Definition macro_P (F : Z -> Z -> Z -> Z) (X : list Z)
    (v : Z * Z * Z * Z) (p : role * nat * Z * Z) : Z * Z * Z * Z :=
  let '(r, k, s, t) := p in
  let '(a, b, c, d) := view r v in
  let a1 := u64 (a + u64 (u64 (F b c d + nth k X 0) + t)) in
  let a2 := u64 (macro_S a1 s + b) in
  unview r (a2, b, c, d).

(** The uses of [P], round by round. *)
Definition round1 : list (role * nat * Z * Z) :=
  [
   (ABCD, 0%nat, 7, 0xD76AA478);
   (DABC, 1%nat, 12, 0xE8C7B756);
   (CDAB, 2%nat, 17, 0x242070DB);
   (BCDA, 3%nat, 22, 0xC1BDCEEE);
   (ABCD, 4%nat, 7, 0xF57C0FAF);
   (DABC, 5%nat, 12, 0x4787C62A);
   (CDAB, 6%nat, 17, 0xA8304613);
   (BCDA, 7%nat, 22, 0xFD469501);
   (ABCD, 8%nat, 7, 0x698098D8);
   (DABC, 9%nat, 12, 0x8B44F7AF);
   (CDAB, 10%nat, 17, 0xFFFF5BB1);
   (BCDA, 11%nat, 22, 0x895CD7BE);
   (ABCD, 12%nat, 7, 0x6B901122);
   (DABC, 13%nat, 12, 0xFD987193);
   (CDAB, 14%nat, 17, 0xA679438E);
   (BCDA, 15%nat, 22, 0x49B40821)
  ].

Definition round2 : list (role * nat * Z * Z) :=
  [
   (ABCD, 1%nat, 5, 0xF61E2562);
   (DABC, 6%nat, 9, 0xC040B340);
   (CDAB, 11%nat, 14, 0x265E5A51);
   (BCDA, 0%nat, 20, 0xE9B6C7AA);
   (ABCD, 5%nat, 5, 0xD62F105D);
   (DABC, 10%nat, 9, 0x02441453);
   (CDAB, 15%nat, 14, 0xD8A1E681);
   (BCDA, 4%nat, 20, 0xE7D3FBC8);
   (ABCD, 9%nat, 5, 0x21E1CDE6);
   (DABC, 14%nat, 9, 0xC33707D6);
   (CDAB, 3%nat, 14, 0xF4D50D87);
   (BCDA, 8%nat, 20, 0x455A14ED);
   (ABCD, 13%nat, 5, 0xA9E3E905);
   (DABC, 2%nat, 9, 0xFCEFA3F8);
   (CDAB, 7%nat, 14, 0x676F02D9);
   (BCDA, 12%nat, 20, 0x8D2A4C8A)
  ].

Definition round3 : list (role * nat * Z * Z) :=
  [
   (ABCD, 5%nat, 4, 0xFFFA3942);
   (DABC, 8%nat, 11, 0x8771F681);
   (CDAB, 11%nat, 16, 0x6D9D6122);
   (BCDA, 14%nat, 23, 0xFDE5380C);
   (ABCD, 1%nat, 4, 0xA4BEEA44);
   (DABC, 4%nat, 11, 0x4BDECFA9);
   (CDAB, 7%nat, 16, 0xF6BB4B60);
   (BCDA, 10%nat, 23, 0xBEBFBC70);
   (ABCD, 13%nat, 4, 0x289B7EC6);
   (DABC, 0%nat, 11, 0xEAA127FA);
   (CDAB, 3%nat, 16, 0xD4EF3085);
   (BCDA, 6%nat, 23, 0x04881D05);
   (ABCD, 9%nat, 4, 0xD9D4D039);
   (DABC, 12%nat, 11, 0xE6DB99E5);
   (CDAB, 15%nat, 16, 0x1FA27CF8);
   (BCDA, 2%nat, 23, 0xC4AC5665)
  ].

Definition round4 : list (role * nat * Z * Z) :=
  [
   (ABCD, 0%nat, 6, 0xF4292244);
   (DABC, 7%nat, 10, 0x432AFF97);
   (CDAB, 14%nat, 15, 0xAB9423A7);
   (BCDA, 5%nat, 21, 0xFC93A039);
   (ABCD, 12%nat, 6, 0x655B59C3);
   (DABC, 3%nat, 10, 0x8F0CCC92);
   (CDAB, 10%nat, 15, 0xFFEFF47D);
   (BCDA, 1%nat, 21, 0x85845DD1);
   (ABCD, 8%nat, 6, 0x6FA87E4F);
   (DABC, 15%nat, 10, 0xFE2CE6E0);
   (CDAB, 6%nat, 15, 0xA3014314);
   (BCDA, 13%nat, 21, 0x4E0811A1);
   (ABCD, 4%nat, 6, 0xF7537E82);
   (DABC, 11%nat, 10, 0xBD3AF235);
   (CDAB, 2%nat, 15, 0x2AD7D2BB);
   (BCDA, 9%nat, 21, 0xEB86D391)
  ].

(** The message words [X[0]] to [X[15]]. *)
Definition load_X (data : list Z) : list Z :=
  map (GET_UINT32 data)
    [0; 4; 8; 12; 16; 20; 24; 28; 32; 36; 40; 44; 48; 52; 56; 60]%nat.

Definition md5_process (ctx : md5_context) (data : list Z) : md5_context :=
  let X := load_X data in
  let v1 := foldl (macro_P macro_F1 X) (state ctx) round1 in
  let v2 := foldl (macro_P macro_F2 X) v1 round2 in
  let v3 := foldl (macro_P macro_F3 X) v2 round3 in
  let '(A, B, C, D) := foldl (macro_P macro_F4 X) v3 round4 in
  let '(s0, s1, s2, s3) := state ctx in
  {| total0 := total0 ctx; total1 := total1 ctx;
     state := (u64 (s0 + A), u64 (s1 + B), u64 (s2 + C), u64 (s3 + D));
     buffer := buffer ctx |}.

(** ** [md5_update] *)

(** [while( length >= 64 )], at most [n] turns. *)
Fixpoint update_loop (n : nat) (ctx : md5_context) (input : list Z) (len : Z)
    : md5_context * list Z * Z :=
  match n with
  | O => (ctx, input, len)
  | S n' =>
      if 64 <=? len
      then update_loop n' (md5_process ctx input) (drop 64 input) (len - 64)
      else (ctx, input, len)
  end.

(** The turns the loop needs for [len] remaining bytes, the failing test included. *)
Definition update_fuel (len : Z) : nat := S (Z.to_nat (len / 64)).

Definition with_buffer (ctx : md5_context) (b : list Z) : md5_context :=
  {| total0 := total0 ctx; total1 := total1 ctx; state := state ctx; buffer := b |}.

(** The new values of [total[0]] and [total[1]]. *)
Definition update_totals (ctx : md5_context) (len : Z) : Z * Z :=
  let t0 := u64 (total0 ctx + u64 (Z.shiftl len 3)) in
  let t1 := u64 (total1 ctx + Z.shiftr len 29) in
  let t0 := Z.land t0 0xFFFFFFFF in
  (t0, u64 (t1 + (if t0 <? u64 (Z.shiftl len 3) then 1 else 0))).

Definition md5_update (ctx : md5_context) (input : list Z) (len : Z) : md5_context :=
  if len =? 0 then ctx else
  let left_ := Z.land (Z.shiftr (total0 ctx) 3) 0x3F in
  let fill := u64 (64 - left_) in
  let '(t0, t1) := update_totals ctx len in
  let ctx := {| total0 := t0; total1 := t1; state := state ctx; buffer := buffer ctx |} in
  let '(ctx, input, len, left_) :=
    if negb (left_ =? 0) && (fill <=? len) then
      let b := memcpy (buffer ctx) (Z.to_nat left_) (take (Z.to_nat fill) input) in
      (md5_process (with_buffer ctx b) b, drop (Z.to_nat fill) input, len - fill, 0)
    else (ctx, input, len, left_) in
  let '(ctx, input, len) := update_loop (update_fuel len) ctx input len in
  if negb (len =? 0)
  then with_buffer ctx (memcpy (buffer ctx) (Z.to_nat left_) (take (Z.to_nat len) input))
  else ctx.

(** ** [md5_finish] *)

Definition md5_padding : list Z := 0x80 :: replicate 63 0.

(** Returns the 16 bytes stored in [digest]; [msglen] starts uninitialised. *)
Definition md5_finish (ctx : md5_context) (msglen digest : list Z) : list Z :=
  let msglen := PUT_UINT32 (total0 ctx) msglen 0 in
  let msglen := PUT_UINT32 (total1 ctx) msglen 4 in
  let last := Z.land (Z.shiftr (total0 ctx) 3) 0x3F in
  let padn := if last <? 56 then 56 - last else 120 - last in
  let ctx := md5_update ctx md5_padding padn in
  let ctx := md5_update ctx msglen 8 in
  let '(s0, s1, s2, s3) := state ctx in
  let digest := PUT_UINT32 s0 digest 0 in
  let digest := PUT_UINT32 s1 digest 4 in
  let digest := PUT_UINT32 s2 digest 8 in
  PUT_UINT32 s3 digest 12.

(** ** The class [MD5] *)

(** [m_data], four [unsigned long]s, as the 32 bytes of its object representation
    (little-endian). *)
Record MD5 := { m_data : list Z }.

(** Word [i] of [m_data]. *)
Definition m_word (m : MD5) (i : nat) : Z := le_word (take 8 (drop (8 * i) (m_data m))).

(** [GenerateMD5]: [junk] is the uninitialised [context.buffer], [junk8] the
    uninitialised [msglen]; the [int] length is converted to [uint32]. *)
Definition GenerateMD5 (self : MD5) (buf : list Z) (bufferlen : Z)
    (junk junk8 : list Z) : MD5 :=
  let context := {| total0 := 0; total1 := 0; state := (0, 0, 0, 0); buffer := junk |} in
  let context := md5_starts context in
  let context := md5_update context buf (u64 bufferlen) in
  {| m_data := md5_finish context junk8 (m_data self) |}.

(** [MD5::MD5()] *)
Definition MD5_new : MD5 := {| m_data := mjoin (map (fun _ => le_bytes 8 0) (seq 0 4)) |}.

(** [MD5::MD5(unsigned long* md5src)]: 16 bytes are copied, the other 16 stay as
    the storage held them. *)
Definition MD5_of_words (src : list Z) (junk : list Z) : MD5 :=
  {| m_data := memcpy junk 0 (take 16 src) |}.

(** [MD5::operator +]: the words are combined by exclusive or. *)
Definition MD5_add (self adder : MD5) (junk : list Z) : MD5 :=
  let m_newdata :=
    mjoin (map (fun i => le_bytes 8 (Z.lxor (m_word self i) (m_word adder i))) (seq 0 4)) in
  MD5_of_words m_newdata junk.

(** [MD5::operator ==]: [memcmp] of 16 bytes. *)
Definition MD5_eqb (self cmper : MD5) : bool :=
  bool_decide (take 16 (m_data cmper) = take 16 (m_data self)).

(** *** [ToString] *)

(** One digit of [%x]. *)
Definition hex_digit (v : Z) : Z := if v <? 10 then 48 + v else 87 + v.

(** [sprintf("%02x")] of a byte. *)
Definition hex_byte (b : Z) : list Z := [hex_digit (b / 16); hex_digit (b mod 16)].

(** The characters of the returned string. *)
Definition MD5_ToString (self : MD5) : list Z :=
  mjoin (map (fun j => hex_byte (byte_at (m_data self) j)) (seq 0 16)).

(** *** Parsing: [_httoi] and [MD5::MD5(const char* )] *)

(** [HexMap]: characters and values. *)
Definition HexMap : list (Z * Z) :=
  [(48, 0); (49, 1); (50, 2); (51, 3); (52, 4); (53, 5); (54, 6); (55, 7);
   (56, 8); (57, 9); (97, 10); (98, 11); (99, 12); (100, 13); (101, 14); (102, 15)].

Fixpoint HexMap_find (c : Z) (l : list (Z * Z)) : option Z :=
  match l with
  | [] => None
  | (chr, value) :: l' => if c =? chr then Some value else HexMap_find c l'
  end.

(** The value of the multi-character constant ['/0'] the loop compares with. *)
Definition slash_zero : Z := 47 * 256 + 48.

(** The [while] loop over the copied characters, the terminating NUL included.
    [None]: the loop reads past the end of the copy. *)
Fixpoint httoi_loop (s : list Z) (result : Z) (firsttime : bool) : option Z :=
  match s with
  | [] => None
  | c :: s' =>
      if c =? slash_zero then Some result else
      match HexMap_find c HexMap with
      | Some v =>
          let result := if firsttime then result else i32 (Z.shiftl result 4) in
          httoi_loop s' (Z.lor result v) false
      | None => Some result
      end
  end.

(** [strdup]: the bytes up to and including the first NUL, [None] when the memory
    at hand holds none. *)
Fixpoint strdup (mem : list Z) : option (list Z) :=
  match mem with
  | [] => None
  | c :: mem' => if c =? 0 then Some [0] else cons c <$> strdup mem'
  end.

Definition _httoi (value : list Z) : option Z :=
  mstr ← strdup value;
  let s := match mstr with
           | c0 :: c1 :: s' => if (c0 =? 48) && (c1 =? 88) then s' else mstr
           | _ => mstr
           end in
  httoi_loop s 0 true.

(** [strncpy(buf, src, 2)]: the two bytes it stores. *)
Definition strncpy2 (src : list Z) : option (Z * Z) :=
  match src with
  | [] => None
  | c0 :: src' =>
      if c0 =? 0 then Some (0, 0) else
      match src' with [] => None | c1 :: _ => Some (c0, c1) end
  end.

(** The loop over the remaining [n] bytes of the digest; [junk] is the part of
    [buf[10]] that [strncpy] does not write. *)
Fixpoint MD5_parse_loop (n : nat) (src junk : list Z) : option (list Z) :=
  match n with
  | O => Some []
  | S n' =>
      '(c0, c1) ← strncpy2 src;
      v ← _httoi (c0 :: c1 :: junk);
      cons (u8 v) <$> MD5_parse_loop n' (drop 2 src) junk
  end.

(** [MD5::MD5(const char* md5src)] on the memory [src]; [junk] is as above and
    [obj] the uninitialised object.  [None]: a read outside the memory. *)
Definition MD5_of_string (src junk obj : list Z) : option MD5 :=
  c ← head src;
  if c =? 0 then Some MD5_new else
  bs ← MD5_parse_loop 16 src junk;
  Some {| m_data := memcpy obj 0 bs |}.
