(* ===== verification/Md5Correct.v ===== *)
(** * Correctness of the MD5 implementation

    [md5_process] computes the RFC's compression function in the low 32 bits of its
    64-bit words; [md5_update] absorbs messages in pieces of any size;
    [md5_finish] pads and prints; [GenerateMD5] is the RFC digest for every message
    shorter than 2^29 bytes, and the hexadecimal form round-trips. *)
From Stdlib Require Import ZArith Lia Setoid Morphisms.
From stdpp Require Import base tactics numbers list.
From S2P Require Import Prelude Words Md5Spec Md5.

Local Open Scope Z_scope.

(** ** Vocabulary *)

(** Registers that agree in their low 32 bits. *)
Definition regs_eqm (v w : Z * Z * Z * Z) : Prop :=
  let '(a, b, c, d) := v in
  let '(a', b', c', d') := w in
  a =32= a' /\ b =32= b' /\ c =32= c' /\ d =32= d'.

(** The role that follows each role: four uses of [P] rotate the variables once. *)
Definition next_role (r : role) : role :=
  match r with ABCD => DABC | DABC => CDAB | CDAB => BCDA | BCDA => ABCD end.

Definition role_of (i : nat) : role :=
  match (i mod 4)%nat with 0%nat => ABCD | 1%nat => DABC | 2%nat => CDAB | _ => BCDA end.

(** The [F] in force in each round of the code. *)
Definition code_fun (round : nat) : Z -> Z -> Z -> Z :=
  match round with
  | 0%nat => macro_F1 | 1%nat => macro_F2 | 2%nat => macro_F3 | _ => macro_F4
  end.

(** The 64 uses of [P] in the order of the code. *)
Definition all_uses : list (role * nat * Z * Z) := round1 ++ round2 ++ round3 ++ round4.

(** The use of [P] the RFC asks for at step [i]. *)
Definition rfc_use (i : nat) : role * nat * Z * Z :=
  (role_of i, rfc_index i, rfc_shift i, rfc_T i).

(** A context that has absorbed [msg]. *)
Record absorbs (ctx : md5_context) (msg : list Z) : Prop := Absorbs {
  abs_total0 : total0 ctx = u32 (8 * Z.of_nat (length msg));
  abs_total1 : total1 ctx = 8 * Z.of_nat (length msg) / 2 ^ 32;
  abs_state : regs_eqm (state ctx) (foldl rfc_compress rfc_init (blocks msg));
  abs_length : length (buffer ctx) = 64%nat;
  abs_buffer : take (length msg mod 64) (buffer ctx) = drop (64 * (length msg / 64)) msg;
}.

(** ** The boolean functions *)

Lemma macro_F1_spec x y z : macro_F1 x y z = rfc_F x y z.
Proof.
  apply Z.bits_inj'. intros i Hi. unfold macro_F1, rfc_F.
  rewrite !Z.lxor_spec, !Z.lor_spec, !Z.land_spec, !Z.lxor_spec, Z.lnot_spec by lia.
  by destruct (Z.testbit x i), (Z.testbit y i), (Z.testbit z i).
Qed.

Lemma macro_F2_spec x y z : macro_F2 x y z = rfc_G x y z.
Proof.
  apply Z.bits_inj'. intros i Hi. unfold macro_F2, rfc_G.
  rewrite !Z.lxor_spec, !Z.lor_spec, !Z.land_spec, !Z.lxor_spec, Z.lnot_spec by lia.
  by destruct (Z.testbit x i), (Z.testbit y i), (Z.testbit z i).
Qed.

Lemma macro_F4_spec x y z : macro_F4 x y z =32= rfc_I x y z.
Proof. unfold macro_F4, rfc_I. by rewrite eqm32_not64. Qed.

#[export] Instance rfc_fun_proper round :
  Proper (eqm32 ==> eqm32 ==> eqm32 ==> eqm32) (rfc_fun round).
Proof.
  intros x x' Hx y y' Hy z z' Hz.
  destruct round as [|[|[|]]]; simpl; unfold rfc_F, rfc_G, rfc_H, rfc_I;
    by rewrite Hx, Hy, Hz.
Qed.

Lemma code_fun_spec round x y z : code_fun round x y z =32= rfc_fun round x y z.
Proof.
  destruct round as [|[|[|]]]; simpl.
  - by rewrite macro_F1_spec.
  - by rewrite macro_F2_spec.
  - done.
  - apply macro_F4_spec.
Qed.

(** ** One step *)

(** The table of the code is the RFC's schedule. *)
Lemma all_uses_spec : all_uses = map rfc_use (seq 0 64).
Proof. vm_compute. reflexivity. Qed.

Lemma rfc_shift_range i : (i < 64)%nat -> 0 < rfc_shift i < 32.
Proof.
  intros Hi.
  assert (Hall : forallb (fun j => (0 <? rfc_shift j) && (rfc_shift j <? 32)) (seq 0 64) = true)
    by (vm_compute; reflexivity).
  rewrite forallb_forall in Hall. specialize (Hall i).
  rewrite andb_true_iff, !Z.ltb_lt in Hall. apply Hall. apply in_seq. lia.
Qed.

Lemma rfc_index_range i : (rfc_index i < 16)%nat.
Proof. unfold rfc_index. repeat case_match; apply Nat.mod_upper_bound; lia. Qed.

Lemma role_of_next i : role_of (S i) = next_role (role_of i).
Proof.
  unfold role_of. pose proof (Nat.mod_upper_bound i 4 ltac:(lia)).
  rewrite <- Nat.add_1_r, <- Nat.Div0.add_mod_idemp_l.
  by destruct (i mod 4)%nat as [|[|[|[|]]]]; [..|lia].
Qed.

Lemma view_unview r v : view r (unview r v) = v.
Proof. by destruct v as [[[]]], r. Qed.

(** The value assigned to the first variable of [P]. *)
Lemma macro_P_value F X v r k s t :
  macro_P F X v (r, k, s, t) =
  let '(a, b, c, d) := view r v in
  let a1 := u64 (a + u64 (u64 (F b c d + nth k X 0) + t)) in
  unview r (u64 (macro_S a1 s + b), b, c, d).
Proof. done. Qed.

Lemma view_next_unview r a b c d : view (next_role r) (unview r (a, b, c, d)) = (d, a, b, c).
Proof. by destruct r. Qed.

Lemma macro_S_spec x n : 0 < n < 32 -> macro_S x n =32= rotl32 (u32 x) n.
Proof. apply rotl_64_32. Qed.

Lemma step_eqm X M i v w :
  (i < 64)%nat ->
  (forall k, (k < 16)%nat -> nth k X 0 = M k) ->
  regs_eqm (view (role_of i) v) w ->
  regs_eqm (view (role_of (S i)) (macro_P (code_fun (i / 16)) X v (rfc_use i)))
           (rfc_step M w i).
Proof.
  intros Hi HX Hvw. unfold rfc_use. rewrite macro_P_value, role_of_next.
  destruct (view (role_of i) v) as [[[a b] c] d]. destruct w as [[[a' b'] c'] d'].
  destruct Hvw as (Ha & Hb & Hc & Hd). rewrite view_next_unview. unfold rfc_step.
  split_and!; [done| |done|done].
  rewrite HX by apply rfc_index_range.
  set (x := u64 (a + _)). set (y := a' + _ + _ + _).
  assert (Hxy : x =32= y).
  { unfold x, y. rewrite !eqm32_u64_l, code_fun_spec, Ha, Hb, Hc, Hd.
    by rewrite !Z.add_assoc. }
  rewrite eqm32_u64_l, (eqm32_u32_l (b' + _)), macro_S_spec by (by apply rfc_shift_range).
  assert (u32 x = u32 y) as -> by (by rewrite Hxy).
  by rewrite Hb, Z.add_comm.
Qed.

(** ** The block function *)

Definition code_step (X : list Z) (v : Z * Z * Z * Z) (i : nat) : Z * Z * Z * Z :=
  macro_P (code_fun (i / 16)) X v (rfc_use i).

Lemma round_steps q X v :
  foldl (macro_P (code_fun q) X) v (map rfc_use (seq (16 * q) 16)) =
  foldl (code_step X) v (seq (16 * q) 16).
Proof.
  rewrite foldl_map. apply foldl_ext_in. intros w i Hi%in_seq. unfold code_step.
  by replace (i / 16)%nat with q by (apply Nat.div_unique with (i - 16 * q)%nat; lia).
Qed.

(** The four rounds of the code are one run over the 64 steps. *)
Lemma rounds_steps X v :
  foldl (macro_P macro_F4 X)
    (foldl (macro_P macro_F3 X)
      (foldl (macro_P macro_F2 X) (foldl (macro_P macro_F1 X) v round1) round2) round3) round4 =
  foldl (code_step X) v (seq 0 64).
Proof.
  change 64%nat with (16 + (16 + (16 + 16)))%nat.
  rewrite !seq_app, !foldl_app. simpl Nat.add.
  rewrite <- (round_steps 0), <- (round_steps 1), <- (round_steps 2), <- (round_steps 3).
  do 4 f_equal; vm_compute; reflexivity.
Qed.

Lemma steps_eqm X M n v w :
  (n <= 64)%nat ->
  (forall k, (k < 16)%nat -> nth k X 0 = M k) ->
  regs_eqm v w ->
  regs_eqm (view (role_of n) (foldl (code_step X) v (seq 0 n)))
           (foldl (rfc_step M) w (seq 0 n)).
Proof.
  intros Hn HX Hvw. induction n as [|n IH].
  - by destruct v as [[[]]].
  - rewrite seq_S, !foldl_app. simpl. apply step_eqm; [lia|done|]. apply IH. lia.
Qed.

Lemma byte_at_drop i k l : byte_at (drop i l) k = byte_at l (i + k).
Proof.
  unfold byte_at. revert i. induction l as [|x l IH]; intros [|i]; simpl; try done.
  by destruct k.
Qed.

Lemma GET_UINT32_le data i :
  (i + 4 <= length data)%nat -> GET_UINT32 data i = le_word (take 4 (drop i data)).
Proof.
  intros Hi. unfold GET_UINT32.
  replace (byte_at data i) with (byte_at (drop i data) 0) by (rewrite byte_at_drop; f_equal; lia).
  rewrite <- !byte_at_drop.
  assert (Hl : (4 <= length (drop i data))%nat) by (rewrite length_drop; lia).
  destruct (drop i data) as [|b0 [|b1 [|b2 [|b3 l]]]]; simpl in Hl; try lia.
  unfold byte_at. cbn [nth take le_word].
  rewrite Z.shiftl_0_l, Z.lor_0_r, !Z.shiftl_lor, !Z.shiftl_shiftl by lia.
  by rewrite !Z.lor_assoc.
Qed.

Lemma load_X_spec data k :
  (64 <= length data)%nat -> (k < 16)%nat ->
  nth k (load_X data) 0 = block_word (take 64 data) k.
Proof.
  intros Hl Hk. unfold load_X, block_word.
  change [0; 4; 8; 12; 16; 20; 24; 28; 32; 36; 40; 44; 48; 52; 56; 60]%nat
    with (map (fun j => 4 * j)%nat (seq 0 16)).
  rewrite map_map.
  rewrite nth_indep with (d' := GET_UINT32 data (4 * 0)) by (rewrite length_map, length_seq; lia).
  rewrite (map_nth (fun j => GET_UINT32 data (4 * j))), seq_nth by lia. simpl Nat.add.
  rewrite GET_UINT32_le by lia. f_equal.
  rewrite skipn_firstn_comm, take_take. f_equal. lia.
Qed.

(** The compression function of the code is the RFC's, in the low 32 bits. *)
Lemma md5_process_eqm ctx data r :
  (64 <= length data)%nat ->
  regs_eqm (state ctx) r ->
  regs_eqm (state (md5_process ctx data)) (rfc_compress r (take 64 data)).
Proof.
  intros Hl Hr. unfold md5_process. rewrite rounds_steps.
  pose proof (steps_eqm (load_X data) (block_word (take 64 data)) 64 _ _ ltac:(lia)
    (fun k => load_X_spec data k Hl) Hr) as Hs.
  unfold rfc_compress.
  destruct (foldl (code_step _) _ _) as [[[A B] C] D].
  destruct (state ctx) as [[[s0 s1] s2] s3]. destruct r as [[[a b] c] d].
  destruct (foldl (rfc_step _) _ _) as [[[a' b'] c'] d'].
  destruct Hr as (?&?&?&?), Hs as (?&?&?&?). simpl.
  split_and!; rewrite eqm32_u64_l, eqm32_u32_l; by f_equiv.
Qed.

Lemma md5_process_frame ctx data :
  total0 (md5_process ctx data) = total0 ctx /\
  total1 (md5_process ctx data) = total1 ctx /\
  buffer (md5_process ctx data) = buffer ctx.
Proof.
  unfold md5_process. by destruct (foldl _ _ round4) as [[[]]], (state ctx) as [[[]]].
Qed.

#[local] Opaque md5_process rfc_compress.

(** ** Lists of pending bytes *)

Lemma length_memcpy dst off src :
  (off + length src <= length dst)%nat -> length (memcpy dst off src) = length dst.
Proof.
  intros Hl. unfold memcpy. rewrite !length_app, length_take, length_drop. lia.
Qed.

(** Reading back a prefix that ends with the copied bytes. *)
Lemma take_memcpy dst off src :
  (off + length src <= length dst)%nat ->
  take (off + length src) (memcpy dst off src) = take off dst ++ src.
Proof.
  intros Hl. unfold memcpy. rewrite app_assoc. apply take_app_length'.
  rewrite length_app, length_take. lia.
Qed.

Lemma blocks_cons l :
  (64 <= length l)%nat -> blocks l = take 64 l :: blocks (drop 64 l).
Proof.
  intros Hl. rewrite <- (take_drop 64 l) at 1.
  rewrite (blocks_app _ _ 1) by (rewrite length_take; lia).
  rewrite blocks_one by (rewrite length_take; lia). done.
Qed.

(** The bytes after the last whole block. *)
Definition tail_bytes (l : list Z) : list Z := drop (64 * (length l / 64)) l.

Lemma length_tail_bytes l : length (tail_bytes l) = (length l mod 64)%nat.
Proof.
  unfold tail_bytes. rewrite length_drop.
  pose proof (Nat.div_mod_eq (length l) 64). lia.
Qed.

Lemma tail_bytes_app l1 l2 k :
  length l1 = (64 * k)%nat -> tail_bytes (l1 ++ l2) = tail_bytes l2.
Proof.
  intros Hl. unfold tail_bytes. rewrite length_app, Hl.
  rewrite (Nat.mul_comm 64 k), Nat.div_add_l by lia.
  rewrite drop_app_ge by lia. f_equal. lia.
Qed.

Lemma tail_bytes_short l : (length l < 64)%nat -> tail_bytes l = l.
Proof. intros Hl. unfold tail_bytes. by rewrite Nat.div_small by done. Qed.

Lemma tail_bytes_cons l : (64 <= length l)%nat -> tail_bytes l = tail_bytes (drop 64 l).
Proof.
  intros Hl. rewrite <- (take_drop 64 l) at 1.
  apply (tail_bytes_app _ _ 1). rewrite length_take. lia.
Qed.

(** A message is whole blocks and a tail, and later bytes join the tail. *)
Lemma split_tail msg :
  exists whole k, msg = whole ++ tail_bytes msg /\ length whole = (64 * k)%nat.
Proof.
  exists (take (64 * (length msg / 64)) msg), (length msg / 64)%nat. split.
  - symmetry. apply take_drop.
  - rewrite length_take. pose proof (Nat.div_mod_eq (length msg) 64). lia.
Qed.

Lemma absorb_tail msg input :
  foldl rfc_compress rfc_init (blocks (msg ++ input)) =
    foldl rfc_compress (foldl rfc_compress rfc_init (blocks msg))
      (blocks (tail_bytes msg ++ input)) /\
  tail_bytes (msg ++ input) = tail_bytes (tail_bytes msg ++ input).
Proof.
  destruct (split_tail msg) as (whole & k & Hmsg & Hk).
  assert (Hb : blocks msg = blocks whole).
  { rewrite Hmsg, (blocks_app _ _ k) by done.
    rewrite (blocks_short (tail_bytes msg)), app_nil_r; [done|].
    rewrite length_tail_bytes. apply Nat.mod_upper_bound. lia. }
  rewrite Hb. rewrite Hmsg at 1 3. rewrite <- app_assoc.
  rewrite (blocks_app _ _ k), foldl_app, (tail_bytes_app _ _ k) by done. done.
Qed.

(** ** The loop over whole blocks *)

Lemma update_loop_spec fuel ctx input R :
  Z.of_nat (length input) / 64 < Z.of_nat fuel ->
  regs_eqm (state ctx) R ->
  exists ctx',
    update_loop fuel ctx input (Z.of_nat (length input)) =
      (ctx', tail_bytes input, Z.of_nat (length (tail_bytes input))) /\
    total0 ctx' = total0 ctx /\ total1 ctx' = total1 ctx /\ buffer ctx' = buffer ctx /\
    regs_eqm (state ctx') (foldl rfc_compress R (blocks input)).
Proof.
  revert ctx input R. induction fuel as [|fuel IH]; intros ctx input R Hf HR.
  { pose proof (Z.div_pos (Z.of_nat (length input)) 64). lia. }
  cbn [update_loop]. destruct (Z.leb_spec 64 (Z.of_nat (length input))) as [Hl|Hl].
  - replace (Z.of_nat (length input) - 64) with (Z.of_nat (length (drop 64 input)))
      by (rewrite length_drop; lia).
    destruct (IH (md5_process ctx input) (drop 64 input) (rfc_compress R (take 64 input)))
      as (ctx' & -> & H0 & H1 & Hb & HR').
    + rewrite length_drop. rewrite Nat2Z.inj_sub by lia.
      replace (Z.of_nat (length input)) with (Z.of_nat (length input) - 64 + 1 * 64) in Hf by lia.
      rewrite Z.div_add in Hf by lia. simpl (Z.of_nat 64) in *. lia.
    + apply md5_process_eqm; [lia|done].
    + exists ctx'. rewrite (tail_bytes_cons input), (blocks_cons input) by lia. split; [done|].
      rewrite H0, H1, Hb. by destruct (md5_process_frame ctx input) as (-> & -> & ->).
  - exists ctx. rewrite tail_bytes_short, blocks_short by lia. done.
Qed.

(** ** The byte counters *)

Lemma left_bytes n :
  0 <= n -> Z.land (Z.shiftr (u32 (8 * n)) 3) 0x3F = n mod 64.
Proof.
  intros Hn. change 0x3F with (Z.ones 6). rewrite Z.land_ones, Z.shiftr_div_pow2 by lia.
  unfold u32. change (2 ^ 32) with (8 * 2 ^ 29). change (2 ^ 3) with 8. change (2 ^ 6) with 64.
  rewrite Z.mul_mod_distr_l by lia. rewrite Z.mul_comm, Z.div_mul by lia.
  apply Z.mod_mod_divide. by exists (2 ^ 23).
Qed.

(** Adding [l] bytes to the counters: exact while one call adds less than 2^29. *)
Lemma update_totals_spec ctx n l :
  0 <= n -> 0 <= l < 2 ^ 29 -> n + l < 2 ^ 61 ->
  total0 ctx = u32 (8 * n) -> total1 ctx = 8 * n / 2 ^ 32 ->
  update_totals ctx l = (u32 (8 * (n + l)), 8 * (n + l) / 2 ^ 32).
Proof.
  intros Hn Hl Hnl H0 H1. unfold update_totals. rewrite H0, H1, land_mask_u32.
  rewrite Z.shiftl_mul_pow2, Z.shiftr_div_pow2 by lia.
  rewrite (Z.div_small l) by lia. rewrite (u64_small (l * 2 ^ 3)) by lia.
  pose proof (u32_range (8 * n)) as Hr.
  rewrite (u64_small (u32 (8 * n) + _)) by lia.
  assert (Hlow : u32 (u32 (8 * n) + l * 2 ^ 3) = u32 (8 * (n + l))).
  { unfold u32. rewrite Z.add_mod_idemp_l by lia. f_equal. lia. }
  rewrite Hlow. f_equal. unfold u32 in *.
  pose proof (Z.div_mod (8 * n) (2 ^ 32) ltac:(lia)) as E1.
  pose proof (Z.div_mod (8 * (n + l)) (2 ^ 32) ltac:(lia)) as E2.
  pose proof (Z.mod_pos_bound (8 * (n + l)) (2 ^ 32) ltac:(lia)) as B2.
  rewrite u64_small with (x := 8 * n / 2 ^ 32 + 0) by (split; [apply Z.add_nonneg_nonneg; [apply Z.div_pos|]; lia|]; apply Z.lt_le_trans with (2 ^ 32); [|lia]; rewrite Z.add_0_r; apply Z.div_lt_upper_bound; lia).
  destruct (Z.ltb_spec ((8 * (n + l)) mod 2 ^ 32) (l * 2 ^ 3)).
  - rewrite u64_small; [nia|]. split; [|nia]. nia.
  - rewrite u64_small; [nia|]. split; nia.
Qed.

Lemma of_nat_mod n : Z.of_nat n mod 64 = Z.of_nat (n mod 64).
Proof. by rewrite Nat2Z.inj_mod. Qed.

(** ** [md5_update] and [md5_finish] *)

(** What the code keeps between calls, apart from the counters. *)
Definition pending (ctx : md5_context) (R : regs) (p : list Z) : Prop :=
  regs_eqm (state ctx) (foldl rfc_compress R (blocks p)) /\
  length (buffer ctx) = 64%nat /\
  take (length p mod 64) (buffer ctx) = tail_bytes p.

(** The last part of [md5_update]: the loop runs over [input] and the rest is copied
    behind the bytes [T] already in the buffer. *)
Definition update_rest (ctx : md5_context) (input : list Z) (off : nat) : md5_context :=
  let '(ctx, input, len) :=
    update_loop (update_fuel (Z.of_nat (length input))) ctx input (Z.of_nat (length input)) in
  if negb (len =? 0)
  then with_buffer ctx (memcpy (buffer ctx) off (take (Z.to_nat len) input))
  else ctx.

Lemma update_rest_spec ctx input T R :
  blocks (T ++ input) = blocks input ->
  tail_bytes (T ++ input) = T ++ tail_bytes input ->
  length (buffer ctx) = 64%nat -> take (length T) (buffer ctx) = T ->
  regs_eqm (state ctx) R ->
  pending (update_rest ctx input (length T)) R (T ++ input) /\
  total0 (update_rest ctx input (length T)) = total0 ctx /\
  total1 (update_rest ctx input (length T)) = total1 ctx.
Proof.
  intros HB HT Hlen Htake HR. unfold update_rest.
  destruct (update_loop_spec (update_fuel (Z.of_nat (length input))) ctx input R)
    as (ctx' & -> & H0 & H1 & Hb & HR').
  { unfold update_fuel. pose proof (Z.div_pos (Z.of_nat (length input)) 64). lia. }
  { done. }
  rewrite Nat2Z.id, firstn_all. unfold pending.
  rewrite <- length_tail_bytes, HB, HT, length_app.
  assert (Hroom : (length T + length (tail_bytes input) <= 64)%nat).
  { rewrite <- length_app, <- HT, length_tail_bytes.
    pose proof (Nat.mod_upper_bound (length (T ++ input)) 64). lia. }
  destruct (Z.eqb_spec (Z.of_nat (length (tail_bytes input))) 0) as [Hz|Hz]; simpl.
  - destruct (tail_bytes input); [|simpl in Hz; lia]. simpl length.
    rewrite Nat.add_0_r, app_nil_r, Hb. done.
  - rewrite Hb, length_memcpy, take_memcpy by lia. rewrite Htake. done.
Qed.

(** [md5_update], with the two ways of starting spelled out. *)
Lemma md5_update_unfold ctx input :
  (0 < length input)%nat ->
  let len := Z.of_nat (length input) in
  let left_ := Z.land (Z.shiftr (total0 ctx) 3) 0x3F in
  let '(t0, t1) := update_totals ctx len in
  let ctx1 := {| total0 := t0; total1 := t1; state := state ctx; buffer := buffer ctx |} in
  md5_update ctx input len =
  (if negb (left_ =? 0) && (u64 (64 - left_) <=? len) then
    let fill := Z.to_nat (u64 (64 - left_)) in
    let b := memcpy (buffer ctx) (Z.to_nat left_) (take fill input) in
    update_rest (md5_process (with_buffer ctx1 b) b) (drop fill input) 0
  else update_rest ctx1 input (Z.to_nat left_)).
Proof.
  intros Hl. cbv zeta. unfold md5_update, update_rest.
  destruct (Z.eqb_spec (Z.of_nat (length input)) 0); [lia|].
  destruct (update_totals ctx (Z.of_nat (length input))) as [t0 t1].
  set (left_ := Z.land _ _). cbv zeta.
  destruct (negb (left_ =? 0) && (u64 (64 - left_) <=? Z.of_nat (length input))) eqn:Hc.
  - apply andb_true_iff in Hc as [_ Hc%Z.leb_le].
    replace (Z.of_nat (length input) - u64 (64 - left_))
      with (Z.of_nat (length (drop (Z.to_nat (u64 (64 - left_))) input))); [done|].
    rewrite length_drop. pose proof (u64_range (64 - left_)). lia.
  - done.
Qed.

Lemma absorbs_pending ctx msg :
  absorbs ctx msg ->
  regs_eqm (state ctx) (foldl rfc_compress rfc_init (blocks msg)) /\
  length (buffer ctx) = 64%nat /\
  take (length (tail_bytes msg)) (buffer ctx) = tail_bytes msg.
Proof. intros [? ? ? ? Hb]. by rewrite length_tail_bytes. Qed.

(** The two starts of [md5_update] leave [tail_bytes msg ++ input] pending. *)
Lemma md5_update_pending ctx msg input :
  (0 < length input)%nat -> Z.of_nat (length input) < 2 ^ 29 ->
  absorbs ctx msg ->
  let ctx' := md5_update ctx input (Z.of_nat (length input)) in
  pending ctx' (foldl rfc_compress rfc_init (blocks msg)) (tail_bytes msg ++ input) /\
  (total0 ctx', total1 ctx') = update_totals ctx (Z.of_nat (length input)).
Proof.
  intros Hl Hmax Habs. destruct (absorbs_pending _ _ Habs) as (HR & Hlen & Htake).
  pose proof (md5_update_unfold ctx input Hl) as Hu. cbv zeta in Hu |- *.
  destruct (update_totals ctx _) as [t0 t1]. rewrite Hu. clear Hu.
  rewrite (abs_total0 _ _ Habs), left_bytes, of_nat_mod, <- length_tail_bytes by lia.
  pose proof (length_tail_bytes msg) as HT.
  pose proof (Nat.mod_upper_bound (length msg) 64) as Hr.
  set (T := tail_bytes msg) in *. set (R := foldl rfc_compress rfc_init (blocks msg)) in *.
  rewrite (u64_small (64 - _)) by lia.
  destruct (negb (Z.of_nat (length T) =? 0) && (64 - Z.of_nat (length T) <=? Z.of_nat (length input))) eqn:Hc.
  - apply andb_true_iff in Hc as [_ Hfill%Z.leb_le].
    replace (Z.to_nat (64 - Z.of_nat (length T))) with (64 - length T)%nat by lia.
    rewrite Nat2Z.id. set (I1 := take (64 - length T) input). set (I2 := drop (64 - length T) input).
    assert (HI1 : (length T + length I1 = 64)%nat) by (unfold I1; rewrite length_take; lia).
    assert (Hb : memcpy (buffer ctx) (length T) I1 = T ++ I1).
    { rewrite <- (firstn_all (memcpy _ _ _)), length_memcpy, Hlen, <- HI1, take_memcpy by lia.
      by rewrite Htake. }
    rewrite Hb. replace input with (I1 ++ I2) by apply take_drop. rewrite app_assoc.
    set (ctx1 := with_buffer _ (T ++ I1)).
    assert (Hlen1 : length (T ++ I1) = 64%nat) by (rewrite length_app; lia).
    destruct (update_rest_spec (md5_process ctx1 (T ++ I1)) I2 [] (rfc_compress R (T ++ I1)))
      as ((HR' & Hl' & Hb') & H0 & H1); [done|done| |done| |].
    + by destruct (md5_process_frame ctx1 (T ++ I1)) as (_ & _ & ->).
    + rewrite <- (take_ge (T ++ I1) 64) at 2 by lia. apply md5_process_eqm; [lia|done].
    + split.
      * unfold pending. rewrite (blocks_app _ _ 1), blocks_one by lia.
        rewrite (tail_bytes_app _ _ 1) by lia. split; [done|]. split; [done|].
        rewrite length_app, Hlen1. by rewrite <- Nat.Div0.add_mod_idemp_l.
      * simpl length in H0, H1. rewrite H0, H1.
        by destruct (md5_process_frame ctx1 (T ++ I1)) as (-> & -> & _).
  - rewrite Nat2Z.id.
    set (ctx1 := Md5Context _ _ _ _).
    assert (Hcase : T = [] \/ (length (T ++ input) < 64)%nat).
    { rewrite length_app. apply andb_false_iff in Hc as [Hc|Hc].
      - left. destruct T; [done|]. simpl in Hc. lia.
      - right. apply Z.leb_gt in Hc. lia. }
    destruct (update_rest_spec ctx1 input T R) as (Hp & H0 & H1); try done.
    + destruct Hcase as [->|Hs]; [done|].
      rewrite !blocks_short; rewrite ?length_app in *; try done; lia.
    + destruct Hcase as [->|Hs]; [done|].
      rewrite !tail_bytes_short; rewrite ?length_app in *; try done; lia.
    + by rewrite H0, H1.
Qed.

Lemma md5_update_absorbs ctx msg input :
  absorbs ctx msg ->
  Z.of_nat (length input) < 2 ^ 29 ->
  Z.of_nat (length (msg ++ input)) < 2 ^ 61 ->
  absorbs (md5_update ctx input (Z.of_nat (length input))) (msg ++ input).
Proof.
  intros Habs Hl Htot. destruct input as [|b input'] eqn:Hin.
  { by rewrite app_nil_r. }
  rewrite <- Hin in *.
  destruct (md5_update_pending ctx msg input) as ((HR & Hlen & Hb) & Ht);
    [subst; simpl; lia|done|done|].
  rewrite length_app in Htot.
  rewrite (update_totals_spec _ (Z.of_nat (length msg))) in Ht
    by (try apply Habs; lia).
  injection Ht as H0 H1. destruct (absorb_tail msg input) as [HB HT].
  split.
  - rewrite H0, length_app. f_equal. lia.
  - rewrite H1, length_app. f_equal. lia.
  - by rewrite HB.
  - done.
  - fold (tail_bytes (msg ++ input)). rewrite HT, <- Hb. f_equal.
    rewrite <- !length_tail_bytes. by rewrite HT.
Qed.

(** ** Only the first [len] bytes of the input are read *)

Lemma load_X_take data : load_X (take 64 data) = load_X data.
Proof.
  unfold load_X. apply map_ext_in. intros i Hi. unfold GET_UINT32, byte_at.
  assert (Hn : forall j, (j < 64)%nat -> nth j (take 64 data) 0 = nth j data 0).
  { intros j Hj. destruct (decide (j < length data)%nat).
    - rewrite <- (firstn_skipn 64 data) at 2. rewrite app_nth1; [done|].
      rewrite length_take. lia.
    - rewrite !nth_overflow; [done|lia|]. rewrite length_take. lia. }
  rewrite !Hn; [done|..]; simpl in Hi; lia.
Qed.

#[local] Transparent md5_process.
Lemma md5_process_take ctx data : md5_process ctx (take 64 data) = md5_process ctx data.
Proof. unfold md5_process. by rewrite load_X_take. Qed.
#[local] Opaque md5_process.

Lemma update_loop_take fuel ctx input n ctx' rest m :
  update_loop fuel ctx input (Z.of_nat n) = (ctx', rest, m) ->
  update_loop fuel ctx (take n input) (Z.of_nat n) = (ctx', take (Z.to_nat m) rest, m).
Proof.
  revert ctx input n. induction fuel as [|fuel IH]; intros ctx input n; cbn [update_loop].
  { intros [= -> -> <-]. by rewrite Nat2Z.id. }
  destruct (Z.leb_spec 64 (Z.of_nat n)).
  - replace (Z.of_nat n - 64) with (Z.of_nat (n - 64)) by lia. intros Hu%IH.
    rewrite <- Hu, skipn_firstn_comm. f_equal.
    rewrite <- (md5_process_take ctx input), <- (md5_process_take ctx (take n input)), take_take.
    do 2 f_equal. lia.
  - intros [= -> -> <-]. by rewrite Nat2Z.id.
Qed.

Lemma update_loop_rest fuel ctx input n ctx' rest m :
  update_loop fuel ctx input (Z.of_nat n) = (ctx', rest, m) -> 0 <= m.
Proof.
  revert ctx input n. induction fuel as [|fuel IH]; intros ctx input n; cbn [update_loop].
  { intros [= _ _ <-]. lia. }
  destruct (Z.leb_spec 64 (Z.of_nat n)).
  - replace (Z.of_nat n - 64) with (Z.of_nat (n - 64)) by lia. apply IH.
  - intros [= _ _ <-]. lia.
Qed.

Lemma md5_update_take ctx input n :
  (n <= length input)%nat ->
  md5_update ctx input (Z.of_nat n) = md5_update ctx (take n input) (Z.of_nat n).
Proof.
  intros Hn. unfold md5_update. destruct (Z.of_nat n =? 0); [done|].
  destruct (update_totals ctx (Z.of_nat n)) as [t0 t1].
  set (left_ := Z.land _ _). cbv zeta. set (fill := u64 (64 - left_)).
  assert (Htail : forall c i k off, (k <= length i)%nat ->
    (let '(ctx, input, len) := update_loop (update_fuel (Z.of_nat k)) c i (Z.of_nat k) in
     if negb (len =? 0)
     then with_buffer ctx (memcpy (buffer ctx) off (take (Z.to_nat len) input)) else ctx) =
    (let '(ctx, input, len) := update_loop (update_fuel (Z.of_nat k)) c (take k i) (Z.of_nat k) in
     if negb (len =? 0)
     then with_buffer ctx (memcpy (buffer ctx) off (take (Z.to_nat len) input)) else ctx)).
  { intros c i k off Hk. destruct (update_loop _ c i _) as [[c' r] m] eqn:Hu.
    rewrite (update_loop_take _ _ _ _ _ _ _ Hu), take_take. by rewrite Nat.min_id. }
  destruct (negb (left_ =? 0) && (fill <=? Z.of_nat n)) eqn:Hc; [|by apply Htail].
  apply andb_true_iff in Hc as [_ Hc%Z.leb_le]. pose proof (u64_range (64 - left_)) as Hf.
  fold fill in Hf.
  replace (Z.of_nat n - fill) with (Z.of_nat (n - Z.to_nat fill)) by lia.
  rewrite Htail by (rewrite length_drop; lia).
  rewrite skipn_firstn_comm, take_take. by replace (Z.to_nat fill `min` n)%nat with (Z.to_nat fill) by lia.
Qed.

(** ** Storing words *)

Lemma PUT_UINT32_le n b i :
  PUT_UINT32 n b i = memcpy b i (le_bytes 4 n).
Proof.
  unfold PUT_UINT32. cbn [le_bytes]. rewrite !land_ff, !Z.shiftr_shiftr by lia. done.
Qed.

Lemma PUT_UINT32_app n pre b k :
  length pre = k -> (4 <= length b)%nat ->
  PUT_UINT32 n (pre ++ b) k = (pre ++ le_bytes 4 n) ++ drop 4 b.
Proof.
  intros <- Hb. rewrite PUT_UINT32_le. unfold memcpy.
  rewrite take_app_length, drop_app_ge by lia.
  rewrite length_le_bytes, <- app_assoc. do 3 f_equal. lia.
Qed.

Lemma le_bytes_eqm x y : x =32= y -> le_bytes 4 x = le_bytes 4 y.
Proof. intros [Hxy]. by rewrite <- (le_bytes_u32 x), Hxy, le_bytes_u32. Qed.

(** Two stored halves are the 64-bit length. *)
Lemma le_bytes_halves n :
  le_bytes 4 (u32 n) ++ le_bytes 4 (n / 2 ^ 32) = le_bytes 8 n.
Proof.
  rewrite le_bytes_u32. rewrite <- Z.shiftr_div_pow2 by lia.
  cbn [le_bytes app]. rewrite !Z.shiftr_shiftr by lia. done.
Qed.

Lemma put_digest s0 s1 s2 s3 digest :
  (16 <= length digest)%nat ->
  PUT_UINT32 s3 (PUT_UINT32 s2 (PUT_UINT32 s1 (PUT_UINT32 s0 digest 0) 4) 8) 12 =
  rfc_digest_bytes (s0, s1, s2, s3) ++ drop 16 digest.
Proof.
  intros Hd. change digest with ([] ++ digest) at 1.
  rewrite !PUT_UINT32_app by (rewrite ?length_app, ?length_drop, ?length_le_bytes; simpl; lia).
  rewrite !drop_drop, app_nil_l. unfold rfc_digest_bytes. by rewrite <- !app_assoc.
Qed.

(** ** [md5_finish] and [GenerateMD5] *)

Definition padn_of (n : nat) : nat := S (rfc_zeros n).

Lemma finish_padding n :
  let last := Z.of_nat n mod 64 in
  (if last <? 56 then 56 - last else 120 - last) = Z.of_nat (padn_of n) /\
  (padn_of n <= 64)%nat /\ take (padn_of n) md5_padding = 0x80 :: replicate (rfc_zeros n) 0.
Proof.
  cbv zeta. rewrite of_nat_mod. unfold padn_of, rfc_zeros.
  pose proof (Nat.mod_upper_bound n 64 ltac:(lia)). set (r := (n mod 64)%nat) in *.
  assert (Hz : ((119 - r) mod 64 = if decide (r < 56) then 55 - r else 119 - r)%nat).
  { case_decide.
    - replace (119 - r)%nat with (55 - r + 1 * 64)%nat by lia.
      by rewrite Nat.Div0.mod_add, Nat.mod_small by lia.
    - by rewrite Nat.mod_small by lia. }
  rewrite Hz. split_and!.
  - destruct (Z.ltb_spec (Z.of_nat r) 56); case_decide; lia.
  - case_decide; lia.
  - unfold md5_padding. rewrite firstn_cons, take_replicate. do 2 f_equal.
    case_decide; lia.
Qed.

Lemma rfc_digest_bytes_eqm v r : regs_eqm v r -> rfc_digest_bytes v = rfc_digest_bytes r.
Proof.
  destruct v as [[[]]], r as [[[]]]. intros (H0 & H1 & H2 & H3).
  unfold rfc_digest_bytes. by rewrite (le_bytes_eqm _ _ H0), (le_bytes_eqm _ _ H1), (le_bytes_eqm _ _ H2),
    (le_bytes_eqm _ _ H3).
Qed.

Lemma md5_finish_absorbs ctx msg msglen digest :
  absorbs ctx msg -> Z.of_nat (length msg) < 2 ^ 60 ->
  length msglen = 8%nat -> (16 <= length digest)%nat ->
  md5_finish ctx msglen digest = rfc_md5 msg ++ drop 16 digest.
Proof.
  intros Habs Hmsg Hml Hd. unfold md5_finish.
  rewrite (abs_total0 _ _ Habs), (abs_total1 _ _ Habs), left_bytes by lia.
  change msglen with ([] ++ msglen) at 1.
  rewrite !PUT_UINT32_app by (rewrite ?length_app, ?length_drop, ?length_le_bytes; simpl; lia).
  rewrite app_nil_l.
  rewrite le_bytes_halves, drop_drop, (drop_ge msglen), app_nil_r by lia.
  destruct (finish_padding (length msg)) as (-> & Hpn & Hpad).
  rewrite md5_update_take by done. rewrite Hpad.
  set (pad := 0x80 :: _). assert (Hlp : length pad = padn_of (length msg))
    by (unfold pad; simpl; by rewrite length_replicate).
  rewrite <- Hlp.
  pose proof (md5_update_absorbs ctx msg pad Habs ltac:(lia) ltac:(rewrite length_app; lia)) as Ha.
  set (ml := le_bytes 8 _). change 8 with (Z.of_nat (length ml)).
  pose proof (md5_update_absorbs _ _ ml Ha ltac:(simpl; lia)
    ltac:(rewrite !length_app, Hlp; simpl; lia)) as Hb.
  replace ((msg ++ pad) ++ ml) with (rfc_pad msg) in Hb
    by (unfold rfc_pad, pad, ml; by rewrite <- !app_assoc).
  pose proof (abs_state _ _ Hb) as Hs.
  destruct (state (md5_update (md5_update ctx pad _) ml _)) as [[[s0 s1] s2] s3].
  cbv beta iota zeta. rewrite put_digest by done. f_equal. unfold rfc_md5. by apply rfc_digest_bytes_eqm.
Qed.

Lemma md5_starts_absorbs ctx : length (buffer ctx) = 64%nat -> absorbs (md5_starts ctx) [].
Proof. intros Hb. by split. Qed.

(** ** The class *)

Lemma hex_digit_find v : 0 <= v < 16 -> HexMap_find (hex_digit v) HexMap = Some v.
Proof.
  intros Hv. assert (Hb : is_byte v) by (unfold is_byte; lia).
  assert (Hall : (16 <=? v) || bool_decide (HexMap_find (hex_digit v) HexMap = Some v) = true).
  { clear Hv. revert v Hb. apply byte_forallb. vm_compute. reflexivity. }
  apply orb_true_iff in Hall as [Hall%Z.leb_le|Hall%bool_decide_eq_true]; [lia|done].
Qed.

Lemma hex_digit_range v : 0 <= v < 16 ->
  48 <= hex_digit v <= 57 \/ 97 <= hex_digit v <= 102.
Proof. intros Hv. unfold hex_digit. destruct (Z.ltb_spec v 10); lia. Qed.

Lemma byte_digits b : is_byte b -> 0 <= b / 16 < 16 /\ 0 <= b mod 16 < 16.
Proof. unfold is_byte. intros Hb. split; [|apply Z.mod_pos_bound; lia].
  split; [apply Z.div_pos; lia|apply Z.div_lt_upper_bound; lia].
Qed.

Lemma digits_byte b : is_byte b -> Z.lor (i32 (Z.shiftl (Z.lor 0 (b / 16)) 4)) (b mod 16) = b.
Proof.
  intros Hb. apply Z.eqb_eq. revert b Hb. apply byte_forallb. vm_compute. reflexivity.
Qed.

(** [_httoi] on two printed digits followed by storage that does not start with a
    hexadecimal digit. *)
Lemma httoi_hex_byte b j js :
  is_byte b -> HexMap_find j HexMap = None -> In 0 (j :: js) ->
  _httoi (hex_byte b ++ j :: js) = Some b.
Proof.
  intros Hb Hj H0. destruct (byte_digits b Hb) as [Hhi Hlo].
  pose proof (hex_digit_range _ Hhi) as Rhi. pose proof (hex_digit_range _ Hlo) as Rlo.
  assert (Hd : forall l, In 0 l -> exists p q, strdup l = Some (p ++ [0]) /\ l = p ++ 0 :: q).
  { clear. induction l as [|c l IH]; [done|]. intros Hin. simpl.
    destruct (Z.eqb_spec c 0) as [->|Hc]; [by exists [], l|].
    destruct Hin as [->|Hin]; [done|]. destruct (IH Hin) as (p & q & -> & ->).
    by exists (c :: p), q. }
  destruct (Hd _ H0) as (p & q & Hp & Hq). unfold _httoi, hex_byte. cbn [app strdup].
  destruct (Z.eqb_spec (hex_digit (b / 16)) 0); [lia|].
  destruct (Z.eqb_spec (hex_digit (b mod 16)) 0); [lia|].
  cbn [strdup] in Hp. rewrite Hp. simpl.
  destruct (Z.eqb_spec (hex_digit (b mod 16)) 88); [lia|]. rewrite andb_false_r.
  cbn [httoi_loop].
  destruct (Z.eqb_spec (hex_digit (b / 16)) slash_zero) as [E|]; [unfold slash_zero in E; lia|].
  rewrite hex_digit_find by done.
  destruct (Z.eqb_spec (hex_digit (b mod 16)) slash_zero) as [E|]; [unfold slash_zero in E; lia|].
  rewrite hex_digit_find, digits_byte by done.
  assert (Hend : exists c r, p ++ [0] = c :: r /\ HexMap_find c HexMap = None).
  { destruct p as [|c p]; [by exists 0, []|]. injection Hq as <- _. eauto. }
  destruct Hend as (c & r & -> & Hc). cbn [httoi_loop]. rewrite Hc. by destruct (c =? slash_zero).
Qed.

(** The parsing loop over printed bytes, for any behaviour [w] of [_httoi] on the
    two digits of a byte followed by the unwritten storage. *)
Lemma parse_loop_hex (w : Z -> Z) bs rest junk :
  (forall b, is_byte b -> exists v, _httoi (hex_byte b ++ junk) = Some v /\ u8 v = w b) ->
  Forall is_byte bs ->
  MD5_parse_loop (length bs) (mjoin (map hex_byte bs) ++ rest) junk = Some (map w bs).
Proof.
  intros Hw Hbs. induction Hbs as [|b bs Hb _ IH]; [done|].
  cbn [length MD5_parse_loop map mjoin list_join].
  destruct (byte_digits b Hb) as [Hhi _]. pose proof (hex_digit_range _ Hhi) as Rhi.
  rewrite <- app_assoc. unfold strncpy2 at 1. cbn [hex_byte app].
  destruct (Z.eqb_spec (hex_digit (b / 16)) 0); [lia|]. simpl mbind.
  destruct (Hw b Hb) as (v & Hv & Hwv). cbn [hex_byte app] in Hv.
  rewrite Hv. simpl. rewrite drop_0.
  transitivity (cons (u8 v) <$> Some (map w bs)); [by f_equal|]. by rewrite Hwv.
Qed.

Lemma map_byte_at l n : (n <= length l)%nat -> map (byte_at l) (seq 0 n) = take n l.
Proof.
  intros Hn. apply nth_ext with (d := 0) (d' := 0).
  { rewrite length_map, length_seq, length_take. lia. }
  intros i Hi. rewrite length_map, length_seq in Hi.
  rewrite nth_indep with (d' := byte_at l 0) by (rewrite length_map, length_seq; lia).
  rewrite map_nth, seq_nth by done. unfold byte_at. simpl.
  rewrite <- (firstn_skipn n l) at 1. rewrite app_nth1; [done|]. rewrite length_take. lia.
Qed.

(** ** The properties *)

(** The digest does not depend on the storage the code leaves uninitialised: it is
    the RFC's, as long as the message is shorter than 2^29 bytes. *)

(** The digest ends up in the first 16 bytes of [m_data]. *)
Lemma GenerateMD5_data (self : MD5) (msg junk junk8 : list Z)
  (Hmsg : Z.of_nat (length msg) < 2 ^ 29)
  (Hself : (16 <= length (m_data self))%nat)
  (Hjunk : length junk = 64%nat) (Hjunk8 : length junk8 = 8%nat) :
  m_data (GenerateMD5 self msg (Z.of_nat (length msg)) junk junk8) =
  rfc_md5 msg ++ drop 16 (m_data self).
Proof.
  unfold GenerateMD5. simpl m_data. rewrite u64_small by lia.
  set (ctx := md5_starts _).
  pose proof (md5_update_absorbs ctx [] msg (md5_starts_absorbs (Md5Context 0 0 (0, 0, 0, 0) junk) Hjunk) Hmsg) as Ha.
  apply md5_finish_absorbs; [apply Ha; simpl; lia|lia|done|done].
Qed.

(** C19: [MD5::GenerateMD5] computes the RFC 1321 digest of the message into the
    first 16 bytes of [m_data], for every message shorter than 2^29 bytes and
    whatever the uninitialised context and length buffers hold, and leaves the
    other bytes of [m_data] as they were. *)
Theorem GenerateMD5_rfc (self : MD5) (msg junk junk8 : list Z)
  (Hmsg : Z.of_nat (length msg) < 2 ^ 29)
  (Hself : (16 <= length (m_data self))%nat)
  (Hjunk : length junk = 64%nat) (Hjunk8 : length junk8 = 8%nat) :
  m_data (GenerateMD5 self msg (Z.of_nat (length msg)) junk junk8) =
  rfc_md5 msg ++ drop 16 (m_data self).
Proof. by apply GenerateMD5_data. Qed.

Lemma GenerateMD5_rfc_witness :
  m_data (GenerateMD5 MD5_new [0x61; 0x62; 0x63] 3 (replicate 64 0xAA) (replicate 8 0xBB)) =
  rfc_md5 [0x61; 0x62; 0x63] ++ replicate 16 0.
Proof.
  apply (GenerateMD5_rfc MD5_new [0x61; 0x62; 0x63] (replicate 64 0xAA) (replicate 8 0xBB));
    [simpl; lia|simpl; lia|done|done].
Defined.

(** Absorbing a message in two pieces of any sizes gives the digest of the
    concatenation, from every context that has absorbed a message: the buffering
    of partial blocks in [md5_update] is invisible. *)
Theorem md5_update_streams (ctx : md5_context) (msg a b msglen digest : list Z)
  (Habs : absorbs ctx msg)
  (Ha : Z.of_nat (length a) < 2 ^ 28) (Hb : Z.of_nat (length b) < 2 ^ 28)
  (Hmsg : Z.of_nat (length msg) < 2 ^ 59)
  (Hml : length msglen = 8%nat) (Hd : (16 <= length digest)%nat) :
  md5_finish (md5_update (md5_update ctx a (Z.of_nat (length a))) b (Z.of_nat (length b)))
    msglen digest =
  md5_finish (md5_update ctx (a ++ b) (Z.of_nat (length (a ++ b)))) msglen digest.
Proof.
  assert (Hab : Z.of_nat (length (a ++ b)) < 2 ^ 29) by (rewrite length_app; lia).
  rewrite !md5_finish_absorbs with (msg := msg ++ a ++ b);
    rewrite ?length_app in *; try lia; [done|..].
  - rewrite <- length_app. apply md5_update_absorbs; rewrite ?length_app; [done|lia|lia].
  - rewrite app_assoc. apply md5_update_absorbs; [|lia|rewrite !length_app; lia].
    apply md5_update_absorbs; [done|lia|rewrite length_app; lia].
Qed.

Lemma md5_update_streams_witness :
  md5_finish (md5_update (md5_update (md5_starts (Md5Context 0 0 (0, 0, 0, 0) (replicate 64 7)))
      [1; 2; 3] 3) [4; 5] 2) (replicate 8 0) (replicate 16 0) =
  md5_finish (md5_update (md5_starts (Md5Context 0 0 (0, 0, 0, 0) (replicate 64 7)))
      [1; 2; 3; 4; 5] 5) (replicate 8 0) (replicate 16 0).
Proof.
  apply (md5_update_streams (md5_starts (Md5Context 0 0 (0, 0, 0, 0) (replicate 64 7)))
    [] [1; 2; 3] [4; 5] (replicate 8 0) (replicate 16 0));
    [by apply md5_starts_absorbs|simpl; lia|simpl; lia|simpl; lia|done|simpl; lia].
Defined.

(** [md5_process], which keeps its words in 64 bits and masks only inside the
    rotation, computes the RFC's compression function in their low 32 bits; the
    counters and the buffer are untouched. *)
Theorem md5_process_compress (ctx : md5_context) (data : list Z) (r : regs)
  (Hdata : (64 <= length data)%nat) (Hr : regs_eqm (state ctx) r) :
  regs_eqm (state (md5_process ctx data)) (rfc_compress r (take 64 data)) /\
  total0 (md5_process ctx data) = total0 ctx /\
  total1 (md5_process ctx data) = total1 ctx /\
  buffer (md5_process ctx data) = buffer ctx.
Proof. split; [by apply md5_process_eqm|apply md5_process_frame]. Qed.

Lemma md5_process_compress_witness :
  regs_eqm (state (md5_process (md5_starts (Md5Context 0 0 (0, 0, 0, 0) [])) (replicate 64 5)))
    (rfc_compress rfc_init (replicate 64 5)).
Proof.
  apply (md5_process_compress (md5_starts (Md5Context 0 0 (0, 0, 0, 0) [])) (replicate 64 5)
    rfc_init); [simpl; lia|by split_and!].
Defined.

(** The constructor from a string on a printed object. *)
Lemma MD5_of_string_printed (w : Z -> Z) (m : MD5) (junk obj : list Z) :
  (forall b, is_byte b -> exists v, _httoi (hex_byte b ++ junk) = Some v /\ u8 v = w b) ->
  (16 <= length (m_data m))%nat -> Forall is_byte (m_data m) -> (16 <= length obj)%nat ->
  exists m', MD5_of_string (MD5_ToString m ++ [0]) junk obj = Some m' /\
    take 16 (m_data m') = map w (take 16 (m_data m)).
Proof.
  intros Hw Hlen Hbytes Hobj. unfold MD5_of_string, MD5_ToString.
  assert (Hd : length (take 16 (m_data m)) = 16%nat) by (rewrite length_take; lia).
  assert (Hmap : map (fun i => hex_byte (byte_at (m_data m) i)) (seq 0 16) =
    map hex_byte (take 16 (m_data m))) by (by rewrite <- map_byte_at, map_map).
  assert (Hb16 : Forall is_byte (take 16 (m_data m))) by (by apply Forall_take).
  rewrite Hmap. pose proof (parse_loop_hex w _ [0] junk Hw Hb16) as Hp.
  rewrite Hd in Hp. rewrite Hp. clear Hp Hmap.
  assert (Hh : exists c l, mjoin (map hex_byte (take 16 (m_data m))) ++ [0] = c :: l /\ c <> 0).
  { destruct (take 16 (m_data m)) as [|b bs]; [done|]. inversion Hb16 as [|? ? Hb _]; subst.
    eexists _, _. split; [done|].
    destruct (byte_digits b Hb) as [Hhi _]. pose proof (hex_digit_range _ Hhi). lia. }
  destruct Hh as (c & l & -> & Hc). simpl. destruct (Z.eqb_spec c 0); [done|].
  eexists. split; [done|]. simpl.
  pose proof (take_memcpy obj 0 (map w (take 16 (m_data m)))) as Ht.
  rewrite length_map, Hd in Ht. by apply Ht.
Qed.

(** C20: [ToString] followed by the constructor from a string gives back the 16
    digest bytes, provided the part of the local [buf[10]] that [strncpy] never
    writes happens to hold a NUL and not to start with a hexadecimal digit. *)
Theorem ToString_parse (m : MD5) (j : Z) (js obj : list Z)
  (Hlen : (16 <= length (m_data m))%nat) (Hbytes : Forall is_byte (m_data m))
  (Hj : HexMap_find j HexMap = None) (H0 : In 0 (j :: js))
  (Hobj : (16 <= length obj)%nat) :
  exists m', MD5_of_string (MD5_ToString m ++ [0]) (j :: js) obj = Some m' /\
    MD5_eqb m' m = true.
Proof.
  destruct (MD5_of_string_printed u8 m (j :: js) obj) as (m' & Hm & Ht); try done.
  { intros b Hb. exists b. by rewrite httoi_hex_byte. }
  exists m'. split; [done|]. apply bool_decide_eq_true. rewrite Ht.
  symmetry. rewrite <- (map_id (take 16 (m_data m))) at 2. apply map_ext_in.
  intros b Hb%list_elem_of_In. apply Z.mod_small.
  exact (proj1 (Forall_forall _ _) (Forall_take _ 16 _ Hbytes) b Hb).
Qed.

Lemma ToString_parse_witness :
  exists m', MD5_of_string (MD5_ToString MD5_new ++ [0]) (0 :: replicate 7 49) (replicate 32 9)
    = Some m' /\ MD5_eqb m' MD5_new = true.
Proof.
  apply (ToString_parse MD5_new 0 (replicate 7 49) (replicate 32 9));
    [simpl; lia|repeat constructor; easy|reflexivity|by left|simpl; lia].
Defined.

(** Without that luck the constructor misreads the printed form: when the
    unwritten part of [buf] starts with the characters [12] and a NUL, every byte of
    the parsed digest is 0x12, whatever digest was printed. *)
Theorem parse_reads_stale_bytes (m : MD5) (js obj : list Z)
  (Hlen : (16 <= length (m_data m))%nat) (Hbytes : Forall is_byte (m_data m))
  (Hobj : (16 <= length obj)%nat) :
  exists m', MD5_of_string (MD5_ToString m ++ [0]) (49 :: 50 :: 0 :: js) obj = Some m' /\
    take 16 (m_data m') = replicate 16 0x12.
Proof.
  destruct (MD5_of_string_printed (fun _ => 0x12) m (49 :: 50 :: 0 :: js) obj)
    as (m' & Hm & Ht); try done.
  { intros b Hb.
    assert (Hv : match _httoi (hex_byte b ++ 49 :: 50 :: 0 :: js) with
                 | Some v => u8 v =? 0x12 | None => false end = true).
    { revert b Hb. apply byte_forallb. vm_compute. reflexivity. }
    destruct (_httoi _) as [v|]; [|done]. exists v. split; [done|]. by apply Z.eqb_eq. }
  exists m'. split; [done|]. rewrite Ht.
  assert (Hd : length (take 16 (m_data m)) = 16%nat) by (rewrite length_take; lia).
  rewrite <- Hd at 2. clear. induction (take 16 (m_data m)); simpl; congruence.
Qed.

Lemma parse_reads_stale_bytes_witness :
  exists m', MD5_of_string (MD5_ToString MD5_new ++ [0]) (49 :: 50 :: 0 :: []) (replicate 32 9)
    = Some m' /\ take 16 (m_data m') = replicate 16 0x12.
Proof.
  apply (parse_reads_stale_bytes MD5_new [] (replicate 32 9));
    [simpl; lia|repeat constructor; easy|simpl; lia].
Defined.

(** A single [md5_update] of 2^29 bytes or more from a fresh context counts the
    carry into [total[1]] twice: once in [length >> 29] and once by comparing the
    masked [total[0]] with the unmasked [length << 3]. *)
Theorem md5_update_overcounts (ctx : md5_context) (len : Z)
  (Hlen : 2 ^ 29 <= len < 2 ^ 31) :
  update_totals (md5_starts ctx) len = (u32 (8 * len), 8 * len / 2 ^ 32 + 1).
Proof.
  unfold update_totals. simpl total0. simpl total1. rewrite land_mask_u32.
  rewrite Z.shiftl_mul_pow2, Z.shiftr_div_pow2 by lia.
  rewrite !(u64_small (len * 2 ^ 3)) by lia. rewrite Z.add_0_l, u64_small by lia.
  replace (len * 2 ^ 3) with (8 * len) by lia. f_equal.
  assert (Hq : 8 * len / 2 ^ 32 = len / 2 ^ 29)
    by (change (2 ^ 32) with (8 * 2 ^ 29); by apply Z.div_mul_cancel_l).
  pose proof (Z.div_le_upper_bound len (2 ^ 29) 4 ltac:(lia) ltac:(lia)) as Hd.
  pose proof (Z.div_pos len (2 ^ 29) ltac:(lia) ltac:(lia)).
  pose proof (u32_range (8 * len)) as Hr.
  destruct (Z.ltb_spec (u32 (8 * len)) (8 * len)); [|lia].
  rewrite Hq, Z.add_0_l, (u64_small (len / _)), u64_small by lia. done.
Qed.

Lemma md5_update_overcounts_witness :
  update_totals (md5_starts (Md5Context 7 7 (0, 0, 0, 0) [])) (2 ^ 29) = (0, 2).
Proof.
  apply (md5_update_overcounts (Md5Context 7 7 (0, 0, 0, 0) []) (2 ^ 29)). lia.
Defined.

(** ** Combination of digests *)

(** Of the words [operator +] combines, the copy keeps the first two. *)
Lemma MD5_add_digest self adder junk :
  (32 <= length (m_data self))%nat -> (32 <= length (m_data adder))%nat ->
  Forall is_byte (m_data self) -> Forall is_byte (m_data adder) ->
  (16 <= length junk)%nat ->
  take 16 (m_data (MD5_add self adder junk)) =
    zip_with Z.lxor (take 16 (m_data self)) (take 16 (m_data adder)).
Proof.
  intros Hs Ha Hbs Hba Hj.
  set (w := fun i => le_bytes 8 (Z.lxor (m_word self i) (m_word adder i))).
  assert (Hw : forall i, (i < 4)%nat -> w i =
    zip_with Z.lxor (take 8 (drop (8 * i) (m_data self))) (take 8 (drop (8 * i) (m_data adder)))).
  { intros i Hi. unfold w, m_word.
    rewrite <- le_bytes_lxor; rewrite ?length_take, ?length_drop; try lia.
    - f_equal. lia.
    - by apply Forall_take, Forall_drop.
    - by apply Forall_take, Forall_drop. }
  assert (Hl : forall i, length (w i) = 8%nat) by (intros; apply length_le_bytes).
  assert (Hfirst : take 16 (mjoin (map w (seq 0 4))) = w 0%nat ++ w 1%nat).
  { change (mjoin (map w (seq 0 4))) with (w 0%nat ++ w 1%nat ++ w 2%nat ++ w 3%nat ++ []).
    rewrite (app_assoc (w 0%nat)), take_app_length'; [done|]. by rewrite length_app, !Hl. }
  change (m_data (MD5_add self adder junk))
    with (memcpy junk 0 (take 16 (mjoin (map w (seq 0 4))))).
  rewrite Hfirst.
  pose proof (take_memcpy junk 0 (w 0%nat ++ w 1%nat)) as Ht.
  rewrite length_app, !Hl in Ht. simpl Nat.add in Ht. rewrite Ht by done.
  rewrite take_0, app_nil_l, !Hw by lia. simpl Nat.mul.
  rewrite !drop_0, <- zip_with_app by (rewrite !length_take; lia).
  by rewrite !take_take_drop.
Qed.

Lemma zip_with_lxor_cancel (xs ys : list Z) :
  (length xs <= length ys)%nat -> zip_with Z.lxor (zip_with Z.lxor xs ys) ys = xs.
Proof.
  revert ys. induction xs as [|x xs IH]; intros [|y ys] Hl; simpl in *; try done; [lia|].
  rewrite Z.lxor_assoc, Z.lxor_nilpotent, Z.lxor_0_r, IH by lia. done.
Qed.

(** Adding the same digest twice gives back the original one, although
    [operator +] leaves the upper 16 bytes of its result uninitialised. *)
Theorem MD5_add_cancel (a b : MD5) (junk junk' : list Z)
  (Ha : length (m_data a) = 32%nat) (Hb : length (m_data b) = 32%nat)
  (Hba : Forall is_byte (m_data a)) (Hbb : Forall is_byte (m_data b))
  (Hj : length junk = 32%nat) (Hbj : Forall is_byte junk)
  (Hj' : length junk' = 32%nat) :
  MD5_eqb (MD5_add (MD5_add a b junk) b junk') a = true.
Proof.
  apply bool_decide_eq_true. symmetry.
  assert (Hab : Forall is_byte (m_data (MD5_add a b junk)) /\
                length (m_data (MD5_add a b junk)) = 32%nat).
  { unfold MD5_add, MD5_of_words. simpl m_data. split.
    - cbn -[drop]. repeat (apply Forall_cons_2; [apply u8_byte|]). by apply Forall_drop.
    - rewrite length_memcpy; [done|].
      rewrite Hj. simpl. lia. }
  destruct Hab as [Hbab Hlab].
  rewrite !MD5_add_digest by (done || lia).
  apply zip_with_lxor_cancel. rewrite !length_take. lia.
Qed.

Lemma MD5_add_cancel_witness :
  MD5_eqb (MD5_add (MD5_add MD5_new {| m_data := replicate 32 77 |} (replicate 32 5))
    {| m_data := replicate 32 77 |} (replicate 32 6)) MD5_new = true.
Proof.
  apply (MD5_add_cancel MD5_new {| m_data := replicate 32 77 |} (replicate 32 5) (replicate 32 6));
    try done; repeat constructor; easy.
Defined.
