(* ===== verification/Pool.v ===== *)
(** * Connection pools: the interface and its clients

    [MysqlPool] and [RedisPool] promise their callers the same thing: a connection
    taken out of the pool belongs to the caller alone until it is put back.  The
    promise is a type class here; the clients' theorem is proved against it, and
    [MysqlPool.v] and [RedisPool.v] give the instances. *)
From Stdlib Require Import ZArith Lia.
From stdpp Require Import base tactics numbers gmap list.
From S2P Require Import Prelude.

(** A connection object, by the address the driver gave it.  A [NULL] pointer is
    [None] of [option conn]. *)
Abbreviation conn := positive.

(** ** The interface *)

(** The operations a caller sees: [P] is the pool, [D] the state of the driver that
    allocates connections.  [None] as the result of an operation means that the
    calling thread would wait for [poollock]. *)
Class PoolOps (P D : Type) := {
  idle : P -> list conn;
  unlocked : P -> bool;
  allocated : D -> gset conn;
  pool_get : P -> D -> option (option conn * P * D);
  pool_put : option conn -> P -> option P;
}.

(** The idle connections and those in the callers' hands [out] are pairwise
    distinct, live objects of the driver. *)
Definition pool_owns {P D} `{PoolOps P D} (p : P) (d : D) (out : list conn) : Prop :=
  NoDup (idle p ++ out) /\ (forall c, c ∈ idle p ++ out -> c ∈ allocated d).

Class PoolLaws (P D : Type) `{PoolOps P D} := {
  (** A call on an unlocked pool returns, with the pool unlocked. *)
  get_returns p d : unlocked p = true ->
    exists r p' d', pool_get p d = Some (r, p', d') /\ unlocked p' = true;
  put_returns r p : unlocked p = true ->
    exists p', pool_put r p = Some p' /\ unlocked p' = true;
  (** Ownership moves with the connection. *)
  get_owns p d out r p' d' : pool_owns p d out ->
    pool_get p d = Some (r, p', d') -> pool_owns p' d' (option_list r ++ out);
  put_owns p d out r p' : pool_owns p d (option_list r ++ out) ->
    pool_put r p = Some p' -> pool_owns p' d out;
}.

(** ** Clients that take and return connections in any order *)

Section clients.
Context {P D : Type} `{PoolLaws P D}.

(** The pool, the driver, and the connection each client holds. *)
Record shared := Shared {
  sh_pool : P;
  sh_driver : D;
  sh_held : gmap nat conn;
}.

(** A client without a connection calls [getOneConnect], one with a connection
    calls [close]; every call runs under [poollock] and so is one step. *)
Inductive client_step : shared -> shared -> Prop :=
| step_get i p d held r p' d' :
    held !! i = None ->
    pool_get p d = Some (r, p', d') ->
    client_step (Shared p d held)
      (Shared p' d' (match r with Some c => <[i := c]> held | None => held end))
| step_put i p d held c p' :
    held !! i = Some c ->
    pool_put (Some c) p = Some p' ->
    client_step (Shared p d held) (Shared p' d (delete i held)).

(** The connections in the clients' hands. *)
Definition out_of (held : gmap nat conn) : list conn := (map_to_list held).*2.

Definition shared_ok (s : shared) : Prop :=
  pool_owns (sh_pool s) (sh_driver s) (out_of (sh_held s)) /\ unlocked (sh_pool s) = true.

Lemma out_of_insert (held : gmap nat conn) i c :
  held !! i = None -> out_of (<[i := c]> held) ≡ₚ c :: out_of held.
Proof. intros Hi. unfold out_of. by rewrite map_to_list_insert. Qed.

Lemma out_of_delete (held : gmap nat conn) i c :
  held !! i = Some c -> out_of held ≡ₚ c :: out_of (delete i held).
Proof. intros Hi. unfold out_of. by rewrite <- (map_to_list_delete held i c). Qed.

#[global] Instance pool_owns_perm p d : Proper ((≡ₚ) ==> iff) (pool_owns (P:=P) p d).
Proof. intros l1 l2 Hl. unfold pool_owns. by setoid_rewrite Hl. Qed.

Lemma shared_ok_step s s' : shared_ok s -> client_step s s' -> shared_ok s'.
Proof.
  intros [Hown Hun] Hstep. destruct Hstep as [i p d held r p' d' Hi Hget|i p d held c p' Hi Hput];
    simpl in *.
  - pose proof (get_owns _ _ _ _ _ _ Hown Hget) as Hown'.
    destruct (get_returns p d Hun) as (?&?&?&Hget'&Hun'). rewrite Hget in Hget'.
    injection Hget' as <- <- <-. split; simpl; [|done].
    destruct r as [c|]; [|done]. by rewrite out_of_insert.
  - destruct (put_returns (Some c) p Hun) as (?&Hput'&Hun'). rewrite Hput in Hput'.
    injection Hput' as <-. split; simpl; [|done].
    apply (put_owns p d _ (Some c)); [|done]. simpl. by rewrite <- out_of_delete.
Qed.

(** Two clients never hold the same connection. *)
Definition exclusive (s : shared) : Prop :=
  forall i j c, sh_held s !! i = Some c -> sh_held s !! j = Some c -> i = j.

Lemma shared_ok_exclusive s : shared_ok s -> exclusive s.
Proof.
  intros [[Hnd _] _] i j c Hi Hj. destruct (decide (i = j)) as [|Hij]; [done|].
  apply NoDup_app in Hnd as (_ & _ & Hnd).
  rewrite (out_of_delete _ i c) in Hnd by done. apply NoDup_cons in Hnd as [Hc _].
  exfalso. apply Hc. unfold out_of. apply list_elem_of_fmap. exists (j, c).
  split; [done|]. apply elem_of_map_to_list. by rewrite lookup_delete_ne.
Qed.

Lemma fresh_shared_ok p d :
  idle p = [] -> unlocked p = true -> shared_ok (Shared p d ∅).
Proof.
  intros Hi Hu. split; [|done]. unfold pool_owns. simpl. rewrite Hi.
  split; [by apply NoDup_nil|]. intros c Hc. by apply elem_of_nil in Hc.
Qed.

Lemma reachable_ok s s' : shared_ok s -> rtc client_step s s' -> shared_ok s'.
Proof. intros Hs Hr. induction Hr; eauto using shared_ok_step. Qed.
End clients.
Arguments shared : clear implicits.
Arguments Shared {P D}.
