(* ===== verification/MysqlPool.v ===== *)
(** * The MySQL connection pool ([GRPC/src/mysqlpool.h], [GRPC/src/mysqlpool.cc])

    The pool is a queue of idle connections with a count of those in existence.
    The client library of MySQL is a parameter ([MysqlDriver]); what is assumed of
    its allocation is [MysqlDriverLaws].  Console output is not modelled. *)
From Stdlib Require Import ZArith Lia String OrdersEx Sorting.Sorted.
From stdpp Require Import base tactics numbers strings gmap sorting list.
From S2P Require Import Prelude Words Pool.

Local Open Scope Z_scope.

(** ** The client library *)

(** The arguments of [mysql_real_connect], as the pool stores them. *)
Record mysql_params := MysqlParams {
  _mysqlhost : string;
  _mysqluser : string;
  _mysqlpwd : string;
  _databasename : string;
  _port : Z;
  _socket : option string;
  _client_flag : Z;
}.

(** A stored result set: the field names and the rows, identified by [res_id]. *)
Record MYSQL_RES := MysqlRes {
  res_id : positive;
  res_fields : list string;
  res_rows : list (list (option string));
}.

Class MysqlDriver (D : Type) := {
  mysql_init : D -> option conn * D;
  mysql_real_connect : conn -> mysql_params -> D -> bool * D;
  mysql_ping : conn -> D -> Z * D;
  mysql_close : conn -> D -> D;
  mysql_query : conn -> string -> D -> Z * D;
  mysql_store_result : conn -> D -> option MYSQL_RES * D;
  mysql_free_result : MYSQL_RES -> D -> D;
  (** Observations: the connection objects and the result sets that exist. *)
  drv_conns : D -> gset conn;
  drv_results : D -> gset positive;
}.

(** Allocation, as the manual describes it: [mysql_init] makes a new object,
    [mysql_close] releases the one it is given, the other calls neither make nor
    release objects; [mysql_free_result] releases the result set. *)
Class MysqlDriverLaws (D : Type) `{MysqlDriver D} := {
  init_conns d c d' : mysql_init d = (Some c, d') ->
    (c ∉ drv_conns d) /\ drv_conns d' = {[ c ]} ∪ drv_conns d;
  init_none_conns d d' : mysql_init d = (None, d') -> drv_conns d' = drv_conns d;
  connect_conns c ps d r d' : mysql_real_connect c ps d = (r, d') -> drv_conns d' = drv_conns d;
  ping_conns c d r d' : mysql_ping c d = (r, d') -> drv_conns d' = drv_conns d;
  close_conns c d : drv_conns (mysql_close c d) = drv_conns d ∖ {[ c ]};
  free_results r d : drv_results (mysql_free_result r d) = drv_results d ∖ {[ res_id r ]};
}.

(** ** The pool *)

(** The data members; [poollock] is [true] while the mutex is held. *)
Record MysqlPool := MkMysqlPool {
  mysqlpool : list conn;
  params : mysql_params;
  MAX_CONNECT : Z;
  connect_count : Z;
  poollock : bool;
}.

Definition with_queue (p : MysqlPool) (q : list conn) (n : Z) : MysqlPool :=
  {| mysqlpool := q; params := params p; MAX_CONNECT := MAX_CONNECT p;
     connect_count := n; poollock := poollock p |}.

Definition with_lock (p : MysqlPool) (l : bool) : MysqlPool :=
  {| mysqlpool := mysqlpool p; params := params p; MAX_CONNECT := MAX_CONNECT p;
     connect_count := connect_count p; poollock := l |}.

(** [poollock.lock()]: [None] when the mutex is already held. *)
Definition lock (p : MysqlPool) : option MysqlPool :=
  if poollock p then None else Some (with_lock p true).
Definition unlock (p : MysqlPool) : MysqlPool := with_lock p false.

Definition setParameter (p : MysqlPool) (ps : mysql_params) (max_connect : Z) : MysqlPool :=
  {| mysqlpool := mysqlpool p; params := ps; MAX_CONNECT := max_connect;
     connect_count := 0; poollock := poollock p |}.

Definition isEmpty (p : MysqlPool) : bool :=
  match mysqlpool p with [] => true | _ => false end.

(** [queue::front] and [queue::pop]; on an empty queue C++ leaves them undefined. *)
Definition poolFront (p : MysqlPool) : option conn := head (mysqlpool p).
Definition poolPop (p : MysqlPool) : MysqlPool :=
  with_queue p (tail (mysqlpool p)) (connect_count p).
Definition poolSize (p : MysqlPool) : Z := u32 (Z.of_nat (length (mysqlpool p))).

(** A value of the map [executeSql] returns: a pointer to column [cell_col] of row
    [cell_row] inside the result set [cell_res]. *)
Record cell := Cell { cell_res : positive; cell_row : nat; cell_col : nat }.

(** [std::map::insert]: keys in increasing order, an existing key keeps its value. *)
Fixpoint map_insert {A} (k : string) (v : A) (m : list (string * A)) : list (string * A) :=
  match m with
  | [] => [(k, v)]
  | (k', v') :: m' =>
      match String_as_OT.compare k k' with
      | Lt => (k, v) :: m
      | Eq => m
      | Gt => (k', v') :: map_insert k v m'
      end
  end.

(** The loop over [mysql_fetch_field]. *)
Definition insert_fields (fields : list string) : list (string * list cell) :=
  foldl (fun m f => map_insert f [] m) [] fields.

(** The loop over the map for one row: entry number [i], in key order, gets [row[i]]. *)
Definition push_row (id : positive) (r : nat) (m : list (string * list cell))
    : list (string * list cell) :=
  imap (fun i kv => (kv.1, kv.2 ++ [Cell id r i])) m.

(** Both loops of [executeSql] over a stored result. *)
Definition result_map (res : MYSQL_RES) : list (string * list cell) :=
  foldl (fun m r => push_row (res_id res) r m) (insert_fields (res_fields res))
    (seq 0 (length (res_rows res))).

Section operations.
Context {D : Type} `{MysqlDriver D}.

Definition createOneConnect (p : MysqlPool) (d : D) : option conn * MysqlPool * D :=
  let '(c, d) := mysql_init d in
  match c with
  | Some c =>
      let '(ok, d) := mysql_real_connect c (params p) d in
      if ok : bool
      then (Some c, with_queue p (mysqlpool p) (u32 (connect_count p + 1)), d)
      else (None, p, d)
  | None => (None, p, d)
  end.

(** [while (!isEmpty() && mysql_ping(poolFront()))]: dead connections are closed
    and dropped; the loop follows the queue, which only shrinks. *)
Fixpoint ping_loop (q : list conn) (n : Z) (d : D) : list conn * Z * D :=
  match q with
  | [] => ([], n, d)
  | c :: q' =>
      let '(r, d) := mysql_ping c d in
      if r =? 0 then (q, n, d)
      else ping_loop q' (u32 (n - 1)) (mysql_close c d)
  end.

(** The branch both arms end in: a new connection, if the limit allows one. *)
Definition connect_if_room (p : MysqlPool) (d : D) : option conn * MysqlPool * D :=
  if connect_count p <? MAX_CONNECT p then createOneConnect p d else (None, p, d).

Definition getOneConnect (p : MysqlPool) (d : D) : option (option conn * MysqlPool * D) :=
  p ← lock p;
  let '(c, p, d) :=
    if negb (isEmpty p) then
      let '(q, n, d) := ping_loop (mysqlpool p) (connect_count p) d in
      let p := with_queue p q n in
      if negb (isEmpty p) then (poolFront p, poolPop p, d) else connect_if_room p d
    else connect_if_room p d in
  Some (c, unlock p, d).

Definition close (c : option conn) (p : MysqlPool) : option MysqlPool :=
  match c with
  | Some c =>
      p ← lock p;
      Some (unlock (with_queue p (mysqlpool p ++ [c]) (connect_count p)))
  | None => Some p
  end.

Definition executeSql (sql : string) (p : MysqlPool) (d : D)
    : option (list (string * list cell) * MysqlPool * D) :=
  '(c, p, d) ← getOneConnect p d;
  match c with
  | Some c =>
      let '(r, d) := mysql_query c sql d in
      let '(results, d) :=
        if r =? 0 then
          let '(res, d) := mysql_store_result c d in
          match res with
          | Some res => (result_map res, mysql_free_result res d)
          | None => ([], d)
          end
        else ([], d) in
      p ← close (Some c) p;
      Some (results, p, d)
  | None => Some ([], p, d)
  end.

(** [~MysqlPool]: the loop over the queue. *)
Fixpoint destroy_loop (q : list conn) (n : Z) (d : D) : list conn * Z * D :=
  match q with
  | [] => ([], n, d)
  | c :: q' => destroy_loop q' (u32 (n - 1)) (mysql_close c d)
  end.

Definition destroy (p : MysqlPool) (d : D) : MysqlPool * D :=
  let '(q, n, d) := destroy_loop (mysqlpool p) (connect_count p) d in
  (with_queue p q n, d).
End operations.

(** ** The pool implements the interface *)

#[export] Instance mysql_pool_ops {D} `{MysqlDriver D} : PoolOps MysqlPool D := {|
  idle := mysqlpool;
  unlocked p := negb (poollock p);
  allocated := drv_conns;
  pool_get := getOneConnect;
  pool_put := close;
|}.

Section laws.
Context {D : Type} `{MysqlDriverLaws D}.

(** The connections in existence are those counted, and within the limit. *)
Definition counted (p : MysqlPool) (out : list conn) : Prop :=
  connect_count p = Z.of_nat (length (mysqlpool p ++ out)) /\
  connect_count p <= MAX_CONNECT p < 2 ^ 32.

(** What the calls under the lock preserve. *)
Definition pool_inv (p : MysqlPool) (d : D) (out : list conn) : Prop :=
  NoDup (mysqlpool p ++ out) /\ (forall c, c ∈ mysqlpool p ++ out -> c ∈ drv_conns d).

Lemma createOneConnect_spec p d out r p' d' :
  createOneConnect p d = (r, p', d') -> pool_inv p d out ->
  pool_inv p' d' (option_list r ++ out) /\
  mysqlpool p' = mysqlpool p /\ MAX_CONNECT p' = MAX_CONNECT p /\ poollock p' = poollock p /\
  connect_count p' = (if r is Some _ then u32 (connect_count p + 1) else connect_count p).
Proof.
  unfold createOneConnect. intros Hc [Hnd Hin].
  destruct (mysql_init d) as [[c|] d1] eqn:Hi.
  - destruct (init_conns _ _ _ Hi) as [Hfresh Hd1].
    destruct (mysql_real_connect c (params p) d1) as [[] d2] eqn:Hr;
      pose proof (connect_conns _ _ _ _ _ Hr) as Hd2; injection Hc as <- <- <-;
      (split; [|done]); split; simpl.
    + rewrite <- Permutation_middle. apply NoDup_cons. split; [|done].
      by intros Hx%Hin.
    + intros x. rewrite <- Permutation_middle, elem_of_cons, Hd2, Hd1.
      intros [->|Hx%Hin]; set_solver.
    + done.
    + intros x Hx%Hin. rewrite Hd2, Hd1. set_solver.
  - injection Hc as <- <- <-. split; [|done]. split; simpl; [done|].
    by rewrite (init_none_conns _ _ Hi).
Qed.

Lemma ping_loop_owns q n d out q' n' d' :
  ping_loop q n d = (q', n', d') ->
  NoDup (q ++ out) -> (forall c, c ∈ q ++ out -> c ∈ drv_conns d) ->
  NoDup (q' ++ out) /\ (forall c, c ∈ q' ++ out -> c ∈ drv_conns d').
Proof.
  revert n d. induction q as [|c q IH]; intros n d; cbn [ping_loop].
  { by intros [= <- <- <-]. }
  destruct (mysql_ping c d) as [r d1] eqn:Hp. pose proof (ping_conns _ _ _ _ Hp) as Hd1.
  destruct (r =? 0).
  - intros [= <- <- <-] Hnd Hin. by rewrite Hd1.
  - intros Hl Hnd Hin. simpl app in Hnd. apply NoDup_cons in Hnd as [Hc Hnd].
    apply (IH _ _ Hl); [done|]. intros x Hx. rewrite close_conns, Hd1.
    assert (x <> c) by (intros ->; done).
    assert (x ∈ drv_conns d) by (apply Hin; simpl; set_solver). set_solver.
Qed.

Lemma ping_loop_count q n d q' n' d' :
  ping_loop q n d = (q', n', d') -> Z.of_nat (length q) <= n < 2 ^ 32 ->
  n' = n - Z.of_nat (length q) + Z.of_nat (length q') /\
  Z.of_nat (length q') <= n' <= n /\ (length q' <= length q)%nat.
Proof.
  revert n d. induction q as [|c q IH]; intros n d; cbn [ping_loop].
  { intros [= <- <- <-] Hn. simpl in *. lia. }
  destruct (mysql_ping c d) as [r d1]. destruct (r =? 0).
  - intros [= <- <- <-] Hn. lia.
  - intros Hl Hn. simpl length in *. rewrite u32_small in Hl by lia.
    destruct (IH _ _ Hl) as (-> & ? & ?); [lia|]. lia.
Qed.

(** [getOneConnect] in two stages: what the loop leaves, then a choice. *)
Lemma getOneConnect_unfold p d :
  getOneConnect p d =
  if poollock p then None else
  let '(q, n, d1) := ping_loop (mysqlpool p) (connect_count p) d in
  match q with
  | c :: q' => Some (Some c, with_queue (with_lock p false) q' n, d1)
  | [] =>
      let '(r, p2, d2) := connect_if_room (with_lock (with_queue p q n) true) d1 in
      Some (r, unlock p2, d2)
  end.
Proof.
  unfold getOneConnect, lock. destruct (poollock p); [done|]. simpl.
  unfold isEmpty. simpl. destruct (mysqlpool p) as [|c0 q0] eqn:Hq.
  - simpl. assert (Hp : with_queue p [] (connect_count p) = p)
      by (destruct p; simpl in *; by subst).
    rewrite Hp. by destruct (connect_if_room _ d) as [[]].
  - simpl negb. cbn iota. destruct (ping_loop (c0 :: q0) _ d) as [[[|c q'] n] d1]; [|done].
    simpl. by destruct (connect_if_room _ d1) as [[]].
Qed.

Lemma getOneConnect_owns p d out r p' d' :
  getOneConnect p d = Some (r, p', d') -> pool_inv p d out ->
  pool_inv p' d' (option_list r ++ out) /\
  MAX_CONNECT p' = MAX_CONNECT p /\ poollock p' = false.
Proof.
  rewrite getOneConnect_unfold. destruct (poollock p); [done|].
  intros Hg [Hnd Hin]. destruct (ping_loop _ _ _) as [[q n] d1] eqn:Hl.
  destruct (ping_loop_owns _ _ _ out _ _ _ Hl Hnd Hin) as [Hnd1 Hin1].
  destruct q as [|c q'].
  - unfold connect_if_room in Hg.
    destruct (_ <? _); [|by injection Hg as <- <- <-].
    destruct (createOneConnect _ d1) as [[r2 p2] d2] eqn:Hc. injection Hg as <- <- <-.
    destruct (createOneConnect_spec _ _ out _ _ _ Hc) as ([] & Hq & HM & _ & _); [by split|].
    by split_and!; [split| |].
  - injection Hg as <- <- <-. split; [|done]. split; simpl.
    + by rewrite <- Permutation_middle.
    + intros x. rewrite <- Permutation_middle. apply Hin1.
Qed.

Lemma getOneConnect_counted p d out r p' d' :
  getOneConnect p d = Some (r, p', d') -> counted p out ->
  counted p' (option_list r ++ out).
Proof.
  rewrite getOneConnect_unfold. destruct (poollock p); [done|].
  intros Hg [Hn HM]. rewrite length_app in Hn.
  destruct (ping_loop _ _ _) as [[q n] d1] eqn:Hl.
  destruct (ping_loop_count _ _ _ _ _ _ Hl) as (Hn' & Hlen & Hle); [lia|].
  unfold counted. destruct q as [|c q'].
  - unfold connect_if_room in Hg. simpl in *.
    destruct (Z.ltb_spec n (MAX_CONNECT p)).
    + unfold createOneConnect in Hg. destruct (mysql_init d1) as [[c|] d2].
      * destruct (mysql_real_connect _ _ d2) as [[] d3]; injection Hg as <- <- <-; simpl;
          rewrite ?length_app; simpl; rewrite ?u32_small by lia; lia.
      * injection Hg as <- <- <-. simpl. lia.
    + injection Hg as <- <- <-. simpl. lia.
  - injection Hg as <- <- <-. simpl in *. rewrite length_app. simpl. lia.
Qed.
End laws.

(** ** A concrete driver, at which the hypotheses above hold *)

Module RefDriver.
(** [dead]: connections whose ping fails; [up]: whether the server accepts
    connections; [table]: the answer to every query. *)
Record t := Mk {
  conns : gset conn;
  results : gset positive;
  dead : list conn;
  up : bool;
  table : MYSQL_RES;
}.

Definition set_conns (d : t) (s : gset conn) : t := Mk s (results d) (dead d) (up d) (table d).
Definition set_results (d : t) (s : gset positive) : t := Mk (conns d) s (dead d) (up d) (table d).

#[global] Instance driver : MysqlDriver t := {|
  mysql_init d := let c := fresh (conns d) in (Some c, set_conns d ({[ c ]} ∪ conns d));
  mysql_real_connect _ _ d := (up d, d);
  mysql_ping c d := ((if decide (c ∈ dead d) then 1 else 0), d);
  mysql_close c d := set_conns d (conns d ∖ {[ c ]});
  mysql_query _ _ d := (0, d);
  mysql_store_result _ d := (Some (table d), set_results d ({[ res_id (table d) ]} ∪ results d));
  mysql_free_result r d := set_results d (results d ∖ {[ res_id r ]});
  drv_conns := conns;
  drv_results := results;
|}.

#[global] Instance driver_laws : MysqlDriverLaws t.
Proof.
  split; simpl.
  - intros d c d' [= <- <-]. split; [apply is_fresh|done].
  - done.
  - by intros c ps d r d' [= _ <-].
  - by intros c d r d' [= _ <-].
  - done.
  - done.
Qed.

Definition empty_table : MYSQL_RES := MysqlRes 1 [] [].
Definition start : t := Mk ∅ ∅ [] true empty_table.
End RefDriver.

Definition demo_params : mysql_params :=
  MysqlParams "mymysql" "tinykpwang" "14225117sa" "seckill" 3306 None 0.

(** The pool after [setParameter] on a fresh object, whose count and limit were
    uninitialised. *)
Definition fresh_pool (ps : mysql_params) (max junk_max junk_count : Z) : MysqlPool :=
  setParameter (MkMysqlPool [] ps junk_max junk_count false) ps max.

(** ** Properties *)

Section properties.
Context {D : Type} `{MysqlDriverLaws D}.

#[export] Instance mysql_pool_laws : PoolLaws MysqlPool D.
Proof.
  split; simpl.
  - intros p d Hp%negb_true_iff. rewrite getOneConnect_unfold, Hp.
    destruct (ping_loop _ _ _) as [[[|c q] n] d1]; [|do 3 eexists; split; [reflexivity|done]].
    destruct (connect_if_room (with_lock (with_queue p [] n) true) d1) as [[r p2] d2]. do 3 eexists. split; [reflexivity|done].
  - intros r p Hp%negb_true_iff. destruct r as [c|]; simpl.
    + unfold lock. rewrite Hp. simpl. eauto.
    + exists p. by rewrite Hp.
  - intros p d out r p' d' Hown Hg. by destruct (getOneConnect_owns _ _ out _ _ _ Hg Hown).
  - intros p d out r p' [Hnd Hin] Hput. destruct r as [c|]; simpl in *.
    + unfold lock in Hput. destruct (poollock p); [done|]. injection Hput as <-. unfold pool_owns.
      simpl. by rewrite <- app_assoc.
    + by injection Hput as <-.
Qed.

Lemma client_counted s s' :
  counted (sh_pool s) (out_of (sh_held s)) -> client_step (D:=D) s s' ->
  counted (sh_pool s') (out_of (sh_held s')).
Proof.
  intros Hc Hstep. destruct Hstep as [i p d held r p' d' Hi Hget|i p d held c p' Hi Hput];
    simpl in *.
  - pose proof (getOneConnect_counted _ _ _ _ _ _ Hget Hc) as Hc'.
    destruct r as [c|]; [|done]. destruct Hc' as [Hn HM]. split; [|done].
    rewrite Hn, !length_app. by rewrite out_of_insert.
  - unfold lock in Hput. destruct (poollock p); [done|]. injection Hput as <-.
    destruct Hc as [Hn HM]. split; [|done]. simpl. rewrite Hn, !length_app.
    rewrite (out_of_delete held) by done. simpl. lia.
Qed.

(** C16: whatever the clients do, no two of them ever hold the same MySQL connection,
    and the connections in existence - idle or held - are exactly those
    [connect_count] counts and never more than [MAX_CONNECT]. *)
Theorem mysql_clients_exclusive (ps : mysql_params) (max jm jc : Z) (d : D) (s : shared MysqlPool D)
  (Hmax : 0 <= max < 2 ^ 32)
  (Hreach : rtc client_step (Shared (fresh_pool ps max jm jc) d ∅) s) :
  exclusive s /\
  connect_count (sh_pool s) =
    Z.of_nat (length (mysqlpool (sh_pool s)) + size (sh_held s)) /\
  connect_count (sh_pool s) <= max.
Proof.
  set (P := fun s : shared MysqlPool D =>
    shared_ok s /\ counted (sh_pool s) (out_of (sh_held s)) /\ MAX_CONNECT (sh_pool s) = max).
  assert (HP : P s).
  { assert (Hinit : P (Shared (fresh_pool ps max jm jc) d ∅)).
    { assert (Hout : out_of (∅ : gmap nat conn) = []) by done.
      unfold P. simpl. rewrite Hout. split_and!; [|split; simpl; lia|done].
      by apply fresh_shared_ok. }
    clear Hmax. induction Hreach as [|s1 s2 s3 Hstep _ IH]; [done|]. apply IH.
    destruct Hinit as (Hok & Hcnt & HM). split_and!.
    - by apply (shared_ok_step s1).
    - by apply (client_counted s1).
    - rewrite <- HM. destruct Hstep as [i p d1 held r p' d' Hi Hget|i p d1 held c p' Hi Hput].
      + destruct Hok as [Hown _]. by destruct (getOneConnect_owns _ _ _ _ _ _ Hget Hown) as (_ & ? & _).
      + simpl in Hput. unfold lock in Hput. destruct (poollock p); [done|].
        by injection Hput as <-. }
  destruct HP as (Hok & [Hn Hle] & HM). split_and!.
  - by apply shared_ok_exclusive.
  - rewrite Hn, length_app. unfold out_of. by rewrite length_fmap, length_map_to_list.
  - lia.
Qed.

(** What draining the dead connections at the front of the queue does to the
    driver; [None] when one of them answers the ping. *)
Fixpoint drain (dead : list conn) (d : D) : option D :=
  match dead with
  | [] => Some d
  | c :: dead' =>
      let '(r, d1) := mysql_ping c d in
      if r =? 0 then None else drain dead' (mysql_close c d1)
  end.

Lemma ping_loop_drain dead c rest n d d1 d2 :
  drain dead d = Some d1 -> mysql_ping c d1 = (0, d2) ->
  Z.of_nat (length dead) <= n < 2 ^ 32 ->
  ping_loop (dead ++ c :: rest) n d = (c :: rest, n - Z.of_nat (length dead), d2).
Proof.
  revert n d. induction dead as [|x dead IH]; intros n d Hd Hp Hn.
  - injection Hd as <-. simpl app. cbn [ping_loop]. rewrite Hp. simpl. do 2 f_equal. lia.
  - simpl in *. destruct (mysql_ping x d) as [r d3]. destruct (r =? 0); [done|].
    rewrite u32_small by lia. rewrite (IH _ _ Hd Hp) by lia. do 2 f_equal. lia.
Qed.

(** The pool is first in, first out among live connections: [getOneConnect]
    hands out the first idle connection that answers the ping, closes and
    un-counts the dead ones before it, and leaves the later ones in order. *)
Theorem getOneConnect_first_live (p : MysqlPool) (d d1 d2 : D)
  (dead rest : list conn) (c : conn)
  (Hun : poollock p = false) (Hq : mysqlpool p = dead ++ c :: rest)
  (Hdead : drain dead d = Some d1) (Hlive : mysql_ping c d1 = (0, d2))
  (Hn : Z.of_nat (length dead) <= connect_count p < 2 ^ 32) :
  getOneConnect p d =
  Some (Some c, with_queue p rest (connect_count p - Z.of_nat (length dead)), d2).
Proof.
  rewrite getOneConnect_unfold, Hun, Hq, (ping_loop_drain _ _ _ _ _ _ _ Hdead Hlive Hn).
  unfold with_queue. simpl. by rewrite Hun.
Qed.

(** When the server refuses the connection, [createOneConnect] returns [NULL]
    and forgets the object [mysql_init] allocated: it stays allocated, but is
    neither in the pool nor in a caller's hands. *)
Theorem createOneConnect_leaks (p : MysqlPool) (d d1 d2 : D) (c : conn) (out : list conn)
  (Hown : pool_inv p d out)
  (Hinit : mysql_init d = (Some c, d1))
  (Hrefuse : mysql_real_connect c (params p) d1 = (false, d2)) :
  createOneConnect p d = (None, p, d2) /\
  c ∈ drv_conns d2 /\ c ∉ mysqlpool p ++ out.
Proof.
  destruct (init_conns _ _ _ Hinit) as [Hfresh Hd1].
  rewrite (connect_conns _ _ _ _ _ Hrefuse), Hd1. split_and!.
  - unfold createOneConnect. by rewrite Hinit, Hrefuse.
  - set_solver.
  - intros Hc%(proj2 Hown). done.
Qed.
End properties.

(** One client takes a connection and returns it. *)
Definition demo_shared : shared MysqlPool RefDriver.t :=
  Shared (MkMysqlPool [1%positive] demo_params 2 1 false)
    (RefDriver.Mk ({[ 1%positive ]} ∪ ∅) ∅ [] true RefDriver.empty_table)
    (delete 7%nat (<[7%nat := 1%positive]> ∅)).

Lemma mysql_clients_exclusive_witness :
  exclusive demo_shared /\
  connect_count (sh_pool demo_shared) =
    Z.of_nat (length (mysqlpool (sh_pool demo_shared)) + size (sh_held demo_shared)) /\
  connect_count (sh_pool demo_shared) <= 2.
Proof.
  apply (mysql_clients_exclusive demo_params 2 9 9 RefDriver.start); [lia|].
  eapply rtc_l.
  { apply (step_get 7%nat _ _ _ (Some 1%positive) (MkMysqlPool [] demo_params 2 1 false)
      (RefDriver.Mk ({[ 1%positive ]} ∪ ∅) ∅ [] true RefDriver.empty_table)); reflexivity. }
  eapply rtc_l; [|apply rtc_refl].
  apply (step_put 7%nat _ _ _ 1%positive (MkMysqlPool [1%positive] demo_params 2 1 false));
    reflexivity.
Defined.

Lemma getOneConnect_first_live_witness :
  getOneConnect (MkMysqlPool [4; 5; 6]%positive demo_params 30 3 false)
    (RefDriver.Mk {[ 4; 5; 6 ]}%positive ∅ [4%positive] true RefDriver.empty_table) =
  Some (Some 5%positive, MkMysqlPool [6%positive] demo_params 30 2 false,
    RefDriver.Mk ({[ 4; 5; 6 ]} ∖ {[ 4 ]})%positive ∅ [4%positive] true RefDriver.empty_table).
Proof.
  apply (getOneConnect_first_live (MkMysqlPool [4; 5; 6]%positive demo_params 30 3 false)
    _ (RefDriver.Mk ({[ 4; 5; 6 ]} ∖ {[ 4 ]})%positive ∅ [4%positive] true RefDriver.empty_table)
    _ [4%positive] [6%positive] 5%positive); try reflexivity. simpl. lia.
Defined.

Lemma createOneConnect_leaks_witness :
  createOneConnect (fresh_pool demo_params 30 9 9)
    (RefDriver.Mk ∅ ∅ [] false RefDriver.empty_table) =
  (None, fresh_pool demo_params 30 9 9,
    RefDriver.Mk ({[ 1%positive ]} ∪ ∅) ∅ [] false RefDriver.empty_table) /\
  1%positive ∈ drv_conns (RefDriver.Mk ({[ 1%positive ]} ∪ ∅) ∅ [] false RefDriver.empty_table) /\
  1%positive ∉ mysqlpool (fresh_pool demo_params 30 9 9) ++ [].
Proof.
  apply (createOneConnect_leaks (fresh_pool demo_params 30 9 9)
    (RefDriver.Mk ∅ ∅ [] false RefDriver.empty_table)
    (RefDriver.Mk ({[ 1%positive ]} ∪ ∅) ∅ [] false RefDriver.empty_table)
    _ 1%positive []).
  - split; [apply NoDup_nil; done|]. intros c Hc. by apply elem_of_nil in Hc.
  - reflexivity.
  - reflexivity.
Defined.
