(* ===== verification/MysqlExec.v ===== *)
(** * What [MysqlPool::executeSql] returns

    The map it builds pairs the columns of each row with the map's keys in the
    order of the keys, and its values point into a result set freed before the
    function returns. *)
From Stdlib Require Import ZArith Lia String OrdersEx Sorting.Sorted.
From stdpp Require Import base tactics numbers strings gmap sorting list.
From S2P Require Import Prelude Words Pool MysqlPool.

(** ** The order of the keys *)

Definition slt : string -> string -> Prop := String_as_OT.lt.

#[export] Instance slt_strict : StrictOrder slt.
Proof. exact String_as_OT.lt_strorder. Qed.

Lemma compare_case k k' :
  match String_as_OT.compare k k' with
  | Eq => k = k' | Lt => slt k k' | Gt => slt k' k
  end.
Proof. by destruct (String_as_OT.compare_spec k k'). Qed.

Lemma slt_sorted_eq (l1 l2 : list string) :
  StronglySorted slt l1 -> StronglySorted slt l2 -> l1 ≡ₚ l2 -> l1 = l2.
Proof.
  intros H1 H2 Hp. refine (StronglySorted_unique_strong slt l1 l2 _ H1 H2 Hp).
  intros x1 x2 _ _ Ha Hb. exfalso. apply (irreflexivity slt x1). by transitivity x2.
Qed.

Lemma slt_sorted_nodup (l : list string) : StronglySorted slt l -> NoDup l.
Proof.
  induction 1 as [|x l _ IH Hx]; [by apply NoDup_nil|]. apply NoDup_cons. split; [|done].
  intros Hin. rewrite Forall_forall in Hx. by apply (irreflexivity slt x), Hx.
Qed.

(** ** Insertion *)

Section map_insert.
Context {A : Type}.
Implicit Types (m : list (string * A)) (v : A).

Lemma map_insert_elem k v m x : x ∈ (map_insert k v m).*1 <-> x = k \/ x ∈ m.*1.
Proof.
  induction m as [|[k' v'] m IH]; simpl; [set_solver|].
  pose proof (compare_case k k') as Hc. destruct (String_as_OT.compare k k'); simpl in *.
  - subst. set_solver.
  - set_solver.
  - rewrite !elem_of_cons, IH. set_solver.
Qed.

Lemma map_insert_sorted k v m :
  StronglySorted slt m.*1 -> StronglySorted slt (map_insert k v m).*1.
Proof.
  induction m as [|[k' v'] m IH]; simpl; intros Hs.
  { by repeat constructor. }
  pose proof (compare_case k k') as Hc. destruct (String_as_OT.compare k k'); simpl in *.
  - done.
  - constructor; [done|]. apply StronglySorted_cons in Hs as [Hall _].
    constructor; [done|]. eapply Forall_impl; [done|]. intros y Hy. by transitivity k'.
  - apply StronglySorted_cons in Hs as [Hall Hs]. constructor; [by apply IH|].
    rewrite Forall_forall in *. intros y [->|Hy]%map_insert_elem; [done|]. by apply Hall.
Qed.

Lemma map_insert_values k v m (P : A -> Prop) :
  P v -> Forall (fun kv => P kv.2) m -> Forall (fun kv => P kv.2) (map_insert k v m).
Proof.
  intros Hv Hm. induction Hm as [|[k' v'] m Hk Hm IH]; simpl; [by repeat constructor|].
  destruct (String_as_OT.compare k k'); repeat constructor; done.
Qed.
End map_insert.

(** The keys of the map [executeSql] starts from. *)
Definition keys (fields : list string) : list string := (insert_fields fields).*1.

Lemma insert_fields_from (fields : list string) (m : list (string * list cell)) :
  StronglySorted slt m.*1 -> Forall (fun kv => kv.2 = []) m ->
  let m' := foldl (fun m f => map_insert f [] m) m fields in
  StronglySorted slt m'.*1 /\ Forall (fun kv => kv.2 = []) m' /\
  forall x, x ∈ m'.*1 <-> x ∈ fields \/ x ∈ m.*1.
Proof.
  revert m. induction fields as [|f fields IH]; intros m Hs Hv; simpl; [set_solver|].
  destruct (IH (map_insert f [] m)) as (? & ? & Hx).
  - by apply map_insert_sorted.
  - by apply (map_insert_values _ _ _ (fun v => v = [])).
  - split_and!; [done|done|]. intros x. rewrite Hx, map_insert_elem. set_solver.
Qed.

Lemma insert_fields_spec fields :
  StronglySorted slt (keys fields) /\ (forall x, x ∈ keys fields <-> x ∈ fields) /\
  insert_fields fields = map (fun k => (k, [])) (keys fields).
Proof.
  destruct (insert_fields_from fields []) as (Hs & Hv & Hx); [constructor|constructor|].
  split_and!; [done| |].
  - intros x. unfold keys, insert_fields. rewrite Hx. set_solver.
  - unfold keys. fold (insert_fields fields) in *. clear Hs Hx.
    induction Hv as [|[k v] m Hk _ IH]; simpl in *; [done|].
    subst v. by f_equal.
Qed.

Lemma keys_perm fields : NoDup fields -> keys fields ≡ₚ fields.
Proof.
  intros Hnd. destruct (insert_fields_spec fields) as (Hs & Hx & _).
  apply NoDup_Permutation; [by apply slt_sorted_nodup|done|done].
Qed.

(** ** The filled map *)

Lemma imap_fst {A B} (ks : list A) (f : nat -> B) : (imap (fun i k => (k, f i)) ks).*1 = ks.
Proof. revert f. induction ks as [|k ks IH]; intros f; simpl; [done|]. f_equal. apply IH. Qed.

Lemma imap_map {A B} (ks : list A) (b : B) : imap (fun _ k => (k, b)) ks = map (fun k => (k, b)) ks.
Proof. induction ks as [|k ks IH]; simpl; [done|]. f_equal. apply IH. Qed.

Lemma imap_imap {A B C} (g : nat -> B -> C) (f : nat -> A -> B) (l : list A) :
  imap g (imap f l) = imap (fun i x => g i (f i x)) l.
Proof.
  revert f g. induction l as [|x l IH]; intros f g; simpl; [done|]. f_equal. apply IH.
Qed.

(** The pointers to column [j] of the first [n] rows. *)
Definition column (id : positive) (n j : nat) : list cell := map (fun r => Cell id r j) (seq 0 n).

Lemma push_row_imap id r (ks : list string) (f : nat -> list cell) :
  push_row id r (imap (fun i k => (k, f i)) ks) = imap (fun i k => (k, f i ++ [Cell id r i])) ks.
Proof. unfold push_row. rewrite imap_imap. by apply imap_ext. Qed.

Lemma result_map_columns res :
  result_map res =
  imap (fun i k => (k, column (res_id res) (length (res_rows res)) i)) (keys (res_fields res)).
Proof.
  unfold result_map. destruct (insert_fields_spec (res_fields res)) as (_ & _ & ->).
  set (ks := keys _). induction (length (res_rows res)) as [|n IH].
  - symmetry. apply (imap_map ks []).
  - rewrite seq_S, foldl_app, IH. simpl. rewrite push_row_imap. apply imap_ext.
    intros i k _. unfold column. by rewrite seq_S, map_app.
Qed.

(** [map::find] *)
Fixpoint map_find {A} (k : string) (m : list (string * A)) : option A :=
  match m with
  | [] => None
  | (k', v) :: m' => if decide (k = k') then Some v else map_find k m'
  end.

Lemma map_find_lookup {A} (m : list (string * A)) i k v :
  NoDup m.*1 -> m !! i = Some (k, v) -> map_find k m = Some v.
Proof.
  revert i. induction m as [|[k' v'] m IH]; intros [|i] Hnd; simpl in *; try done.
  - intros [= -> ->]. by rewrite decide_True.
  - intros Hi. apply NoDup_cons in Hnd as [Hk Hnd]. rewrite decide_False; [by apply (IH i)|].
    intros ->. apply Hk. apply list_elem_of_fmap. exists (k', v). split; [done|].
    by apply list_elem_of_lookup_2 with i.
Qed.

Lemma result_map_find res i k :
  keys (res_fields res) !! i = Some k ->
  map_find k (result_map res) = Some (column (res_id res) (length (res_rows res)) i).
Proof.
  intros Hi. apply map_find_lookup with i; rewrite result_map_columns.
  - rewrite imap_fst. apply slt_sorted_nodup, insert_fields_spec.
  - by rewrite list_lookup_imap, Hi.
Qed.

Lemma column_inj id n i j : (0 < n)%nat -> column id n i = column id n j -> i = j.
Proof. destruct n as [|n]; [lia|]. intros _ Heq. by injection Heq. Qed.

(** For a result set with distinct field names and at least one row, looking a
    field up in the map [executeSql] returns gives that field's column exactly when
    the query names its fields in increasing order; otherwise some field is paired
    with another field's values. *)
Theorem executeSql_columns (res : MYSQL_RES)
  (Hnd : NoDup (res_fields res)) (Hrows : res_rows res <> []) :
  (forall j f, res_fields res !! j = Some f ->
    map_find f (result_map res) = Some (column (res_id res) (length (res_rows res)) j)) <->
  StronglySorted slt (res_fields res).
Proof.
  destruct (insert_fields_spec (res_fields res)) as (Hs & Hx & _).
  assert (Hn : (0 < length (res_rows res))%nat) by (destruct (res_rows res); [done|simpl; lia]).
  split.
  - intros Hcols. assert (Hk : keys (res_fields res) = res_fields res); [|by rewrite <- Hk].
    apply list_eq_same_length with (length (res_fields res)); [done| |].
    { by rewrite keys_perm. }
    intros j k f _ Hj Hf.
    assert (Hin : f ∈ keys (res_fields res)) by (apply Hx; by apply list_elem_of_lookup_2 with j).
    apply list_elem_of_lookup in Hin as [i Hi].
    pose proof (result_map_find _ _ _ Hi) as Hfind. rewrite (Hcols _ _ Hf) in Hfind.
    injection Hfind as Hfind. apply column_inj in Hfind; [|done]. subst i. congruence.
  - intros Hsorted j f Hf. apply result_map_find.
    assert (Hk : keys (res_fields res) = res_fields res)
      by (apply slt_sorted_eq; [done|done|by apply keys_perm]).
    by rewrite Hk.
Qed.

(** Two fields out of order: each gets the other's values. *)
Definition swapped_table : MYSQL_RES :=
  MysqlRes 1 ["usr_name"; "goods_id"] [[Some "7"; Some "10"]]%string.

Lemma executeSql_columns_witness :
  ~ (forall j f, res_fields swapped_table !! j = Some f ->
      map_find f (result_map swapped_table) = Some (column 1 1 j)).
Proof.
  intros Hcols. apply (executeSql_columns swapped_table) in Hcols.
  - apply StronglySorted_cons in Hcols as [Hall _]. apply Forall_cons in Hall as [Hlt _].
    pose proof (compare_case "usr_name" "goods_id") as Hc. vm_compute in Hc.
    by apply (asymmetry (R:=slt) Hlt) in Hc.
  - apply NoDup_cons. split; [by intros ?%list_elem_of_singleton|]. apply NoDup_singleton.
  - done.
Defined.

(** ** The pointers in the map *)

#[local] Arguments close : simpl never.

Section dangling.
Context {D : Type} `{MysqlDriverLaws D}.

Lemma result_map_cells res k cells c :
  (k, cells) ∈ result_map res -> c ∈ cells -> cell_res c = res_id res.
Proof.
  rewrite result_map_columns. intros (i & Hi)%list_elem_of_lookup.
  rewrite list_lookup_imap in Hi. apply fmap_Some in Hi as (k' & _ & [= -> ->]).
  unfold column. intros (r & -> & _)%list_elem_of_fmap. done.
Qed.

(** Every pointer in the map [executeSql] returns points into a result set
    that has been freed by then: the values may not be read by the caller. *)
Theorem executeSql_dangling (sql : string) (p p' : MysqlPool) (d d' : D)
  (results : list (string * list cell)) (k : string) (cells : list cell) (c : cell)
  (Hexec : executeSql sql p d = Some (results, p', d'))
  (Hk : (k, cells) ∈ results) (Hc : c ∈ cells) :
  cell_res c ∉ drv_results d'.
Proof.
  unfold executeSql in Hexec.
  destruct (getOneConnect p d) as [[[[co|] p1] d1]|]; simpl in Hexec; [| |done].
  - destruct (mysql_query co sql d1) as [r d2]. destruct (r =? 0)%Z.
    + destruct (mysql_store_result co d2) as [[res|] d3]; simpl in Hexec;
        destruct (close (Some co) p1) as [p2|]; simplify_eq/=; [|by apply elem_of_nil in Hk].
      rewrite (result_map_cells _ _ _ _ Hk Hc), free_results. set_solver.
    + destruct (close (Some co) p1) as [p2|]; simplify_eq/=. by apply elem_of_nil in Hk.
  - simplify_eq/=. by apply elem_of_nil in Hk.
Qed.
End dangling.

Lemma executeSql_dangling_witness :
  1%positive ∉ drv_results (RefDriver.Mk {[ 1%positive ]} ({[ 1%positive ]} ∖ {[ 1%positive ]}) [] true
    (MysqlRes 1 ["usr_name"] [[Some "7"]]))%string.
Proof.
  apply (executeSql_dangling "SELECT usr_name FROM order_info"
    (MkMysqlPool [1%positive] demo_params 30 1 false) (MkMysqlPool [1%positive] demo_params 30 1 false)
    (RefDriver.Mk {[ 1%positive ]} ∅ [] true (MysqlRes 1 ["usr_name"] [[Some "7"]]))
    _ [("usr_name", [Cell 1 0 0])] "usr_name" [Cell 1 0 0] (Cell 1 0 0));
    [vm_compute; reflexivity|set_solver|set_solver].
Defined.
