(* ===== verification/RedisPool.v ===== *)
(** * The Redis connection pool ([GRPC/src/redispool.h], [GRPC/src/redispool.cc])

    The same queue as the MySQL pool, without the liveness test and without
    updating the count of connections.  hiredis is a parameter ([RedisDriver]). *)
From Stdlib Require Import ZArith Lia.
From stdpp Require Import base tactics numbers strings gmap list.
From S2P Require Import Prelude Words Pool.

Local Open Scope Z_scope.

(** ** hiredis *)

(** [redisConnect] returns a context, or [NULL]; a context may carry an error
    ([err] not 0).  [redisFree] releases a context. *)
Class RedisDriver (D : Type) := {
  redisConnect : string -> Z -> D -> option (conn * bool) * D;
  redisFree : conn -> D -> D;
  drv_contexts : D -> gset conn;
}.

Class RedisDriverLaws (D : Type) `{RedisDriver D} := {
  connect_contexts host port d c err d' : redisConnect host port d = (Some (c, err), d') ->
    (c ∉ drv_contexts d) /\ drv_contexts d' = {[ c ]} ∪ drv_contexts d;
  connect_none_contexts host port d d' : redisConnect host port d = (None, d') ->
    drv_contexts d' = drv_contexts d;
  free_contexts c d : drv_contexts (redisFree c d) = drv_contexts d ∖ {[ c ]};
}.

(** ** The pool *)

Record RedisPool := MkRedisPool {
  redispool : list conn;
  _redishost : string;
  _port : Z;
  _socket : option string;
  _client_flag : Z;
  MAX_CONNECT : Z;
  connect_count : Z;
  poollock : bool;
}.

Definition with_queue (p : RedisPool) (q : list conn) (n : Z) : RedisPool :=
  {| redispool := q; _redishost := _redishost p; _port := _port p; _socket := _socket p;
     _client_flag := _client_flag p; MAX_CONNECT := MAX_CONNECT p; connect_count := n;
     poollock := poollock p |}.

Definition with_lock (p : RedisPool) (l : bool) : RedisPool :=
  {| redispool := redispool p; _redishost := _redishost p; _port := _port p;
     _socket := _socket p; _client_flag := _client_flag p; MAX_CONNECT := MAX_CONNECT p;
     connect_count := connect_count p; poollock := l |}.

Definition lock (p : RedisPool) : option RedisPool :=
  if poollock p then None else Some (with_lock p true).
Definition unlock (p : RedisPool) : RedisPool := with_lock p false.

Definition setParameter (p : RedisPool) (host : string) (port : Z) (socket : option string)
    (client_flag max_connect : Z) : RedisPool :=
  {| redispool := redispool p; _redishost := host; _port := port; _socket := socket;
     _client_flag := client_flag; MAX_CONNECT := max_connect; connect_count := 0;
     poollock := poollock p |}.

Definition isEmpty (p : RedisPool) : bool :=
  match redispool p with [] => true | _ => false end.
Definition poolFront (p : RedisPool) : option conn := head (redispool p).
Definition poolPop (p : RedisPool) : RedisPool :=
  with_queue p (tail (redispool p)) (connect_count p).
Definition poolSize (p : RedisPool) : Z := u32 (Z.of_nat (length (redispool p))).

Section operations.
Context {D : Type} `{RedisDriver D}.

(** Neither branch changes [connect_count]; the error branch drops the context. *)
Definition createOneConnect (p : RedisPool) (d : D) : option conn * D :=
  let '(c, d) := redisConnect (_redishost p) (_port p) d in
  match c with
  | Some (c, err) => if err : bool then (None, d) else (Some c, d)
  | None => (None, d)
  end.

Definition connect_if_room (p : RedisPool) (d : D) : option conn * D :=
  if connect_count p <? MAX_CONNECT p then createOneConnect p d else (None, d).

(** The emptiness test is made twice in a row, as in the source. *)
Definition getOneConnect (p : RedisPool) (d : D) : option (option conn * RedisPool * D) :=
  p ← lock p;
  let '(c, p, d) :=
    if negb (isEmpty p) then
      if negb (isEmpty p) then (poolFront p, poolPop p, d)
      else let '(c, d) := connect_if_room p d in (c, p, d)
    else let '(c, d) := connect_if_room p d in (c, p, d) in
  Some (c, unlock p, d).

Definition close (c : option conn) (p : RedisPool) : option RedisPool :=
  match c with
  | Some c =>
      p ← lock p;
      Some (unlock (with_queue p (redispool p ++ [c]) (connect_count p)))
  | None => Some p
  end.

(** [~RedisPool] *)
Fixpoint destroy_loop (q : list conn) (n : Z) (d : D) : list conn * Z * D :=
  match q with
  | [] => ([], n, d)
  | c :: q' => destroy_loop q' (u32 (n - 1)) (redisFree c d)
  end.

Definition destroy (p : RedisPool) (d : D) : RedisPool * D :=
  let '(q, n, d) := destroy_loop (redispool p) (connect_count p) d in
  (with_queue p q n, d).
End operations.

(** ** The pool implements the interface *)

#[export] Instance redis_pool_ops {D} `{RedisDriver D} : PoolOps RedisPool D := {|
  idle := redispool;
  unlocked p := negb (poollock p);
  allocated := drv_contexts;
  pool_get := getOneConnect;
  pool_put := close;
|}.

(** A driver that always connects. *)
Module RefRedis.
#[global] Instance driver : RedisDriver (gset conn) := {|
  redisConnect _ _ d := (Some (fresh d, false), {[ fresh d ]} ∪ d);
  redisFree c d := d ∖ {[ c ]};
  drv_contexts d := d;
|}.

#[global] Instance driver_laws : RedisDriverLaws (gset conn).
Proof.
  split; simpl.
  - intros host port d c err d' [= <- <- <-]. split; [apply is_fresh|done].
  - done.
  - done.
Qed.
End RefRedis.

(** The pool after [setParameter] on a fresh object. *)
Definition fresh_pool (host : string) (port max jm jc : Z) : RedisPool :=
  setParameter (MkRedisPool [] host 0 None 0 jm jc false) host port None 0 max.

Section properties.
Context {D : Type} `{RedisDriverLaws D}.

Lemma redis_getOneConnect_unfold p d :
  getOneConnect p d =
  if poollock p then None else
  match redispool p with
  | c :: q => Some (Some c, with_queue (with_lock p false) q (connect_count p), d)
  | [] => let '(r, d1) := connect_if_room (with_lock p true) d in Some (r, with_lock p false, d1)
  end.
Proof.
  unfold getOneConnect, lock. destruct (poollock p); [done|]. simpl. unfold isEmpty. simpl.
  destruct (redispool p) as [|c q] eqn:Hq; simpl.
  - by destruct (connect_if_room _ d).
  - unfold poolFront, poolPop. simpl. by rewrite Hq.
Qed.

Lemma connect_if_room_spec p d r d' out q :
  connect_if_room p d = (r, d') ->
  NoDup (q ++ out) -> (forall c, c ∈ q ++ out -> c ∈ drv_contexts d) ->
  NoDup (q ++ option_list r ++ out) /\
  (forall c, c ∈ q ++ option_list r ++ out -> c ∈ drv_contexts d').
Proof.
  unfold connect_if_room, createOneConnect. intros Hc Hnd Hin.
  destruct (_ <? _); [|by injection Hc as <- <-].
  destruct (redisConnect _ _ d) as [[[c err]|] d1] eqn:Hr.
  - destruct (connect_contexts _ _ _ _ _ _ Hr) as [Hfresh Hd1].
    assert (Hkeep : forall x, x ∈ q ++ out -> x ∈ drv_contexts d1)
      by (intros x Hx%Hin; rewrite Hd1; set_solver).
    destruct err; injection Hc as <- <-; simpl; [done|]. split.
    + rewrite <- Permutation_middle. apply NoDup_cons. split; [|done]. by intros ?%Hin.
    + intros x. rewrite <- Permutation_middle, elem_of_cons. intros [->|Hx]; [|by apply Hkeep].
      rewrite Hd1. set_solver.
  - injection Hc as <- <-. simpl. split; [done|].
    intros x Hx%Hin. by rewrite (connect_none_contexts _ _ _ _ Hr).
Qed.

#[export] Instance redis_pool_laws : PoolLaws RedisPool D.
Proof.
  split; simpl.
  - intros p d Hp%negb_true_iff. rewrite redis_getOneConnect_unfold, Hp.
    destruct (redispool p) as [|c q]; [|do 3 eexists; split; [reflexivity|done]].
    destruct (connect_if_room (with_lock p true) d) as [r d1].
    do 3 eexists. split; [reflexivity|done].
  - intros r p Hp%negb_true_iff. destruct r as [c|]; simpl.
    + unfold lock. rewrite Hp. simpl. eauto.
    + exists p. by rewrite Hp.
  - intros p d out r p' d' [Hnd Hin]. simpl in *. rewrite redis_getOneConnect_unfold.
    destruct (poollock p); [done|]. destruct (redispool p) as [|c q] eqn:Hq.
    + destruct (connect_if_room (with_lock p true) d) as [r1 d1] eqn:Hc. intros [= <- <- <-].
      unfold pool_owns. simpl. rewrite Hq. by apply (connect_if_room_spec _ _ _ _ out [] Hc).
    + intros [= <- <- <-]. unfold pool_owns. simpl. split.
      * by rewrite <- Permutation_middle.
      * intros x. rewrite <- Permutation_middle. apply Hin.
  - intros p d out r p' [Hnd Hin] Hput. destruct r as [c|]; simpl in *.
    + unfold lock in Hput. destruct (poollock p); [done|]. injection Hput as <-.
      unfold pool_owns. simpl. by rewrite <- app_assoc.
    + by injection Hput as <-.
Qed.

(** No two clients of the Redis pool ever hold the same context, whatever
    the order of the calls. *)
Theorem redis_clients_exclusive (host : string) (port max jm jc : Z) (d : D)
  (s : shared RedisPool D)
  (Hreach : rtc client_step (Shared (fresh_pool host port max jm jc) d ∅) s) :
  exclusive s.
Proof.
  eapply shared_ok_exclusive, reachable_ok; [|exact Hreach]. by apply fresh_shared_ok.
Qed.

(** The limit [MAX_CONNECT] is never enforced: [connect_count] stays 0, so
    against a server that accepts connections any number of clients can hold one
    at the same time, even with a limit of 1. *)
Theorem redis_limit_not_enforced (host : string) (port max jm jc : Z) (d : D) (n : nat)
  (Hmax : 1 <= max)
  (Haccepts : forall d, exists c d', redisConnect host port d = (Some (c, false), d')) :
  exists s, rtc client_step (Shared (fresh_pool host port max jm jc) d ∅) s /\
    size (sh_held s) = n /\ connect_count (sh_pool s) = 0.
Proof.
  set (p := fresh_pool host port max jm jc).
  assert (Hn : exists d' held, rtc client_step (Shared p d ∅) (Shared p d' held) /\
    size held = n /\ forall i, (n <= i)%nat -> held !! i = None).
  { induction n as [|n (d1 & held & Hr & Hsize & Hfree)]; [by exists d, ∅|].
    destruct (Haccepts d1) as (c & d2 & Hc). exists d2, (<[n := c]> held). split_and!.
    - eapply rtc_r; [exact Hr|]. apply (step_get n _ _ _ (Some c)); [apply Hfree; lia|].
      simpl. rewrite redis_getOneConnect_unfold. simpl. unfold connect_if_room, createOneConnect.
      simpl. rewrite (proj2 (Z.ltb_lt 0 max)) by lia. by rewrite Hc.
    - rewrite map_size_insert_None; [by rewrite Hsize|]. apply Hfree. lia.
    - intros i Hi. rewrite lookup_insert_ne by lia. apply Hfree. lia. }
  destruct Hn as (d' & held & Hr & Hsize & _). eauto.
Qed.

(** The destructor frees every idle context, the front of the queue first, and
    decrements a count that was never incremented: with [k] idle contexts it
    leaves [2^32 - k]. *)
Theorem redis_destroy_wraps (p : RedisPool) (d : D)
  (Hcount : connect_count p = 0) (Hlen : 0 < Z.of_nat (length (redispool p)) < 2 ^ 32) :
  redispool (destroy p d).1 = [] /\
  (destroy p d).2 = foldl (fun d c => redisFree c d) d (redispool p) /\
  connect_count (destroy p d).1 = 2 ^ 32 - Z.of_nat (length (redispool p)).
Proof.
  assert (Hloop : forall q n d, destroy_loop q n d =
    ([], if q is [] then n else u32 (n - Z.of_nat (length q)), foldl (fun d c => redisFree c d) d q)).
  { clear. induction q as [|c q IH]; intros n d; [done|]. cbn [destroy_loop]. rewrite IH.
    simpl length. simpl foldl. do 2 f_equal. unfold u32.
    destruct q; [by simpl|]. rewrite Zminus_mod_idemp_l. f_equal. lia. }
  unfold destroy. rewrite Hloop, Hcount. simpl. split_and!; [done|done|].
  destruct (redispool p) as [|c q]; [simpl in Hlen; lia|].
  unfold u32. rewrite <- (Z.mod_add _ 1) by lia. apply Z.mod_small. lia.
Qed.
End properties.

Lemma redis_clients_exclusive_witness :
  exclusive (Shared (fresh_pool "myredis" 6379 500 9 9) ({[ 1%positive ]} ∪ ∅ : gset conn)
    (<[3%nat := 1%positive]> ∅)).
Proof.
  apply (redis_clients_exclusive "myredis" 6379 500 9 9 ∅).
  eapply rtc_l; [|apply rtc_refl].
  apply (step_get 3%nat _ _ _ (Some 1%positive) (fresh_pool "myredis" 6379 500 9 9)
    ({[ 1%positive ]} ∪ ∅)); reflexivity.
Defined.

Lemma redis_limit_not_enforced_witness :
  exists s, rtc client_step (Shared (fresh_pool "myredis" 6379 1 9 9) (∅ : gset conn) ∅) s /\
    size (sh_held s) = 3%nat /\ connect_count (sh_pool s) = 0.
Proof.
  apply (redis_limit_not_enforced "myredis" 6379 1 9 9 ∅ 3); [lia|].
  intros d. eexists _, _. reflexivity.
Defined.

Lemma redis_destroy_wraps_witness :
  connect_count (destroy (MkRedisPool [1; 2]%positive "myredis" 6379 None 0 500 0 false)
    ({[ 1; 2 ]}%positive : gset conn)).1 = 2 ^ 32 - 2.
Proof.
  apply (redis_destroy_wraps (MkRedisPool [1; 2]%positive "myredis" 6379 None 0 500 0 false)
    ({[ 1; 2 ]}%positive : gset conn)); [reflexivity|simpl; lia].
Defined.
