(* ===== verification/Singleton.v ===== *)
(** * The double-checked singletons

    [MysqlPool::getMysqlPoolObject] ([GRPC/src/mysqlpool.cc]) and
    [RedisPool::getRedisPoolObject] ([GRPC/src/redispool.cc]) are the same function
    over a static pointer and a static mutex.  It runs in any number of threads
    here, one statement per step, over a sequentially consistent memory. *)
From Stdlib Require Import ZArith Lia.
From stdpp Require Import base tactics numbers gmap list.
From S2P Require Import Prelude.

(** The next statement of a thread, or the value it has returned. *)
Inductive pc :=
| Check1   (* if (object == NULL), outside the lock *)
| Lock     (* objectlock.lock() *)
| Check2   (* if (object == NULL), under the lock *)
| New      (* object = new ...() *)
| Unlock   (* objectlock.unlock() *)
| Return   (* return object *)
| Done (r : option positive).

(** The static members, the number of objects constructed, and the threads. *)
Record statics := Statics {
  object : option positive;
  objectlock : option nat;
  constructed : nat;
  threads : gmap nat pc;
}.

Definition goto (s : statics) (i : nat) (l : pc) : statics :=
  {| object := object s; objectlock := objectlock s; constructed := constructed s;
     threads := <[i := l]> (threads s) |}.

(** One statement of thread [i]; [None]: the thread has returned or waits for the
    mutex.  [new] returns an address that no earlier [new] returned. *)
Definition getPoolObject_step (i : nat) (s : statics) : option statics :=
  match threads s !! i with
  | Some Check1 => Some (goto s i (if object s is None then Lock else Return))
  | Some Lock =>
      match objectlock s with
      | Some _ => None
      | None => Some (goto {| object := object s; objectlock := Some i;
                              constructed := constructed s; threads := threads s |} i Check2)
      end
  | Some Check2 => Some (goto s i (if object s is None then New else Unlock))
  | Some New =>
      Some (goto {| object := Some (Pos.of_succ_nat (constructed s)); objectlock := objectlock s;
                    constructed := S (constructed s); threads := threads s |} i Unlock)
  | Some Unlock =>
      Some (goto {| object := object s; objectlock := None;
                    constructed := constructed s; threads := threads s |} i Return)
  | Some Return => Some (goto s i (Done (object s)))
  | _ => None
  end.

Definition step (s s' : statics) : Prop := exists i, getPoolObject_step i s = Some s'.

(** [n] threads about to call the function in a fresh process. *)
Definition start (n : nat) : statics :=
  {| object := None; objectlock := None; constructed := 0;
     threads := list_to_map (map (fun i => (i, Check1)) (seq 0 n)) |}.

(** ** Invariant *)

Definition in_section (l : pc) : Prop := l = Check2 \/ l = New \/ l = Unlock.

(** What the statement a thread is at says about the object. *)
Definition pc_ok (o : option positive) (l : pc) : Prop :=
  match l with
  | New => o = None
  | Unlock | Return => o = Some 1%positive
  | Done r => r = Some 1%positive /\ o = Some 1%positive
  | _ => True
  end.

Record inv (s : statics) : Prop := Inv {
  inv_object : object s = None /\ constructed s = 0 \/
               object s = Some 1%positive /\ constructed s = 1;
  inv_lock i l : threads s !! i = Some l -> (objectlock s = Some i <-> in_section l);
  inv_pc i l : threads s !! i = Some l -> pc_ok (object s) l;
  inv_holder i : objectlock s = Some i -> is_Some (threads s !! i);
}.

Lemma start_inv n : inv (start n).
Proof.
  split; simpl; [by left| | |done].
  - intros i l Hi. apply elem_of_list_to_map_2, list_elem_of_fmap in Hi as (j & [= -> ->] & _).
    unfold in_section. naive_solver.
  - intros i l Hi. apply elem_of_list_to_map_2, list_elem_of_fmap in Hi as (j & [= -> ->] & _).
    done.
Qed.

(** Moving thread [i] while the shared part changes from that of [s] to that of [s1]. *)
Lemma inv_goto s s1 i l l' :
  inv s -> threads s !! i = Some l -> threads s1 = threads s ->
  (object s1 = None /\ constructed s1 = 0 \/ object s1 = Some 1%positive /\ constructed s1 = 1) ->
  (objectlock s1 = Some i <-> in_section l') ->
  (forall j, j <> i -> (objectlock s1 = Some j <-> objectlock s = Some j)) ->
  pc_ok (object s1) l' ->
  (forall j lj, j <> i -> threads s !! j = Some lj -> pc_ok (object s1) lj) ->
  inv (goto s1 i l').
Proof.
  intros [_ Hlock _ Hhold] Hi Ht Hobj Hli Hlj Hpi Hpj. split; simpl; rewrite ?Ht; [done|..].
  - intros j lj. rewrite lookup_insert. case_decide as Hij; [by subst; intros [= <-]|].
    intros Hj. rewrite Hlj by done. by apply Hlock.
  - intros j lj. rewrite lookup_insert. case_decide as Hij; [by subst; intros [= <-]|].
    intros Hj. by apply (Hpj j).
  - intros j Hj. rewrite lookup_insert. case_decide as Hij; [done|].
    apply Hhold. apply Hlj; [congruence|done].
Qed.

Lemma singleton_inv_step s s' : inv s -> step s s' -> inv s'.
Proof.
  intros Hinv [i Hs]. pose proof Hinv as [Hobj Hlock Hpc Hhold].
  unfold getPoolObject_step in Hs. destruct (threads s !! i) as [l|] eqn:Hi; [|done].
  pose proof (Hlock _ _ Hi) as Hl. pose proof (Hpc _ _ Hi) as Hp. unfold in_section in Hl.
  assert (Hothers : forall j lj, j <> i -> threads s !! j = Some lj -> pc_ok (object s) lj)
    by (intros j lj _; apply Hpc).
  destruct l; [| | | | | |done].
  - injection Hs as <-. apply (inv_goto s s i Check1); try done; unfold in_section;
      destruct Hobj as [[-> _]|[-> _]]; simpl; naive_solver.
  - destruct (objectlock s) as [h|] eqn:Hh; [done|]. injection Hs as <-.
    apply (inv_goto s _ i Lock); try done; unfold in_section; simpl; naive_solver.
  - injection Hs as <-. apply (inv_goto s s i Check2); try done; unfold in_section;
      destruct Hobj as [[-> _]|[-> _]]; simpl; naive_solver.
  - injection Hs as <-. simpl in Hp. destruct Hobj as [[Ho Hc]|[Ho _]]; [|congruence].
    apply (inv_goto s _ i New); try done; unfold in_section; simpl.
    + rewrite Hc. by right.
    + naive_solver.
    + by rewrite Hc.
    + intros j lj Hij Hj. pose proof (Hpc _ _ Hj) as Hpj. rewrite Ho in Hpj.
      destruct lj; simpl in *; try done; [|naive_solver].
      assert (objectlock s = Some j) by (apply (Hlock _ _ Hj); unfold in_section; auto).
      assert (objectlock s = Some i) by (apply Hl; auto). congruence.
  - injection Hs as <-. apply (inv_goto s _ i Unlock); try done; unfold in_section; simpl;
      [naive_solver|]. intros j Hij. split; [done|]. intros Hj.
    assert (objectlock s = Some i) by (apply Hl; auto). congruence.
  - injection Hs as <-. apply (inv_goto s s i Return); try done; unfold in_section; naive_solver.
Qed.

Lemma singleton_reachable_inv n s : rtc step (start n) s -> inv s.
Proof.
  intros Hr. pose proof (start_inv n) as H0. revert H0.
  induction Hr; eauto using singleton_inv_step.
Qed.

(** ** Properties *)

(** C17: however the threads interleave, at most one pool object is ever constructed,
    and every thread that has returned got that one object. *)
Theorem singleton_once (n : nat) (s : statics) (Hreach : rtc step (start n) s) :
  constructed s <= 1 /\
  forall i r, threads s !! i = Some (Done r) -> r = Some 1%positive /\ object s = r.
Proof.
  pose proof (singleton_reachable_inv _ _ Hreach) as [Hobj _ Hpc _].
  split; [destruct Hobj as [[_ ->]|[_ ->]]; lia|].
  intros i r Hi. destruct (Hpc _ _ Hi) as [-> ->]. done.
Qed.

(** A schedule, by the thread that moves. *)
Fixpoint run (schedule : list nat) (s : statics) : option statics :=
  match schedule with
  | [] => Some s
  | i :: schedule' => s' ← getPoolObject_step i s; run schedule' s'
  end.

Lemma run_reachable schedule s s' : run schedule s = Some s' -> rtc step s s'.
Proof.
  revert s. induction schedule as [|i schedule IH]; intros s; simpl.
  - intros [= ->]. apply rtc_refl.
  - destruct (getPoolObject_step i s) as [s1|] eqn:Hs; [|done]. intros Hr.
    eapply rtc_l; [by exists i|]. by apply IH.
Qed.

(** Two threads that both see the null pointer before either takes the mutex. *)
Definition race : option statics := run [0; 1; 1; 1; 1; 1; 0; 0; 0; 1; 0] (start 2).

Lemma singleton_once_witness :
  from_option constructed 7 race <= 1 /\
  forall i r, from_option threads ∅ race !! i = Some (Done r) ->
    r = Some 1%positive /\ from_option object None race = r.
Proof.
  apply (singleton_once 2 (default (start 2) race)), (run_reachable [0; 1; 1; 1; 1; 1; 0; 0; 0; 1; 0]).
  vm_compute. reflexivity.
Defined.

(** Statements a thread still has before it, at most. *)
Definition rank (l : pc) : nat :=
  match l with
  | Check1 => 6 | Lock => 5 | Check2 => 4 | New => 3 | Unlock => 2 | Return => 1 | Done _ => 0
  end.

Definition remaining (s : statics) : nat := sum_list_with rank (map_to_list (threads s)).*2.

Lemma remaining_goto s i l l' :
  threads s !! i = Some l -> remaining (goto s i l') + rank l = remaining s + rank l'.
Proof.
  intros Hi. unfold remaining. simpl.
  assert (H1 : (map_to_list (threads s)).*2 ≡ₚ l :: (map_to_list (delete i (threads s))).*2)
    by (by rewrite <- (map_to_list_delete (threads s) i l)).
  assert (H2 : (map_to_list (<[i := l']> (threads s))).*2 ≡ₚ l' :: (map_to_list (delete i (threads s))).*2).
  { rewrite <- insert_delete_eq, map_to_list_insert; [done|apply lookup_delete_eq]. }
  rewrite H1, H2. simpl. lia.
Qed.

Lemma step_remaining s s' : step s s' -> remaining s' < remaining s.
Proof.
  intros [i Hs]. unfold getPoolObject_step in Hs.
  destruct (threads s !! i) as [l|] eqn:Hi; [|done].
  assert (Hg : forall o h c l', rank l' < rank l ->
    remaining (goto (Statics o h c (threads s)) i l') < remaining s).
  { intros o h c l' Hr.
    assert (He : remaining (goto (Statics o h c (threads s)) i l') = remaining (goto s i l')) by done.
    rewrite He. pose proof (remaining_goto s i l l' Hi). lia. }
  destruct s as [o h c ts]; simpl in *.
  destruct l; try done; try (destruct h; [done|]); injection Hs as <-; apply Hg;
    try (destruct o); simpl; lia.
Qed.

(** C18: the mutex never blocks the threads for good: as long as one of them has not
    returned some thread can move, and every move brings the end closer, so with
    [n] threads all have returned after at most [6 * n] moves. *)
Theorem singleton_terminates (n : nat) (s : statics) (Hreach : rtc step (start n) s) :
  (forall i l, threads s !! i = Some l -> (forall r, l <> Done r) -> exists s', step s s') /\
  (forall s', step s s' -> remaining s' < remaining s) /\
  remaining (start n) = 6 * n.
Proof.
  pose proof (singleton_reachable_inv _ _ Hreach) as [_ Hlock _ Hhold]. split_and!.
  - intros i l Hi Hnd.
    assert (Hmove : forall j lj, threads s !! j = Some lj -> in_section lj -> exists s', step s s').
    { intros j lj Hj [-> | [-> | ->] ]; eexists; exists j; unfold getPoolObject_step; by rewrite Hj. }
    destruct (objectlock s) as [j|] eqn:Hh.
    + destruct (Hhold _ eq_refl) as [lj Hj]. apply (Hmove j lj Hj). by apply (Hlock _ _ Hj).
    + destruct l; try (by apply (Hmove i _ Hi); unfold in_section; auto);
        [eexists; exists i; unfold getPoolObject_step; rewrite Hi; done
        |eexists; exists i; unfold getPoolObject_step; rewrite Hi, Hh; done
        |eexists; exists i; unfold getPoolObject_step; rewrite Hi; done
        |by destruct (Hnd r)].
  - intros s'. apply step_remaining.
  - unfold remaining, start. simpl.
    assert (Hp : (map_to_list (list_to_map (map (fun i : nat => (i, Check1)) (seq 0 n)) : gmap nat pc)).*2
      ≡ₚ replicate n Check1).
    { rewrite map_to_list_to_map.
      - clear. generalize 0.
        induction n as [|n IH]; intros k; simpl; [done|]. f_equiv. apply IH.
      - assert (Hf : (map (fun i : nat => (i, Check1)) (seq 0 n)).*1 = seq 0 n).
        { rewrite <- list_fmap_compose. apply list_fmap_id. }
        rewrite Hf. apply NoDup_seq. }
    rewrite Hp. clear. induction n; simpl; lia.
Qed.

Lemma singleton_terminates_witness :
  remaining (start 3) = 18 /\ exists s', step (start 3) s'.
Proof.
  destruct (singleton_terminates 3 (start 3) (rtc_refl step (start 3))) as (Hmove & _ & Hr).
  split; [exact Hr|]. apply (Hmove 2 Check1); [reflexivity|done].
Defined.
