(* ===== verification/CString.v ===== *)
(** * C strings and numbers in decimal

    What the sources use of the C and C++ string functions: [c_str], [atoi],
    [std::to_string], [strcasecmp].  A [std::string] is a [string]; a [char *] that
    may be null is an [option string]; a C string ends at the first NUL. *)
From Stdlib Require Import ZArith Lia Ascii String.
From stdpp Require Import base tactics numbers strings list.
From S2P Require Import Prelude Words.

Local Open Scope Z_scope.

Definition char_code (c : ascii) : Z := Z.of_N (N_of_ascii c).
Definition char_of (z : Z) : ascii := ascii_of_N (Z.to_N z).

(** The characters before the first NUL. *)
Fixpoint c_str (s : string) : string :=
  match s with
  | EmptyString => EmptyString
  | String c s' => if Ascii.eqb c Ascii.zero then EmptyString else String c (c_str s')
  end.

(** The bytes of a string, and the string of a list of byte values. *)
Fixpoint bytes_of_string (s : string) : list Z :=
  match s with
  | EmptyString => []
  | String c s' => char_code c :: bytes_of_string s'
  end.

Fixpoint string_of_bytes (l : list Z) : string :=
  match l with
  | [] => EmptyString
  | b :: l' => String (char_of b) (string_of_bytes l')
  end.

(** ** [atoi] *)

Definition is_space (c : ascii) : bool :=
  let z := char_code c in (z =? 32) || ((9 <=? z) && (z <=? 13)).

Definition digit_value (c : ascii) : option Z :=
  let z := char_code c in if (48 <=? z) && (z <=? 57) then Some (z - 48) else None.

Fixpoint skip_spaces (s : string) : string :=
  match s with
  | String c s' => if is_space c then skip_spaces s' else s
  | EmptyString => EmptyString
  end.

(** The value of the leading digits, from the accumulated value [n]. *)
Fixpoint read_digits (s : string) (n : Z) : Z :=
  match s with
  | String c s' =>
      match digit_value c with Some d => read_digits s' (10 * n + d) | None => n end
  | EmptyString => n
  end.

Definition atoi_value (s : string) : Z :=
  match skip_spaces s with
  | String c s' =>
      if Ascii.eqb c "-"%char then - read_digits s' 0
      else if Ascii.eqb c "+"%char then read_digits s' 0
      else read_digits (String c s') 0
  | EmptyString => 0
  end.

(** [None]: the value does not fit an [int], where the C standard leaves the
    behaviour undefined. *)
Definition atoi (s : string) : option Z :=
  let z := atoi_value s in if is_intb z then Some z else None.

(** ** [std::to_string] and [%d] *)

Fixpoint print_digits (fuel : nat) (n : Z) (acc : string) : string :=
  match fuel with
  | O => acc
  | S fuel' =>
      let acc' := String (char_of (48 + n mod 10)) acc in
      if n <? 10 then acc' else print_digits fuel' (n / 10) acc'
  end.

(** Ten digits hold every [int]. *)
Definition to_string (z : Z) : string :=
  if z <? 0 then String "-" (print_digits 10 (- z) "") else print_digits 10 z "".

(** ** [strcasecmp] *)

Definition lower (c : ascii) : ascii :=
  let z := char_code c in if (65 <=? z) && (z <=? 90) then char_of (z + 32) else c.

Fixpoint strcasecmp_eq (s t : string) : bool :=
  match s, t with
  | EmptyString, EmptyString => true
  | String a s', String b t' => Ascii.eqb (lower a) (lower b) && strcasecmp_eq s' t'
  | _, _ => false
  end.

(** ** Facts *)

Lemma char_code_of z : 0 <= z < 256 -> char_code (char_of z) = z.
Proof.
  intros Hz. unfold char_code, char_of. rewrite N_ascii_embedding by lia. lia.
Qed.

Lemma char_of_code c : char_of (char_code c) = c.
Proof. unfold char_of, char_code. by rewrite N2Z.id, ascii_N_embedding. Qed.

Lemma string_bytes s : string_of_bytes (bytes_of_string s) = s.
Proof. induction s as [|c s IH]; simpl; [done|]. by rewrite char_of_code, IH. Qed.

Lemma bytes_string l : Forall is_byte l -> bytes_of_string (string_of_bytes l) = l.
Proof.
  induction 1 as [|b l Hb _ IH]; simpl; [done|]. rewrite char_code_of, IH; [done|].
  unfold is_byte in Hb. lia.
Qed.

Lemma digit_value_of d : 0 <= d < 10 -> digit_value (char_of (48 + d)) = Some d.
Proof.
  intros Hd. unfold digit_value. rewrite char_code_of by lia.
  rewrite (proj2 (Z.leb_le 48 (48 + d))), (proj2 (Z.leb_le (48 + d) 57)) by lia.
  simpl. f_equal. lia.
Qed.

(** Reading printed digits: the printed number continues what was read. *)
Lemma read_print fuel n acc k :
  0 <= n < 10 ^ Z.of_nat fuel ->
  exists m, 0 < m /\ read_digits (print_digits fuel n acc) k = read_digits acc (m * k + n).
Proof.
  revert n acc k. induction fuel as [|fuel IH]; intros n acc k Hn.
  { exists 1. simpl in *. split; [lia|]. f_equal. lia. }
  cbn [print_digits].
  assert (Hd : 0 <= n mod 10 < 10) by (apply Z.mod_pos_bound; lia).
  destruct (Z.ltb_spec n 10).
  - exists 10. split; [lia|]. simpl. rewrite digit_value_of by done.
    rewrite Z.mod_small by lia. done.
  - assert (Hq : 0 <= n / 10 < 10 ^ Z.of_nat fuel).
    { split; [apply Z.div_pos; lia|]. apply Z.div_lt_upper_bound; [lia|].
      rewrite Nat2Z.inj_succ, Z.pow_succ_r in Hn by lia. lia. }
    destruct (IH (n / 10) (String (char_of (48 + n mod 10)) acc) k Hq) as (m & Hm & ->).
    exists (10 * m). split; [lia|]. simpl. rewrite digit_value_of by done. f_equal.
    pose proof (Z.div_mod n 10). lia.
Qed.

Lemma print_digits_head fuel n acc :
  (0 < fuel)%nat -> 0 <= n -> exists d s, 0 <= d < 10 /\
    print_digits fuel n acc = String (char_of (48 + d)) s.
Proof.
  revert n acc. induction fuel as [|fuel IH]; intros n acc Hf Hn; [lia|]. cbn [print_digits].
  assert (Hd : 0 <= n mod 10 < 10) by (apply Z.mod_pos_bound; lia).
  destruct (Z.ltb_spec n 10); [by eauto|].
  destruct fuel as [|fuel]; [simpl; by eauto|].
  apply IH; [lia|]. apply Z.div_pos; lia.
Qed.

Lemma digit_char_plain d : 0 <= d < 10 ->
  is_space (char_of (48 + d)) = false /\
  Ascii.eqb (char_of (48 + d)) "-" = false /\ Ascii.eqb (char_of (48 + d)) "+" = false.
Proof.
  intros Hd. assert (Hall : forallb (fun d => negb (is_space (char_of (48 + d))) &&
    negb (Ascii.eqb (char_of (48 + d)) "-") && negb (Ascii.eqb (char_of (48 + d)) "+"))
    (map Z.of_nat (seq 0 10)) = true) by (vm_compute; reflexivity).
  rewrite forallb_forall in Hall. specialize (Hall d).
  rewrite !andb_true_iff, !negb_true_iff in Hall.
  destruct Hall as [[? ?] ?]; [|done].
  rewrite <- (Z2Nat.id d) by lia. apply in_map, in_seq. lia.
Qed.

Lemma atoi_value_print n : 0 <= n < 10 ^ 10 -> atoi_value (print_digits 10 n "") = n.
Proof.
  intros Hn. destruct (print_digits_head 10 n "" ltac:(lia)) as (d & s & Hd & Hp); [lia|].
  destruct (digit_char_plain d Hd) as (Hs & Hm & Hpl).
  unfold atoi_value. rewrite Hp. cbn [skip_spaces]. rewrite Hs, Hm, Hpl, <- Hp.
  destruct (read_print 10 n "" 0) as (m & _ & ->); [done|]. simpl. lia.
Qed.

(** Decimal output is read back by [atoi]. *)
Lemma atoi_to_string z : is_int z -> atoi (to_string z) = Some z.
Proof.
  intros Hz. assert (Hv : atoi_value (to_string z) = z).
  { unfold is_int in Hz. unfold to_string. destruct (Z.ltb_spec z 0).
    - unfold atoi_value. cbn [skip_spaces].
      replace (is_space "-") with false by done. simpl Ascii.eqb. cbn iota.
      destruct (read_print 10 (- z) "" 0) as (m & _ & ->); simpl; lia.
    - apply atoi_value_print. lia. }
  unfold atoi. rewrite Hv. unfold is_int, is_intb in *.
  by rewrite (proj2 (Z.leb_le _ _)), (proj2 (Z.ltb_lt _ _)) by lia.
Qed.

(** A printed number holds no NUL. *)
Lemma c_str_print_digits fuel n acc :
  0 <= n -> c_str acc = acc -> c_str (print_digits fuel n acc) = print_digits fuel n acc.
Proof.
  revert n acc. induction fuel as [|fuel IH]; intros n acc Hn Hacc; [done|]. cbn [print_digits].
  assert (Hc : c_str (String (char_of (48 + n mod 10)) acc) = String (char_of (48 + n mod 10)) acc).
  { simpl. destruct (Ascii.eqb_spec (char_of (48 + n mod 10)) zero) as [E|]; [|by rewrite Hacc].
    exfalso. apply (f_equal char_code) in E. pose proof (Z.mod_pos_bound n 10 ltac:(lia)).
    rewrite char_code_of in E by lia. unfold char_code in E. simpl in E. lia. }
  destruct (n <? 10); [exact Hc|]. apply IH; [by apply Z.div_pos|exact Hc].
Qed.

Lemma c_str_to_string z : c_str (to_string z) = to_string z.
Proof.
  unfold to_string. destruct (Z.ltb_spec z 0).
  - change (String "-" (c_str (print_digits 10 (- z) "")) = String "-" (print_digits 10 (- z) "")).
    by rewrite c_str_print_digits by (done || lia).
  - by apply c_str_print_digits.
Qed.

(** Lengths. *)
Lemma length_append s t : String.length (s +:+ t) = (String.length s + String.length t)%nat.
Proof. induction s as [|c s IH]; simpl; [done|]. by rewrite IH. Qed.

Lemma print_digits_length fuel n acc :
  (String.length (print_digits fuel n acc) <= fuel + String.length acc)%nat.
Proof.
  revert n acc. induction fuel as [|fuel IH]; intros n acc; [done|]. cbn [print_digits].
  destruct (n <? 10); [simpl; lia|]. etrans; [apply IH|]. simpl. lia.
Qed.

Lemma to_string_length z : (String.length (to_string z) <= 11)%nat.
Proof.
  unfold to_string. pose proof (print_digits_length 10 z "").
  pose proof (print_digits_length 10 (- z) ""). destruct (z <? 0); simpl in *; lia.
Qed.

Lemma bytes_length s : length (bytes_of_string s) = String.length s.
Proof. induction s; simpl; congruence. Qed.

Lemma c_str_length s : (String.length (c_str s) <= String.length s)%nat.
Proof. induction s as [|c s IH]; simpl; [done|]. destruct (Ascii.eqb c zero); simpl; lia. Qed.
