(* ===== verification/Users.v ===== *)
(** * The key of a test user

    [prepareForSeckill] of [GRPC/src/seckill_server.cc] and [onSeckill] of
    [GRPC/src/seckill_client.cc] derive a user's key from his number with the same
    lines: the MD5 digest, in hexadecimal, of the number twice and the salt. *)
From Stdlib Require Import ZArith Lia Ascii String.
From stdpp Require Import base tactics numbers strings list.
From S2P Require Import Prelude Words Md5Spec Md5 Md5Correct CString.

Local Open Scope Z_scope.

Definition SALT : string := "salt".

(** [std::string prikey] *)
Definition prikey (i : Z) : string := to_string i +:+ to_string i +:+ SALT.

(** [md5_str]: [junk] and [junk8] are the uninitialised bytes of [GenerateMD5]. *)
Definition md5_str (junk junk8 : list Z) (i : Z) : string :=
  let iMD5 := MD5_new in
  let iMD5 := GenerateMD5 iMD5 (bytes_of_string (c_str (prikey i)))
                (Z.of_nat (String.length (c_str (prikey i)))) junk junk8 in
  string_of_bytes (MD5_ToString iMD5).

(** The digits of a digest. *)
Definition hex_string (digest : list Z) : string := string_of_bytes (mjoin (map hex_byte digest)).

Lemma rfc_md5_length msg : length (rfc_md5 msg) = 16%nat.
Proof.
  unfold rfc_md5, rfc_digest_bytes. destruct (foldl _ _ _) as [[[a b] c] d]. reflexivity.
Qed.

Lemma digest_ToString (m : MD5) digest rest :
  m_data m = digest ++ rest -> length digest = 16%nat ->
  MD5_ToString m = mjoin (map hex_byte digest).
Proof.
  intros Hm Hl. unfold MD5_ToString. rewrite Hm.
  do 16 (destruct digest as [|? digest]; [discriminate|]). destruct digest; [|discriminate].
  reflexivity.
Qed.

Lemma md5_str_digest junk junk8 i :
  length junk = 64%nat -> length junk8 = 8%nat ->
  md5_str junk junk8 i = hex_string (rfc_md5 (bytes_of_string (c_str (prikey i)))).
Proof.
  intros Hj Hj8. unfold md5_str, hex_string. f_equal. rewrite <- bytes_length.
  eapply digest_ToString; [|apply rfc_md5_length].
  apply GenerateMD5_data; [|simpl; lia|done|done].
  rewrite bytes_length. pose proof (c_str_length (prikey i)) as Hc. unfold prikey in Hc |- *.
  rewrite !length_append in Hc. pose proof (to_string_length i). simpl in Hc. lia.
Qed.

(** C21: a client and the server give user [i] the same key, whatever their stacks hold:
    the hexadecimal RFC 1321 digest of the number written twice and the salt. *)
Theorem keys_agree (i : Z) (server_junk server_junk8 client_junk client_junk8 : list Z) :
  length server_junk = 64%nat -> length server_junk8 = 8%nat ->
  length client_junk = 64%nat -> length client_junk8 = 8%nat ->
  md5_str server_junk server_junk8 i = md5_str client_junk client_junk8 i /\
  md5_str server_junk server_junk8 i =
    hex_string (rfc_md5 (bytes_of_string (c_str (prikey i)))).
Proof. intros ????. by rewrite !md5_str_digest by done. Qed.

Lemma keys_agree_witness :
  md5_str (replicate 64 1) (replicate 8 2) 7 = md5_str (replicate 64 3) (replicate 8 4) 7.
Proof.
  apply (keys_agree 7 (replicate 64 1) (replicate 8 2) (replicate 64 3) (replicate 8 4));
    reflexivity.
Defined.
