(* ===== verification/Prog.v ===== *)
(** * Programs over external services

    The server's handlers talk to Redis, MySQL, gRPC and to variables shared between
    threads.  A handler is a tree of calls: at each call the environment answers and
    the handler goes on.  Nothing is assumed here of the answers: a theorem about
    the executions of a tree holds for every behaviour of the services and of the
    other threads. *)
From Stdlib Require Import ZArith Lia Ascii String.
From stdpp Require Import base tactics numbers strings list.
From S2P Require Import Prelude Words Pool CString.

Local Open Scope Z_scope.

(** ** The calls *)

(** [redisReply] of hiredis: [type], [integer], [str] and [elements]. *)
Record redisReply := RedisReply {
  type : Z;
  integer : Z;
  str : option string;
  elements : Z;
}.

Definition REDIS_REPLY_STRING : Z := 1.
Definition REDIS_REPLY_ARRAY : Z := 2.
Definition REDIS_REPLY_INTEGER : Z := 3.
Definition REDIS_REPLY_NIL : Z := 4.
Definition REDIS_REPLY_STATUS : Z := 5.
Definition REDIS_REPLY_ERROR : Z := 6.

(** A row of a result set: one entry per field, [None] for SQL's NULL. *)
Abbreviation MYSQL_ROW := (list (option string)).

(** A [std::string] of the protocol and the addresses of the server's objects. *)
Abbreviation address := positive.

(** The calls of the handlers and of the server's threads, with their arguments.  A
    pointer that may be null is an option. *)
Inductive call :=
(* the connection pools *)
| redis_getOneConnect
| redis_close (c : option conn)
| mysql_getOneConnect
| mysql_close (c : option conn)
(* hiredis: the format and the strings it refers to *)
| redisCommand (c : option conn) (format : string) (args : list string)
| freeReplyObject (r : option redisReply)
| redisFree (c : option conn)
(* the MySQL client; [mysql_fetch_rows] is the run of [mysql_fetch_row] up to NULL *)
| mysql_query (c : option conn) (sql : string)
| mysql_use_result (c : option conn)
| mysql_fetch_row (res : option address)
| mysql_fetch_rows (res : option address)
| mysql_free_result (res : option address)
| mysql_autocommit (c : option conn) (mode : Z)
| mysql_commit (c : option conn)
| mysql_rollback (c : option conn)
(* the variables shared by the threads *)
| rwlock_wrlock
| rwlock_unlock
| read_failedCount
| write_failedCount (z : Z)
| read_successNum
| write_successNum (z : Z)
(* gRPC *)
| new_Worker
| delete_Worker (this : address)
| Requestseckill (this : address)
| Finish (this : address) (result : string)
| cq_Next
| BuildAndStart (listen : string) (max_receive max_send : Z)
(* the client: its call of the service, and the variables its threads share *)
| StartCall (usrname usrkey : string)
| client_Next
| mtx_lock
| mtx_unlock
| read_success_count
| write_success_count (z : Z)
| read_response_count
| write_response_count (z : Z)
| getMysqlPoolObject
| mysql_setParameter (host user pwd db : string) (port : Z) (socket : option string)
    (client_flag max_connect : Z)
| mysql_executeSql (sql : string)
| delete_mysql
(* the server's [main] and [~ServerImpl] *)
| getRedisPoolObject
| redis_setParameter (host : string) (port : Z) (socket : option string) (client_flag max_connect : Z)
| delete_redis
| server_Shutdown
| cq_Shutdown
(* the members of a worker, in the memory the threads share; [construct_Worker] is the
   list of initialisers of the constructor *)
| construct_Worker (this : address)
| load_status (this : address)
| store_status (this : address) (s : Z)
| load_request (this : address)
| load_response (this : address)
| store_response (this : address) (result : string)
(* the process and its threads *)
| pthread_rwlock_init
| pthread_create (i : Z)
| pthread_join (i : Z)
| process_exit (code : Z).

(** What [cq_->Next] delivers: its result, the tag and [ok]; for the tag of a worker that
    waits for a request, the request gRPC has stored in it. *)
Record completion := Completion {
  got_event : bool;
  tag : address;
  ok : bool;
  request : option (string * string);
}.

(** What the client's [cq.Next] delivers: its result, whether the tag is the one given to
    [Finish], [ok], and the status and response stored there. *)
Record client_completion := ClientCompletion {
  c_got_event : bool;
  c_tag : Z;
  c_ok : bool;
  c_status_ok : bool;
  c_result : string;
}.

(** What each call returns. *)
Definition ans (c : call) : Type :=
  match c with
  | redis_getOneConnect | mysql_getOneConnect => option conn
  | redisCommand _ _ _ => option redisReply
  | mysql_query _ _ => Z
  | mysql_use_result _ => option address
  | mysql_fetch_row _ => option MYSQL_ROW
  | mysql_fetch_rows _ => list MYSQL_ROW
  | mysql_autocommit _ _ | mysql_commit _ | mysql_rollback _ => Z
  | read_failedCount | read_successNum => Z
  | client_Next => client_completion
  | read_success_count | read_response_count => Z
  | mysql_executeSql _ => list (string * list (option string))
  | pthread_create _ => Z
  | load_status _ => Z
  | load_request _ => string * string
  | load_response _ => string
  | new_Worker => address
  | cq_Next => completion
  | _ => unit
  end.

(** ** Programs *)

(** [Undef]: the C++ program has no defined behaviour from here on (a null pointer
    read as a string, an overrun buffer, a failed assertion, ...). *)
Inductive prog (A : Type) :=
| Ret (a : A)
| Vis (c : call) (k : ans c -> prog A)
| Undef (why : string).
Arguments Ret {A}.
Arguments Vis {A}.
Arguments Undef {A}.

Fixpoint bind {A B} (p : prog A) (f : A -> prog B) : prog B :=
  match p with
  | Ret a => f a
  | Vis c k => Vis c (fun r => bind (k r) f)
  | Undef why => Undef why
  end.

Declare Scope prog_scope.
Delimit Scope prog_scope with prog.
Notation "'let!' x ':=' c 'in' k" := (Vis c (fun x => k))
  (at level 10, x name, c at level 100, k at level 200,
   format "'[v' 'let!'  x  ':='  c  'in' '/' k ']'") : prog_scope.
Notation "c ';;!' k" := (Vis c (fun _ => k))
  (at level 199, right associativity, format "'[v' c ';;!' '/' k ']'") : prog_scope.
Notation "'do' x '<-' p ';' k" := (bind p (fun x => k))
  (at level 10, x name, p at level 100, k at level 200,
   format "'[v' 'do'  x  '<-'  p ';' '/' k ']'") : prog_scope.

(** ** Executions *)

Inductive event := Ev (c : call) (r : ans c).

(** The call of an event. *)
Definition call_of (e : event) : call := let '(Ev c _) := e in c.

Inductive outcome (A : Type) :=
| Val (a : A)
| UB (why : string).
Arguments Val {A}.
Arguments UB {A}.

(** [exec p t o]: with the answers recorded in [t], [p] performs the calls of [t]
    and ends with [o]. *)
Fixpoint exec {A} (p : prog A) (t : list event) (o : outcome A) : Prop :=
  match p with
  | Ret a => t = [] /\ o = Val a
  | Undef why => t = [] /\ o = UB why
  | Vis c k => exists r t', t = Ev c r :: t' /\ exec (k r) t' o
  end.

(** A run against a service [h] that answers every call, with the calls made. *)
Section run.
Context {W : Type} (h : forall c : call, W -> ans c * W).

Fixpoint run {A} (p : prog A) (w : W) : outcome A * list event * W :=
  match p with
  | Ret a => (Val a, [], w)
  | Undef why => (UB why, [], w)
  | Vis c k =>
      let '(r, w') := h c w in
      let '(o, t, w'') := run (k r) w' in
      (o, Ev c r :: t, w'')
  end.

Lemma run_exec {A} (p : prog A) w : exec p (run p w).1.2 (run p w).1.1.
Proof.
  revert w. induction p as [a|c k IH|why]; intros w; simpl; [done| |done].
  destruct (h c w) as [r w']. specialize (IH r w').
  destruct (run (k r) w') as [[o t] w'']. eauto.
Qed.
End run.

(** Every program reaches an outcome: a run of it exists against any service. *)
Lemma exec_bind {A B} (p : prog A) (f : A -> prog B) t o :
  exec (bind p f) t o <->
  (exists t1 t2 a, t = t1 ++ t2 /\ exec p t1 (Val a) /\ exec (f a) t2 o) \/
  (exists why, exec p t (UB why) /\ o = UB why).
Proof.
  revert t. induction p as [a|c k IH|why]; intros t; simpl.
  - split.
    + intros Hf. left. exists [], t, a. naive_solver.
    + intros [(t1 & t2 & a' & -> & [-> [= ->]] & Hf)|(why & [_ [=]] & _)]; done.
  - split.
    + intros (r & t' & -> & Hk). apply IH in Hk as [(t1 & t2 & a & -> & H1 & H2)|(why & H1 & ->)].
      * left. exists (Ev c r :: t1), t2, a. split_and!; [done| |done]. eauto.
      * right. exists why. eauto 6.
    + intros [(t1 & t2 & a & -> & (r & t' & -> & H1) & H2)|(why & (r & t' & -> & H1) & ->)].
      * exists r, (t' ++ t2). split; [done|]. apply IH. left. eauto 8.
      * exists r, t'. split; [done|]. apply IH. right. eauto.
  - split.
    + intros [-> ->]. right. eauto.
    + intros [(t1 & t2 & a & -> & [_ [=]] & _)|(why' & [-> [= ->]] & ->)]; done.
Qed.

(** ** Reasoning about all executions

    [wp ok upd p g Q]: when every answer satisfies [ok], every execution of [p]
    from the ghost state [g], updated by [upd] at each call, ends in [Q]. *)
Section wp.
Context {G : Type} (ok : G -> forall c, ans c -> Prop) (upd : G -> event -> G).

Fixpoint wp {A} (p : prog A) (g : G) (Q : G -> outcome A -> Prop) : Prop :=
  match p with
  | Ret a => Q g (Val a)
  | Undef why => Q g (UB why)
  | Vis c k => forall r, ok g c r -> wp (k r) (upd g (Ev c r)) Q
  end.

Lemma wp_mono {A} (p : prog A) g (Q1 Q2 : G -> outcome A -> Prop) :
  (forall g o, Q1 g o -> Q2 g o) -> wp p g Q1 -> wp p g Q2.
Proof.
  intros HQ. revert g. induction p as [a|c k IH|why]; intros g; simpl; auto.
Qed.

Lemma wp_bind {A B} (p : prog A) (f : A -> prog B) g (Q : G -> outcome B -> Prop) :
  wp p g (fun g o => match o with Val a => wp (f a) g Q | UB why => Q g (UB why) end) ->
  wp (bind p f) g Q.
Proof. revert g. induction p as [a|c k IH|why]; intros g; simpl; auto. Qed.

(** The answers of an execution are acceptable. *)
Fixpoint trace_ok (g : G) (t : list event) : Prop :=
  match t with
  | [] => True
  | Ev c r :: t' => ok g c r /\ trace_ok (upd g (Ev c r)) t'
  end.

Lemma trace_ok_app g t1 t2 :
  trace_ok g (t1 ++ t2) <-> trace_ok g t1 /\ trace_ok (foldl upd g t1) t2.
Proof.
  revert g. induction t1 as [|[c r] t1 IH]; intros g; simpl; [tauto|]. rewrite IH. tauto.
Qed.

Lemma wp_exec {A} (p : prog A) g Q t o :
  wp p g Q -> exec p t o -> trace_ok g t -> Q (foldl upd g t) o.
Proof.
  revert g t. induction p as [a|c k IH|why]; intros g t Hwp Hex Hok; simpl in *.
  - by destruct Hex as [-> ->].
  - destruct Hex as (r & t' & -> & Hex). destruct Hok as [Hr Hok].
    by apply (IH r _ _ (Hwp r Hr)).
  - by destruct Hex as [-> ->].
Qed.
End wp.

(** No condition on the answers. *)
Definition any_answer {G : Type} (g : G) (c : call) (r : ans c) : Prop := True.

Lemma trace_ok_any {G} (upd : G -> event -> G) g t : trace_ok any_answer upd g t.
Proof. revert g. induction t as [|[c r] t IH]; intros g; simpl; [done|]. by split. Qed.

(** ** Programs that only make calls of one kind *)

Fixpoint all_calls {A} (P : call -> Prop) (p : prog A) : Prop :=
  match p with
  | Ret _ | Undef _ => True
  | Vis c k => P c /\ forall r, all_calls P (k r)
  end.

Lemma all_calls_bind {A B} P (p : prog A) (f : A -> prog B) :
  all_calls P p -> (forall a, all_calls P (f a)) -> all_calls P (bind p f).
Proof.
  intros Hp Hf. induction p as [a|c k IH|why]; simpl in *; [done| |done].
  destruct Hp as [Hc Hk]. split; [done|]. intros r. apply IH, Hk.
Qed.

Lemma all_calls_mono {A} (P Q : call -> Prop) (p : prog A) :
  (forall c, P c -> Q c) -> all_calls P p -> all_calls Q p.
Proof.
  intros HPQ. induction p as [a|c k IH|why]; simpl; [done| |done].
  intros [Hc Hk]. split; [auto|]. intros r. apply IH, Hk.
Qed.

Lemma all_calls_exec {A} P (p : prog A) t o :
  all_calls P p -> exec p t o -> Forall (fun e => P (call_of e)) t.
Proof.
  revert t. induction p as [a|c k IH|why]; intros t; simpl.
  - by intros _ [-> _].
  - intros [Hc Hk] (r & t' & -> & Hex). constructor; [done|]. by apply (IH r).
  - by intros _ [-> _].
Qed.

(** A ghost state that no call of the program changes. *)
Lemma wp_all_calls {G A} ok upd (P : call -> Prop) (p : prog A) (g : G) :
  (forall c r, P c -> upd g (Ev c r) = g) -> all_calls P p ->
  wp ok upd p g (fun g' _ => g' = g).
Proof.
  intros Hupd. induction p as [a|c k IH|why]; simpl; [done| |done].
  intros [Hc Hk] r _. rewrite Hupd by done. apply IH, Hk.
Qed.

(** One step of a proof of [all_calls]. *)
Ltac calls_step :=
  match goal with
  | |- all_calls _ (Ret _) => exact I
  | |- all_calls _ (Undef _) => exact I
  | |- all_calls _ (Vis _ _) => split; [first [exact I | reflexivity | assumption]|intros ?]
  | |- all_calls _ (bind _ _) => apply all_calls_bind; [|intros ?]
  | |- all_calls _ (let '(_, _) := ?x in _) => destruct x
  | |- all_calls _ (match ?x with _ => _ end) => destruct x eqn:?
  end.
Ltac calls_run := repeat (calls_step; cbn beta iota zeta).

(** ** C library calls with undefined cases *)

(** [sprintf] into a local array of [size] bytes: the text and its NUL must fit. *)
Definition sprintf (size : Z) (text : string) : prog string :=
  if Z.of_nat (String.length text) <? size then Ret text
  else Undef "sprintf overruns its buffer".

(** Using a [char *] that must not be null. *)
Definition not_null (s : option string) : prog string :=
  match s with Some s => Ret (c_str s) | None => Undef "null string" end.

Definition c_atoi (s : option string) : prog Z :=
  match s with
  | Some s => match atoi (c_str s) with Some z => Ret z | None => Undef "atoi overflows" end
  | None => Undef "null string"
  end.

(** [reply != NULL && reply->type == REDIS_REPLY_STATUS && (strcasecmp(reply->str,"OK") == 0)] *)
Definition is_OK (reply : option redisReply) : prog bool :=
  match reply with
  | Some r =>
      if type r =? REDIS_REPLY_STATUS then
        bind (not_null (str r)) (fun s => Ret (strcasecmp_eq s "OK"))
      else Ret false
  | None => Ret false
  end.
