(* ===== verification/Threads.v ===== *)
(** * Threads

    Any number of threads, each running a program of [Prog.v], over a shared state.
    One call of one thread is one step; the shared state decides the answer and may
    refuse a call (the thread then waits).  A ghost state per thread records how far
    it is in a protocol; a program that follows the protocol keeps every invariant
    that relates the shared state to the ghosts. *)
From Stdlib Require Import ZArith Lia String.
From stdpp Require Import base tactics numbers strings relations list.
From S2P Require Import Prelude Prog.

(** ** Programs that follow a protocol *)

Section follows.
Context {G : Type} (pre : G -> call -> Prop) (ok : G -> forall c, ans c -> Prop)
  (upd : G -> event -> G).

(** Every call the program makes is allowed ([pre]) in the ghost state reached, as long
    as the answers are possible ([ok]); at the end [Q] holds. *)
Fixpoint follows {A} (p : prog A) (g : G) (Q : G -> outcome A -> Prop) : Prop :=
  match p with
  | Ret a => Q g (Val a)
  | Undef why => Q g (UB why)
  | Vis c k => pre g c /\ forall r, ok g c r -> follows (k r) (upd g (Ev c r)) Q
  end.

Lemma follows_mono {A} (p : prog A) g (Q1 Q2 : G -> outcome A -> Prop) :
  (forall g o, Q1 g o -> Q2 g o) -> follows p g Q1 -> follows p g Q2.
Proof.
  intros HQ. revert g. induction p as [a|c k IH|why]; intros g; simpl; auto.
  intros [Hc Hk]. split; [done|]. auto.
Qed.

Lemma follows_bind {A B} (p : prog A) (f : A -> prog B) g (Q : G -> outcome B -> Prop) :
  follows p g (fun g o => match o with Val a => follows (f a) g Q | UB why => Q g (UB why) end) ->
  follows (bind p f) g Q.
Proof.
  revert g. induction p as [a|c k IH|why]; intros g; simpl; auto.
  intros [Hc Hk]. split; [done|]. auto.
Qed.

(** What a program that follows the protocol does in an execution with possible answers. *)
Lemma follows_exec {A} (p : prog A) g Q t o :
  follows p g Q -> exec p t o -> trace_ok ok upd g t ->
  Q (foldl upd g t) o /\ forall t1 c r t2, t = t1 ++ Ev c r :: t2 -> pre (foldl upd g t1) c.
Proof.
  revert g t. induction p as [a|c k IH|why]; intros g t; simpl.
  - intros HQ [-> ->] _. split; [done|]. by intros [].
  - intros [Hc Hk] (r & t' & -> & Hex) [Hr Hok].
    destruct (IH r _ _ (Hk r Hr) Hex Hok) as [HQ Hpre]. split; [done|].
    intros [|e t1] c' r' t2 Heq; injection Heq; intros; subst; [done|by eapply Hpre].
  - intros HQ [-> ->] _. split; [done|]. by intros [].
Qed.

(** Calls outside the protocol: allowed in [g], and leaving it as it is. *)
Lemma follows_all_calls {A} (P : call -> Prop) (p : prog A) g (Q : G -> outcome A -> Prop) :
  (forall c, P c -> pre g c) -> (forall c r, P c -> upd g (Ev c r) = g) ->
  all_calls P p -> (forall o, Q g o) -> follows p g Q.
Proof.
  intros Hpre Hupd Hp HQ. induction p as [a|c k IH|why]; simpl in *; [done| |done].
  destruct Hp as [Hc Hk]. split; [by apply Hpre|]. intros r _. rewrite Hupd by done. by apply IH.
Qed.
End follows.

(** Two protocols that agree on the calls a program makes. *)
Lemma follows_swap {G A} (P : call -> Prop) pre1 ok1 upd1 pre2 ok2 upd2 (p : prog A) (g : G) Q :
  (forall g c, P c -> pre1 g c -> pre2 g c) ->
  (forall g c r, P c -> ok2 g c r -> ok1 g c r) ->
  (forall g c r, P c -> upd2 g (Ev c r) = upd1 g (Ev c r)) ->
  all_calls P p -> follows pre1 ok1 upd1 p g Q -> follows pre2 ok2 upd2 p g Q.
Proof.
  intros Hpre Hok Hupd. revert g. induction p as [a|c k IH|why]; intros g; simpl; [done| |done].
  intros [Hc Hk] [H1 H2]. split; [by apply Hpre|]. intros r Hr. rewrite Hupd by done. apply IH; auto.
Qed.

(** A program that follows two protocols follows both at once. *)
Lemma follows_both {G1 G2 A} pre1 ok1 upd1 pre2 ok2 upd2 (p : prog A) (g1 : G1) (g2 : G2) Q1 Q2 :
  follows pre1 ok1 upd1 p g1 Q1 -> follows pre2 ok2 upd2 p g2 Q2 ->
  follows (fun g c => pre1 g.1 c /\ pre2 g.2 c) (fun g c r => ok1 g.1 c r /\ ok2 g.2 c r)
    (fun g e => (upd1 g.1 e, upd2 g.2 e)) p (g1, g2) (fun g o => Q1 g.1 o /\ Q2 g.2 o).
Proof.
  revert g1 g2. induction p as [a|c k IH|why]; intros g1 g2; simpl; [done| |done].
  intros [Hc1 Hk1] [Hc2 Hk2]. split; [done|]. intros r [Hr1 Hr2]. auto.
Qed.

(** ** The system *)

(** The service of a system: its answer to each call of a thread, and its next state. *)
Class ServerState (S : Type) := serve_call : nat -> S -> forall c, ans c -> S -> Prop.

(** One step of the service, whoever calls. *)
Definition serves {S} `{ServerState S} : relation S := fun s s' => exists i c r, serve_call i s c r s'.

Section system.
Context {S A : Type} (serve : nat -> S -> forall c, ans c -> S -> Prop).

Record config := Config { shared : S; threads : list (prog A) }.

Inductive step : config -> config -> Prop :=
| step_call i s ts c k r s' :
    ts !! i = Some (Vis c k) -> serve i s c r s' ->
    step (Config s ts) (Config s' (<[i := k r]> ts)).

Definition reachable : config -> config -> Prop := rtc step.

(** What a thread has ended with. *)
Definition ended (p : prog A) : option (outcome A) :=
  match p with Ret a => Some (Val a) | Undef why => Some (UB why) | Vis _ _ => None end.

Section invariant.
Context {G : Type} (pre : G -> call -> Prop) (ok : G -> forall c, ans c -> Prop)
  (upd : G -> event -> G) (Q : G -> outcome A -> Prop).
(** [R s gs]: the shared state fits the threads' ghosts. *)
Context (R : S -> list G -> Prop).
Hypothesis R_step : forall i s gs g c r s',
  R s gs -> gs !! i = Some g -> pre g c -> serve i s c r s' ->
  ok g c r /\ R s' (<[i := upd g (Ev c r)]> gs).

Definition inv (x : config) : Prop :=
  exists gs, R (shared x) gs /\
    Forall2 (fun p g => follows pre ok upd p g Q) (threads x) gs.

Lemma inv_step x x' : inv x -> step x x' -> inv x'.
Proof using R_step.
  intros (gs & HR & Hts) Hstep. destruct Hstep as [i s ts c k r s' Hi Hserve]. simpl in *.
  destruct (Forall2_lookup_l _ _ _ _ _ Hts Hi) as (g & Hg & [Hpre Hk]).
  destruct (R_step i s gs g c r s' HR Hg Hpre Hserve) as [Hok HR'].
  exists (<[i := upd g (Ev c r)]> gs). split; [done|].
  by apply Forall2_insert; [|apply Hk].
Qed.

Lemma inv_reachable x x' : inv x -> reachable x x' -> inv x'.
Proof using R_step. intros Hx Hr. induction Hr; eauto using inv_step. Qed.
End invariant.
End system.
Arguments config : clear implicits.
Arguments Config {S A}.

(** Reachability under a shared state that allows less. *)
Lemma reachable_mono {S A} (serve1 serve2 : nat -> S -> forall c, ans c -> S -> Prop)
    (x y : config S A) :
  (forall i s c r s', serve1 i s c r s' -> serve2 i s c r s') ->
  reachable serve1 x y -> reachable serve2 x y.
Proof.
  intros Hle. induction 1 as [|x y z Hxy _ IH]; [apply rtc_refl|].
  eapply rtc_l; [|exact IH]. destruct Hxy as [i s ts c k r s' Hi Hs].
  by apply step_call with c; [|apply Hle].
Qed.

(** ** Schedules *)

(** A shared state whose answer is a function; [None]: the thread waits. *)
Section schedules.
Context {S A : Type} (serve_fn : nat -> S -> forall c, option (ans c * S)).

Definition served_by (i : nat) (s : S) (c : call) (r : ans c) (s' : S) : Prop :=
  serve_fn i s c = Some (r, s').

(** One step of thread [i]; the configuration is unchanged when it waits or has ended. *)
Definition turn (i : nat) (x : config S A) : config S A :=
  match threads x !! i with
  | Some (Vis c k) =>
      match serve_fn i (shared x) c with
      | Some (r, s') => Config s' (<[i := k r]> (threads x))
      | None => x
      end
  | _ => x
  end.

(** The threads' turns in the order of the schedule. *)
Definition play (schedule : list nat) (x : config S A) : config S A :=
  foldl (fun x i => turn i x) x schedule.

Lemma turn_reachable i x : reachable served_by x (turn i x).
Proof.
  unfold turn. destruct x as [s ts]. simpl.
  destruct (ts !! i) as [[a|c k|why]|] eqn:Hi; try apply rtc_refl.
  destruct (serve_fn i s c) as [[r s']|] eqn:Hs; [|apply rtc_refl].
  apply rtc_once. by apply step_call with c.
Qed.

Lemma play_reachable schedule x : reachable served_by x (play schedule x).
Proof.
  revert x. induction schedule as [|i l IH]; intros x; [apply rtc_refl|].
  etrans; [apply turn_reachable|apply IH].
Qed.

(** One thread alone, as long as it does not wait. *)
Fixpoint solo {B} (i : nat) (p : prog B) (s : S) : option (B * S) :=
  match p with
  | Ret b => Some (b, s)
  | Vis c k => '(r, s') ← serve_fn i s c; solo i (k r) s'
  | Undef _ => None
  end.

Lemma solo_reachable {B} i (p : prog B) (k : B -> prog A) s b s' ts :
  ts !! i = Some (bind p k) -> solo i p s = Some (b, s') ->
  reachable served_by (Config s ts) (Config s' (<[i := k b]> ts)).
Proof.
  revert s ts. induction p as [a|c f IH|why]; intros s ts Hi Hs; simpl in *; [| |done].
  - injection Hs as -> ->. rewrite list_insert_id by done. apply rtc_refl.
  - destruct (serve_fn i s c) as [[r s1]|] eqn:Hc; [|done]. simpl in Hs.
    eapply rtc_l; [eapply step_call; [exact Hi|exact Hc]|].
    rewrite <- (list_insert_insert_eq ts i (k b) (bind (f r) k)).
    refine (IH r s1 (<[i := bind (f r) k]> ts) _ Hs). apply list_lookup_insert_eq. by eapply lookup_lt_Some.
Qed.
End schedules.

(** ** Refinement by hiding calls

    A program that makes some calls the other does not make.  The other is not known as a
    whole: an answer to a hidden call decides it step by step.  So the thread is followed by
    the family of the programs it may still be doing the work of. *)
Section hiding.
Context {S A G : Type} (serve : nat -> S -> forall c, ans c -> S -> Prop) (hidden : call -> bool).
Context (pre : G -> call -> Prop) (ok : G -> forall c, ans c -> Prop) (upd : G -> event -> G).

Abbreviation family := (prog A -> Prop).

(** Some program of the family makes the call too, or it is hidden. *)
Definition family_pre (g : G * family) (c : call) : Prop :=
  pre g.1 c /\ exists q, g.2 q /\ (hidden c = false -> exists k, q = Vis c k).
Definition family_ok (g : G * family) (c : call) (r : ans c) : Prop := ok g.1 c r.
Definition family_next (F : family) (e : event) : family :=
  let '(Ev c r) := e in if hidden c then F else fun q => exists k, F (Vis c k) /\ q = k r.
Definition family_upd (g : G * family) (e : event) : G * family :=
  (upd g.1 e, family_next g.2 e).

(** It ends as one of the family does. *)
Definition family_end (g : G * family) (o : outcome A) : Prop :=
  match o with Val a => g.2 (Ret a) | UB why => g.2 (Undef why) end.

Lemma family_next_mono (F F' : family) e q :
  (forall q, F q -> F' q) -> family_next F e q -> family_next F' e q.
Proof. intros HF. destruct e as [c r]. simpl. destruct (hidden c); [auto|naive_solver]. Qed.

(** A smaller family will do. *)
Lemma follows_family_mono {B} (p : prog B) g (F F' : family) (Q : G * family -> outcome B -> Prop) :
  (forall g F F' o, (forall q, F q -> F' q) -> Q (g, F) o -> Q (g, F') o) ->
  (forall q, F q -> F' q) ->
  follows family_pre family_ok family_upd p (g, F) Q ->
  follows family_pre family_ok family_upd p (g, F') Q.
Proof.
  intros HQ. revert g F F'. induction p as [a|c k IH|why]; intros g F F' HF; simpl; [by apply HQ| |by apply HQ].
  intros [(Hpre & q & Hq & Hc) Hk]. split; [split; [done|]; exists q; split; [by apply HF|done]|].
  intros r Hr. eapply IH; [|by apply Hk]. intros q'. by apply family_next_mono.
Qed.

(** What only hidden calls do to the shared state. *)
Definition silent : relation S := rtc (fun s s' => exists i c r, hidden c = true /\ serve i s c r s').
Definition weakly (i : nat) (s : S) (c : call) (r : ans c) (s' : S) : Prop :=
  exists s1, silent s s1 /\ serve i s1 c r s'.

(** The program that the thread at [p] is doing the work of. *)
Definition shows (p q : prog A) : Prop :=
  match p with
  | Ret a => q = Ret a
  | Undef why => q = Undef why
  | Vis c _ => hidden c = false -> exists k, q = Vis c k
  end.

Context (R : S -> list G -> Prop).
Hypothesis R_step : forall i s gs g c r s',
  R s gs -> gs !! i = Some g -> pre g c -> serve i s c r s' ->
  ok g c r /\ R s' (<[i := upd g (Ev c r)]> gs).

(** Whatever members of the families the threads turn out to be, they have come there. *)
Definition family_inv (s0 : S) (Fs : list family) (s : S) (gs : list (G * family)) : Prop :=
  R s (fst <$> gs) /\
  forall qs, Forall2 (fun g q => g.2 q) gs qs -> exists qs0 s1,
    Forall2 (fun (F : family) q => F q) Fs qs0 /\ silent s1 s /\
    reachable weakly (Config s0 qs0) (Config s1 qs).

Lemma family_inv_step s0 Fs i s gs g c r s' :
  family_inv s0 Fs s gs -> gs !! i = Some g -> family_pre g c -> serve i s c r s' ->
  family_ok g c r /\ family_inv s0 Fs s' (<[i := family_upd g (Ev c r)]> gs).
Proof using R_step.
  intros [HR Hreach] Hi (Hpre & _ & _) Hserve. pose proof (lookup_lt_Some _ _ _ Hi) as Hlt.
  destruct (R_step i s (fst <$> gs) g.1 c r s') as [Hok HR']; [done|by rewrite list_lookup_fmap, Hi|done..|].
  split; [done|]. split; [by rewrite list_fmap_insert|]. intros qs Hqs.
  assert (Hback : forall q, g.2 q -> Forall2 (fun g q => g.2 q) gs (<[i := q]> qs)).
  { intros q Hq. rewrite <- (list_insert_id gs i g Hi), <- (list_insert_insert_eq gs i g (family_upd g (Ev c r))).
    by apply Forall2_insert. }
  destruct (Forall2_lookup_l _ _ _ i (family_upd g (Ev c r)) Hqs) as (q & Hq & Hqi);
    [by apply list_lookup_insert_eq|]. simpl in Hqi.
  destruct (hidden c) eqn:Hc.
  - destruct (Hreach qs) as (qs0 & s1 & H0 & Hsil & Hr).
    { rewrite <- (list_insert_id qs i q Hq). by apply Hback. }
    exists qs0, s1. split; [done|]. split; [|done]. eapply rtc_r; [exact Hsil|]. by exists i, c, r.
  - destruct Hqi as (k & Hk & ->). destruct (Hreach _ (Hback _ Hk)) as (qs0 & s1 & H0 & Hsil & Hr).
    exists qs0, s'. split; [done|]. split; [apply rtc_refl|]. eapply rtc_r; [exact Hr|].
    rewrite <- (list_insert_id qs i (k r) Hq) at 2. rewrite <- (list_insert_insert_eq qs i (k r) (Vis c k)).
    apply (step_call weakly i s1 _ c k r s'); [|by exists s].
    apply list_lookup_insert_eq. by eapply lookup_lt_Some.
Qed.

Lemma shows_some (p : prog A) g :
  follows family_pre family_ok family_upd p g family_end -> exists q, g.2 q /\ shows p q.
Proof. destruct p as [a|c k|why]; simpl; [by eauto| |by eauto]. intros [(_ & q & Hq & Hc) _]. eauto. Qed.

Lemma hiding_refines s0 ps gs (Fs : list family) x :
  R s0 gs -> length gs = length Fs ->
  Forall2 (fun p g => follows family_pre family_ok family_upd p g family_end) ps (zip gs Fs) ->
  reachable serve (Config s0 ps) x ->
  exists qs0 x', Forall2 (fun (F : family) q => F q) Fs qs0 /\ reachable weakly (Config s0 qs0) x' /\
    silent (shared x') (shared x) /\ Forall2 shows (threads x) (threads x').
Proof using R_step.
  intros HR Hl Hps Hr.
  assert (Hinv : inv family_pre family_ok family_upd family_end (family_inv s0 Fs) x).
  { eapply (inv_reachable serve); [| |exact Hr]; [intros; by eapply family_inv_step|].
    exists (zip gs Fs). split; [|done]. split; [by rewrite fst_zip by lia|].
    intros qs Hqs. exists qs, s0. split; [|split; apply rtc_refl].
    clear -Hl Hqs. revert Fs qs Hl Hqs. induction gs as [|g gs IH]; intros [|F Fs] qs; try done; simpl.
    - intros _ Hqs. by apply Forall2_nil_inv_l in Hqs as ->.
    - intros [= Hl] Hqs. inversion Hqs; subst. constructor; [done|]. by apply IH. }
  destruct Hinv as (gFs & [_ Hreach] & Hts).
  assert (Hqs : exists qs, Forall2 (fun g q => g.2 q) gFs qs /\ Forall2 shows (threads x) qs).
  { clear -Hts. induction Hts as [|p g ts gFs Hp _ (qs & IH1 & IH2)]; [by exists []|].
    destruct (shows_some p g Hp) as (q & Hq & Hs). exists (q :: qs). by split; constructor. }
  destruct Hqs as (qs & Hqs & Hshows). destruct (Hreach qs Hqs) as (qs0 & s1 & H0 & Hsil & Hr').
  exists qs0, (Config s1 qs). done.
Qed.
End hiding.
