(* ===== verification/Worker.v ===== *)
(** * The worker ([GRPC/src/Worker.h], [GRPC/src/Worker.cc])

    One definition per member function, as a program over the calls of [Prog.v].
    The member [response_] is passed in and out of the functions that set it.
    Console output is not modelled; [freeReplyObject] and the other releases are
    calls like the rest. *)
From Stdlib Require Import ZArith Lia Ascii String.
From stdpp Require Import base tactics numbers strings list.
From S2P Require Import Prelude Words Pool CString Prog.

Local Open Scope string_scope.
Local Open Scope prog_scope.
Local Open Scope Z_scope.

Definition RETRYCOUNT : Z := 20.

(** [int ON = 1; int OFF = 0;] *)
Definition ON : Z := 1.
Definition OFF : Z := 0.

Inductive WorkerStatus := CREATE | PROCESS | FINISH.

#[export] Instance WorkerStatus_eq_dec : EqDecision WorkerStatus.
Proof. solve_decision. Defined.

(** The members a worker owns: its request and response messages and its state.
    The pools, the counters and the lock are shared and reached through calls. *)
Record Worker := MkWorker {
  status_ : WorkerStatus;
  usrname : string;
  usrkey : string;
  response_ : string;
}.

Definition set_status (w : Worker) (s : WorkerStatus) : Worker :=
  {| status_ := s; usrname := usrname w; usrkey := usrkey w; response_ := response_ w |}.
Definition set_response (w : Worker) (r : string) : Worker :=
  {| status_ := status_ w; usrname := usrname w; usrkey := usrkey w; response_ := r |}.

(** The functions of libmysqlclient read and write the structure behind their [MYSQL *]: on
    a null pointer the first of them has no defined behaviour. *)
Definition not_null_conn (c : option conn) : prog unit :=
  match c with Some _ => Ret () | None => Undef "null MYSQL" end.

Lemma not_null_conn_cases c : not_null_conn c = Ret tt \/ not_null_conn c = Undef "null MYSQL".
Proof. destruct c; auto. Qed.

(** ** The SQL texts, before [sprintf]'s buffer is considered *)

Definition selSql_usr (usr_name : string) : string :=
  "SELECT usr_key FROM usr_info WHERE usr_name ='" +:+ c_str usr_name +:+ "'".
Definition selSql_order (usr_name : string) : string :=
  "SELECT * FROM order_info WHERE usr_name ='" +:+ c_str usr_name +:+ "' FOR UPDATE".
Definition selSql_goods : string :=
  "SELECT g_totalcount FROM goods_info WHERE g_id ='10' FOR UPDATE".
Definition updateSql (total_count : Z) : string :=
  "UPDATE goods_info SET g_totalcount = " +:+ to_string total_count +:+ " WHERE g_id = '10' ".
Definition insertOSql (usr_name usr_key : string) : string :=
  "INSERT INTO order_info(usr_name,usr_key,goods_id) VALUES ('" +:+ c_str usr_name +:+ "','"
    +:+ c_str usr_key +:+ "','10')".

(** ** Checking the user *)

(** The loop over the rows: [isUsr] becomes true at a row whose key is [usr_key]. *)
Fixpoint match_keys (rows : list MYSQL_ROW) (usr_key : string) (isUsr : bool) : prog bool :=
  match rows with
  | [] => Ret isUsr
  | row :: rows' =>
      match row with
      | [] => match_keys rows' usr_key isUsr
      | row0 :: _ =>
          do seusr_key <- not_null row0;
          match_keys rows' usr_key (if decide (seusr_key = usr_key) then true else isUsr)
      end
  end.

(** [if (result != NULL) mysql_free_result(result);] *)
Definition free_result (result : option address) : prog unit :=
  match result with
  | Some _ => mysql_free_result result;;! Ret ()
  | None => Ret ()
  end.

Definition checkUserInfo_mysql (usr_name usr_key : string) (mysqlcon : option conn) : prog bool :=
  do selSql <- sprintf 200 (selSql_usr usr_name);
  do _ <- not_null_conn mysqlcon;
  let! e := mysql_query mysqlcon selSql in
  if negb (e =? 0) then Ret false else
  let! result := mysql_use_result mysqlcon in
  let! rows := mysql_fetch_rows result in
  do isUsr <- match_keys rows usr_key false;
  do _ <- free_result result;
  Ret isUsr.

(** The reply is not freed on the path that returns [true]. *)
Definition checkUserInfo (usr_name usr_key : string) (redisconn mysqlcon : option conn)
    : prog bool :=
  match redisconn with
  | None => checkUserInfo_mysql usr_name usr_key mysqlcon
  | Some _ =>
      let! confirmReply := redisCommand redisconn "HGET usr_info %s" [c_str usr_name] in
      do same <-
        match confirmReply with
        | Some r =>
            if type r =? REDIS_REPLY_STRING then
              do key <- not_null (str r);
              Ret (bool_decide (usr_key = key))
            else Ret false
        | None => Ret false
        end;
      if same : bool then Ret true
      else freeReplyObject confirmReply;;! Ret false
  end.

(** ** Checking for an earlier order *)

Definition checkUserHasGot_mysql (usr_name usr_key : string) (mysqlcon : option conn)
    : prog bool :=
  do _ <- not_null_conn mysqlcon;
  let! _a := mysql_autocommit mysqlcon OFF in
  do selSql <- sprintf 200 (selSql_order usr_name);
  let! e := mysql_query mysqlcon selSql in
  do hasgot <-
    (if negb (e =? 0) then Ret false else
     let! result := mysql_use_result mysqlcon in
     let! rows := mysql_fetch_rows result in
     do _ <- free_result result;
     Ret (existsb (fun row => negb (Nat.eqb (List.length row) 0)) rows));
  let! _b := mysql_autocommit mysqlcon ON in
  Ret hasgot.

Definition checkUserHasGot (usr_name usr_key : string) (redisconn mysqlcon : option conn)
    : prog bool :=
  match redisconn with
  | None => checkUserHasGot_mysql usr_name usr_key mysqlcon
  | Some _ =>
      let! orderReply := redisCommand redisconn "HGET order_info %s" [c_str usr_name] in
      let found := match orderReply with
                   | Some r => (type r =? REDIS_REPLY_STRING) && bool_decide (is_Some (str r))
                   | None => false
                   end in
      if found then Ret true
      else freeReplyObject orderReply;;! Ret false
  end.

(** ** Taking one item in MySQL *)

(** The loop over the rows: the last row's count is kept. *)
Fixpoint last_count (rows : list MYSQL_ROW) (total_count : Z) : prog Z :=
  match rows with
  | [] => Ret total_count
  | row :: rows' =>
      match row with
      | [] => last_count rows' total_count
      | row0 :: _ => do n <- c_atoi row0; last_count rows' n
      end
  end.

(** The outcome of the first query: [isSuc] and [total_count]. *)
Definition select_goods (connection : option conn) : prog (bool * Z) :=
  let! e := mysql_query connection selSql_goods in
  if negb (e =? 0) then Ret (false, 0) else
  let! result := mysql_use_result connection in
  let! rows := mysql_fetch_rows result in
  do total_count <- last_count rows 0;
  do _ <- free_result result;
  Ret (true, total_count).

(** Returns the new [response_]; its old value is not used. *)
Definition seckillGoods_mysql (usr_name usr_key : string) (connection : option conn)
    (response : string) : prog string :=
  do _ <- not_null_conn connection;
  let! _a := mysql_autocommit connection OFF in
  do sel <- select_goods connection;
  let '(isSuc, total_count) := sel in
  if negb (0 <? total_count) then
    let response := "0" in
    let! _b := mysql_autocommit connection ON in
    Ret response
  else
  let total_count := total_count - 1 in
  do updateSql <- sprintf 200 (updateSql total_count);
  let! e1 := mysql_query connection updateSql in
  let isSuc := if e1 =? 0 then isSuc else false in
  do insertOSql <- sprintf 200 (insertOSql usr_name usr_key);
  let! e2 := mysql_query connection insertOSql in
  let isSuc := if e2 =? 0 then isSuc else false in
  do response <-
    (if negb isSuc then
       mysql_rollback connection;;!
       rwlock_wrlock;;!
       let! failedCount := read_failedCount in
       write_failedCount (failedCount + 1);;!
       rwlock_unlock;;!
       Ret "0"
     else
       mysql_commit connection;;!
       let response := "1" in
       let! successNum := read_successNum in
       write_successNum (successNum + 1);;!
       Ret response);
  let! _c := mysql_autocommit connection ON in
  Ret response.

(** ** Taking one item, Redis first *)

(** [watchReply != NULL] and the rest of the first test: the count to start from, or
    [None] to give up. *)
Definition read_total_count (redisconn : option conn) : prog (option Z) :=
  let! watchReply := redisCommand redisconn "WATCH %s" ["total_count"] in
  let! reply := redisCommand redisconn "GET %s" ["total_count"] in
  do ok <- match reply with Some _ => is_OK watchReply | None => Ret false end;
  match reply with
  | Some r =>
      if ok : bool then
        do currGoods_count <- c_atoi (str r);
        freeReplyObject watchReply;;!
        freeReplyObject reply;;!
        Ret (Some currGoods_count)
      else
        freeReplyObject watchReply;;!
        freeReplyObject reply;;!
        Ret None
  | None =>
      freeReplyObject watchReply;;!
      freeReplyObject reply;;!
      Ret None
  end.

(** The branch that finds nothing left: failed inserts are given back to Redis. *)
Definition give_back (redisconn : option conn) : prog string :=
  redisCommand redisconn "UNWATCH" [];;!
  rwlock_wrlock;;!
  let! failedCount := read_failedCount in
  do _ <-
    (if 0 <? failedCount then
       let! failed := read_failedCount in
       let failedC := to_string failed in
       let! setCreply := redisCommand redisconn "SET total_count %s" [failedC] in
       do ok <- is_OK setCreply;
       if ok : bool then write_failedCount 0;;! Ret () else Ret ()
     else Ret ());
  rwlock_unlock;;!
  Ret "0".

(** [execReply != NULL && type == ARRAY && elements > 1] *)
Definition exec_committed (execReply : option redisReply) : bool :=
  match execReply with
  | Some r => (type r =? REDIS_REPLY_ARRAY) && (1 <? elements r)
  | None => false
  end.

(** [seckillGoods] with at most [n] nested calls. *)
Fixpoint seckillGoods_rec (n : nat) (usr_name usr_key : string)
    (redisconn connection : option conn) (repeatCount : Z) (response : string) : prog string :=
  match n with
  | O => Undef "unreachable"
  | S n' =>
      match redisconn with
      | None => seckillGoods_mysql usr_name usr_key connection response
      | Some _ =>
          let repeatCount := repeatCount + 1 in
          do count <- read_total_count redisconn;
          match count with
          | None => Ret "0"
          | Some currGoods_count =>
              if 0 <? currGoods_count then
                let! multiReply := redisCommand redisconn "MULTI" [] in
                do ok <- is_OK multiReply;
                let retry :=
                  redisCommand redisconn "UNWATCH" [];;!
                  (if repeatCount <? RETRYCOUNT
                   then seckillGoods_rec n' usr_name usr_key redisconn connection repeatCount response
                   else Ret "0") in
                if ok : bool then
                  redisCommand redisconn "DECR %s" ["total_count"];;!
                  redisCommand redisconn "HMSET order_info  %s %s" [c_str usr_name; c_str usr_key];;!
                  let! execReply := redisCommand redisconn "EXEC" [] in
                  if exec_committed execReply then
                    freeReplyObject execReply;;!
                    seckillGoods_mysql usr_name usr_key connection response
                  else
                    do _ <- match execReply with
                            | Some _ => freeReplyObject execReply;;! Ret ()
                            | None => Ret ()
                            end;
                    do response <- retry;
                    freeReplyObject multiReply;;!
                    Ret response
                else
                  do response <- retry;
                  freeReplyObject multiReply;;!
                  Ret response
              else give_back redisconn
          end
      end
  end.

(** The recursion is limited by [RETRYCOUNT]: this many levels are enough. *)
Definition retry_levels (repeatCount : Z) : nat := S (Z.to_nat (RETRYCOUNT - repeatCount)).

Definition seckillGoods (usr_name usr_key : string) (redisconn connection : option conn)
    (repeatCount : Z) (response : string) : prog string :=
  seckillGoods_rec (retry_levels repeatCount) usr_name usr_key redisconn connection
    repeatCount response.

(** ** The state machine *)

(** The constructor, through the [CREATE] branch of [Proceed]: the object at [this]
    registers for a request and waits in state [PROCESS]. *)
Definition Worker_create (this : address) : prog Worker :=
  let w := {| status_ := CREATE; usrname := ""; usrkey := ""; response_ := "" |} in
  let w := set_status w PROCESS in
  Requestseckill this;;!
  Ret w.

(** The decision of the [PROCESS] branch: the response to send. *)
Definition handle_request (w : Worker) (redisconn mysqlconnection : option conn) : prog string :=
  let usr_name := usrname w in
  let usr_key := usrkey w in
  do known <- checkUserInfo usr_name usr_key redisconn mysqlconnection;
  if known : bool then
    do hasgot <- checkUserHasGot usr_name usr_key redisconn mysqlconnection;
    if negb hasgot
    then seckillGoods usr_name usr_key redisconn mysqlconnection 0 (response_ w)
    else Ret "0"
  else Ret "0".

(** [Proceed] of the worker [w] at address [this].  The result is the worker
    afterwards, [None] once it has deleted itself, and the worker it has created. *)
Definition Proceed (this : address) (w : Worker)
    : prog (option Worker * option (address * Worker)) :=
  match status_ w with
  | CREATE =>
      let w := set_status w PROCESS in
      Requestseckill this;;!
      Ret (Some w, None)
  | PROCESS =>
      let! redisconn := redis_getOneConnect in
      let! mysqlconnection := mysql_getOneConnect in
      let w := set_status w FINISH in
      redisCommand redisconn "LPUSH work_list %s" ["1"];;!
      let! next := new_Worker in
      do created <- Worker_create next;
      do result <- handle_request w redisconn mysqlconnection;
      let w := set_response w result in
      redis_close redisconn;;!
      mysql_close mysqlconnection;;!
      Finish this (response_ w);;!
      Ret (Some w, Some (next, created))
  | FINISH =>
      let! redisconn := redis_getOneConnect in
      redisCommand redisconn "lpop %s" ["work_list"];;!
      redis_close redisconn;;!
      delete_Worker this;;!
      Ret (None, None)
  end.
