(* ===== verification/Ledger.v ===== *)
(** * What a worker has done: a ledger of its calls

    The ledger is computed from the trace of calls and answers, so that a property
    of a handler's executions is a statement on the trace alone. *)
From Stdlib Require Import ZArith Lia Ascii String.
From stdpp Require Import base tactics numbers strings list.
From S2P Require Import Prelude Words Pool CString Prog Worker.

Local Open Scope string_scope.
Local Open Scope prog_scope.
Local Open Scope Z_scope.

Record ledger := Ledger {
  mode : Z;                              (* the autocommit mode of the connection *)
  queries : list (Z * string * Z);       (* statements: mode, text, returned code *)
  fetched : list MYSQL_ROW;              (* the last rows fetched *)
  commits : Z;
  rollbacks : Z;
  watches : Z;                           (* optimistic transactions begun *)
  tickets : Z;                           (* and committed by Redis *)
  sets : list (list string);             (* the values total_count was set to *)
  locked : bool;                         (* rwlock_ is held *)
  guarded : bool;                        (* failedCount was accessed under it only *)
  f_seen : Z;                            (* the last value read from failedCount *)
  f_delta : Z;                           (* the sum of the changes written to it *)
  s_seen : Z;                            (* the same for successNum *)
  s_delta : Z;
}.

Definition ledger0 : ledger :=
  {| mode := ON; queries := []; fetched := []; commits := 0; rollbacks := 0;
     watches := 0; tickets := 0; sets := []; locked := false; guarded := true;
     f_seen := 0; f_delta := 0; s_seen := 0; s_delta := 0 |}.

Definition note_mode z l := {| mode := z; queries := queries l; fetched := fetched l;
  commits := commits l; rollbacks := rollbacks l; watches := watches l; tickets := tickets l; sets := sets l;
  locked := locked l; guarded := guarded l; f_seen := f_seen l; f_delta := f_delta l;
  s_seen := s_seen l; s_delta := s_delta l |}.
Definition note_query q e l := {| mode := mode l; queries := queries l ++ [(mode l, q, e)];
  fetched := fetched l;
  commits := commits l; rollbacks := rollbacks l; watches := watches l; tickets := tickets l; sets := sets l;
  locked := locked l; guarded := guarded l; f_seen := f_seen l; f_delta := f_delta l;
  s_seen := s_seen l; s_delta := s_delta l |}.
Definition note_rows r l := {| mode := mode l; queries := queries l; fetched := r;
  commits := commits l; rollbacks := rollbacks l; watches := watches l; tickets := tickets l; sets := sets l;
  locked := locked l; guarded := guarded l; f_seen := f_seen l; f_delta := f_delta l;
  s_seen := s_seen l; s_delta := s_delta l |}.
Definition note_end c r l := {| mode := mode l; queries := queries l; fetched := fetched l;
  commits := commits l + c; rollbacks := rollbacks l + r; watches := watches l; tickets := tickets l; sets := sets l;
  locked := locked l; guarded := guarded l; f_seen := f_seen l; f_delta := f_delta l;
  s_seen := s_seen l; s_delta := s_delta l |}.
Definition note_watch w e l := {| mode := mode l; queries := queries l; fetched := fetched l;
  commits := commits l; rollbacks := rollbacks l; watches := watches l + w; tickets := tickets l + e; sets := sets l;
  locked := locked l; guarded := guarded l; f_seen := f_seen l; f_delta := f_delta l;
  s_seen := s_seen l; s_delta := s_delta l |}.
Definition note_lock b l := {| mode := mode l; queries := queries l; fetched := fetched l;
  commits := commits l; rollbacks := rollbacks l; watches := watches l; tickets := tickets l; sets := sets l;
  locked := b; guarded := guarded l && negb (Bool.eqb (locked l) b); f_seen := f_seen l;
  f_delta := f_delta l; s_seen := s_seen l; s_delta := s_delta l |}.
Definition note_failed s d l := {| mode := mode l; queries := queries l; fetched := fetched l;
  commits := commits l; rollbacks := rollbacks l; watches := watches l; tickets := tickets l; sets := sets l;
  locked := locked l; guarded := guarded l && locked l; f_seen := s; f_delta := f_delta l + d;
  s_seen := s_seen l; s_delta := s_delta l |}.
Definition note_success s d l := {| mode := mode l; queries := queries l; fetched := fetched l;
  commits := commits l; rollbacks := rollbacks l; watches := watches l; tickets := tickets l; sets := sets l;
  locked := locked l; guarded := guarded l; f_seen := f_seen l; f_delta := f_delta l;
  s_seen := s; s_delta := s_delta l + d |}.

Definition note_set z l := {| mode := mode l; queries := queries l; fetched := fetched l;
  commits := commits l; rollbacks := rollbacks l; watches := watches l; tickets := tickets l;
  sets := sets l ++ [z];
  locked := locked l; guarded := guarded l; f_seen := f_seen l; f_delta := f_delta l;
  s_seen := s_seen l; s_delta := s_delta l |}.

(** The entry of a Redis command: only [WATCH], [EXEC] and [SET] matter. *)
Definition note_redis (format : string) (args : list string) (r : option redisReply)
    (l : ledger) : ledger :=
  if String.eqb format "WATCH %s" then note_watch 1 0 l
  else if String.eqb format "EXEC" then note_watch 0 (if exec_committed r then 1 else 0) l
  else if String.eqb format "SET total_count %s" then note_set args l
  else l.

Definition note (l : ledger) (e : event) : ledger :=
  let '(Ev c r) := e in
  match c return ans c -> ledger with
  | mysql_autocommit _ z => fun _ => note_mode z l
  | mysql_query _ q => fun e => note_query q e l
  | mysql_fetch_rows _ => fun r => note_rows r l
  | mysql_commit _ => fun _ => note_end 1 0 l
  | mysql_rollback _ => fun _ => note_end 0 1 l
  | redisCommand _ f a => fun r => note_redis f a r l
  | rwlock_wrlock => fun _ => note_lock true l
  | rwlock_unlock => fun _ => note_lock false l
  | read_failedCount => fun z => note_failed z 0 l
  | write_failedCount z => fun _ => note_failed z (z - f_seen l) l
  | read_successNum => fun z => note_success z 0 l
  | write_successNum z => fun _ => note_success z (z - s_seen l) l
  | _ => fun _ => l
  end r.

(** The ledger of an execution from a fresh one. *)
Definition ledger_of (t : list event) : ledger := foldl note ledger0 t.

(** ** Symbolic execution of a handler *)

(** The two loops over rows make no call. *)
Lemma match_keys_no_call rows usr_key b :
  (exists b', match_keys rows usr_key b = Ret b') \/
  match_keys rows usr_key b = Undef "null string".
Proof.
  revert b. induction rows as [|[|[k|] row] rows IH]; intros b; simpl; eauto.
Qed.

Lemma last_count_no_call rows n :
  (exists n', last_count rows n = Ret n') \/
  (exists why, last_count rows n = Undef why /\ why <> "unreachable").
Proof.
  revert n. induction rows as [|[|[k|] row] rows IH]; intros n; simpl; eauto.
  destruct (atoi (c_str k)); simpl; eauto.
Qed.

#[global] Arguments exec_committed : simpl never.

(** One step of [wp]: a call, a [bind], a loop over rows, a test. *)
Ltac wp_step :=
  match goal with
  | |- forall _, _ => intro
  | |- wp _ _ (bind _ _) _ _ => apply wp_bind
  | |- wp _ _ (Ret _) _ _ => cbn [wp]
  | |- wp _ _ (Undef _) _ _ => cbn [wp]
  | |- wp _ _ (Vis _ _) _ _ => cbn [wp]
  | |- wp _ _ (last_count ?rows ?n) _ _ =>
      let H := fresh "Hcount" in destruct (last_count_no_call rows n) as [[? H]|(? & H & ?)]; rewrite H
  | |- wp _ _ (match_keys ?rows ?k ?b) _ _ =>
      let H := fresh "Hkeys" in destruct (match_keys_no_call rows k b) as [[? H]|H]; rewrite H
  | |- wp _ _ (match ?x with _ => _ end) _ _ => destruct x eqn:?
  | |- match (match ?x with _ => _ end) with _ => _ end => destruct x eqn:?
  end.
Ltac wp_run := repeat (wp_step; cbn beta iota zeta).

(** A fact on the lock, given that it was free. *)
Ltac bsolve := repeat match goal with H : locked _ = _ |- _ => rewrite H end; simpl;
  rewrite ?andb_true_r; first [done|lia].

(** The entries of a ledger, field by field. *)
Ltac ledger_fields := split_and?; simpl; rewrite <- ?app_assoc; simpl; intros;
  try (done || congruence || lia || eauto).
