(* ===== verification/WorkerProps.v ===== *)
(** * What the worker's handlers guarantee

    Theorems on all executions of the programs of [Worker.v]: whatever Redis, MySQL
    and the other threads answer. *)
From Stdlib Require Import ZArith Lia Ascii String.
From stdpp Require Import base tactics numbers strings list.
From S2P Require Import Prelude Words Pool CString Prog Worker Ledger.
Local Open Scope string_scope.
Local Open Scope prog_scope.
Local Open Scope Z_scope.

(** ** The ends of a purchase, from the ledger before to the ledger after

    *** In MySQL: bought in one transaction, rolled back and counted as failed, or
    given up before any change (the count could not be read or was not positive) *)

Definition purchased (usr_name usr_key : string) (l l' : ledger) : Prop :=
  exists n, 0 < n /\ last_count (fetched l') 0 = Ret n /\
  queries l' = (queries l ++ [(OFF, selSql_goods, 0); (OFF, updateSql (n - 1), 0);
                             (OFF, insertOSql usr_name usr_key, 0)])%list /\
  commits l' = commits l + 1 /\ rollbacks l' = rollbacks l /\
  f_delta l' = f_delta l /\ s_delta l' = s_delta l + 1.

Definition rolled_back (usr_name usr_key : string) (l l' : ledger) : Prop :=
  exists n e1 e2, 0 < n /\ last_count (fetched l') 0 = Ret n /\
  queries l' = (queries l ++ [(OFF, selSql_goods, 0); (OFF, updateSql (n - 1), e1);
                             (OFF, insertOSql usr_name usr_key, e2)])%list /\ (e1 <> 0 \/ e2 <> 0) /\
  commits l' = commits l /\ rollbacks l' = rollbacks l + 1 /\
  f_delta l' = f_delta l + 1 /\ s_delta l' = s_delta l.

Definition dropped (l l' : ledger) : Prop :=
  exists e, queries l' = (queries l ++ [(OFF, selSql_goods, e)])%list /\
  (e = 0 -> exists n, n <= 0 /\ last_count (fetched l') 0 = Ret n) /\
  commits l' = commits l /\ rollbacks l' = rollbacks l /\
  f_delta l' = f_delta l /\ s_delta l' = s_delta l.

Definition mysql_end (u k : string) (l l' : ledger) (s : string) : Prop :=
  s = "1" /\ purchased u k l l' \/ s = "0" /\ (rolled_back u k l l' \/ dropped l l').

Definition frame (l l' : ledger) : Prop :=
  (mode l = ON -> mode l' = ON) /\ sets l' = sets l /\ watches l' = watches l /\ tickets l' = tickets l /\
  (locked l = false -> locked l' = false /\ guarded l' = guarded l).

Lemma seckillGoods_mysql_ledger u k c r l :
  wp any_answer note (seckillGoods_mysql u k c r) l (fun l' o =>
    match o with Val s => frame l l' /\ mysql_end u k l l' s | UB why => why <> "unreachable" end).
Proof.
  unfold seckillGoods_mysql, not_null_conn, select_goods, sprintf, free_result.
  wp_run; try done; bool_facts; subst.
  all: split; [repeat split; simpl; intros; bsolve|].
  all: unfold mysql_end.
  all: match goal with |- "1" = _ /\ _ \/ _ => left | _ => right end; split; [done|].
  all: match goal with
    | H : last_count _ _ = Ret ?x, _ : 0 < ?x |- purchased _ _ _ _ => exists x; ledger_fields
    | H : last_count _ _ = Ret ?x, _ : 0 < ?x |- _ \/ _ => left; exists x; do 2 eexists; ledger_fields
    | |- _ \/ _ => right; eexists; ledger_fields
  end.
Qed.

(** *** With Redis *)

(** A request that got no reservation. *)
Definition no_ticket (l l' : ledger) (s : string) : Prop :=
  s = "0" /\ tickets l' = tickets l /\ queries l' = queries l /\
  commits l' = commits l /\ rollbacks l' = rollbacks l /\ s_delta l' = s_delta l /\
  (f_delta l' = f_delta l \/
   exists f, sets l' = (sets l ++ [[to_string f]])%list /\ f_delta l' = f_delta l - f).

Definition request_end (u k : string) (l l' : ledger) (s : string) : Prop :=
  no_ticket l l' s \/
  (tickets l' = tickets l + 1 /\ sets l' = sets l /\ mysql_end u k l l' s).

Lemma seckillGoods_ledger_rec n u k rc c m r l :
  RETRYCOUNT - m < Z.of_nat n -> (0 < n)%nat ->
  wp any_answer note (seckillGoods_rec n u k (Some rc) c m r) l (fun l' o =>
    match o with
    | Val s =>
        (mode l = ON -> mode l' = ON) /\
        (locked l = false -> locked l' = false /\ guarded l' = guarded l) /\
        watches l < watches l' <= watches l + Z.max 1 (RETRYCOUNT - m) /\
        request_end u k l l' s
    | UB why => why <> "unreachable" end).
Proof.
  revert m r l. induction n as [|n IH]; intros m r l Hn Hpos; [lia|].
  cbn [seckillGoods_rec]. unfold read_total_count, give_back, is_OK, c_atoi, not_null.
  wp_run; try done; bool_facts.
  all: match goal with
    | |- wp _ _ (seckillGoods_mysql _ _ _ _) _ _ =>
        eapply wp_mono; [|apply seckillGoods_mysql_ledger]; cbn beta iota; intros l' [s'|why']; [|done];
        intros [(Hmode & Hsets & Hw & Ht & Hl) Hend]
    | |- wp _ _ (seckillGoods_rec _ _ _ _ _ _ _) _ _ =>
        eapply wp_mono; [|apply IH; lia]; cbn beta iota; intros l' [s'|why']; [|done];
        intros (Hmode & Hl & Hw & Hend) ? _
    | _ => idtac
    end.
  all: simpl in *; split; [by auto|split; [|split; [lia|]]].
  all: try (intros Hlk; first [by auto | rewrite Hlk; simpl; by rewrite ?andb_true_r]). 
  all: unfold request_end, no_ticket, mysql_end, purchased, rolled_back, dropped in *; simpl in *.
  all: repeat match goal with H : exec_committed _ = _ |- _ => rewrite H in *; clear H end.
  all: rewrite ?Z.add_0_r in *; try done.
  all: try (right; split; [lia|done]).
  all: try (left; split_and!; first [done|lia|left; lia|right; eexists; split; [done|lia]]).
Qed.

Definition seckill_post (u k : string) (l l' : ledger) (s : string) : Prop :=
  (mode l = ON -> mode l' = ON) /\
  (locked l = false -> locked l' = false /\ guarded l' = guarded l) /\
  watches l < watches l' <= watches l + RETRYCOUNT /\
  request_end u k l l' s.

Lemma seckillGoods_ledger u k rc c r t o :
  exec (seckillGoods u k (Some rc) c 0 r) t o ->
  match o with
  | Val s => seckill_post u k ledger0 (ledger_of t) s
  | UB why => why <> "unreachable"
  end.
Proof.
  intros Hex. eapply (wp_exec any_answer note) in Hex;
    [|apply (seckillGoods_ledger_rec (retry_levels 0) u k rc c 0 r ledger0);
        unfold retry_levels, RETRYCOUNT; lia
     |apply trace_ok_any].
  destruct o; [|done]. exact Hex.
Qed.

Lemma seckillGoods_direct_ledger u k c r t s :
  exec (seckillGoods u k None c 0 r) t (Val s) ->
  frame ledger0 (ledger_of t) /\ mysql_end u k ledger0 (ledger_of t) s.
Proof.
  intros Hex. eapply (wp_exec any_answer note) in Hex;
    [|apply (seckillGoods_mysql_ledger u k c r ledger0)|apply trace_ok_any]. done.
Qed.

(** ** A concrete service, for the witnesses *)

(** Redis holds [count] items and the key of one user, MySQL holds [stock] items; a
    statement answers its code in [code]. *)
Record service := Service {
  count : string;
  key : string;
  stock : string;
  code : string -> Z;
  aborted : bool;
}.

Definition status_reply : redisReply := RedisReply REDIS_REPLY_STATUS 0 (Some "OK") 0.
Definition string_reply (s : string) : redisReply := RedisReply REDIS_REPLY_STRING 0 (Some s) 0.
Definition nil_reply : redisReply := RedisReply REDIS_REPLY_NIL 0 None 0.

Definition answer_redis (sv : service) (f : string) : option redisReply :=
  if String.eqb f "HGET usr_info %s" then Some (string_reply (key sv))
  else if String.eqb f "HGET order_info %s" then Some nil_reply
  else if String.eqb f "GET %s" then Some (string_reply (count sv))
  else if String.eqb f "EXEC" then
    Some (if aborted sv then nil_reply else RedisReply REDIS_REPLY_ARRAY 0 None 2)
  else Some status_reply.

Definition answer (sv : service) (c : call) : ans c :=
  match c return ans c with
  | redis_getOneConnect => Some 1%positive
  | mysql_getOneConnect => Some 2%positive
  | redisCommand _ f _ => answer_redis sv f
  | mysql_query _ q => code sv q
  | mysql_use_result _ => Some 3%positive
  | mysql_fetch_row _ => None
  | mysql_fetch_rows _ => [[Some (stock sv)]]
  | mysql_autocommit _ _ | mysql_commit _ | mysql_rollback _ | pthread_create _ => 0
  | read_failedCount | read_successNum => 0
  | new_Worker => 4%positive
  | client_Next => ClientCompletion true 1 true true "1"
  | read_success_count | read_response_count => 0
  | mysql_executeSql _ => []
  | load_status _ => 0
  | load_request _ => ("u", "k")
  | load_response _ => "0"
  | cq_Next => Completion true 4 true None
  | redis_close _ | mysql_close _ | freeReplyObject _ | mysql_free_result _
  | rwlock_wrlock | rwlock_unlock | write_failedCount _ | write_successNum _
  | Requestseckill _ | Finish _ _ | process_exit _ | redisFree _ | delete_Worker _
  | BuildAndStart _ _ _ | pthread_rwlock_init | pthread_join _
  | StartCall _ _ | mtx_lock | mtx_unlock | write_success_count _ | write_response_count _
  | getMysqlPoolObject | mysql_setParameter _ _ _ _ _ _ _ _ | delete_mysql
  | getRedisPoolObject | redis_setParameter _ _ _ _ _ | delete_redis
  | construct_Worker _ | store_status _ _ | store_response _ _
  | server_Shutdown | cq_Shutdown => tt
  end.

Definition serve (sv : service) (c : call) (_ : unit) : ans c * unit := (answer sv c, tt).
Definition calls_of {A} (sv : service) (p : prog A) : list event := (run (serve sv) p tt).1.2.
Definition result_of {A} (sv : service) (p : prog A) : outcome A := (run (serve sv) p tt).1.1.

Lemma served {A} sv (p : prog A) o : result_of sv p = o -> exec p (calls_of sv p) o.
Proof. intros <-. apply run_exec. Qed.

Definition all_well : service := Service "5" "k" "7" (fun _ => 0) false.
Definition insert_fails : service :=
  Service "5" "k" "7" (fun q => if String.eqb q (insertOSql "u" "k") then 1 else 0) false.
Definition select_fails : service :=
  Service "5" "k" "7" (fun q => if String.eqb q selSql_goods then 1 else 0) false.
Definition sold_out : service := Service "0" "k" "7" (fun _ => 0) false.
Definition always_aborted : service := Service "5" "k" "7" (fun _ => 0) true.

(** ** Properties of [seckillGoods] *)

(** C7: a request answered "1" has committed exactly one optimistic transaction in
    Redis and, after it, exactly one transaction in MySQL: with autocommit off, the
    count [n > 0] was selected for update, the count was set to [n - 1] and the order
    of this user was inserted, all three statements succeeded, and [mysql_commit] was
    called once and [mysql_rollback] never; [successNum] grew by one. *)
Theorem seckill_success (u k : string) (rc : conn) (c : option conn) (r : string)
    (t : list event) :
  exec (seckillGoods u k (Some rc) c 0 r) t (Val "1") ->
  tickets (ledger_of t) = 1 /\ sets (ledger_of t) = [] /\
  purchased u k ledger0 (ledger_of t).
Proof.
  intros Hex. apply seckillGoods_ledger in Hex as (_ & _ & _ & [(? & _)|(Ht & Hs & He)]);
    [done|]. destruct He as [[_ He]|[? _]]; done.
Qed.

Lemma seckill_success_witness :
  result_of all_well (seckillGoods "u" "k" (Some 1%positive) (Some 2%positive) 0 "") = Val "1" /\
  tickets (ledger_of (calls_of all_well
    (seckillGoods "u" "k" (Some 1%positive) (Some 2%positive) 0 ""))) = 1.
Proof.
  split; [vm_compute; reflexivity|].
  eapply proj1. eapply (seckill_success "u" "k"). apply served. vm_compute. reflexivity.
Defined.

(** C8: a request not answered "1" is answered "0", changed nothing in MySQL and did
    not touch [successNum].  Either Redis gave it no reservation, or it holds one and
    the purchase was rolled back after a failed UPDATE or INSERT, with [failedCount]
    increased by one, or the count in MySQL was not available and nothing was counted. *)
Theorem seckill_failure (u k : string) (rc : conn) (c : option conn) (r s : string)
    (t : list event) :
  exec (seckillGoods u k (Some rc) c 0 r) t (Val s) -> s <> "1" ->
  s = "0" /\ commits (ledger_of t) = 0 /\ s_delta (ledger_of t) = 0 /\
  (tickets (ledger_of t) = 0 /\ queries (ledger_of t) = [] \/
   tickets (ledger_of t) = 1 /\
     (rolled_back u k ledger0 (ledger_of t) \/ dropped ledger0 (ledger_of t))).
Proof.
  intros Hex Hs. apply seckillGoods_ledger in Hex as (_ & _ & _ & [Hno|(Ht & _ & He)]).
  - destruct Hno as (? & ? & ? & ? & ? & ? & _). by split_and!; [..|left].
  - destruct He as [[? _]|[-> He]]; [done|].
    split_and!; [done| | |by right]; destruct He as [(?&?&?&He)|(?&He)]; naive_solver.
Qed.

Lemma seckill_failure_witness :
  result_of insert_fails (seckillGoods "u" "k" (Some 1%positive) (Some 2%positive) 0 "") = Val "0" /\
  commits (ledger_of (calls_of insert_fails
    (seckillGoods "u" "k" (Some 1%positive) (Some 2%positive) 0 ""))) = 0.
Proof.
  split; [vm_compute; reflexivity|].
  eapply proj1. eapply proj2. eapply (seckill_failure "u" "k");
    [apply served; vm_compute; reflexivity|discriminate].
Defined.

(** C14: the retries of [seckillGoods] are bounded: the recursion never runs deeper than
    the [RETRYCOUNT] levels of the model, and a request that ends starts between one
    and [RETRYCOUNT] (20) optimistic transactions in Redis. *)
Theorem seckill_retries (u k : string) (rc : conn) (c : option conn) (r : string)
    (t : list event) (o : outcome string) :
  exec (seckillGoods u k (Some rc) c 0 r) t o ->
  o <> UB "unreachable" /\
  (forall s, o = Val s -> 1 <= watches (ledger_of t) <= RETRYCOUNT).
Proof.
  intros Hex. apply seckillGoods_ledger in Hex. destruct o as [s|why].
  - split; [done|]. intros s' _. destruct Hex as (_ & _ & Hw & _). simpl in Hw. lia.
  - split; [congruence|done].
Qed.

Lemma seckill_retries_witness :
  result_of always_aborted (seckillGoods "u" "k" (Some 1%positive) None 0 "") = Val "0" /\
  watches (ledger_of (calls_of always_aborted
    (seckillGoods "u" "k" (Some 1%positive) None 0 ""))) = 20 /\
  result_of always_aborted (seckillGoods "u" "k" (Some 1%positive) None 0 "") <> UB "unreachable".
Proof.
  split; [vm_compute; reflexivity|]. split; [vm_compute; reflexivity|].
  eapply (seckill_retries "u" "k"). apply served. reflexivity.
Defined.

(** C22: on every path that ends, the connection is back in autocommit mode, [rwlock_] is
    released, and every access to [failedCount] was made while holding it. *)
Theorem seckill_discipline (u k : string) (rc : option conn) (c : option conn) (r s : string)
    (t : list event) :
  exec (seckillGoods u k rc c 0 r) t (Val s) ->
  mode (ledger_of t) = ON /\ locked (ledger_of t) = false /\ guarded (ledger_of t) = true.
Proof.
  intros Hex. destruct rc as [rc|].
  - apply seckillGoods_ledger in Hex as (Hm & Hl & _). destruct (Hl eq_refl). auto.
  - apply seckillGoods_direct_ledger in Hex as [(Hm & _ & _ & _ & Hl) _].
    destruct (Hl eq_refl). auto.
Qed.

Lemma seckill_discipline_witness :
  mode (ledger_of (calls_of insert_fails
    (seckillGoods "u" "k" (Some 1%positive) (Some 2%positive) 0 ""))) = ON.
Proof.
  eapply proj1. eapply (seckill_discipline "u" "k"). apply served. vm_compute. reflexivity.
Defined.

(** When MySQL refuses the SELECT of a request that holds a reservation, the
    reservation is lost: Redis has counted the item down, the request is answered "0",
    and the item is neither bought, nor counted in [failedCount], nor put back. *)
Theorem select_error_loses_ticket (u k : string) (rc : conn) (c : option conn)
    (r s : string) (t : list event) (e : Z) :
  exec (seckillGoods u k (Some rc) c 0 r) t (Val s) ->
  (OFF, selSql_goods, e) ∈ queries (ledger_of t) -> e <> 0 ->
  s = "0" /\ tickets (ledger_of t) = 1 /\ commits (ledger_of t) = 0 /\
  f_delta (ledger_of t) = 0 /\ sets (ledger_of t) = [].
Proof.
  intros Hex Hq He. apply seckillGoods_ledger in Hex as (_ & _ & _ & [Hno|(Ht & Hs & Hend)]).
  - destruct Hno as (_ & _ & Hno & _). rewrite Hno in Hq. by apply elem_of_nil in Hq.
  - assert (Hne : forall n a b, (OFF, selSql_goods, e) ∈
      ([] ++ [(OFF, selSql_goods, 0); (OFF, updateSql n, a); (OFF, insertOSql u k, b)])%list ->
      False).
    { intros n a b Hin. repeat (apply elem_of_cons in Hin as [[=]|Hin]); [congruence|].
      by apply elem_of_nil in Hin. }
    destruct Hend as [(_ & n & _ & _ & Heq & _)|(-> & [(n & a & b & _ & _ & Heq & _)|(e' & _ & Hd)])];
      [rewrite Heq in Hq; by apply Hne in Hq..|].
    destruct Hd as (_ & ? & _ & ? & _). auto.
Qed.

Lemma select_error_loses_ticket_witness :
  result_of select_fails (seckillGoods "u" "k" (Some 1%positive) (Some 2%positive) 0 "") = Val "0" /\
  tickets (ledger_of (calls_of select_fails
    (seckillGoods "u" "k" (Some 1%positive) (Some 2%positive) 0 ""))) = 1.
Proof.
  split; [vm_compute; reflexivity|].
  eapply proj1. eapply proj2. eapply (select_error_loses_ticket "u" "k" _ _ "" "0" _ 1).
  - apply served. vm_compute. reflexivity.
  - vm_compute. left.
  - discriminate.
Defined.

(** Without Redis a purchase is decided in MySQL alone: the request is answered "1"
    exactly when the three statements ran and were committed, "0" when they were rolled
    back or the count was not available; no Redis transaction is opened. *)
Theorem direct_purchase (u k : string) (c : option conn) (r s : string) (t : list event) :
  exec (seckillGoods u k None c 0 r) t (Val s) ->
  watches (ledger_of t) = 0 /\ tickets (ledger_of t) = 0 /\ sets (ledger_of t) = [] /\
  mysql_end u k ledger0 (ledger_of t) s.
Proof. intros Hex. apply seckillGoods_direct_ledger in Hex as [(_ & ? & ? & ? & _) ?]. auto. Qed.

Lemma direct_purchase_witness :
  mysql_end "u" "k" ledger0 (ledger_of (calls_of all_well
    (seckillGoods "u" "k" None (Some 2%positive) 0 ""))) "1".
Proof.
  apply (direct_purchase "u" "k" (Some 2%positive) "" "1"). apply served. vm_compute. reflexivity.
Defined.

Lemma commits_mono t l : commits l <= commits (foldl note l t).
Proof.
  revert l. induction t as [|[c r] t IH]; intros l; simpl; [done|].
  etrans; [|apply IH]. destruct c; simpl; try lia. unfold note_redis.
  repeat case_match; simpl; lia.
Qed.

Lemma commits_counted c e t : Ev (mysql_commit c) e ∈ t -> 1 <= commits (ledger_of t).
Proof.
  unfold ledger_of. assert (Hl : 0 <= commits ledger0) by done. revert Hl.
  generalize ledger0. induction t as [|e' t IH]; intros l Hl Hin; [by apply elem_of_nil in Hin|].
  apply elem_of_cons in Hin as [<-|Hin]; simpl.
  - etrans; [|apply commits_mono]. simpl. lia.
  - apply IH; [|done]. etrans; [exact Hl|]. apply (commits_mono [e']).
Qed.

(** The code of [mysql_commit] is not looked at: a request that calls it is answered
    "1" and counted as a success even if the commit was refused. *)
Theorem commit_code_ignored (u k : string) (rc : conn) (c : option conn) (r s : string)
    (t : list event) (e : Z) :
  exec (seckillGoods u k (Some rc) c 0 r) t (Val s) -> Ev (mysql_commit c) e ∈ t ->
  s = "1" /\ s_delta (ledger_of t) = 1.
Proof.
  intros Hex Hin. apply commits_counted in Hin.
  apply seckillGoods_ledger in Hex as (_ & _ & _ & [Hno|(_ & _ & Hend)]).
  - destruct Hno as (_ & _ & _ & Hc & _). simpl in Hc. lia.
  - destruct Hend as [(-> & n & _ & _ & _ & _ & _ & _ & Hs)|(_ & [(n&a&b&_&_&_&_&Hc&_)|(a&_&_&Hc&_)])];
      [done|simpl in Hc; lia..].
Qed.

Definition refuses_commit (c : call) (_ : unit) : ans c * unit :=
  (match c return ans c with mysql_commit _ => 1 | c => answer all_well c end, tt).

Lemma commit_code_ignored_witness :
  let p := seckillGoods "u" "k" (Some 1%positive) (Some 2%positive) 0 "" in
  exists s, (run refuses_commit p tt).1.1 = Val s /\ s = "1".
Proof.
  eexists. split; [vm_compute; reflexivity|].
  eapply proj1. eapply (commit_code_ignored "u" "k" 1 (Some 2%positive) "" _
    (run refuses_commit (seckillGoods "u" "k" (Some 1%positive) (Some 2%positive) 0 "") tt).1.2 1).
  - pose proof (run_exec refuses_commit (seckillGoods "u" "k" (Some 1%positive) (Some 2%positive) 0 "") tt)
      as H. exact H.
  - vm_compute. repeat (first [left | right]).
Defined.
