(* ===== verification/WorkerSafety.v ===== *)
(** * Admission, connections and defined behaviour of the worker

    Who is served ([checkUserInfo], [checkUserHasGot]), what [Proceed] does with its
    connections and its state, and when a request is free of undefined behaviour. *)
From Stdlib Require Import ZArith Lia Ascii String.
From stdpp Require Import base tactics numbers strings list.
From S2P Require Import Prelude Words Pool CString Prog Threads Worker Ledger WorkerProps.
Local Open Scope string_scope.
Local Open Scope prog_scope.
Local Open Scope Z_scope.

(** ** The rows of [usr_info] *)

(** The row's first cell is the key. *)
Definition row_matches (usr_key : string) (row : MYSQL_ROW) : Prop :=
  exists cell, head row = Some (Some cell) /\ c_str cell = usr_key.

Lemma match_keys_spec rows usr_key b b' :
  match_keys rows usr_key b = Ret b' ->
  b' = true <-> b = true \/ Exists (row_matches usr_key) rows.
Proof.
  revert b. induction rows as [|row rows IH]; intros b; simpl.
  { intros [= ->]. rewrite Exists_nil. tauto. }
  rewrite Exists_cons. destruct row as [|[cell|] row]; simpl.
  - intros ->%IH. assert (~ row_matches usr_key []) by (intros (? & [=] & _)). tauto.
  - intros ->%IH. assert (row_matches usr_key (Some cell :: row) <-> c_str cell = usr_key) as ->.
    { split; [by intros (? & [= ->] & ?)|by exists cell]. }
    case_decide; intuition.
  - discriminate.
Qed.

(** ** Connections *)

(** What the calling worker holds; misuse of a connection is [None]. *)
Record custody := Custody {
  redis_held : option (option conn);
  mysql_held : option (option conn);
  registered : list address;
  finished : list (address * string);
}.

Definition uses_redis (c : option conn) (g : custody) : option custody :=
  if decide (redis_held g = Some c) then Some g else None.
Definition uses_mysql (c : option conn) (g : custody) : option custody :=
  if decide (mysql_held g = Some c) then Some g else None.
Definition takes_redis (r : option conn) (g : custody) : option custody :=
  match redis_held g with
  | None => Some (Custody (Some r) (mysql_held g) (registered g) (finished g))
  | Some _ => None
  end.
Definition takes_mysql (r : option conn) (g : custody) : option custody :=
  match mysql_held g with
  | None => Some (Custody (redis_held g) (Some r) (registered g) (finished g))
  | Some _ => None
  end.
Definition returns_redis (g : custody) : custody :=
  Custody None (mysql_held g) (registered g) (finished g).
Definition returns_mysql (g : custody) : custody :=
  Custody (redis_held g) None (registered g) (finished g).

(** Every use of a connection is between its [getOneConnect] and its [close]. *)
Definition track (og : option custody) (e : event) : option custody :=
  match og with
  | None => None
  | Some g =>
  let '(Ev c r) := e in
  match c return ans c -> option custody with
  | redis_getOneConnect => fun r => takes_redis r g
  | mysql_getOneConnect => fun r => takes_mysql r g
  | redis_close c => fun _ => returns_redis <$> uses_redis c g
  | mysql_close c => fun _ => returns_mysql <$> uses_mysql c g
  | redisCommand c _ _ => fun _ => uses_redis c g
  | redisFree c => fun _ => returns_redis <$> uses_redis c g
  | mysql_query c _ | mysql_use_result c | mysql_autocommit c _ | mysql_commit c
  | mysql_rollback c => fun _ => uses_mysql c g
  | Requestseckill a => fun _ =>
      Some (Custody (redis_held g) (mysql_held g) (registered g ++ [a]) (finished g))
  | Finish a s => fun _ =>
      Some (Custody (redis_held g) (mysql_held g) (registered g) (finished g ++ [(a, s)]))
  | _ => fun _ => Some g
  end r
  end.

(** The calls of the handlers below [Proceed]: on the connections they were given, and on
    the shared counter and lock. *)
Definition request_call (rc mc : option conn) (c : call) : Prop :=
  match c with
  | redisCommand c' _ _ => c' = rc
  | mysql_query c' _ | mysql_use_result c' | mysql_autocommit c' _ | mysql_commit c'
  | mysql_rollback c' => c' = mc
  | freeReplyObject _ | mysql_fetch_row _ | mysql_fetch_rows _ | mysql_free_result _
  | rwlock_wrlock | rwlock_unlock | read_failedCount | write_failedCount _
  | read_successNum | write_successNum _ => True
  | _ => False
  end.

Lemma match_keys_calls P rows k b : all_calls P (match_keys rows k b).
Proof. by destruct (match_keys_no_call rows k b) as [[? ->]| ->]. Qed.

Lemma last_count_calls P rows n : all_calls P (last_count rows n).
Proof. by destruct (last_count_no_call rows n) as [[? ->]|(? & -> & _)]. Qed.

Lemma checkUserInfo_calls u k rc mc : all_calls (request_call rc mc) (checkUserInfo u k rc mc).
Proof.
  unfold checkUserInfo, checkUserInfo_mysql, not_null_conn, sprintf, free_result, not_null.
  calls_run; apply match_keys_calls.
Qed.

Lemma checkUserHasGot_calls u k rc mc :
  all_calls (request_call rc mc) (checkUserHasGot u k rc mc).
Proof. unfold checkUserHasGot, checkUserHasGot_mysql, not_null_conn, sprintf, free_result. calls_run. Qed.

Lemma seckillGoods_mysql_calls u k rc mc r :
  all_calls (request_call rc mc) (seckillGoods_mysql u k mc r).
Proof.
  unfold seckillGoods_mysql, not_null_conn, select_goods, sprintf, free_result.
  calls_run; apply last_count_calls.
Qed.

Lemma seckillGoods_rec_calls n u k rc mc m r :
  all_calls (request_call rc mc) (seckillGoods_rec n u k rc mc m r).
Proof.
  revert m r. induction n as [|n IH]; intros m r; [exact I|].
  cbn [seckillGoods_rec]. destruct rc as [rc|]; [|apply seckillGoods_mysql_calls].
  unfold read_total_count, give_back, is_OK, c_atoi, not_null.
  calls_run; first [apply IH | apply seckillGoods_mysql_calls].
Qed.

Lemma handle_request_calls w rc mc : all_calls (request_call rc mc) (handle_request w rc mc).
Proof.
  apply all_calls_bind; [apply checkUserInfo_calls|]. intros [|]; [|exact I].
  apply all_calls_bind; [apply checkUserHasGot_calls|]. intros [|]; [exact I|].
  apply seckillGoods_rec_calls.
Qed.

Lemma track_request_call rc mc reg fin c r :
  request_call rc mc c ->
  track (Some (Custody (Some rc) (Some mc) reg fin)) (Ev c r) =
  Some (Custody (Some rc) (Some mc) reg fin).
Proof.
  destruct c; simpl; try done; intros ->; unfold uses_redis, uses_mysql; simpl;
    by rewrite decide_True.
Qed.

(** *** Results *)

Definition binary (s : string) : Prop := s = "0" \/ s = "1".

Lemma seckillGoods_binary u k rc c r t s :
  exec (seckillGoods u k rc c 0 r) t (Val s) -> binary s.
Proof.
  intros Hex. destruct rc as [rc|].
  - apply seckillGoods_ledger in Hex as (_ & _ & _ & [(? & _)|(_ & _ & [[? _]|[? _]])]);
      unfold binary; auto.
  - apply seckillGoods_direct_ledger in Hex as [_ [[? _]|[? _]]]; unfold binary; auto.
Qed.

Lemma handle_request_binary w rc c t s :
  exec (handle_request w rc c) t (Val s) -> binary s.
Proof.
  intros Hex. unfold handle_request in Hex.
  apply exec_bind in Hex as [(t1 & t2 & known & -> & _ & Hex)|(? & _ & [=])].
  destruct known; [|destruct Hex as [_ [= ->]]; by left].
  apply exec_bind in Hex as [(t3 & t4 & hasgot & -> & _ & Hex)|(? & _ & [=])].
  destruct hasgot; [destruct Hex as [_ [= ->]]; by left|].
  by apply seckillGoods_binary in Hex.
Qed.

Lemma handle_request_keeps w rc mc reg fin t o :
  exec (handle_request w rc mc) t o ->
  foldl track (Some (Custody (Some rc) (Some mc) reg fin)) t =
  Some (Custody (Some rc) (Some mc) reg fin).
Proof.
  intros Hex. refine (wp_exec any_answer track _ _ (fun g' _ => g' = _) _ _ _ Hex
    (trace_ok_any _ _ _)).
  apply (wp_all_calls _ _ (request_call rc mc)), handle_request_calls.
  intros c r. apply track_request_call.
Qed.

(** ** Properties *)

(** C11: a worker in state [PROCESS] serves one request: it takes one connection of each
    pool, uses only these two and only while it holds them, returns both, puts exactly
    one successor in place for the next request, sends exactly one response, "0" or "1",
    under its own tag, and waits in state [FINISH]; its successor waits in [PROCESS]. *)
Theorem proceed_serves (this : address) (w : Worker) (t : list event)
    (r : option Worker * option (address * Worker)) :
  status_ w = PROCESS -> exec (Proceed this w) t (Val r) ->
  exists next s created, binary s /\ status_ created = PROCESS /\
    r = (Some (set_response (set_status w FINISH) s), Some (next, created)) /\
    foldl track (Some (Custody None None [] [])) t =
    Some (Custody None None [next] [(this, s)]).
Proof.
  intros Hw Hex. unfold Proceed in Hex. rewrite Hw in Hex. cbn in Hex.
  destruct Hex as (rc & t1 & -> & mc & t2 & -> & r0 & t3 & -> & next & t4 & -> & Hex).
  destruct Hex as (u & t5 & -> & Hex).
  apply exec_bind in Hex as [(t6 & t7 & s & -> & Hreq & Hex)|(? & _ & [=])].
  destruct Hex as (r1 & ? & -> & r2 & ? & -> & r3 & ? & -> & -> & [= ->]).
  exists next, s. eexists. split; [by apply handle_request_binary in Hreq|].
  split; [|split; [done|]]; [done|].
  cbn. unfold uses_redis. cbn. rewrite decide_True by done. cbn.
  rewrite foldl_app, (handle_request_keeps _ _ _ _ _ _ _ Hreq). cbn.
  unfold uses_redis. cbn. rewrite decide_True by done. cbn.
  unfold uses_mysql. cbn. by rewrite decide_True by done.
Qed.

Definition example_worker (s : WorkerStatus) : Worker := MkWorker s "u" "k" "".

Lemma proceed_serves_witness :
  exists next s, binary s /\
    foldl track (Some (Custody None None [] []))
      (calls_of all_well (Proceed 9 (example_worker PROCESS))) =
    Some (Custody None None [next] [(9%positive, s)]).
Proof.
  destruct (proceed_serves 9 (example_worker PROCESS)
    (calls_of all_well (Proceed 9 (example_worker PROCESS)))
    (Some (MkWorker FINISH "u" "k" "1"), Some (4%positive, MkWorker PROCESS "" "" "")))
    as (next & s & created & Hs & _ & _ & Ht).
  - reflexivity.
  - apply served. vm_compute. reflexivity.
  - exists next, s. split; [exact Hs|exact Ht].
Defined.

(** The life of a worker: created, it waits in [PROCESS] for a request and has
    registered itself once; when its response has been sent, the next [Proceed] takes
    one token off [work_list] and deletes it.  No other transition exists. *)
Theorem worker_lifecycle (this : address) :
  (forall t w, exec (Worker_create this) t (Val w) ->
     status_ w = PROCESS /\
     foldl track (Some (Custody None None [] [])) t = Some (Custody None None [this] [])) /\
  (forall w t r, exec (Proceed this w) t (Val r) ->
     (status_ <$> r.1) = match status_ w with
                       | CREATE => Some PROCESS | PROCESS => Some FINISH | FINISH => None
                       end) /\
  (forall w t r, status_ w = FINISH -> exec (Proceed this w) t r ->
     r = Val (None, None) /\ exists rc a,
     t = [Ev redis_getOneConnect rc; Ev (redisCommand rc "lpop %s" ["work_list"]) a;
          Ev (redis_close rc) tt; Ev (delete_Worker this) tt]).
Proof.
  split_and!.
  - intros t w (r & t' & -> & -> & [= ->]). done.
  - intros w t r Hex. destruct (status_ w) eqn:Hw.
    + unfold Proceed in Hex. rewrite Hw in Hex. cbn in Hex.
      by destruct Hex as (? & ? & _ & _ & [= ->]).
    + unfold Proceed in Hex. rewrite Hw in Hex. cbn in Hex.
      destruct Hex as (? & ? & _ & ? & ? & _ & ? & ? & _ & ? & ? & _ & ? & ? & _ & Hex).
      apply exec_bind in Hex as [(? & ? & s & _ & _ & Hex)|(? & _ & [=])].
      by destruct Hex as (? & ? & _ & ? & ? & _ & ? & ? & _ & _ & [= ->]).
    + unfold Proceed in Hex. rewrite Hw in Hex. cbn in Hex.
      by destruct Hex as (? & ? & _ & ? & ? & _ & ? & ? & _ & ? & ? & _ & _ & [= ->]).
  - intros w t r Hw Hex. unfold Proceed in Hex. rewrite Hw in Hex. cbn in Hex.
    destruct Hex as (rc & ? & -> & a & ? & -> & [] & ? & -> & [] & ? & -> & -> & ->). eauto.
Qed.

Definition redis_got (e : event) : option (option conn) :=
  let '(Ev c r) := e in
  match c return ans c -> option (option conn) with
  | redis_getOneConnect => fun r => Some r
  | _ => fun _ => None
  end r.

(** When the Redis pool has no connection to give, [Proceed] uses the null context
    all the same, to push its token on [work_list], before the code that is meant to
    serve the request from MySQL alone is reached. *)
Theorem null_context_used (this : address) (w : Worker) (t : list event)
    (o : outcome (option Worker * option (address * Worker))) :
  status_ w = PROCESS -> exec (Proceed this w) (Ev redis_getOneConnect None :: t) o ->
  exists mc a t', t = Ev mysql_getOneConnect mc ::
    Ev (redisCommand None "LPUSH work_list %s" ["1"]) a :: t'.
Proof.
  intros Hw Hex. unfold Proceed in Hex. rewrite Hw in Hex. cbn in Hex.
  destruct Hex as (rc & t1 & Heq & mc & t2 & -> & a & t3 & -> & _).
  pose proof (f_equal (fun l => match l with e :: _ => redis_got e | [] => None end) Heq) as Hrc.
  injection Hrc as <-. pose proof (f_equal (@tail event) Heq) as Ht. simpl in Ht. subst t. eauto.
Qed.

Definition answer_down (c : call) : ans c :=
  match c return ans c with
  | redis_getOneConnect => None
  | c => answer all_well c
  end.
Definition calls_down {A} (p : prog A) : list event :=
  (run (fun c (_ : unit) => (answer_down c, tt)) p tt).1.2.

Lemma null_context_used_witness :
  exists mc a t', tail (calls_down (Proceed 9 (example_worker PROCESS))) =
    Ev mysql_getOneConnect mc ::
    Ev (redisCommand None "LPUSH work_list %s" ["1"]) a :: t'.
Proof.
  apply (null_context_used 9 (example_worker PROCESS) _
    (run (fun c (_ : unit) => (answer_down c, tt)) (Proceed 9 (example_worker PROCESS)) tt).1.1
    eq_refl).
  exact (run_exec (fun c (_ : unit) => (answer_down c, tt)) (Proceed 9 (example_worker PROCESS)) tt).
Defined.

(** *** Admission *)

(** The text of a reply of type STRING. *)
Definition string_text (r : option redisReply) : option string :=
  match r with
  | Some r => if type r =? REDIS_REPLY_STRING then str r else None
  | None => None
  end.

(** A reply of type STRING without a text. *)
Definition lacks_text (r : option redisReply) : Prop :=
  exists rp, r = Some rp /\ type rp = REDIS_REPLY_STRING /\ str rp = None.

Lemma exec_vis {A} c (k : ans c -> prog A) t o :
  exec (Vis c k) t o <-> exists r t', t = Ev c r :: t' /\ exec (k r) t' o.
Proof. done. Qed.

Lemma exec_ret {A} (a : A) t o : exec (Ret a) t o <-> t = [] /\ o = Val a.
Proof. done. Qed.

Lemma exec_undef {A} why t (o : outcome A) : exec (Undef why) t o <-> t = [] /\ o = UB why.
Proof. done. Qed.

(** With Redis, [checkUserInfo] and [checkUserHasGot] in front of [f]. *)
Lemma checkUserInfo_redis {A} u k rc mc (f : bool -> prog A) t o :
  exec (bind (checkUserInfo u k (Some rc) mc) f) t o <->
  exists r1 t1, t = Ev (redisCommand (Some rc) "HGET usr_info %s" [c_str u]) r1 :: t1 /\
  match string_text r1 with
  | Some key =>
      if decide (c_str key = k) then exec (f true) t1 o
      else exists t2, t1 = Ev (freeReplyObject r1) tt :: t2 /\ exec (f false) t2 o
  | None =>
      lacks_text r1 /\ t1 = [] /\ o = UB "null string" \/
      ~ lacks_text r1 /\ exists t2, t1 = Ev (freeReplyObject r1) tt :: t2 /\ exec (f false) t2 o
  end.
Proof.
  unfold checkUserInfo. cbn [bind]. rewrite exec_vis. apply exist_proper. intros r1.
  apply exist_proper. intros t1. apply and_iff_compat_l.
  destruct r1 as [r|]; cbn [string_text].
  - destruct (Z.eqb_spec (type r) REDIS_REPLY_STRING) as [Hty|Hty].
    + destruct (str r) as [key|] eqn:Hstr; cbn.
      * destruct (decide (c_str key = k)) as [->|Hk].
        { by rewrite bool_decide_eq_true_2 by done. }
        rewrite bool_decide_eq_false_2 by done. cbn. split.
        -- intros ([] & ? & -> & H). eauto.
        -- intros (? & -> & H). eauto.
      * split; [by left; split; [exists r|]|]. intros [[_ H]|[H _]]; [done|]. by destruct H; exists r.
    + cbn. split.
      * intros ([] & ? & -> & H). right. split; [by intros (? & [= <-] & ? & _)|eauto].
      * intros [[(? & [= <-] & ? & _) _]|[_ (? & -> & H)]]; [done|eauto].
  - cbn. split.
    + intros ([] & ? & -> & H). right. split; [by intros (? & [=] & _)|eauto].
    + intros [[(? & [=] & _) _]|[_ (? & -> & H)]]. eauto.
Qed.

Lemma checkUserHasGot_redis {A} u k rc mc (f : bool -> prog A) t o :
  exec (bind (checkUserHasGot u k (Some rc) mc) f) t o <->
  exists r2 t1, t = Ev (redisCommand (Some rc) "HGET order_info %s" [c_str u]) r2 :: t1 /\
  match string_text r2 with
  | Some _ => exec (f true) t1 o
  | None => exists t2, t1 = Ev (freeReplyObject r2) tt :: t2 /\ exec (f false) t2 o
  end.
Proof.
  unfold checkUserHasGot. cbn [bind]. rewrite exec_vis. apply exist_proper. intros r2.
  apply exist_proper. intros t1. apply and_iff_compat_l.
  destruct r2 as [r|]; cbn [string_text]; [destruct (type r =? REDIS_REPLY_STRING); cbn [andb];
    [destruct (str r); [rewrite bool_decide_eq_true_2 by done|rewrite bool_decide_eq_false_2 by apply is_Some_None]|]|];
    cbn; try done; (split; [intros ([] & ? & -> & H)|intros (? & -> & H)]; eauto).
Qed.

(** C12: all that can happen to a request when there is a Redis connection.  HGET usr_info
    is asked for the name.  When the reply is a STRING whose text is the key, HGET
    order_info is asked: a STRING with a text means an order, and the request is answered
    "0"; on any other reply, nil, an error or NULL alike, [seckillGoods] runs and decides.
    When the first reply is anything else the request is answered "0" and nothing more is
    asked; a STRING without text is undefined behaviour. *)
Theorem admission (w : Worker) (rc : conn) (mc : option conn) (t : list event) (o : outcome string) :
  exec (handle_request w (Some rc) mc) t o <->
  exists r1 t1,
    t = Ev (redisCommand (Some rc) "HGET usr_info %s" [c_str (usrname w)]) r1 :: t1 /\
    match string_text r1 with
    | Some key =>
        if decide (c_str key = usrkey w) then
          exists r2 t2,
            t1 = Ev (redisCommand (Some rc) "HGET order_info %s" [c_str (usrname w)]) r2 :: t2 /\
            match string_text r2 with
            | Some _ => t2 = [] /\ o = Val "0"
            | None => exists t3, t2 = Ev (freeReplyObject r2) tt :: t3 /\
                exec (seckillGoods (usrname w) (usrkey w) (Some rc) mc 0 (response_ w)) t3 o
            end
        else t1 = [Ev (freeReplyObject r1) tt] /\ o = Val "0"
    | None =>
        lacks_text r1 /\ t1 = [] /\ o = UB "null string" \/
        ~ lacks_text r1 /\ t1 = [Ev (freeReplyObject r1) tt] /\ o = Val "0"
    end.
Proof.
  assert (Hfree : forall r1 t1, (exists t2, t1 = Ev (freeReplyObject r1) tt :: t2 /\
      exec (Ret "0" : prog string) t2 o) <-> t1 = [Ev (freeReplyObject r1) tt] /\ o = Val "0").
  { intros r1 t1. split; [by intros (? & -> & -> & ->)|]. intros [-> ->]. by eexists. }
  unfold handle_request. rewrite checkUserInfo_redis.
  apply exist_proper. intros r1. apply exist_proper. intros t1. apply and_iff_compat_l.
  destruct (string_text r1) as [key|]; [|by rewrite Hfree].
  destruct (decide (c_str key = usrkey w)); [|apply Hfree].
  rewrite checkUserHasGot_redis. apply exist_proper. intros r2. apply exist_proper. intros t2.
  apply and_iff_compat_l. by destruct (string_text r2).
Qed.

(** The example service, but Redis gives no reply to HGET order_info. *)
Definition order_lost (c : call) (_ : unit) : ans c * unit :=
  (match c return ans c with
   | redisCommand _ f _ =>
       if String.eqb f "HGET order_info %s" then None else answer_redis all_well f
   | c => answer all_well c
   end, tt).

(** A user can buy whose order Redis could not be asked for. *)
Lemma admission_witness :
  let p := handle_request (example_worker PROCESS) (Some 1%positive) (Some 2%positive) in
  (run order_lost p tt).1.1 = Val "1" /\
  exists r1 t1,
    (run order_lost p tt).1.2 =
      Ev (redisCommand (Some 1%positive) "HGET usr_info %s" ["u"]) r1 :: t1 /\
    string_text r1 = Some "k".
Proof.
  split; [vm_compute; reflexivity|].
  destruct (proj1 (admission (example_worker PROCESS) 1 (Some 2%positive) _ _)
    (run_exec order_lost (handle_request (example_worker PROCESS) (Some 1%positive)
      (Some 2%positive)) tt)) as (r1 & t1 & Ht & _).
  exists r1, t1. split; [exact Ht|].
  pose proof (f_equal (fun l => match l with
    | Ev c r :: _ => match c return ans c -> option string with
                     | redisCommand _ _ _ => string_text | _ => fun _ => None end r
    | [] => None end) Ht) as Hr. symmetry. exact Hr.
Defined.

Definition rows_of (e : event) : option (list MYSQL_ROW) :=
  let '(Ev c r) := e in
  match c return ans c -> option (list MYSQL_ROW) with
  | mysql_fetch_rows _ => fun r => Some r
  | _ => fun _ => None
  end r.

(** C23: without Redis, [checkUserInfo] asks MySQL: it runs one SELECT for the name and
    returns true exactly when the statement succeeded and some row's first cell is the
    key. *)
Theorem checkUserInfo_mysql_sound (u k : string) (mc : option conn) (t : list event) (b : bool) :
  exec (checkUserInfo u k None mc) t (Val b) ->
  exists e t', t = Ev (mysql_query mc (selSql_usr u)) e :: t' /\
  (b = true <-> e = 0 /\ exists res rows,
     Ev (mysql_fetch_rows res) rows ∈ t' /\ Exists (row_matches k) rows) /\
  (e <> 0 -> t' = []).
Proof.
  unfold checkUserInfo, checkUserInfo_mysql, sprintf. intros Hex.
  destruct (_ <? 200); [|by destruct Hex]. destruct mc as [mc|]; [|by destruct Hex]. cbn in Hex.
  destruct Hex as (e & t1 & -> & Hex). exists e, t1. split; [done|].
  destruct (Z.eqb_spec e 0) as [->|He]; cbn in Hex.
  2: { destruct Hex as [-> [= ->]]. split; [|done]. split; [done|]. by intros [? _]. }
  destruct Hex as (res & t2 & -> & rows & t3 & -> & Hex).
  apply exec_bind in Hex as [(t4 & t5 & b' & -> & Hm & Hex)|(? & _ & [=])].
  assert (t4 = [] /\ match_keys rows k false = Ret b') as [-> Hb].
  { destruct (match_keys_no_call rows k false) as [[b2 E]|E]; rewrite E in Hm |- *;
      destruct Hm as [-> [= ->]]; done. }
  assert (Hrest : b = b' /\ forall res' rows', Ev (mysql_fetch_rows res') rows' ∉ t5).
  { destruct res as [res|]; cbn in Hex.
    - destruct Hex as (? & ? & -> & -> & [= ->]). split; [done|].
      intros res' rows' [[=]|Hin]%elem_of_cons. by apply elem_of_nil in Hin.
    - destruct Hex as [-> [= ->]]. split; [done|]. intros ??. apply not_elem_of_nil. }
  destruct Hrest as [-> Hrest]. split; [|done].
  apply match_keys_spec in Hb. rewrite Hb. split.
  - intros [[=]|Hrows]. split; [done|]. exists res, rows. split; [|done]. right. left.
  - intros (_ & res' & rows' & Hin & Hrows). right.
    apply elem_of_cons in Hin as [[=]|Hin]. apply elem_of_cons in Hin as [Heq|Hin].
    + pose proof (f_equal rows_of Heq) as Hr. injection Hr as <-. done.
    + by apply Hrest in Hin.
Qed.

Definition alice_row : service := Service "5" "k" "k" (fun _ => 0) false.

Lemma checkUserInfo_mysql_sound_witness :
  exists e t', calls_of alice_row (checkUserInfo "u" "k" None (Some 2%positive)) =
    Ev (mysql_query (Some 2%positive) (selSql_usr "u")) e :: t' /\
    (true = true <-> e = 0 /\ exists res rows,
       Ev (mysql_fetch_rows res) rows ∈ t' /\ Exists (row_matches "k") rows).
Proof.
  destruct (checkUserInfo_mysql_sound "u" "k" (Some 2%positive)
    (calls_of alice_row (checkUserInfo "u" "k" None (Some 2%positive))) true)
    as (e & t' & Ht & Hb & _).
  - apply served. vm_compute. reflexivity.
  - exists e, t'. split; [exact Ht|exact Hb].
Defined.

(** *** Defined behaviour *)

Lemma selSql_usr_length u : String.length (selSql_usr u) = (47 + String.length (c_str u))%nat.
Proof. unfold selSql_usr. rewrite !length_append. simpl. lia. Qed.
Lemma selSql_order_length u : String.length (selSql_order u) = (54 + String.length (c_str u))%nat.
Proof. unfold selSql_order. rewrite !length_append. simpl. lia. Qed.
Lemma insertOSql_length u k : String.length (insertOSql u k) =
  (69 + String.length (c_str u) + String.length (c_str k))%nat.
Proof. unfold insertOSql. rewrite !length_append. simpl. lia. Qed.

Lemma updateSql_fits z : Z.of_nat (String.length (updateSql z)) < 200.
Proof.
  unfold updateSql. rewrite !length_append. pose proof (to_string_length z). simpl. lia.
Qed.

(** What the services' documentation says of their answers: a status, string or error reply
    of Redis has text; GET is answered with a string, nil or an error, and the number at
    the front of the text, if there is one, is an int; the columns read from MySQL are NOT
    NULL, and [g_totalcount] is a number.  The ghost is the last statement. *)
Definition last_query (q : string) (e : event) : string :=
  match e with Ev (mysql_query _ s) _ => s | _ => q end.

Definition good_reply (f : string) (r : redisReply) : Prop :=
  (type r ∈ [REDIS_REPLY_STATUS; REDIS_REPLY_STRING; REDIS_REPLY_ERROR] -> is_Some (str r)) /\
  (f = "GET %s" ->
     type r ∈ [REDIS_REPLY_STRING; REDIS_REPLY_NIL; REDIS_REPLY_ERROR] /\
     forall s, str r = Some s -> is_Some (atoi (c_str s))).

Definition good_row (q : string) (row : MYSQL_ROW) : Prop :=
  match row with
  | [] => True
  | cell :: _ => exists s, cell = Some s /\ (q = selSql_goods -> is_Some (atoi (c_str s)))
  end.

Definition good_answer (q : string) (c : call) : ans c -> Prop :=
  match c return ans c -> Prop with
  | redisCommand _ f _ => fun r => forall rp, r = Some rp -> good_reply f rp
  | mysql_fetch_rows _ => fun rows => Forall (good_row q) rows
  | _ => fun _ => True
  end.

(** The key [total_count] exists: GET is not answered nil.  A statement that was accepted
    has its result set. *)
Definition present (e : event) : Prop :=
  let '(Ev c r) := e in
  match c return ans c -> Prop with
  | redisCommand _ f _ => fun r =>
      f = "GET %s" -> forall rp, r = Some rp -> type rp <> REDIS_REPLY_NIL
  | mysql_use_result _ => fun r => is_Some r
  | _ => fun _ => True
  end r.

(** A call of hiredis or libmysqlclient that is given no null pointer.  ([freeReplyObject]
    of a null pointer does nothing.) *)
Definition not_on_null (c : call) : Prop :=
  match c with
  | redisCommand c _ _ => is_Some c
  | mysql_query c _ | mysql_use_result c | mysql_autocommit c _ | mysql_commit c
  | mysql_rollback c => is_Some c
  | mysql_fetch_row res | mysql_fetch_rows res | mysql_free_result res => is_Some res
  | _ => True
  end.

Definition sound_answer (q : string) (c : call) (r : ans c) : Prop :=
  good_answer q c r /\ present (Ev c r).

Lemma sound_trace q t :
  trace_ok good_answer last_query q t -> Forall present t -> trace_ok sound_answer last_query q t.
Proof.
  revert q. induction t as [|[c r] t IH]; intros q; [done|]. cbn [trace_ok].
  intros [Hg Ht] [Hp Hps]%Forall_cons. by split; [|apply IH].
Qed.

Abbreviation defined p q := (follows (fun _ : string => not_on_null) sound_answer last_query p q
  (fun _ o => exists s, o = Val s)).

Lemma match_keys_defined q rows k b :
  Forall (good_row q) rows -> exists b', match_keys rows k b = Ret b'.
Proof.
  intros Hrows. revert b. induction Hrows as [|[|cell row] rows Hrow _ IH]; intros b; simpl; eauto.
  destruct Hrow as (s & -> & _). simpl. eauto.
Qed.

Lemma last_count_defined rows n :
  Forall (good_row selSql_goods) rows -> exists n', last_count rows n = Ret n'.
Proof.
  intros Hrows. revert n. induction Hrows as [|[|cell row] rows Hrow _ IH]; intros n; simpl; eauto.
  destruct Hrow as (s & -> & Hs). destruct (Hs eq_refl) as [z Hz]. simpl. rewrite Hz. simpl. eauto.
Qed.

Lemma good_text f r :
  good_reply f r -> type r = REDIS_REPLY_STATUS \/ type r = REDIS_REPLY_STRING -> is_Some (str r).
Proof. intros [Hs _] Ht. apply Hs. rewrite !elem_of_cons. naive_solver. Qed.

Lemma is_OK_defined f r q :
  (forall rp, r = Some rp -> good_reply f rp) -> defined (is_OK r) q.
Proof.
  intros Hr. destruct r as [r|]; simpl; [|eauto].
  destruct (Z.eqb_spec (type r) REDIS_REPLY_STATUS) as [Ht|]; simpl; [|eauto].
  destruct (good_text f r (Hr r eq_refl) (or_introl Ht)) as [s ->]. simpl. eauto.
Qed.

Lemma defined_bind {A B} (p : prog A) (f : A -> prog B) q :
  defined p q -> (forall a q, defined (f a) q) -> defined (bind p f) q.
Proof.
  intros Hp Hf. apply follows_bind. eapply follows_mono; [|exact Hp].
  cbn beta. intros q' o [a ->]. apply Hf.
Qed.

Lemma sprintf_fits s : Z.of_nat (String.length s) < 200 -> sprintf 200 s = Ret s.
Proof. intros Hs. unfold sprintf. by rewrite (proj2 (Z.ltb_lt _ _) Hs). Qed.

(** A status or string reply without text is not a good one. *)
Lemma no_text f r :
  str r = None -> (forall rp, Some r = Some rp -> good_reply f rp) ->
  type r <> REDIS_REPLY_STATUS /\ type r <> REDIS_REPLY_STRING.
Proof.
  intros Hn Hr. split; intros Ht; destruct (good_text f r (Hr r eq_refl)) as [s Hs]; auto; congruence.
Qed.

Lemma c_atoi_defined r :
  (forall rp, Some r = Some rp -> good_reply "GET %s" rp) ->
  ("GET %s" = "GET %s" -> forall rp, Some r = Some rp -> type rp <> REDIS_REPLY_NIL) ->
  exists z, c_atoi (str r) = Ret z.
Proof.
  intros Hr Hnil. destruct (Hr r eq_refl) as [Htext Hget]. destruct (Hget eq_refl) as [Hty Hs].
  specialize (Hnil eq_refl r eq_refl).
  destruct Htext as [s Hstr]; [rewrite !elem_of_cons in Hty |- *; naive_solver|].
  destruct (Hs s Hstr) as [z Hz]. exists z. rewrite Hstr. simpl. by rewrite Hz.
Qed.

(** The rest of a defined program: calls, tests, loops over good rows. *)
Ltac defined_step :=
  match goal with
  | |- exists s, Val _ = Val s => eauto
  | |- sound_answer _ _ _ -> _ =>
      let Hg := fresh "Hgood" in let Hp := fresh "Hpresent" in
      intros [Hg Hp]; cbn [good_answer present] in Hg, Hp
  | |- forall _, _ => intro
  | H : is_Some ?r |- _ => is_var r; destruct H as [? ->]
  | |- follows _ _ _ (bind _ _) _ _ => apply follows_bind
  | |- follows _ _ _ (Ret _) _ _ => cbn [follows]
  | H : forall rp, ?r = Some rp -> good_reply _ _ |- follows _ _ _ (is_OK ?r) _ _ =>
      eapply follows_mono; [|apply (is_OK_defined _ _ _ H)]; cbn beta; intros ? ? [? ->]
  | H : forall rp, Some ?r = Some rp -> good_reply "GET %s" rp,
    Hp : "GET %s" = "GET %s" -> forall rp, Some ?r = Some rp -> _
      |- follows _ _ _ (c_atoi (str ?r)) _ _ =>
      let E := fresh in destruct (c_atoi_defined r H Hp) as [? E]; rewrite E
  | Hn : str ?r = None, Hr : forall rp, Some ?r = Some rp -> good_reply _ _, Ht : (type ?r =? _) = true
      |- follows _ _ _ (Undef _) _ _ =>
      apply Z.eqb_eq in Ht; destruct (no_text _ _ Hn Hr); done
  | |- follows _ _ _ (Vis _ _) _ _ => cbn [follows last_query]
  | |- not_on_null _ /\ _ => split; [first [exact I|by eexists]|]
  | H : Forall (good_row _) ?rows |- follows _ _ _ (last_count ?rows ?n) _ _ =>
      let E := fresh in destruct (last_count_defined rows n H) as [? E]; rewrite E
  | H : Forall (good_row _) ?rows |- follows _ _ _ (match_keys ?rows ?k ?b) _ _ =>
      let E := fresh in destruct (match_keys_defined _ rows k b H) as [? E]; rewrite E
  | |- follows _ _ _ (match ?x with _ => _ end) _ _ => destruct x eqn:?
  end.
Ltac defined_run := repeat (defined_step; cbn beta iota zeta).

Lemma checkUserInfo_defined u k rc mc q :
  Z.of_nat (String.length (c_str u)) <= 152 -> defined (checkUserInfo u k rc (Some mc)) q.
Proof.
  intros Hu. unfold checkUserInfo, checkUserInfo_mysql, not_null_conn, free_result, not_null.
  rewrite sprintf_fits by (rewrite selSql_usr_length; lia).
  defined_run.
Qed.

Lemma checkUserHasGot_defined u k rc mc q :
  Z.of_nat (String.length (c_str u)) <= 145 -> defined (checkUserHasGot u k rc (Some mc)) q.
Proof.
  intros Hu. unfold checkUserHasGot, checkUserHasGot_mysql, not_null_conn, free_result, not_null.
  rewrite sprintf_fits by (rewrite selSql_order_length; lia). defined_run.
Qed.

Lemma seckillGoods_mysql_defined u k mc r q :
  Z.of_nat (String.length (c_str u) + String.length (c_str k)) <= 130 ->
  defined (seckillGoods_mysql u k (Some mc) r) q.
Proof.
  intros Hu. unfold seckillGoods_mysql, not_null_conn, select_goods, free_result.
  rewrite (sprintf_fits (insertOSql u k)) by (rewrite insertOSql_length; lia).
  defined_run; rewrite sprintf_fits in * by apply updateSql_fits; defined_run.
Qed.

Lemma seckillGoods_rec_defined n u k rc mc m r q :
  Z.of_nat (String.length (c_str u) + String.length (c_str k)) <= 130 ->
  RETRYCOUNT - m < Z.of_nat n -> (0 < n)%nat ->
  defined (seckillGoods_rec n u k rc (Some mc) m r) q.
Proof.
  intros Hu. revert m r q. induction n as [|n IH]; intros m r q Hn Hpos; [lia|].
  cbn [seckillGoods_rec]. destruct rc as [rc|]; [|by apply seckillGoods_mysql_defined].
  unfold read_total_count, give_back.
  defined_run; bool_facts.
  all: eapply follows_mono; [|by apply seckillGoods_mysql_defined || (apply IH; lia)].
  all: cbn beta; intros ? ? [? ->]; defined_run.
Qed.

Lemma handle_request_defined w rc mc q :
  Z.of_nat (String.length (c_str (usrname w))) <= 145 ->
  Z.of_nat (String.length (c_str (usrname w)) + String.length (c_str (usrkey w))) <= 130 ->
  defined (handle_request w rc (Some mc)) q.
Proof.
  intros Hu Huk.
  apply defined_bind; [apply checkUserInfo_defined; lia|]. intros [|] ?; [|simpl; eauto].
  apply defined_bind; [by apply checkUserHasGot_defined|]. intros [|] ?; [simpl; eauto|].
  apply seckillGoods_rec_defined; [done| |]; unfold retry_levels, RETRYCOUNT; lia.
Qed.


(** The answers of the example service are good. *)
Lemma all_well_good q c : sound_answer q c (answer all_well c).
Proof.
  destruct c; try done; cbn.
  - split; [|by intros -> rp [= <-]].
    intros rp Hrp. split.
    + intros Ht. cbn in Hrp. unfold answer_redis in Hrp.
      repeat (destruct (String.eqb _ _);
        [injection Hrp as <-; first [by eexists|by rewrite !elem_of_cons, elem_of_nil in Ht; naive_solver]|]).
      injection Hrp as <-. by eexists.
    + intros ->. injection Hrp as <-. split; [left|]. intros s [= <-]. by exists 5.
  - split; [done|by eexists].
  - split; [|done]. apply Forall_singleton. exists "7". split; [done|]. intros _. by exists 7.
Qed.

Lemma run_trace_ok {G A} (ok : G -> forall c, ans c -> Prop) upd sv (p : prog A) g w :
  (forall g c, ok g c (answer sv c)) -> trace_ok ok upd g (run (serve sv) p w).1.2.
Proof.
  intros Hok. revert g w. induction p as [a|c k IH|why]; intros g w; simpl; [done| |done].
  specialize (IH (answer sv c) (upd g (Ev c (answer sv c))) tt).
  destruct (run (serve sv) (k (answer sv c)) tt) as [[o t] w']. split; [apply Hok|exact IH].
Qed.

Lemma trace_ok_Forall {G} (ok : G -> forall c, ans c -> Prop) upd (P : event -> Prop) g t :
  (forall g c r, ok g c r -> P (Ev c r)) -> trace_ok ok upd g t -> Forall P t.
Proof.
  intros HP. revert g. induction t as [|[c r] t IH]; intros g; [constructor|].
  intros [Hr Ht]. constructor; [by eapply HP|by eapply IH].
Qed.


(** What the hypotheses of [request_defined] leave out is reached by the code: when
    [total_count] is not in Redis WATCH is answered OK all the same and GET nil, and [atoi]
    is given the null text. *)
Definition count_absent (e : event) : Prop :=
  let '(Ev c r) := e in
  match c return ans c -> Prop with
  | redisCommand _ f _ => fun r =>
      (f = "WATCH %s" -> r = Some status_reply) /\ (f = "GET %s" -> r = Some nil_reply)
  | _ => fun _ => True
  end r.

Theorem absent_count_undefined (u k : string) (rc : conn) (mc : option conn) (r : string)
    (t : list event) (o : outcome string) :
  exec (seckillGoods u k (Some rc) mc 0 r) t o -> Forall count_absent t -> o = UB "null string".
Proof.
  intros (r1 & t1 & -> & r2 & t2 & -> & Hex) Ht.
  apply Forall_cons in Ht as [[H1 _] Ht]. apply Forall_cons in Ht as [[_ H2] _].
  rewrite (H1 eq_refl), (H2 eq_refl) in Hex. by destruct Hex as [-> ->].
Qed.

(** When the MySQL pool has no connection to give, the first statement of a request that
    reaches MySQL is run on the null pointer. *)
Theorem null_mysql_undefined (u k : string) (r : string) (t : list event) (o : outcome string) :
  exec (seckillGoods u k None None 0 r) t o -> t = [] /\ o = UB "null MYSQL".
Proof. done. Qed.

(** Without Redis any client, registered or not, overruns the 200-byte buffer of
    [checkUserInfo_mysql] with a name of 153 characters or more: the worker has no
    defined behaviour from there on, before a single statement is sent. *)
Theorem long_name_overruns (w : Worker) (mc : option conn) (t : list event) (o : outcome string) :
  153 <= Z.of_nat (String.length (c_str (usrname w))) ->
  exec (handle_request w None mc) t o <-> t = [] /\ o = UB "sprintf overruns its buffer".
Proof.
  intros Hu. unfold handle_request, checkUserInfo, checkUserInfo_mysql, sprintf.
  rewrite (proj2 (Z.ltb_ge _ _)) by (rewrite selSql_usr_length; lia). done.
Qed.

Definition long_name : string := string_of_bytes (repeat 97 153).

Lemma long_name_overruns_witness :
  result_of all_well (handle_request (MkWorker PROCESS long_name "k" "") None None) =
  UB "sprintf overruns its buffer".
Proof.
  destruct (long_name_overruns (MkWorker PROCESS long_name "k" "") None
    (calls_of all_well (handle_request (MkWorker PROCESS long_name "k" "") None None))
    (result_of all_well (handle_request (MkWorker PROCESS long_name "k" "") None None)))
    as [Hub _]; [vm_compute; discriminate|].
  apply Hub, served. reflexivity.
Defined.
