(* ===== verification/Server.v ===== *)
(** * The server ([GRPC/src/seckill_server.cc])

    The preparation of the databases, the loop of the threads that take events from
    the completion queue, and the start of the server, as programs over the calls of
    [Prog.v].  Console output is not modelled. *)
From Stdlib Require Import ZArith Lia Ascii String.
From stdpp Require Import base tactics numbers strings gmap list.
From S2P Require Import Prelude Words Pool CString Users Prog Worker.

Local Open Scope string_scope.
Local Open Scope prog_scope.
Local Open Scope Z_scope.

Definition SERVER_ADDRESS : string := "0.0.0.0:50051".
Definition MAX_RECEIVE_SIZE : Z := 5000.
Definition MAX_SEND_SIZE : Z := 5000.
Definition WORKER_NUM : nat := 20.

Definition MYSQL_ADDRESS : string := "mymysql".
Definition MYSQL_USRNAME : string := "tinykpwang".
Definition MYSQL_PORT : Z := 3306.
Definition MYSQL_USRPASSWORD : string := "14225117sa".
Definition MYSQL_USEDB : string := "seckill".
Definition MYSQL_MAX_CONNECTCOUNT : Z := 30.
Definition REDIS_ADDRESS : string := "myredis".
Definition REDIS_PORT : Z := 6379.
Definition REDIS_MAX_CONNECTCOUNT : Z := 500.

(** ** [prepareForSeckill] *)

Definition creatGoodsTSql : string :=
  "CREATE TABLE IF NOT EXISTS goods_info(g_name VARCHAR(20) NOT NULL,g_id VARCHAR(20) NOT NULL,g_totalcount INT UNSIGNED NOT NULL,PRIMARY KEY (g_id))".
Definition insertGoodsSql : string :=
  "INSERT INTO goods_info(g_name, g_id, g_totalcount) VALUES('BMW', '10', 50) ON DUPLICATE KEY UPDATE g_id = '10', g_totalcount = 50".
Definition deleteOrderSql : string := "DROP TABLE IF EXISTS order_info".
Definition tableSql : string :=
  "SELECT table_name FROM information_schema.TABLES WHERE table_name ='usr_info'".
Definition createSql : string :=
  "CREATE TABLE usr_info(usr_name VARCHAR(100) NOT NULL,usr_key VARCHAR(100) NOT NULL,PRIMARY KEY (usr_name))".
Definition searchSql : string := "SELECT * FROM usr_info".
Definition goodsSql : string := "SELECT * FROM goods_info".
Definition createTSql : string :=
  "CREATE TABLE IF NOT EXISTS order_info(usr_name VARCHAR(100) NOT NULL,usr_key VARCHAR(100) NOT NULL,goods_id VARCHAR(100) NOT NULL,PRIMARY KEY (usr_name))".

Definition insertSql_head : string := "INSERT INTO usr_info(usr_name,usr_key) VALUES ".

(** One turn of the [for] loop: what user [i] adds to [insertSql].  [key] is [md5_str]. *)
Definition insertSql_turn (key : Z -> string) (insertSql : string) (i : Z) : string :=
  if i =? 300
  then insertSql +:+ "('" +:+ to_string i +:+ "','" +:+ key i +:+ "')"
  else insertSql +:+ "('" +:+ to_string i +:+ "','" +:+ key i +:+ "'),".

(** [for (int i = 1; i <=400; i ++)] *)
Definition insertSql (key : Z -> string) : string :=
  foldl (insertSql_turn key) insertSql_head (map Z.of_nat (seq 1 400)).

(** How the function ends: it returns, or the process exits. *)
Inductive after := Returned | Exited (code : Z).

(** [while] over [usr_info]: each user goes to Redis.  [false]: a reply was not OK; the
    reply is freed if there is one and the loop is left. *)
Fixpoint load_users (rows : list MYSQL_ROW) (redisconn : option conn) : prog bool :=
  match rows with
  | [] => Ret true
  | row :: rows' =>
      match row with
      | row0 :: row1 :: _ =>
          do name <- not_null row0;
          do key <- not_null row1;
          let! reply := redisCommand redisconn "HMSET usr_info  %s %s" [name; key] in
          do ok <- is_OK reply;
          if ok : bool then
            freeReplyObject reply;;! load_users rows' redisconn
          else
            do _ <- match reply with
                    | Some _ => freeReplyObject reply;;! Ret ()
                    | None => Ret ()
                    end;
            Ret false
      | _ => load_users rows' redisconn
      end
  end.

(** [while] over [goods_info]: [row[2]] of the last row.  A row of exactly two fields is
    read past its end. *)
Fixpoint last_goods (rows : list MYSQL_ROW) (total_count : Z) : prog Z :=
  match rows with
  | [] => Ret total_count
  | row :: rows' =>
      if (1 <? Z.of_nat (List.length row))%Z then
        match row with
        | _ :: _ :: row2 :: _ => do n <- c_atoi row2; last_goods rows' n
        | _ => Undef "row read past its end"
        end
      else last_goods rows' total_count
  end.

(** The users: created on first start, then copied to Redis.  [None]: the process goes
    on with the goods. *)
Definition prepare_users (key : Z -> string) (connection redisconn : option conn)
    : prog (option after) :=
  let! e := mysql_query connection tableSql in
  if negb (e =? 0) then process_exit 1;;! Ret (Some (Exited 1)) else
  let! result := mysql_use_result connection in
  let! row := mysql_fetch_row result in
  do _ <- match row with
          | None =>
              mysql_query connection createSql;;!
              mysql_query connection (insertSql key);;!
              Ret ()
          | Some _ => Ret ()
          end;
  mysql_free_result result;;!
  let! e := mysql_query connection searchSql in
  if negb (e =? 0) then process_exit 1;;! Ret (Some (Exited 1)) else
  let! searchResult := mysql_use_result connection in
  let! rows := mysql_fetch_rows searchResult in
  do loaded <- load_users rows redisconn;
  if loaded : bool then
    mysql_free_result searchResult;;! Ret None
  else
    redisFree redisconn;;! Ret (Some Returned).

(** The goods: the count in MySQL becomes the count in Redis. *)
Definition prepare_goods (connection redisconn : option conn) : prog after :=
  let! e := mysql_query connection goodsSql in
  if negb (e =? 0) then process_exit 1;;! Ret (Exited 1) else
  let! result := mysql_use_result connection in
  let! rows := mysql_fetch_rows result in
  do total_count <- last_goods rows 0;
  mysql_free_result result;;!
  mysql_query connection createTSql;;!
  let scount := to_string total_count in
  let! reply := redisCommand redisconn "SET %s %s" ["total_count"; scount] in
  do ok <- is_OK reply;
  if ok : bool then
    freeReplyObject reply;;!
    let! reply := redisCommand redisconn "GET %s" ["total_count"] in
    freeReplyObject reply;;!
    redisCommand redisconn "DEL %s" ["order_info"];;!
    mysql_close connection;;!
    redis_close redisconn;;!
    Ret Returned
  else
    do _ <- match reply with
            | Some _ => freeReplyObject reply;;! Ret ()
            | None => Ret ()
            end;
    redis_close redisconn;;!
    mysql_close connection;;!
    Ret Returned.

Definition prepareForSeckill (key : Z -> string) : prog after :=
  let! connection := mysql_getOneConnect in
  let! redisconn := redis_getOneConnect in
  do _ <- not_null_conn connection;
  mysql_query connection creatGoodsTSql;;!
  mysql_query connection insertGoodsSql;;!
  mysql_query connection deleteOrderSql;;!
  do ended <- prepare_users key connection redisconn;
  match ended with
  | Some a => Ret a
  | None => prepare_goods connection redisconn
  end.

(** ** [HandleRPCS] *)

(** The test at the top of the loop: [false] is [continue]. *)
Definition throttle : prog bool :=
  let! sucNum_ := read_successNum in
  if sucNum_ <? 50 then
    let! redisconn := redis_getOneConnect in
    let! reply := redisCommand redisconn "llen %s" ["work_list"] in
    match reply with
    | Some r =>
        if type r =? REDIS_REPLY_INTEGER then
          let workingNum := i32 (integer r) in
          freeReplyObject reply;;!
          let! sucNum_ := read_successNum in
          if 50 - sucNum_ <=? workingNum then
            redis_close redisconn;;! Ret false
          else
            redis_close redisconn;;! Ret true
        else redis_close redisconn;;! Ret true
    | None => redis_close redisconn;;! Ret true
    end
  else Ret true.

(** The workers, by address. *)
Abbreviation heap := (gmap address Worker).

(** The request that gRPC stored in the worker's message. *)
Definition receive (req : option (string * string)) (w : Worker) : Worker :=
  match req with
  | Some (name, key) =>
      {| status_ := status_ w; usrname := name; usrkey := key; response_ := response_ w |}
  | None => w
  end.

(** The heap after [Proceed] of the worker at [this]. *)
Definition update_heap (this : address) (r : option Worker * option (address * Worker))
    (workers : heap) : heap :=
  let workers := match r.2 with Some (a, w) => <[a := w]> workers | None => workers end in
  match r.1 with Some w => <[this := w]> workers | None => delete this workers end.

(** One turn of [while (true)]. *)
Definition HandleRPCS_turn (workers : heap) : prog heap :=
  do go <- throttle;
  if negb go then Ret workers else
  let! e := cq_Next in
  if negb (got_event e) then Undef "assertion failed" else
  if negb (ok e) then Undef "assertion failed" else
  match workers !! tag e with
  | None => Undef "dangling tag"
  | Some w =>
      do r <- Proceed (tag e) (receive (request e) w);
      Ret (update_heap (tag e) r workers)
  end.

(** [n] turns of the loop, which the code never leaves. *)
Fixpoint HandleRPCS (n : nat) (workers : heap) : prog heap :=
  match n with
  | O => Ret workers
  | S n' => do workers <- HandleRPCS_turn workers; HandleRPCS n' workers
  end.

(** ** [Run] *)

Fixpoint create_threads (n : nat) (i : Z) : prog unit :=
  match n with
  | O => Ret ()
  | S n' => pthread_create i;;! create_threads n' (i + 1)
  end.

(** [for (int i = 0 ; i < WORKER_NUM; i++) pthread_join(tids[0],NULL);] *)
Fixpoint join_threads (n : nat) : prog unit :=
  match n with
  | O => Ret ()
  | S n' => pthread_join 0;;! join_threads n'
  end.

Definition Run : prog unit :=
  BuildAndStart SERVER_ADDRESS MAX_RECEIVE_SIZE MAX_SEND_SIZE;;!
  write_failedCount 0;;!
  pthread_rwlock_init;;!
  write_successNum 0;;!
  let! first := new_Worker in
  do _ <- Worker_create first;
  do _ <- create_threads WORKER_NUM 0;
  do _ <- join_threads WORKER_NUM;
  Ret ().

(** [~ServerImpl] *)
Definition ServerImpl_destroy : prog unit :=
  server_Shutdown;;! cq_Shutdown;;! Ret ().

(** [main].  [server] is destroyed when the block ends, after the pools have been deleted. *)
Definition main (key : Z -> string) : prog after :=
  getMysqlPoolObject;;!
  mysql_setParameter MYSQL_ADDRESS MYSQL_USRNAME MYSQL_USRPASSWORD MYSQL_USEDB MYSQL_PORT None 0
    MYSQL_MAX_CONNECTCOUNT;;!
  getRedisPoolObject;;!
  redis_setParameter REDIS_ADDRESS REDIS_PORT None 0 REDIS_MAX_CONNECTCOUNT;;!
  do prepared <- prepareForSeckill key;
  match prepared with
  | Exited code => Ret (Exited code)
  | Returned =>
      do _ <- Run;
      delete_mysql;;!
      delete_redis;;!
      do _ <- ServerImpl_destroy;
      Ret Returned
  end.
