(* ===== verification/ServerProps.v ===== *)
(** * What the server's threads and its preparation guarantee *)
From Stdlib Require Import ZArith Lia Ascii String.
From stdpp Require Import base tactics numbers strings gmap list.
From S2P Require Import Prelude Words Pool CString Users Prog Threads Worker Ledger WorkerProps.
From S2P Require Import WorkerSafety Server.

Local Open Scope string_scope.
Local Open Scope prog_scope.
Local Open Scope Z_scope.

(** ** The statement that inserts the users *)

(** A row of a VALUES list, and a list of them. *)
Definition sql_row (row : string * string) : string :=
  "('" +:+ row.1 +:+ "','" +:+ row.2 +:+ "')".
Fixpoint sql_rows (rows : list (string * string)) : string :=
  match rows with
  | [] => ""
  | [row] => sql_row row
  | row :: rows' => sql_row row +:+ "," +:+ sql_rows rows'
  end.

Fixpoint last_char (s : string) : option ascii :=
  match s with
  | EmptyString => None
  | String c EmptyString => Some c
  | String _ s' => last_char s'
  end.

Lemma last_char_app s t : t <> "" -> last_char (s +:+ t) = last_char t.
Proof.
  intros Ht. induction s as [|c s IH]; [done|]. simpl.
  destruct (s +:+ t) as [|c' s'] eqn:E; [|by rewrite <- IH].
  exfalso. destruct s as [|c' s]; [exact (Ht E)|discriminate E].
Qed.

Lemma app_ne s t : t <> "" -> s +:+ t <> "".
Proof. by destruct s. Qed.
Ltac app_ne := repeat apply app_ne; discriminate.

Lemma sql_row_last row : last_char (sql_row row) = Some ")"%char.
Proof.
  unfold sql_row. rewrite !last_char_app; [done|app_ne..].
Qed.

Lemma sql_rows_last rows : rows <> [] -> last_char (sql_rows rows) = Some ")"%char.
Proof.
  induction rows as [|row [|row' rows] IH]; intros Hne; [done|apply sql_row_last|].
  change (last_char (sql_row row +:+ "," +:+ sql_rows (row' :: rows)) = Some ")"%char).
  assert (sql_rows (row' :: rows) <> "") by (destruct rows; simpl; done).
  rewrite !last_char_app; [by apply IH|done|by destruct (sql_rows _)].
Qed.

Lemma insertSql_split key :
  insertSql key =
  insertSql_turn key (foldl (insertSql_turn key) insertSql_head (map Z.of_nat (seq 1 399))) 400.
Proof.
  unfold insertSql. change 400%nat with (399 + 1)%nat at 1. rewrite seq_app, map_app, foldl_app.
  reflexivity.
Qed.

(** The statement [prepareForSeckill] builds for the test users is not a well-formed
    INSERT for any list of rows, whatever their keys: it ends with a comma, because the
    test for the last user compares with 300 while the loop runs to 400. *)
Theorem users_insert_malformed (key : Z -> string) (rows : list (string * string)) :
  insertSql key <> insertSql_head +:+ sql_rows rows /\
  last_char (insertSql key) = Some ","%char.
Proof.
  assert (Hlast : last_char (insertSql key) = Some ","%char).
  { rewrite insertSql_split. generalize (foldl (insertSql_turn key) insertSql_head
      (map Z.of_nat (seq 1 399))). intros text. unfold insertSql_turn.
    change (400 =? 300) with false. cbn iota. rewrite !last_char_app; [done|app_ne..]. }
  split; [|done]. intros Heq. rewrite Heq in Hlast. destruct rows as [|row rows]; [done|].
  pose proof (sql_rows_last (row :: rows)) as Hl.
  rewrite last_char_app in Hlast; [rewrite Hl in Hlast by done; done|].
  intros Hnil. rewrite Hnil in Hl. by discriminate Hl.
Qed.

Example first_tuples :
  substring 0 66 (insertSql (fun _ => "k")) =
  "INSERT INTO usr_info(usr_name,usr_key) VALUES ('1','k'),('2','k'),".
Proof. vm_compute. reflexivity. Qed.

(** ** The throttle *)

(** The trace of a [throttle] that reads [s1] < 50 and gets the reply [rep]. *)
Definition asked (rc : option conn) (s1 : Z) (rep : option redisReply) (rest : list event) :=
  Ev read_successNum s1 :: Ev redis_getOneConnect rc ::
  Ev (redisCommand rc "llen %s" ["work_list"]) rep :: rest.

(** [work_list] has at least as many tokens as items are left. *)
Definition list_full (rep : option redisReply) (s2 : Z) : Prop :=
  exists r, rep = Some r /\ type r = REDIS_REPLY_INTEGER /\ 50 - s2 <= i32 (integer r).

Lemma throttle_cases t b :
  exec throttle t (Val b) ->
  (exists s1, t = [Ev read_successNum s1] /\ 50 <= s1 /\ b = true) \/
  (exists s1 rc rep s2 rest, t = asked rc s1 rep (rest ++ [Ev (redis_close rc) tt]) /\ s1 < 50 /\
    (rest = [] \/ rest = [Ev (freeReplyObject rep) tt; Ev read_successNum s2]) /\
    (b = false -> list_full rep s2) /\ (list_full rep s2 -> b = false)).
Proof.
  intros (s1 & t1 & -> & Hex). destruct (Z.ltb_spec s1 50) as [Hs1|Hs1].
  2: { destruct Hex as [-> [= ->]]. left. eauto. }
  right. destruct Hex as (rc & t2 & -> & rep & t3 & -> & Hex).
  destruct rep as [r|].
  - destruct (Z.eqb_spec (type r) REDIS_REPLY_INTEGER) as [Hty|Hty]; cbn in Hex.
    + destruct Hex as ([] & t4 & -> & s2 & t5 & -> & Hex).
      exists s1, rc, (Some r), s2, [Ev (freeReplyObject (Some r)) tt; Ev read_successNum s2].
      destruct (Z.leb_spec (50 - s2) (i32 (integer r))) as [Hle|Hle];
        destruct Hex as ([] & t6 & -> & -> & [= ->]); split_and!; try done; eauto.
      * intros _. by exists r.
      * intros (r' & [= <-] & _ & ?). lia.
    + destruct Hex as ([] & t4 & -> & -> & [= ->]).
      exists s1, rc, (Some r), 0, []. split_and!; try done; eauto.
      intros (r' & [= <-] & ? & _). done.
  - destruct Hex as ([] & t4 & -> & -> & [= ->]).
    exists s1, rc, None, 0, []. split_and!; try done; eauto. by intros (r' & [=] & _).
Qed.

Definition is_Next (e : event) : bool := match call_of e with cq_Next => true | _ => false end.

(** A turn of [HandleRPCS] that ends without an event was turned away by the throttle:
    fewer than 50 items were sold, [work_list] had at least as many tokens as items were
    left, the heap is unchanged and the connection was returned; it did not ask the
    completion queue.  A turn that serves an event passed the throttle, and the event's
    worker ran [Proceed] to its end. *)
Theorem turn_spec (workers workers' : heap) (t : list event) :
  exec (HandleRPCS_turn workers) t (Val workers') ->
  (workers' = workers /\ forallb (fun e => negb (is_Next e)) t = true /\
   exists rc s1 rep s2 rest, t = asked rc s1 rep rest /\ s1 < 50 /\ list_full rep s2 /\
     last t = Some (Ev (redis_close rc) tt)) \/
  (exists t1 e t2 w r, t = (t1 ++ Ev cq_Next e :: t2)%list /\
    exec throttle t1 (Val true) /\ got_event e = true /\ ok e = true /\
    workers !! tag e = Some w /\
    exec (Proceed (tag e) (receive (request e) w)) t2 (Val r) /\
    workers' = update_heap (tag e) r workers).
Proof.
  intros Hex. unfold HandleRPCS_turn in Hex.
  apply exec_bind in Hex as [(t1 & t2 & go & -> & Hgo & Hex)|(? & _ & [=])].
  destruct go.
  - right. destruct Hex as (e & t3 & -> & Hex).
    destruct (got_event e) eqn:Hgot; [|by destruct Hex].
    destruct (ok e) eqn:Hok; [|by destruct Hex]. cbn in Hex.
    destruct (workers !! tag e) as [w|] eqn:Hw; [|by destruct Hex].
    apply exec_bind in Hex as [(t4 & t5 & r & -> & Hp & Hex)|(? & _ & [=])].
    destruct Hex as [-> [= ->]]. rewrite app_nil_r. eauto 20.
  - left. destruct Hex as [-> [= ->]]. rewrite app_nil_r. split; [done|].
    apply throttle_cases in Hgo as [(? & _ & _ & [=])|(s1 & rc & rep & s2 & rest & -> & Hs1 & Hr & Hf & _)].
    split.
    + by destruct Hr as [->| ->].
    + exists rc, s1, rep, s2, (rest ++ [Ev (redis_close rc) tt])%list. split_and!; try done; [auto|].
      unfold asked. by destruct Hr as [->| ->].
Qed.

Definition idle_server : service := Service "5" "k" "7" (fun _ => 0) false.
Definition one_worker : heap := {[ 4%positive := MkWorker FINISH "u" "k" "1" ]}.

Lemma turn_spec_witness :
  exists t1 e t2 w r, calls_of idle_server (HandleRPCS_turn one_worker) =
      (t1 ++ Ev cq_Next e :: t2)%list /\ one_worker !! tag e = Some w /\
    (delete 4%positive one_worker : heap) = update_heap (tag e) r one_worker.
Proof.
  destruct (turn_spec one_worker (delete 4%positive one_worker)
    (calls_of idle_server (HandleRPCS_turn one_worker)))
    as [(_ & Hno & _)|(t1 & e & t2 & w & r & Ht & _ & _ & _ & Hw & _ & Hu)].
  - apply served. vm_compute. reflexivity.
  - vm_compute in Hno. discriminate Hno.
  - exists t1, e, t2, w, r. split; [exact Ht|]. split; [exact Hw|exact Hu].
Defined.

(** ** The workers in the heap *)

(** The addresses of the workers that exist, and of those gRPC has been handed and has not
    yet delivered. *)
Record grpc := Grpc { live : gset address; awaited : gset address }.

(** [new] gives an address that is not in use; the queue delivers a tag it was handed. *)
Definition grpc_answer (g : grpc) (c : call) : ans c -> Prop :=
  match c return ans c -> Prop with
  | new_Worker => fun a => a ∉ live g
  | cq_Next => fun e => tag e ∈ awaited g
  | _ => fun _ => True
  end.

Definition grpc_after (g : grpc) (e : event) : grpc :=
  let '(Ev c r) := e in
  match c return ans c -> grpc with
  | new_Worker => fun a => Grpc ({[ a ]} ∪ live g) (awaited g)
  | delete_Worker a => fun _ => Grpc (live g ∖ {[ a ]}) (awaited g)
  | Requestseckill a | Finish a _ => fun _ => Grpc (live g) ({[ a ]} ∪ awaited g)
  | cq_Next => fun e => Grpc (live g) (awaited g ∖ {[ tag e ]})
  | _ => fun _ => g
  end r.

(** A worker is handed to gRPC or deleted while it exists and is not with gRPC. *)
Definition uses_live (g : grpc) (c : call) : Prop :=
  match c with
  | Requestseckill a | Finish a _ | delete_Worker a => a ∈ live g /\ a ∉ awaited g
  | _ => True
  end.

(** Between turns: all workers are with gRPC. *)
Definition with_grpc (ws : heap) : grpc := Grpc (dom ws) (dom ws).

(** The workers that wait for a request. *)
Definition is_listener (kw : address * Worker) : Prop := status_ kw.2 = PROCESS.
#[export] Instance is_listener_dec kw : Decision (is_listener kw).
Proof. unfold is_listener. apply _. Defined.

Definition listeners (workers : heap) : nat := size (filter is_listener workers).

(** No worker is left in the constructor's state. *)
Definition heap_ok (workers : heap) : Prop := map_Forall (fun _ w => status_ w <> CREATE) workers.

Lemma listeners_insert (ws : heap) a w :
  ws !! a = None ->
  listeners (<[a := w]> ws) = (listeners ws + if decide (status_ w = PROCESS) then 1 else 0)%nat.
Proof.
  intros Ha. unfold listeners. case_decide as Hw.
  - rewrite map_filter_insert_True by done. rewrite map_size_insert_None; [lia|].
    by apply map_lookup_filter_None_2; left.
  - rewrite map_filter_insert_False by done. by rewrite delete_id, Nat.add_0_r by done.
Qed.

Lemma listeners_delete (ws : heap) a w :
  ws !! a = Some w ->
  listeners ws = (listeners (delete a ws) + if decide (status_ w = PROCESS) then 1 else 0)%nat.
Proof.
  intros Ha. rewrite <- (listeners_insert (delete a ws) a w) by apply lookup_delete_eq.
  by rewrite insert_delete_id.
Qed.

(** What [Proceed] does to the heap: the request in [w] does not matter. *)
Lemma update_heap_ok (ws : heap) this w req r (live : gset address) :
  ws !! this = Some w -> heap_ok ws ->
  match status_ w with
  | CREATE => False
  | PROCESS => exists w' next created, r = (Some w', Some (next, created)) /\
      status_ w' = FINISH /\ status_ created = PROCESS /\
      (next ∉ dom ws) /\ live = {[ next ]} ∪ dom ws
  | FINISH => r = (None, None) /\ live = dom ws ∖ {[ this ]}
  end ->
  status_ (receive req w) = status_ w ->
  heap_ok (update_heap this r ws) /\ listeners (update_heap this r ws) = listeners ws /\
  live = dom (update_heap this r ws).
Proof.
  intros Hw Hok Hr _. destruct (status_ w) eqn:Hst; [done| |].
  - destruct Hr as (w' & next & created & -> & Hw' & Hc & Hn & ->).
    unfold update_heap. cbn [fst snd].
    assert (Hne : this <> next). { intros ->. apply Hn. by apply elem_of_dom_2 in Hw. }
    split; [|split].
    + apply map_Forall_insert_2; [congruence|]. by apply map_Forall_insert_2; [congruence|].
    + rewrite <- (insert_delete_eq _ this w').
      rewrite (listeners_insert _ this w') by apply lookup_delete_eq.
      assert (Hl := listeners_delete (<[next := created]> ws) this w
        ltac:(by rewrite lookup_insert_ne)).
      rewrite (listeners_insert ws next created) in Hl by by apply not_elem_of_dom.
      rewrite Hc, Hst, !decide_True in Hl by done. rewrite Hw', decide_False by done. lia.
    + rewrite !dom_insert_L. apply elem_of_dom_2 in Hw. set_solver.
  - destruct Hr as [-> ->]. unfold update_heap. cbn [fst snd]. split; [|split].
    + by apply map_Forall_delete.
    + rewrite (listeners_delete ws this w Hw), Hst, decide_False by done. lia.
    + by rewrite dom_delete_L.
Qed.

(** *** Programs without a dangling tag *)

Fixpoint never {A} (why : string) (p : prog A) : Prop :=
  match p with
  | Ret _ => True
  | Vis c k => forall r, never why (k r)
  | Undef w => w <> why
  end.

Lemma never_bind {A B} why (p : prog A) (f : A -> prog B) :
  never why p -> (forall a, never why (f a)) -> never why (bind p f).
Proof. intros Hp Hf. induction p as [a|c k IH|w]; simpl in *; auto. Qed.

Abbreviation no_dangling := (never "dangling tag").

Ltac never_step :=
  match goal with
  | |- never _ (Ret _) => exact I
  | |- never _ (Undef _) => discriminate
  | |- never _ (Vis _ _) => intros ?
  | |- never _ (bind _ _) => apply never_bind; [|intros ?]
  | |- never _ (let '(_, _) := ?x in _) => destruct x
  | |- never _ (match ?x with _ => _ end) => destruct x eqn:?
  end.
Ltac never_run := repeat (never_step; cbn beta iota zeta).

Lemma match_keys_never rows k b : no_dangling (match_keys rows k b).
Proof. by destruct (match_keys_no_call rows k b) as [[? ->]| ->]. Qed.

Lemma last_count_never rows n : no_dangling (last_count rows n).
Proof.
  revert n. induction rows as [|[|cell row] rows IH]; intros n; [exact I|apply IH|].
  cbn [last_count]. unfold c_atoi. never_run; apply IH.
Qed.

Lemma seckillGoods_mysql_never u k c r : no_dangling (seckillGoods_mysql u k c r).
Proof.
  unfold seckillGoods_mysql, select_goods, not_null_conn, sprintf, free_result. never_run.
  apply last_count_never.
Qed.

Lemma handle_request_never w rc mc : no_dangling (handle_request w rc mc).
Proof.
  apply never_bind; [|intros [|]; [|exact I]; apply never_bind; [|intros [|]; [exact I|]]].
  - unfold checkUserInfo, checkUserInfo_mysql, not_null_conn, sprintf, free_result, not_null.
    never_run; apply match_keys_never.
  - unfold checkUserHasGot, checkUserHasGot_mysql, not_null_conn, sprintf, free_result. never_run.
  - cbn [negb]. unfold seckillGoods. generalize (response_ w). generalize (retry_levels 0).
    generalize 0. intros m n. revert m.
    induction n as [|n IH]; intros m r; [discriminate|]. cbn [seckillGoods_rec].
    destruct rc as [rc|]; [|apply seckillGoods_mysql_never].
    unfold read_total_count, give_back, is_OK, c_atoi, not_null.
    never_run; first [apply IH | apply seckillGoods_mysql_never].
Qed.

Lemma throttle_never : no_dangling throttle.
Proof. unfold throttle. never_run. Qed.

(** Calls that neither make, hand over nor delete a worker, and take no event. *)
Definition keeps_workers (c : call) : Prop :=
  match c with
  | new_Worker | delete_Worker _ | Requestseckill _ | Finish _ _ | cq_Next => False
  | _ => True
  end.

Abbreviation on_grpc p g Q := (follows uses_live grpc_answer grpc_after p g Q).

Lemma keeps_grpc {A B} (p : prog A) (f : A -> prog B) g (Q : grpc -> outcome B -> Prop) :
  all_calls keeps_workers p -> no_dangling p ->
  (forall why, why <> "dangling tag" -> Q g (UB why)) -> (forall a, on_grpc (f a) g Q) ->
  on_grpc (bind p f) g Q.
Proof.
  intros Hp Hn HQ Hf. induction p as [a|c k IH|why]; cbn [bind follows all_calls never] in *;
    [apply Hf| |by apply HQ].
  destruct Hp as [Hc Hk]. split; [by destruct c|]. intros r _.
  assert (grpc_after g (Ev c r) = g) as -> by by destruct c. by apply IH.
Qed.

Lemma throttle_keeps : all_calls keeps_workers throttle.
Proof. unfold throttle. calls_run. Qed.

Lemma handle_request_keeps_workers w rc mc : all_calls keeps_workers (handle_request w rc mc).
Proof.
  eapply all_calls_mono; [|apply handle_request_calls]. by intros [].
Qed.

(** *** A turn *)

Definition proceeded (ws : heap) (this : address) (s : WorkerStatus) (g : grpc)
    (o : outcome (option Worker * option (address * Worker))) : Prop :=
  o <> UB "dangling tag" /\ forall r, o = Val r ->
  match s with
  | CREATE => False
  | PROCESS => exists w' next created, r = (Some w', Some (next, created)) /\
      status_ w' = FINISH /\ status_ created = PROCESS /\
      (next ∉ dom ws) /\ live g = {[ next ]} ∪ dom ws
  | FINISH => r = (None, None) /\ live g = dom ws ∖ {[ this ]}
  end /\ awaited g = live g.

Lemma proceed_grpc ws this w :
  status_ w <> CREATE -> this ∈ dom ws ->
  on_grpc (Proceed this w) (Grpc (dom ws) (dom ws ∖ {[ this ]})) (proceeded ws this (status_ w)).
Proof.
  intros Hne Hthis. unfold Proceed. destruct (status_ w) eqn:Hw; [done| |].
  - split; [done|]. intros rc _. split; [done|]. intros mc _. split; [done|]. intros ? _.
    split; [done|]. intros next Hnext. cbn [grpc_answer grpc_after live awaited] in *.
    split; [cbn; set_solver|]. intros [] _. cbn [bind].
    apply keeps_grpc; [apply handle_request_keeps_workers|apply handle_request_never| |].
    { intros why Hwhy. split; [congruence|done]. }
    intros s. split; [done|]. intros ? _. split; [done|]. intros ? _.
    split; [cbn; set_solver|]. intros ? _. split; [done|]. intros res [= <-].
    split; [by eexists _, _, _|]. cbn. pose proof (Hdec := fun x => decide (x = this)).
    apply set_eq. intros x. destruct (Hdec x) as [->|]; set_solver.
  - split; [done|]. intros rc _. split; [done|]. intros ? _. split; [done|]. intros ? _.
    split; [cbn; set_solver|]. intros ? _. split; [done|]. by intros res [= <-].
Qed.

(** A thread's turns, from and to a heap whose workers are all with gRPC. *)
Definition turned (ws : heap) (g : grpc) (o : outcome heap) : Prop :=
  o <> UB "dangling tag" /\
  forall ws', o = Val ws' -> heap_ok ws' /\ listeners ws' = listeners ws /\ g = with_grpc ws'.

Lemma turn_grpc ws :
  heap_ok ws -> on_grpc (HandleRPCS_turn ws) (with_grpc ws) (turned ws).
Proof.
  intros Hok. unfold HandleRPCS_turn.
  apply keeps_grpc; [apply throttle_keeps|apply throttle_never| |].
  { intros why Hwhy. split; [congruence|done]. }
  intros [|]; cbn [negb]; [|by split; [|intros ws' [= <-]]].
  split; [done|]. intros e He. cbn in He.
  destruct (got_event e); [|by split]. destruct (ok e); [|by split]. cbn [negb].
  apply elem_of_dom in He as [w Hw]. rewrite Hw. apply follows_bind.
  assert (Hst : status_ (receive (request e) w) = status_ w) by by destruct (request e) as [[]|].
  apply (follows_mono _ _ _ _ _ (proceeded ws (tag e) (status_ w))).
  2: { rewrite <- Hst. apply proceed_grpc; [rewrite Hst; exact (Hok _ _ Hw)|by eapply elem_of_dom_2]. }
  intros g [r|why] [Hub Hr]; cbn [follows]; [|split; [by intros [= ->]|done]].
  destruct (Hr r eq_refl) as [Hcase Haw]. split; [done|]. intros ws' [= <-].
  destruct (update_heap_ok ws (tag e) w (request e) r (live g) Hw Hok Hcase Hst) as (H1 & H2 & H3).
  split; [done|]. split; [done|]. destruct g as [l a]. cbn in *. by subst a l.
Qed.

(** C10: one thread alone, over a heap of which gRPC holds every worker, and a queue that
    delivers only tags it was handed: however many turns the thread makes and whatever
    else is answered, the worker of each event is in the heap, and each worker it hands to
    gRPC or deletes exists and is not with gRPC at that moment.  When the turns end, the
    number of workers waiting for a request is what it was (one, after [Run]), no worker
    is in the constructor's state, and exactly the workers of the heap exist. *)
Theorem listeners_kept (n : nat) (workers : heap) (t : list event) (o : outcome heap) :
  heap_ok workers -> exec (HandleRPCS n workers) t o ->
  trace_ok grpc_answer grpc_after (with_grpc workers) t ->
  (forall t1 c r t2, t = (t1 ++ Ev c r :: t2)%list ->
     uses_live (foldl grpc_after (with_grpc workers) t1) c) /\
  o <> UB "dangling tag" /\
  forall workers', o = Val workers' ->
    heap_ok workers' /\ listeners workers' = listeners workers /\
    foldl grpc_after (with_grpc workers) t = with_grpc workers'.
Proof.
  intros Hok Hex Htr.
  assert (Hf : on_grpc (HandleRPCS n workers) (with_grpc workers) (turned workers)).
  { clear t o Hex Htr. revert workers Hok. induction n as [|n IH]; intros ws Hok.
    { by split; [|intros ws' [= <-]]. }
    cbn [HandleRPCS]. apply follows_bind. eapply follows_mono; [|by apply turn_grpc].
    intros g [ws1|why] [Hub Hval]; [|by split].
    destruct (Hval ws1 eq_refl) as (Hok1 & Hl1 & ->).
    eapply follows_mono; [|by apply IH]. intros g o [Hub2 Hv2]. split; [done|].
    intros ws' Ho. rewrite <- Hl1. by apply Hv2. }
  destruct (follows_exec _ _ _ _ _ _ _ _ Hf Hex Htr) as [[Hub Hval] Huses]. auto.
Qed.

Definition waiting_worker : heap := {[ 4%positive := example_worker PROCESS ]}.
Definition answer_fresh (c : call) : ans c :=
  match c return ans c with new_Worker => 5%positive | c => answer idle_server c end.

Lemma listeners_kept_witness :
  let r := run (fun c (_ : unit) => (answer_fresh c, tt)) (HandleRPCS 1 waiting_worker) tt in
  exists workers' : heap, r.1.1 = Val workers' /\ listeners workers' = 1%nat.
Proof.
  eexists. split; [vm_compute; reflexivity|].
  eapply (listeners_kept 1 waiting_worker
    (run (fun c (_ : unit) => (answer_fresh c, tt)) (HandleRPCS 1 waiting_worker) tt).1.2
    (run (fun c (_ : unit) => (answer_fresh c, tt)) (HandleRPCS 1 waiting_worker) tt).1.1).
  - apply map_Forall_singleton. discriminate.
  - pose proof (run_exec (fun c (_ : unit) => (answer_fresh c, tt)) (HandleRPCS 1 waiting_worker) tt)
      as H. exact H.
  - vm_compute. repeat first [exact I | split]; set_solver.
  - vm_compute. reflexivity.
Defined.

(** ** The preparation *)

Lemma load_users_calls rows rc mc : all_calls (request_call rc mc) (load_users rows rc).
Proof.
  induction rows as [|[|row0 [|row1 row]] rows IH]; [exact I|exact IH|exact IH|].
  cbn [load_users]. unfold is_OK, not_null. calls_run; exact IH.
Qed.

Lemma last_goods_no_call rows n :
  (exists n', last_goods rows n = Ret n') \/ (exists why, last_goods rows n = Undef why).
Proof.
  revert n. induction rows as [|row rows IH]; intros n; cbn [last_goods]; [eauto|].
  destruct (1 <? _); [|apply IH]. destruct row as [|? [|? [|[row2|] row]]]; simpl; eauto.
  destruct (atoi (c_str row2)); simpl; eauto.
Qed.

Lemma is_OK_no_call r : (exists b, is_OK r = Ret b) \/ (exists why, is_OK r = Undef why).
Proof.
  destruct r as [r|]; simpl; [|eauto]. destruct (_ =? _); [|eauto].
  destruct (str r); simpl; eauto.
Qed.

Definition both_held (rc mc : option conn) : option custody :=
  Some (Custody (Some rc) (Some mc) [] []).

Lemma stays_held rc mc c r :
  request_call rc mc c -> track (both_held rc mc) (Ev c r) = both_held rc mc.
Proof. apply track_request_call. Qed.

Lemma uses_held_redis (rc : option conn) mc r :
  track (both_held rc mc) (Ev (redisFree rc) r) = Some (Custody None (Some mc) [] []).
Proof. simpl. unfold uses_redis. simpl. by rewrite decide_True. Qed.

Ltac closes := repeat (progress (simpl; unfold uses_redis, uses_mysql; simpl) || rewrite decide_True by done).

Lemma prepare_users_custody key mc rc :
  wp any_answer track (prepare_users key mc rc) (both_held rc mc) (fun g o =>
    match o with
    | Val None => g = both_held rc mc
    | Val (Some Returned) => g = Some (Custody None (Some mc) [] [])
    | Val (Some (Exited c)) => c = 1
    | UB _ => True
    end).
Proof.
  unfold prepare_users. repeat (wp_step; cbn beta iota zeta); try done.
  all: rewrite !stays_held by done.
  all: eapply wp_mono; [|apply (wp_all_calls _ _ (request_call rc mc));
    [intros; by apply stays_held|apply load_users_calls]].
  all: cbn beta; intros g [[|]|why] ->; [| |done]; cbn [wp]; intros ? _.
  all: rewrite ?uses_held_redis, ?stays_held by done; done.
Qed.

(** The calls of [prepare_goods] on its way to a regular end. *)
Lemma prepare_goods_cases connection redisconn t a :
  exec (prepare_goods connection redisconn) t (Val a) ->
  (a = Exited 1 /\ exists e, e <> 0 /\ t = [Ev (mysql_query connection goodsSql) e; Ev (process_exit 1) tt]) \/
  (a = Returned /\ exists res rows n rep t1 t2,
    t = (t1 ++ Ev (redisCommand redisconn "SET %s %s" ["total_count"; to_string n]) rep :: t2)%list /\
    Ev (mysql_fetch_rows res) rows ∈ t1 /\ last_goods rows 0 = Ret n /\
    foldl track (both_held redisconn connection) t = Some (Custody None None [] [])).
Proof.
  unfold prepare_goods. intros (e & t1 & -> & Hex).
  destruct (Z.eqb_spec e 0) as [->|He]; cbn in Hex.
  2: { destruct Hex as ([] & ? & -> & -> & [= ->]). left. eauto. }
  right. destruct Hex as (res & t2 & -> & rows & t3 & -> & Hex).
  apply exec_bind in Hex as [(t4 & t5 & n & -> & Hn & Hex)|(? & _ & [=])].
  assert (t4 = [] /\ last_goods rows 0 = Ret n) as [-> Hrows].
  { destruct (last_goods_no_call rows 0) as [[n' E]|[why E]]; rewrite E in Hn |- *;
      destruct Hn as [-> [= ->]]; done. }
  destruct Hex as ([] & t6 & -> & e2 & t7 & -> & rep & t8 & -> & Hex).
  apply exec_bind in Hex as [(t9 & t10 & b & -> & Hb & Hex)|(? & _ & [=])].
  assert (t9 = []) as ->.
  { destruct (is_OK_no_call rep) as [[b' E]|[why E]]; rewrite E in Hb; by destruct Hb. }
  cbn [app] in *.
  assert (Hend : a = Returned /\ foldl track (both_held redisconn connection) t10 =
                                Some (Custody None None [] [])).
  { destruct b.
    - destruct Hex as ([] & ? & -> & ? & ? & -> & [] & ? & -> & ? & ? & -> & [] & ? & -> & [] & ? & -> & -> & [= ->]).
      split; [done|]. cbn [foldl]. rewrite !stays_held by done.
      by closes.
    - apply exec_bind in Hex as [(t11 & t12 & [] & -> & Hf & Hex)|(? & _ & [=])].
      assert (foldl track (both_held redisconn connection) t11 = both_held redisconn connection) as Ht.
      { destruct rep; [destruct Hf as ([] & ? & -> & -> & _)|destruct Hf as [-> _]]; done. }
      destruct Hex as ([] & ? & -> & [] & ? & -> & -> & [= ->]).
      split; [done|]. rewrite foldl_app, Ht. by closes. }
  destruct Hend as [-> Hend]. split; [done|].
  exists res, rows, n, rep,
    [Ev (mysql_query connection goodsSql) 0; Ev (mysql_use_result connection) res;
     Ev (mysql_fetch_rows res) rows; Ev (mysql_free_result res) tt;
     Ev (mysql_query connection createTSql) e2], t10.
  split_and!; [done|set_solver|done|].
  cbn [foldl]. by rewrite !stays_held by done.
Qed.

(** How [prepareForSeckill] ends.  The process exits when one of the two tables cannot
    be read; otherwise either every user was copied to Redis, [total_count] in Redis was
    set to the count in the last row of [goods_info], and both connections are back in
    their pools; or a reply for a user was not OK, and then the function returns with the
    MySQL connection never returned to its pool and the Redis connection freed behind the
    pool's back. *)
Theorem prepare_ends (key : Z -> string) (t : list event) (a : after) :
  exec (prepareForSeckill key) t (Val a) ->
  a = Exited 1 \/
  (a = Returned /\ exists mc rc res rows n rep,
     foldl track (Some (Custody None None [] [])) t = Some (Custody None None [] []) /\
     Ev mysql_getOneConnect mc ∈ t /\ Ev redis_getOneConnect rc ∈ t /\
     Ev (mysql_fetch_rows res) rows ∈ t /\ last_goods rows 0 = Ret n /\
     Ev (redisCommand rc "SET %s %s" ["total_count"; to_string n]) rep ∈ t) \/
  (a = Returned /\ exists mc,
     foldl track (Some (Custody None None [] [])) t = Some (Custody None (Some mc) [] [])).
Proof.
  intros (mc & ? & -> & rc & ? & -> & Hex).
  destruct (not_null_conn_cases mc) as [E|E]; rewrite E in Hex; [|by destruct Hex].
  destruct Hex as (e1 & ? & -> & e2 & ? & -> & e3 & ? & -> & Hex).
  apply exec_bind in Hex as [(t1 & t2 & ended & -> & Hu & Hex)|(? & _ & [=])].
  pose proof (wp_exec any_answer track _ _ _ _ _ (prepare_users_custody key mc rc) Hu
    (trace_ok_any _ _ _)) as Hg. cbn beta iota in Hg.
  assert (Hstart : forall g, foldl track (both_held rc mc) t1 = g ->
    foldl track (Some (Custody None None [] []))
      (Ev mysql_getOneConnect mc :: Ev redis_getOneConnect rc ::
       Ev (mysql_query mc creatGoodsTSql) e1 :: Ev (mysql_query mc insertGoodsSql) e2 ::
       Ev (mysql_query mc deleteOrderSql) e3 :: t1 ++ t2) = foldl track g t2).
  { intros g <-. cbn [foldl].
    change (track (track (Some (Custody None None [] [])) (Ev mysql_getOneConnect mc))
      (Ev redis_getOneConnect rc)) with (both_held rc mc).
    rewrite !stays_held by done. by rewrite foldl_app. }
  destruct ended as [[|code]|].
  - destruct Hex as [-> [= ->]]. right. right. split; [done|]. exists mc.
    by rewrite (Hstart _ Hg).
  - destruct Hex as [-> [= ->]]. left. by subst code.
  - apply prepare_goods_cases in Hex as
      [(-> & _)|(-> & res & rows & n & rep & t3 & t4 & -> & Hin & Hrows & Hend)]; [by left|].
    right. left. split; [done|]. exists mc, rc, res, rows, n, rep.
    split_and!; [|set_solver..]. by rewrite (Hstart _ Hg).
Qed.

Lemma prepare_ends_witness :
  result_of all_well (prepareForSeckill (fun _ => "k")) = Val Returned /\
  (Returned = Exited 1 \/ exists mc : option conn,
     foldl track (Some (Custody None None [] []))
       (calls_of all_well (prepareForSeckill (fun _ => "k"))) =
     Some (Custody None None [] []) \/
     foldl track (Some (Custody None None [] []))
       (calls_of all_well (prepareForSeckill (fun _ => "k"))) =
     Some (Custody None (Some mc) [] [])).
Proof.
  split; [vm_compute; reflexivity|].
  destruct (prepare_ends (fun _ => "k") (calls_of all_well (prepareForSeckill (fun _ => "k")))
    Returned) as [H|[(_ & mc & _ & _ & _ & _ & _ & H & _)|(_ & mc & H)]].
  - apply served. vm_compute. reflexivity.
  - left. exact H.
  - right. exists mc. left. exact H.
  - right. exists mc. right. exact H.
Defined.

(** ** [Run] and [main] *)

(** The threads created, with the codes of [pthread_create]. *)
Definition threads_created (i : Z) (codes : list Z) : list event :=
  imap (fun k r => Ev (pthread_create (i + Z.of_nat k)) r) codes.

Lemma create_threads_trace n i t o :
  exec (create_threads n i) t o ->
  o = Val tt /\ exists codes, length codes = n /\ t = threads_created i codes.
Proof.
  revert i t. induction n as [|n IH]; intros i t; simpl.
  - intros [-> ->]. split; [done|]. by exists [].
  - intros (r & t' & -> & Hex). destruct (IH _ _ Hex) as (-> & codes & Hl & ->).
    split; [done|]. exists (r :: codes). split; [simpl; by rewrite Hl|].
    unfold threads_created. simpl. rewrite Z.add_0_r. f_equal. apply imap_ext. intros k x _.
    unfold compose. simpl. replace (i + Z.of_nat (S k)) with (i + 1 + Z.of_nat k) by lia. done.
Qed.

Lemma join_threads_trace n t o :
  exec (join_threads n) t o -> o = Val tt /\ t = replicate n (Ev (pthread_join 0) tt).
Proof.
  revert t. induction n as [|n IH]; intros t; simpl; [by intros [-> ->]|].
  intros ([] & t' & -> & Hex). by destruct (IH _ Hex) as [-> ->].
Qed.

(** What [Run] does, from the first worker at [first] and the codes of [pthread_create]. *)
Definition run_calls (first : address) (codes : list Z) : list event :=
  [Ev (BuildAndStart SERVER_ADDRESS MAX_RECEIVE_SIZE MAX_SEND_SIZE) tt; Ev (write_failedCount 0) tt;
   Ev pthread_rwlock_init tt; Ev (write_successNum 0) tt; Ev new_Worker first;
   Ev (Requestseckill first) tt] ++
  threads_created 0 codes ++ replicate WORKER_NUM (Ev (pthread_join 0) tt).

Lemma Run_trace t o :
  exec Run t o ->
  o = Val tt /\ exists first codes, length codes = WORKER_NUM /\ t = run_calls first codes.
Proof.
  intros ([] & ? & -> & [] & ? & -> & [] & ? & -> & [] & ? & -> & first & ? & -> & Hex).
  destruct Hex as ([] & ? & -> & Hex).
  apply exec_bind in Hex as [(t0 & ? & w & -> & [-> _] & Hex)|(? & [_ [=]] & _)].
  apply exec_bind in Hex as [(t1 & t2 & [] & -> & Hc & Hex)|(? & Hc & _)]; [|by apply create_threads_trace in Hc as [? _]].
  apply create_threads_trace in Hc as (_ & codes & Hl & ->).
  apply exec_bind in Hex as [(t3 & t4 & [] & -> & Hj & Hex)|(? & Hj & _)]; [|by apply join_threads_trace in Hj as [? _]].
  apply join_threads_trace in Hj as [_ ->]. destruct Hex as [-> ->].
  split; [done|]. exists first, codes. split; [done|]. by rewrite app_nil_r.
Qed.

(** The calls of [main] that set up the pools, and those after [Run]. *)
Definition main_start : list event :=
  [Ev getMysqlPoolObject tt;
   Ev (mysql_setParameter "mymysql" "tinykpwang" "14225117sa" "seckill" 3306 None 0 30) tt;
   Ev getRedisPoolObject tt; Ev (redis_setParameter "myredis" 6379 None 0 500) tt].
Definition main_end : list event :=
  [Ev delete_mysql tt; Ev delete_redis tt; Ev server_Shutdown tt; Ev cq_Shutdown tt].

(** C35: what [main] does, in order, on every execution that ends.  The pools get their
    parameters, [prepareForSeckill] runs; if it exits the process nothing else happens.
    Otherwise the server is built, the shared variables are set to 0, one worker waits for
    a request, 20 threads are created whatever [pthread_create] returns, and the first
    of them alone is joined, 20 times: once it has ended, the pools are deleted, and only
    then the server and its queue shut down. *)
Theorem server_main_order (key : Z -> string) (t : list event) (a : after) :
  exec (main key) t (Val a) ->
  exists t1, exec (prepareForSeckill key) t1 (Val a) /\
  ((a <> Returned /\ t = (main_start ++ t1)%list) \/
   (a = Returned /\ exists first codes, length codes = 20%nat /\
      t = (main_start ++ t1 ++
          [Ev (BuildAndStart "0.0.0.0:50051" 5000 5000) tt; Ev (write_failedCount 0) tt;
           Ev pthread_rwlock_init tt; Ev (write_successNum 0) tt; Ev new_Worker first;
           Ev (Requestseckill first) tt] ++
          threads_created 0 codes ++ replicate 20 (Ev (pthread_join 0) tt) ++ main_end)%list)).
Proof.
  intros ([] & ? & -> & [] & ? & -> & [] & ? & -> & [] & ? & -> & Hex).
  apply exec_bind in Hex as [(t1 & t2 & prepared & -> & Hp & Hex)|(? & _ & [=])].
  exists t1. destruct prepared as [|code].
  - apply exec_bind in Hex as [(t3 & t4 & [] & -> & Hr & Hex)|(? & Hr & _)]; [|by apply Run_trace in Hr as [? _]].
    apply Run_trace in Hr as (_ & first & codes & Hl & ->).
    destruct Hex as ([] & ? & -> & [] & ? & -> & [] & ? & -> & [] & ? & -> & -> & [= ->]).
    split; [done|]. right. split; [done|]. exists first, codes. split; [done|].
    unfold run_calls. by rewrite <- !app_assoc.
  - destruct Hex as [-> [= ->]]. split; [done|]. left. split; [done|]. by rewrite app_nil_r.
Qed.

Lemma server_main_order_witness :
  let t := calls_of all_well (main (fun _ => "k")) in
  result_of all_well (main (fun _ => "k")) = Val Returned /\
  exists t1, exec (prepareForSeckill (fun _ => "k")) t1 (Val Returned).
Proof.
  split; [vm_compute; reflexivity|].
  destruct (server_main_order (fun _ => "k") (calls_of all_well (main (fun _ => "k"))) Returned) as (t1 & H & _).
  - apply served. vm_compute. reflexivity.
  - exists t1. exact H.
Defined.
