(* ===== verification/Objects.v ===== *)
(** * The workers as objects the threads share

    In [Server.v] a worker is a value.  In the program it is an object that the threads reach
    through the tags of the completion queue: created by one thread, it is served by a second
    and deleted by a third.  Here the members are memory, each access a step, and any number
    of threads run over one heap and one queue. *)
From Stdlib Require Import ZArith Lia Ascii String.
From stdpp Require Import base tactics numbers strings relations gmap list.
From S2P Require Import Prelude Words Pool CString Prog Threads Worker Ledger WorkerProps.
From S2P Require Import WorkerSafety Server ServerProps.

Local Open Scope string_scope.
Local Open Scope prog_scope.
Local Open Scope Z_scope.

(** ** [Proceed] on memory *)

(** The enumerators of [WorkerStatus]. *)
Definition status_code (s : WorkerStatus) : Z :=
  match s with CREATE => 0 | PROCESS => 1 | FINISH => 2 end.

(** [depth] bounds the calls of [Proceed] from the constructor of the next worker. *)
Fixpoint Proceed_mem (depth : nat) (this : address) : prog unit :=
  match depth with
  | O => Undef "unreachable"
  | S depth' =>
      let! s := load_status this in
      if s =? status_code CREATE then
        store_status this (status_code PROCESS);;!
        Requestseckill this;;!
        Ret ()
      else
      let! s := load_status this in
      if s =? status_code PROCESS then
        let! redisconn := redis_getOneConnect in
        let! mysqlconnection := mysql_getOneConnect in
        store_status this (status_code FINISH);;!
        redisCommand redisconn "LPUSH work_list %s" ["1"];;!
        let! next := new_Worker in
        construct_Worker next;;!
        do _ <- Proceed_mem depth' next;
        let! req := load_request this in
        do result <- handle_request (MkWorker FINISH req.1 req.2 "") redisconn mysqlconnection;
        store_response this result;;!
        redis_close redisconn;;!
        mysql_close mysqlconnection;;!
        let! response := load_response this in
        Finish this response;;!
        Ret ()
      else
      let! s := load_status this in
      if s =? status_code FINISH then
        let! redisconn := redis_getOneConnect in
        redisCommand redisconn "lpop %s" ["work_list"];;!
        redis_close redisconn;;!
        delete_Worker this;;!
        Ret ()
      else Undef "assertion failed"
  end.

(** The constructor's call is the only nested one. *)
Definition Proceed_object : address -> prog unit := Proceed_mem 2.

(** One turn of [HandleRPCS]: the tag is a pointer to a worker. *)
Definition HandleRPCS_object : prog unit :=
  do go <- throttle;
  if negb go then Ret () else
  let! e := cq_Next in
  if negb (got_event e) then Undef "assertion failed" else
  if negb (ok e) then Undef "assertion failed" else
  Proceed_object (tag e).

Fixpoint object_turns (n : nat) : prog unit :=
  match n with
  | O => Ret ()
  | S n' => do _ <- HandleRPCS_object; object_turns n'
  end.

(** ** The two models of [Proceed] agree *)

Definition status_of_code (z : Z) : WorkerStatus :=
  if z =? 0 then CREATE else if z =? 1 then PROCESS else FINISH.

Lemma status_of_code_of s : status_of_code (status_code s) = s.
Proof. by destruct s. Qed.

(** The memory as a heap of workers that no one else touches: what a load answers, and what
    an access leaves. *)
Definition alone_ok (ws : heap) (c : call) : ans c -> Prop :=
  match c return ans c -> Prop with
  | new_Worker => fun a => a ∉ dom ws
  | load_status a => fun z => exists w, ws !! a = Some w /\ z = status_code (status_ w)
  | load_request a => fun req => exists w, ws !! a = Some w /\ req = (usrname w, usrkey w)
  | load_response a => fun s => exists w, ws !! a = Some w /\ s = response_ w
  | _ => fun _ => True
  end.

Definition alone_upd (ws : heap) (e : event) : heap :=
  match call_of e with
  | construct_Worker a => <[a := MkWorker CREATE "" "" ""]> ws
  | store_status a z => alter (fun w => set_status w (status_of_code z)) a ws
  | store_response a r => alter (fun w => set_response w r) a ws
  | delete_Worker a => delete a ws
  | _ => ws
  end.

(** The accesses to the members, which [Worker.v] has no calls for. *)
Definition is_access (c : call) : bool :=
  match c with
  | construct_Worker _ | load_status _ | store_status _ _ | load_request _ | load_response _
  | store_response _ _ => true
  | _ => false
  end.
Definition without_accesses (t : list event) : list event :=
  List.filter (fun e => negb (is_access (call_of e))) t.

(** A request makes no access. *)
Lemma request_no_access rc mc c ws r :
  request_call rc mc c -> is_access c = false /\ alone_upd ws (Ev c r) = ws.
Proof. by destruct c. Qed.

Lemma request_alone w rc mc t o ws :
  exec (handle_request w rc mc) t o ->
  without_accesses t = t /\ foldl alone_upd ws t = ws.
Proof.
  intros Hex. pose proof (all_calls_exec _ _ _ _ (handle_request_calls w rc mc) Hex) as Hall.
  clear Hex. induction Hall as [|[c r] t Hc _ [IH1 IH2]]; [done|].
  destruct (request_no_access rc mc c ws r Hc) as [Ha Hu]. unfold without_accesses in *.
  cbn [List.filter foldl call_of]. rewrite Ha, Hu. cbn [negb]. by rewrite IH1.
Qed.

(** One call of an execution, with what its answer is known to be. *)
Ltac peel Hex Htr :=
  let r := fresh "r" in let t := fresh "t" in let Hr := fresh "Hr" in
  destruct Hex as (r & t & -> & Hex); destruct Htr as [Hr Htr];
  cbn [alone_ok alone_upd call_of] in Hr, Htr.

Lemma alter_known (f : Worker -> Worker) a (ws : heap) w :
  ws !! a = Some w -> alter f a ws = <[a := f w]> ws.
Proof.
  intros Hw. rewrite <- (insert_id ws a w) at 1 by done. by rewrite alter_insert_eq.
Qed.

(** What the next load of the status of [a] finds. *)
Lemma alone_status (ws : heap) (a : address) w z (r : Z) :
  ws !! a = Some w -> (exists w', ws !! a = Some w' /\ r = status_code (status_ w')) ->
  status_ w = z -> r = status_code z.
Proof. intros Hw (w' & Hw' & ->) <-. congruence. Qed.

Lemma without_accesses_app t1 t2 :
  without_accesses (t1 ++ t2)%list = (without_accesses t1 ++ without_accesses t2)%list.
Proof. apply List.filter_app. Qed.

Lemma skip_access c r t : is_access c = true -> without_accesses (Ev c r :: t) = without_accesses t.
Proof. intros Hc. unfold without_accesses. cbn [List.filter call_of]. by rewrite Hc. Qed.

(** From the request to the response, once the next worker is in place. *)
Lemma serve_rest (ws : heap) this u k rc mc (next : address * Worker) t o :
  ws !! this = Some (MkWorker FINISH u k "") ->
  exec (let! req := load_request this in
        do result <- handle_request (MkWorker FINISH req.1 req.2 "") rc mc;
        store_response this result;;!
        redis_close rc;;!
        mysql_close mc;;!
        let! response := load_response this in
        Finish this response;;!
        Ret ()) t o ->
  trace_ok alone_ok alone_upd ws t ->
  let p :=
    do result <- handle_request (MkWorker FINISH u k "") rc mc;
    redis_close rc;;!
    mysql_close mc;;!
    Finish this result;;!
    Ret (Some (MkWorker FINISH u k result), Some next) in
  match o with
  | Val _ => exists s, exec p (without_accesses t) (Val (Some (MkWorker FINISH u k s), Some next)) /\
      foldl alone_upd ws t = <[this := MkWorker FINISH u k s]> ws
  | UB why => exec p (without_accesses t) (UB why)
  end.
Proof.
  intros Hw Hex Htr p. peel Hex Htr. destruct Hr as (w & Hw' & ->).
  assert (w = MkWorker FINISH u k "") as -> by congruence. cbn [fst snd usrname usrkey] in Hex.
  rewrite skip_access by done.
  cbn [foldl alone_upd call_of usrname usrkey]. subst p.
  apply exec_bind in Hex as [(t1 & t2 & s & -> & Hreq & Hex)|(why & Hreq & ->)].
  - destruct (request_alone _ _ _ _ _ ws Hreq) as [Hno Hws].
    rewrite trace_ok_app, Hws in Htr. destruct Htr as [_ Htr].
    peel Hex Htr. rewrite (alter_known _ _ _ _ Hw) in Htr. do 2 peel Hex Htr. peel Hex Htr. peel Hex Htr.
    destruct Hex as [-> ->]. destruct Hr2 as (w & Hw2 & ->). rewrite lookup_insert_eq in Hw2.
    injection Hw2 as <-. exists s. rewrite without_accesses_app, Hno, foldl_app, Hws. split.
    + apply exec_bind. left. eexists t1, _, s. split; [done|]. split; [done|]. by repeat eexists.
    + cbn [foldl alone_upd call_of]. by rewrite (alter_known _ _ _ _ Hw).
  - destruct (request_alone _ _ _ _ _ ws Hreq) as [-> _]. apply exec_bind. right. eauto.
Qed.

(** C25: the memory model of [Proceed] implements the functional one.  Run on a heap that no one
    else touches, with the accesses to the members answered from it, [Proceed] on the object at
    [this] makes the calls of [Worker.v]'s [Proceed] on the worker stored there, in that order,
    ends as it does, and leaves the heap that [update_heap] gives: the worker at [this] with its
    next status and response, or deleted, and the next worker constructed. *)
Theorem Proceed_object_refines (ws : heap) (this : address) (w : Worker) (t : list event)
    (o : outcome unit) :
  ws !! this = Some w -> (status_ w = PROCESS -> response_ w = "") ->
  exec (Proceed_object this) t o -> trace_ok alone_ok alone_upd ws t ->
  match o with
  | Val _ => exists r, exec (Proceed this w) (without_accesses t) (Val r) /\
      foldl alone_upd ws t = update_heap this r ws
  | UB why => exec (Proceed this w) (without_accesses t) (UB why)
  end.
Proof.
  intros Hw Hresp Hex Htr. unfold Proceed_object in Hex. cbn [Proceed_mem] in Hex.
  peel Hex Htr. destruct Hr as (w' & Hw' & ->). assert (w' = w) as -> by congruence. clear Hw'.
  unfold Proceed. destruct (status_ w) eqn:Hst; cbn [status_code Z.eqb] in Hex.
  - peel Hex Htr. peel Hex Htr. destruct Hex as [-> ->]. eexists. split; [cbn; eauto|].
    unfold alone_upd. cbn. by rewrite (alter_known _ _ _ w).
  - peel Hex Htr. apply (alone_status _ _ w PROCESS) in Hr as ->; [|done..].
    cbn [status_code Z.eqb Pos.eqb] in Hex. do 5 peel Hex Htr. peel Hex Htr.
    rename Hr3 into Hfresh. cbn [bind] in Hex. rewrite (alter_known _ _ _ w Hw) in Htr, Hfresh.
    assert (Hne : r3 <> this). { intros ->. apply Hfresh. by rewrite dom_insert_L, elem_of_union, elem_of_singleton; left. }
    peel Hex Htr. destruct Hr3 as (w0 & Hw0 & ->). rewrite lookup_insert_eq in Hw0. injection Hw0 as <-.
    cbn [status_ status_code Z.eqb bind] in Hex. do 2 peel Hex Htr.
    rewrite (alter_known _ _ _ (MkWorker CREATE "" "" "")) in Htr by by rewrite lookup_insert_eq.
    rewrite insert_insert_eq in Htr.
    specialize (Hresp eq_refl). destruct w as [st u k resp]. cbn in Hst, Hresp. subst st resp.
    rewrite !skip_access by done. cbn [foldl alone_upd call_of].
    rewrite (alter_known _ _ _ _ Hw), (alter_known _ _ _ (MkWorker CREATE "" "" ""))
      by by rewrite lookup_insert_eq.
    rewrite insert_insert_eq. cbn [set_status usrname usrkey response_] in *.
    set (ws2 := <[r3 := MkWorker PROCESS "" "" ""]> (<[this := MkWorker FINISH u k ""]> ws)).
    assert (Hw2 : ws2 !! this = Some (MkWorker FINISH u k "")) by (subst ws2; by simplify_map_eq).
    apply (serve_rest ws2 this u k r r0 (r3, MkWorker PROCESS "" "" "") _ _ Hw2) in Hex; [|exact Htr].
    unfold without_accesses. cbn [List.filter call_of is_access negb]. fold (without_accesses t0).
    destruct o as [[]|why].
    + destruct Hex as (s & Hex & Hws). eexists. split; [by repeat eexists|].
      etrans; [exact Hws|]. subst ws2. unfold update_heap. cbn [fst snd].
      rewrite !(insert_insert_ne _ this r3) by done. by rewrite insert_insert_eq.
    + by repeat eexists.
  - peel Hex Htr. apply (alone_status _ _ w FINISH) in Hr as ->; [|done..].
    cbn [status_code Z.eqb Pos.eqb] in Hex. peel Hex Htr.
    apply (alone_status _ _ w FINISH) in Hr as ->; [|done..].
    cbn [status_code Z.eqb Pos.eqb] in Hex. do 4 peel Hex Htr. destruct Hex as [-> ->].
    rewrite !skip_access by done. exists (None, None). split; [by repeat eexists|reflexivity].
Qed.

(** ** What is assumed of the heap and the queue *)

(** The status of each object that exists; the objects gRPC has in its hands: [true] waits
    for a request, [false] for a response to be sent; and the two messages of each object,
    as far as they are known. *)
Record objects := MkObjects {
  status_at : gmap address Z;
  pending : gmap address bool;
  request_at : gmap address (string * string);
  response_at : gmap address string;
}.

Definition set_status_at m v := MkObjects m (pending v) (request_at v) (response_at v).
Definition set_pending p v := MkObjects (status_at v) p (request_at v) (response_at v).
Definition set_response_at m v := MkObjects (status_at v) (pending v) (request_at v) m.

(** The members' initial values, and none when the object is gone. *)
Definition construct (a : address) (v : objects) : objects :=
  MkObjects (<[a := status_code CREATE]> (status_at v)) (pending v) (<[a := ("", "")]> (request_at v))
    (<[a := ""]> (response_at v)).
Definition destroy (a : address) (v : objects) : objects :=
  MkObjects (delete a (status_at v)) (pending v) (delete a (request_at v)) (delete a (response_at v)).

(** An object leaves the queue, with its request if it waited for one. *)
Definition deliver (e : completion) (v : objects) : objects :=
  MkObjects (status_at v) (delete (tag e) (pending v))
    (match request e with Some q => <[tag e := q]> (request_at v) | None => request_at v end)
    (response_at v).

(** [new] gives storage that is not in use, with anything in it; a tag that was handed to
    gRPC comes out of the queue once. *)
Definition objects_view (c : call) : ans c -> objects -> objects -> Prop :=
  match c return ans c -> objects -> objects -> Prop with
  | new_Worker => fun a v v' =>
      status_at v !! a = None /\ exists z, v' = set_status_at (<[a := z]> (status_at v)) v
  | construct_Worker a => fun _ v v' => v' = construct a v
  | store_status a z => fun _ v v' => v' = set_status_at (<[a := z]> (status_at v)) v
  | load_status a => fun z v v' => v' = v /\ forall z', status_at v !! a = Some z' -> z = z'
  | load_request a => fun q v v' => v' = v /\ forall q', request_at v !! a = Some q' -> q = q'
  | store_response a s => fun _ v v' => v' = set_response_at (<[a := s]> (response_at v)) v
  | load_response a => fun s v v' => v' = v /\ forall s', response_at v !! a = Some s' -> s = s'
  | delete_Worker a => fun _ v v' => v' = destroy a v
  | Requestseckill a => fun _ v v' => v' = set_pending (<[a := true]> (pending v)) v
  | Finish a _ => fun _ v v' => v' = set_pending (<[a := false]> (pending v)) v
  | cq_Next => fun e v v' =>
      if got_event e then
        is_Some (pending v !! tag e) /\ v' = deliver e v
      else v' = v
  | _ => fun _ v v' => v' = v
  end.

Class Heap (S : Type) := objects_of : S -> objects.
Class HeapLaws (S : Type) `{ServerState S, Heap S} :=
  heap_law i s c r s' : serve_call i s c r s' -> objects_view c r (objects_of s) (objects_of s').

(** ** The protocol of an object *)

Inductive holding :=
| Nothing
| Took (a : address)                 (* out of the queue *)
| Process (a : address)              (* its status is read: PROCESS *)
| Ending (a : address)               (* or FINISH *)
| Serving (a : address)              (* the status is FINISH for the next time *)
| Storage (a b : address)            (* and there is storage for the next worker *)
| Built (a b : address)              (* whose members are initialised *)
| Ready (a b : address)              (* and whose status is PROCESS *)
| Answering (a : address).           (* the next worker is with gRPC *)

Definition hold_pre (g : holding) (c : call) : Prop :=
  match c with
  | cq_Next => g = Nothing
  | load_status a => g = Took a \/ g = Process a \/ g = Ending a \/ exists this, g = Built this a
  | store_status a z =>
      g = Process a /\ z = status_code FINISH \/
      exists this, g = Built this a /\ z = status_code PROCESS
  | new_Worker => exists a, g = Serving a
  | construct_Worker b => exists a, g = Storage a b
  | Requestseckill b => exists a, g = Ready a b
  | load_request a | load_response a | store_response a _ | Finish a _ => g = Answering a
  | delete_Worker a => g = Ending a
  | _ => True
  end.

Definition hold_upd (g : holding) (e : event) : holding :=
  let '(Ev c r) := e in
  match c return ans c -> holding with
  | cq_Next => fun e => if got_event e then Took (tag e) else Nothing
  | load_status _ => fun z =>
      match g with
      | Took a => if z =? status_code PROCESS then Process a else Ending a
      | _ => g
      end
  | store_status _ _ => fun _ =>
      match g with Process a => Serving a | Built a b => Ready a b | _ => g end
  | new_Worker => fun b => match g with Serving a => Storage a b | _ => g end
  | construct_Worker _ => fun _ => match g with Storage a b => Built a b | _ => g end
  | Requestseckill _ => fun _ => match g with Ready a _ => Answering a | _ => g end
  | Finish _ _ | delete_Worker _ => fun _ => Nothing
  | _ => fun _ => g
  end r.

(** The status each stage finds. *)
Definition hold_ok (g : holding) (c : call) : ans c -> Prop :=
  match c return ans c -> Prop with
  | load_status _ => fun z =>
      match g with
      | Took _ => z = status_code PROCESS \/ z = status_code FINISH
      | Process _ => z = status_code PROCESS
      | Ending _ => z = status_code FINISH
      | _ => z = status_code CREATE
      end
  | _ => fun _ => True
  end.

Abbreviation follows_holding p g Q := (follows hold_pre hold_ok hold_upd p g Q).
Abbreviation hold_end := (fun g (o : outcome _) => match o with Val _ => g = Nothing | UB _ => True end).

(** *** Every turn follows it *)

(** Calls that are about no object. *)
Definition no_object (c : call) : Prop :=
  match c with
  | cq_Next | load_status _ | store_status _ _ | new_Worker | construct_Worker _ | Requestseckill _
  | load_request _ | load_response _ | store_response _ _ | Finish _ _ | delete_Worker _ => False
  | _ => True
  end.

Lemma no_object_pre g c : no_object c -> hold_pre g c.
Proof. by destruct c. Qed.
Lemma no_object_upd g c r : no_object c -> hold_upd g (Ev c r) = g.
Proof. by destruct c. Qed.

Lemma no_objects {A B} (p : prog A) (f : A -> prog B) g Q :
  all_calls no_object p -> (forall a, follows_holding (f a) g Q) -> (forall why, Q g (UB why)) ->
  follows_holding (bind p f) g Q.
Proof.
  intros Hp Hf HQ. apply follows_bind.
  apply (follows_mono _ _ _ _ _ (fun g' _ => g' = g)); [by intros g' [a|why] ->; [apply Hf|apply HQ]|].
  apply (follows_all_calls _ _ _ no_object); [intros; by apply no_object_pre|
    intros; by apply no_object_upd|done|done].
Qed.

Lemma request_no_object rc mc w : all_calls no_object (handle_request w rc mc).
Proof. eapply all_calls_mono; [|apply handle_request_calls]. by intros []. Qed.

Lemma throttle_no_object : all_calls no_object throttle.
Proof. unfold throttle. calls_run. Qed.

Ltac hold_step := split; [first [exact I|reflexivity|eexists; reflexivity]|intros ? ?; cbn [hold_upd]; cbn beta iota].

Lemma Proceed_object_holds a : follows_holding (Proceed_object a) (Took a) hold_end.
Proof.
  unfold Proceed_object. cbn [Proceed_mem]. split; [by left|].
  intros s [-> | ->]; cbn [status_code Z.eqb Pos.eqb hold_upd].
  - split; [by right; left|]. intros s ->. cbn [status_code Z.eqb Pos.eqb hold_upd].
    do 2 hold_step. split; [by left|]. intros ? _. cbn [hold_upd]. do 3 hold_step. cbn [bind].
    split; [right; right; right; by exists a|]. intros s ->. cbn [status_code Z.eqb hold_upd bind].
    split; [right; by exists a|]. intros ? _. cbn [hold_upd]. hold_step. hold_step.
    apply no_objects; [apply request_no_object| |done]. intros result. by do 5 hold_step.
  - split; [by right; right; left|]. intros s ->. cbn [status_code Z.eqb Pos.eqb hold_upd].
    split; [by right; right; left|]. intros s ->. cbn [status_code Z.eqb Pos.eqb hold_upd].
    by do 4 hold_step.
Qed.

Lemma object_turns_hold n : follows_holding (object_turns n) Nothing hold_end.
Proof.
  induction n as [|n IH]; [done|]. cbn [object_turns]. apply follows_bind.
  apply (follows_mono _ _ _ _ _ hold_end); [by intros g [h|why]; [intros ->|]|].
  unfold HandleRPCS_object. apply no_objects; [apply throttle_no_object| |done].
  intros go. destruct go; cbn [negb]; [|done]. hold_step.
  destruct (got_event r); cbn [negb]; [|done]. destruct (negb (ok r)); [done|].
  apply Proceed_object_holds.
Qed.

(** ** The invariant *)

(** The objects in a thread's hands. *)
Definition owns (g : holding) : list address :=
  match g with
  | Nothing => []
  | Took a | Process a | Ending a | Serving a | Answering a => [a]
  | Storage a b | Built a b | Ready a b => [a; b]
  end.

Definition hold_fits (v : objects) (g : holding) : Prop :=
  match g with
  | Nothing => True
  | Took a => status_at v !! a = Some 1 \/ status_at v !! a = Some 2
  | Process a => status_at v !! a = Some 1
  | Ending a | Serving a | Answering a => status_at v !! a = Some 2
  | Storage a b => a <> b /\ status_at v !! a = Some 2 /\ is_Some (status_at v !! b)
  | Built a b => a <> b /\ status_at v !! a = Some 2 /\ status_at v !! b = Some 0
  | Ready a b => a <> b /\ status_at v !! a = Some 2 /\ status_at v !! b = Some 1
  end.

(** A thread that has taken the waiting worker and has not put the next one in place. *)
Definition owes (v : objects) (g : holding) : Z :=
  match g with
  | Took a => b2z (bool_decide (status_at v !! a = Some 1))
  | Process _ | Serving _ | Storage _ _ | Built _ _ | Ready _ _ => 1
  | _ => 0
  end.

(** The workers that wait for a request. *)
Definition waiting (p : gmap address bool) : Z := Z.of_nat (size (filter (fun kv => kv.2 = true) p)).

Definition code_of (b : bool) : Z := if b then 1 else 2.

Record objects_inv (n : Z) (v : objects) (gs : list holding) : Prop := ObjectsInv {
  oi_pending a b : pending v !! a = Some b -> status_at v !! a = Some (code_of b);
  oi_owned i g a : gs !! i = Some g -> a ∈ owns g -> pending v !! a = None;
  oi_apart i j g g' a : gs !! i = Some g -> gs !! j = Some g' -> a ∈ owns g -> a ∈ owns g' -> i = j;
  oi_fits i g : gs !! i = Some g -> hold_fits v g;
  oi_leak a z : status_at v !! a = Some z ->
    is_Some (pending v !! a) \/ exists i g, gs !! i = Some g /\ a ∈ owns g;
  oi_waiting : waiting (pending v) + sum_of (owes v) gs = n;
}.

(** One step of the thread that goes from [g] to [g']: what it owns afterwards was its own,
    in the queue, or not in use; what it gives away goes to the queue or is gone. *)
Record object_step (v v' : objects) (g g' : holding) : Prop := ObjectStep {
  hs_fits : hold_fits v' g';
  hs_frame a : (a ∉ owns g) -> (a ∉ owns g') ->
    status_at v' !! a = status_at v !! a /\ pending v' !! a = pending v !! a;
  hs_new a : a ∈ owns g' -> a ∈ owns g \/ is_Some (pending v !! a) \/ status_at v !! a = None;
  hs_own a : a ∈ owns g' -> pending v' !! a = None;
  hs_gone a : a ∈ owns g -> (a ∉ owns g') ->
    (exists b, pending v' !! a = Some b /\ status_at v' !! a = Some (code_of b)) \/
    pending v' !! a = None /\ status_at v' !! a = None;
  hs_waiting : waiting (pending v') + owes v' g' = waiting (pending v) + owes v g;
}.

Lemma owns_live v g a : hold_fits v g -> a ∈ owns g -> is_Some (status_at v !! a).
Proof.
  destruct g; cbn; rewrite ?elem_of_cons, ?elem_of_nil; naive_solver.
Qed.

Lemma hold_fits_ext v v' g :
  (forall a, a ∈ owns g -> status_at v' !! a = status_at v !! a) -> hold_fits v g ->
  hold_fits v' g /\ owes v' g = owes v g.
Proof.
  intros Heq. destruct g; cbn in *; rewrite ?Heq by set_solver; done.
Qed.

Lemma objects_inv_step n v v' gs i g g' :
  objects_inv n v gs -> gs !! i = Some g -> object_step v v' g g' ->
  objects_inv n v' (<[i := g']> gs).
Proof.
  intros Hinv Hi [K1 K2 K3 K4 K5 K6]. pose proof (lookup_lt_Some _ _ _ Hi) as Hlt.
  assert (Hother : forall k gk a, k <> i -> gs !! k = Some gk -> a ∈ owns gk ->
    (a ∉ owns g) /\ (a ∉ owns g')).
  { intros k gk a Hk Hgk Ha. assert (Hg : a ∉ owns g).
    { intros Hag. apply Hk. by apply (oi_apart _ _ _ Hinv k i gk g a). }
    split; [done|]. intros Hag'. destruct (K3 a Hag') as [?|[[b Hb]|Hno]]; [done| |].
    - by rewrite (oi_owned _ _ _ Hinv k gk a) in Hb.
    - destruct (owns_live v gk a) as [z Hz]; [by apply (oi_fits _ _ _ Hinv k)|done|congruence]. }
  assert (Hsame : forall k gk a, k <> i -> gs !! k = Some gk -> a ∈ owns gk ->
    status_at v' !! a = status_at v !! a /\ pending v' !! a = pending v !! a).
  { intros k gk a Hk Hgk Ha. destruct (Hother k gk a Hk Hgk Ha). by apply K2. }
  split.
  - intros a b Hb. destruct (decide (a ∈ owns g')) as [Hg'|Hg']; [by rewrite K4 in Hb|].
    destruct (decide (a ∈ owns g)) as [Hg|Hg].
    + destruct (K5 a Hg Hg') as [(b' & Hb' & Hs)|[Hno _]]; congruence.
    + destruct (K2 a Hg Hg') as [-> Hp]. apply (oi_pending _ _ _ Hinv). congruence.
  - intros k gk a [[-> ->]|[Hk Hgk]]%insert_cases Ha; [by apply K4|].
    destruct (Hsame k gk a Hk Hgk Ha) as [_ ->]. by apply (oi_owned _ _ _ Hinv k gk).
  - intros k k' gk gk' a [[-> ->]|[Hk Hgk]]%insert_cases [[-> ->]|[Hk' Hgk']]%insert_cases Ha Ha'; [done|..].
    + by destruct (Hother k' gk' a Hk' Hgk' Ha').
    + by destruct (Hother k gk a Hk Hgk Ha).
    + by apply (oi_apart _ _ _ Hinv k k' gk gk' a).
  - intros k gk [[-> ->]|[Hk Hgk]]%insert_cases; [done|].
    apply (hold_fits_ext v v'); [intros a Ha; by apply (Hsame k gk)|by apply (oi_fits _ _ _ Hinv k)].
  - intros a z Hz. destruct (decide (a ∈ owns g')) as [Hg'|Hg'].
    { right. exists i, g'. by rewrite list_lookup_insert_eq. }
    destruct (decide (a ∈ owns g)) as [Hg|Hg].
    + destruct (K5 a Hg Hg') as [(b & -> & _)|[_ Hno]]; [left; by eexists|congruence].
    + destruct (K2 a Hg Hg') as [Hs ->]. rewrite Hs in Hz.
      destruct (oi_leak _ _ _ Hinv a z Hz) as [?|(k & gk & Hgk & Ha)]; [by left|right].
      exists k, gk. split; [|done]. rewrite list_lookup_insert_ne; [done|]. intros ->. congruence.
  - rewrite (sum_of_insert_ext (owes v) (owes v') gs i g g' Hi).
    + pose proof (oi_waiting _ _ _ Hinv). lia.
    + intros j gj Hj Hgj. apply (hold_fits_ext v v'); [|by apply (oi_fits _ _ _ Hinv j)].
      intros a Ha. by apply (Hsame j gj).
Qed.

(** *** The calls *)

Lemma waiting_insert p a b :
  p !! a = None -> waiting (<[a := b]> p) = waiting p + b2z b.
Proof.
  intros Ha. unfold waiting. destruct b; cbn [b2z].
  - rewrite map_filter_insert_True by done. rewrite map_size_insert_None; [lia|].
    by apply map_lookup_filter_None_2; left.
  - rewrite map_filter_insert_False by done. by rewrite delete_id, Z.add_0_r by done.
Qed.

Lemma waiting_delete p a b :
  p !! a = Some b -> waiting p = waiting (delete a p) + b2z b.
Proof.
  intros Ha. rewrite <- (waiting_insert (delete a p) a b) by apply lookup_delete_eq.
  by rewrite insert_delete_id.
Qed.

(** What the invariant says of one thread. *)
Definition thread_facts (v : objects) (g : holding) : Prop :=
  hold_fits v g /\ (forall a, a ∈ owns g -> pending v !! a = None) /\
  forall a b, pending v !! a = Some b -> status_at v !! a = Some (code_of b).

(** A call that leaves the heap, the queue and the hands as they are. *)
Lemma object_step_same v g : thread_facts v g -> object_step v v g g.
Proof. intros (Hf & Ho & _). split; naive_solver. Qed.

(** The messages do not matter. *)
Lemma object_step_ext v v1 v2 g g' :
  status_at v2 = status_at v1 -> pending v2 = pending v1 ->
  object_step v v1 g g' -> object_step v v2 g g'.
Proof.
  intros Hs Hp [K1 K2 K3 K4 K5 K6]. split; rewrite ?Hs, ?Hp; try done.
  - destruct g'; cbn in *; rewrite ?Hs; done.
  - rewrite <- K6. f_equal. destruct g'; cbn; by rewrite ?Hs.
Qed.

(** The status of an object in hand is written. *)
Lemma object_step_store v g g' a z :
  thread_facts v g -> a ∈ owns g -> owns g' = owns g ->
  let v' := set_status_at (<[a := z]> (status_at v)) v in
  hold_fits v' g' -> owes v' g' = owes v g -> object_step v v' g g'.
Proof.
  intros (Hf & Ho & _) Ha Howns v' Hf' Hw. split; cbn; rewrite ?Howns; try done; [|auto..| |lia].
  - intros b Hb _. rewrite lookup_insert_ne; [done|]. by intros ->.
  - auto.
Qed.

(** An object leaves the queue. *)
Lemma object_step_take v e b :
  thread_facts v Nothing -> pending v !! tag e = Some b ->
  object_step v (deliver e v) Nothing (Took (tag e)).
Proof.
  destruct e as [ev a okay q]. cbn [tag]. intros (_ & _ & Hp) Ha. pose proof (Hp a b Ha) as Hs. split; cbn.
  - rewrite Hs. destruct b; auto.
  - intros c _ ?%not_elem_of_cons. by rewrite lookup_delete_ne by naive_solver.
  - intros c ->%list_elem_of_singleton. right. left. by exists b.
  - intros c ->%list_elem_of_singleton. apply lookup_delete_eq.
  - by intros c ?%elem_of_nil.
  - rewrite (waiting_delete _ a b Ha), Hs. destruct b; cbn; case_bool_decide; try done; cbn; lia.
Qed.

(** Its status is read. *)
Lemma object_step_read v a z :
  thread_facts v (Took a) -> (forall z', status_at v !! a = Some z' -> z = z') ->
  object_step v v (Took a) (if z =? status_code PROCESS then Process a else Ending a).
Proof.
  intros (Hf & Ho & Hp) Hz.
  destruct Hf as [Hs|Hs]; cbn in Hs; apply Hz in Hs as Hz'; subst z; cbn;
    (split; cbn; [done|done|auto|auto|naive_solver|rewrite Hs; done]).
Qed.

(** Storage for the next worker. *)
Lemma object_step_new v a b z :
  thread_facts v (Serving a) -> status_at v !! b = None ->
  object_step v (set_status_at (<[b := z]> (status_at v)) v) (Serving a) (Storage a b).
Proof.
  intros (Hf & Ho & Hp) Hb. cbn in Hf. assert (a <> b) as Hne by congruence. split; cbn.
  - by rewrite lookup_insert_ne, lookup_insert_eq by done.
  - intros c _ Hc. rewrite lookup_insert_ne; [done|]. intros ->. apply Hc. by do 2 constructor.
  - intros c [-> | ->%list_elem_of_singleton]%elem_of_cons; [left; by constructor|auto].
  - intros c [-> | ->%list_elem_of_singleton]%elem_of_cons; [apply Ho; by constructor|].
    destruct (pending v !! b) as [x|] eqn:Hx; [|done]. apply Hp in Hx. congruence.
  - intros c ->%list_elem_of_singleton Hc. destruct Hc. by constructor.
  - lia.
Qed.

(** An object goes to the queue. *)
Lemma object_step_give v g g' a b :
  thread_facts v g -> a ∈ owns g -> (forall c, c ∈ owns g <-> c = a \/ c ∈ owns g') -> (a ∉ owns g') ->
  hold_fits v g' -> status_at v !! a = Some (code_of b) -> owes v g = owes v g' + b2z b ->
  object_step v (set_pending (<[a := b]> (pending v)) v) g g'.
Proof.
  intros (_ & Ho & Hp) Ha Howns Ha' Hf Hs Hw. split; cbn.
  - destruct g'; done.
  - intros c Hc _. rewrite lookup_insert_ne; [done|]. by intros ->.
  - intros c Hc. left. apply Howns. auto.
  - intros c Hc. rewrite lookup_insert_ne; [apply Ho, Howns; auto|]. by intros ->.
  - intros c [->|?]%Howns ?; [|done]. left. exists b. by rewrite lookup_insert_eq.
  - rewrite (waiting_insert _ a b (Ho a Ha)).
    change (owes _ g') with (owes v g'). lia.
Qed.

(** An object is deleted. *)
Lemma object_step_delete v a :
  thread_facts v (Ending a) ->
  object_step v (set_status_at (delete a (status_at v)) v) (Ending a) Nothing.
Proof.
  intros (_ & Ho & _). split; cbn; [done|..]; try by intros c ?%elem_of_nil.
  - intros c ?%not_elem_of_cons _. by rewrite lookup_delete_ne by naive_solver.
  - intros c ->%list_elem_of_singleton _. right. rewrite lookup_delete_eq.
    split; [|done]. apply Ho. by constructor.
  - done.
Qed.

Lemma hold_call v v' g c r :
  thread_facts v g -> hold_pre g c -> objects_view c r v v' ->
  hold_ok g c r /\ object_step v v' g (hold_upd g (Ev c r)).
Proof.
  intros Hv Hpre Hview. pose proof Hv as (Hf & _).
  destruct c; cbn [hold_pre objects_view hold_ok hold_upd] in *;
    try (subst v'; split; [done|by apply object_step_same]).
  - destruct Hview as [Hnew [z ->]]. destruct Hpre as [a ->]. split; [done|]. by apply object_step_new.
  - subst. split; [done|].
    by apply (object_step_ext v (set_status_at (delete this (status_at v)) v)), object_step_delete.
  - subst. destruct Hpre as [a ->]. destruct Hf as (Hne & Ha & Hb). split; [done|].
    apply object_step_give; cbn; try done; [by do 2 constructor| |].
    + intros c. rewrite !elem_of_cons, elem_of_nil. naive_solver.
    + rewrite list_elem_of_singleton. congruence.
  - subst. split; [done|]. apply object_step_give; cbn; try done; [by constructor| |].
    + intros c. by rewrite !elem_of_cons, elem_of_nil.
    + apply not_elem_of_nil.
  - split; [done|]. subst g. destruct (got_event r); [|subst; by apply object_step_same].
    destruct Hview as [[b Hb] ->]. by apply object_step_take with b.
  - subst v'. destruct Hpre as [a ->]. destruct Hf as (Hne & Ha & Hb). split; [done|].
    apply (object_step_ext v (set_status_at (<[this := status_code CREATE]> (status_at v)) v)); [done..|].
    apply (object_step_store _ _ _ this); cbn; try done; [by do 2 constructor|].
    by rewrite lookup_insert_ne, lookup_insert_eq by done.
  - destruct Hview as [-> Hz]. destruct Hpre as [-> |[-> |[-> |[a ->]]]].
    + split; [|by apply object_step_read]. destruct Hf as [Hs|Hs]; cbn in Hs; apply Hz in Hs; auto.
    + split; [by apply Hz|by apply object_step_same].
    + split; [by apply Hz|by apply object_step_same].
    + split; [apply Hz; apply Hf|by apply object_step_same].
  - subst v'. split; [done|]. destruct Hpre as [[-> ->]|[a [-> ->]]]; cbn in Hf.
    + apply (object_step_store _ _ _ this); cbn; try done; [by constructor|by rewrite lookup_insert_eq].
    + destruct Hf as (Hne & Ha & Hb).
      apply (object_step_store _ _ _ this); cbn; try done; [by do 2 constructor|].
      by rewrite lookup_insert_ne, lookup_insert_eq by done.
  - destruct Hview as [-> _]. split; [done|by apply object_step_same].
  - destruct Hview as [-> _]. split; [done|by apply object_step_same].
  - subst v'. split; [done|]. apply (object_step_ext v v); [done..|by apply object_step_same].
Qed.

(** ** Any number of threads *)

(** The object a call is made on. *)
Definition touches (c : call) : option address :=
  match c with
  | construct_Worker a | load_status a | store_status a _ | load_request a | load_response a
  | store_response a _ | Requestseckill a | Finish a _ | delete_Worker a => Some a
  | _ => None
  end.

Lemma touches_owned g c a : hold_pre g c -> touches c = Some a -> a ∈ owns g.
Proof.
  destruct c; try done; cbn; intros Hpre [= <-]; naive_solver (by cbn; rewrite ?elem_of_cons; auto).
Qed.

(** gRPC has every object, and the status of each is what its next event is about. *)
Definition all_waiting (v : objects) : Prop :=
  (forall a b, pending v !! a = Some b -> status_at v !! a = Some (code_of b)) /\
  dom (status_at v) = dom (pending v).

(** A thread that has not come to the end of its turns. *)
Definition midway (p : prog unit) : bool := match p with Ret _ => false | _ => true end.

Lemma objects_inv_start v n :
  all_waiting v -> objects_inv (waiting (pending v)) v (replicate n Nothing).
Proof.
  intros [Hp Hd].
  assert (Hno : forall i g a, replicate n Nothing !! i = Some g -> a ∈ owns g -> False).
  { intros i g a [-> _]%lookup_replicate Ha. by apply elem_of_nil in Ha. }
  split; try done.
  - intros i g a Hg Ha. by destruct (Hno i g a Hg Ha).
  - intros i j g g' a Hg _ Ha. by destruct (Hno i g a Hg Ha).
  - by intros i g [-> _]%lookup_replicate.
  - intros a z Hz. left. apply elem_of_dom. rewrite <- Hd. apply elem_of_dom. by eexists.
  - rewrite sum_of_replicate; [lia|done].
Qed.

Section system.
Context {S : Type} `{HeapLaws S}.

Lemma objects_inv_call n i s gs g c r s' :
  objects_inv n (objects_of s) gs -> gs !! i = Some g -> hold_pre g c -> serve_call i s c r s' ->
  hold_ok g c r /\ objects_inv n (objects_of s') (<[i := hold_upd g (Ev c r)]> gs).
Proof using All.
  intros Hinv Hi Hpre Hserve.
  destruct (hold_call (objects_of s) (objects_of s') g c r) as [Hok Hstep]; [|done|by apply (heap_law i)|].
  - split; [by apply (oi_fits _ _ _ Hinv i)|]. split; [|apply (oi_pending _ _ _ Hinv)].
    intros a. by apply (oi_owned _ _ _ Hinv i g).
  - split; [done|]. by apply objects_inv_step with (objects_of s) g.
Qed.

Lemma threads_objects (s0 : S) (turns : list nat) x :
  all_waiting (objects_of s0) -> reachable serve_call (Config s0 (map object_turns turns)) x ->
  inv hold_pre hold_ok hold_upd hold_end
    (fun s => objects_inv (waiting (pending (objects_of s0))) (objects_of s)) x.
Proof using All.
  intros Hs Hr. eapply (inv_reachable serve_call); [| |exact Hr].
  { intros. by eapply objects_inv_call. }
  exists (replicate (List.length turns) Nothing). split; [by apply objects_inv_start|].
  cbn [threads]. clear Hr. induction turns as [|n turns IH]; constructor; [apply object_turns_hold|exact IH].
Qed.

(** C3: any number of threads of the server, each making any number of turns of [HandleRPCS],
    over a heap that allocates storage not in use and a queue that delivers each tag once.
    Whatever the interleaving and the answers: the worker a thread is about to read, write,
    hand to gRPC or delete exists and is not with gRPC; no two threads are about to touch the
    same worker, so a member is never written by one while another reads it and nothing is
    freed twice; the number of workers that wait for a request is the number at the start,
    less at most one for each thread still in its turns; and when no thread is in a turn,
    exactly the objects with gRPC exist: none has leaked. *)
Theorem objects_safe (s0 : S) (turns : list nat) (x : config S unit) :
  all_waiting (objects_of s0) -> reachable serve_call (Config s0 (map object_turns turns)) x ->
  (forall i c k a, threads x !! i = Some (Vis c k) -> touches c = Some a ->
     is_Some (status_at (objects_of (shared x)) !! a) /\ pending (objects_of (shared x)) !! a = None) /\
  (forall i j c c' k k' a, threads x !! i = Some (Vis c k) -> threads x !! j = Some (Vis c' k') ->
     touches c = Some a -> touches c' = Some a -> i = j) /\
  waiting (pending (objects_of s0)) - tally midway (threads x) <=
    waiting (pending (objects_of (shared x))) <= waiting (pending (objects_of s0)) /\
  (tally midway (threads x) = 0 -> dom (status_at (objects_of (shared x))) = dom (pending (objects_of (shared x)))).
Proof using All.
  intros Hs Hr. destruct (threads_objects s0 turns x Hs Hr) as (gs & Hinv & Hts).
  assert (Hg : forall i c k a, threads x !! i = Some (Vis c k) -> touches c = Some a ->
    exists g, gs !! i = Some g /\ a ∈ owns g).
  { intros i c k a Hi Ha. destruct (Forall2_lookup_l _ _ _ _ _ Hts Hi) as (g & Hg & [Hpre _]).
    exists g. split; [done|]. by apply touches_owned with c. }
  assert (Hend : forall i g p, gs !! i = Some g -> threads x !! i = Some p -> midway p = false -> g = Nothing).
  { intros i g p Hgi Hp Hm. pose proof (Forall2_lookup_lr _ _ _ _ _ _ Hts Hp Hgi) as Hf. by destruct p. }
  split; [|split; [|split]].
  - intros i c k a Hi Ha. destruct (Hg i c k a Hi Ha) as (g & Hgi & Hown). split.
    + apply (owns_live _ g); [by apply (oi_fits _ _ _ Hinv i)|done].
    + by apply (oi_owned _ _ _ Hinv i g).
  - intros i j c c' k k' a Hi Hj Ha Ha'. destruct (Hg i c k a Hi Ha) as (g & Hgi & Hown).
    destruct (Hg j c' k' a Hj Ha') as (g' & Hgj & Hown'). by apply (oi_apart _ _ _ Hinv i j g g' a).
  - pose proof (oi_waiting _ _ _ Hinv) as Hw. cbn beta in Hw.
    assert (0 <= sum_of (owes (objects_of (shared x))) gs).
    { apply sum_of_nonneg. intros i [] _; cbn; try lia. by case_bool_decide. }
    enough (sum_of (owes (objects_of (shared x))) gs <= tally midway (threads x)) by lia.
    apply sum_of_tally; [|symmetry; by apply Forall2_length in Hts].
    intros i g p Hgi Hp. destruct (midway p) eqn:Hm; [|by rewrite (Hend i g p)].
    destruct g; cbn; try lia. by case_bool_decide.
  - intros Hall. apply set_eq. intros a. rewrite !elem_of_dom. split.
    + intros [z Hz]. destruct (oi_leak _ _ _ Hinv a z Hz) as [?|(i & g & Hgi & Ha)]; [done|].
      destruct (Forall2_lookup_r _ _ _ _ _ Hts Hgi) as (p & Hp & _).
      assert (g = Nothing) as ->; [|by apply elem_of_nil in Ha].
      apply (Hend i g p); [done|done|]. by apply (tally_none midway (threads x) Hall i).
    + intros [b Hb]. exists (code_of b). by apply (oi_pending _ _ _ Hinv).
Qed.
End system.

(** ** One worker served on memory of its own *)

Definition memory_fn (c : call) (ws : heap) : ans c * heap :=
  let r : ans c :=
    match c return ans c with
    | new_Worker => fresh (dom ws)
    | load_status a => default 0 (status_code ∘ status_ <$> ws !! a)
    | load_request a => default ("", "") ((fun w => (usrname w, usrkey w)) <$> ws !! a)
    | load_response a => default "" (response_ <$> ws !! a)
    | c => answer all_well c
    end in
  (r, alone_upd ws (Ev c r)).

Definition asking : heap := {[ 7%positive := MkWorker PROCESS "u" "k" "" ]}.

Lemma Proceed_object_refines_witness :
  let t := (run memory_fn (Proceed_object 7) asking).1.2 in
  (run memory_fn (Proceed_object 7) asking).1.1 = Val tt /\
  exists r, exec (Proceed 7 (MkWorker PROCESS "u" "k" "")) (without_accesses t) (Val r) /\
    foldl alone_upd asking t = update_heap 7%positive r asking.
Proof.
  split; [vm_compute; reflexivity|].
  refine (Proceed_object_refines asking 7 (MkWorker PROCESS "u" "k" "")
    (run memory_fn (Proceed_object 7) asking).1.2 (Val tt) _ _ _ _).
  - reflexivity.
  - reflexivity.
  - exact (run_exec memory_fn (Proceed_object 7) asking).
  - vm_compute. repeat (split || (eexists; split; reflexivity) || exact I || discriminate).
Defined.

(** ** Two threads and one worker *)

(** A heap and a queue; [rest] answers the other calls. *)
Definition objects_fn (rest : forall c, ans c) (i : nat) (v : objects) (c : call)
    : option (ans c * objects) :=
  match c return option (ans c * objects) with
  | new_Worker =>
      let a := fresh (dom (status_at v)) in Some (a, set_status_at (<[a := 7]> (status_at v)) v)
  | construct_Worker a => Some (tt, construct a v)
  | store_status a z => Some (tt, set_status_at (<[a := z]> (status_at v)) v)
  | load_status a => Some (default 0 (status_at v !! a), v)
  | delete_Worker a => Some (tt, destroy a v)
  | Requestseckill a => Some (tt, set_pending (<[a := true]> (pending v)) v)
  | Finish a _ => Some (tt, set_pending (<[a := false]> (pending v)) v)
  | cq_Next =>
      match map_to_list (pending v) with
      | [] => None
      | (a, b) :: _ =>
          let e := Completion true a true (if b : bool then Some ("u", "k") else None) in
          Some (e, deliver e v)
      end
  | load_request a => Some (default ("", "") (request_at v !! a), v)
  | load_response a => Some (default "" (response_at v !! a), v)
  | store_response a s => Some (tt, set_response_at (<[a := s]> (response_at v)) v)
  | c => Some (rest c, v)
  end.

Lemma objects_fn_view rest i v c r v' :
  objects_fn rest i v c = Some (r, v') -> objects_view c r v v'.
Proof.
  intros Hs. destruct c; cbn in Hs |- *; try (by injection Hs as _ <-).
  - injection Hs as <- <-. split; [|by eexists]. apply not_elem_of_dom, is_fresh.
  - destruct (map_to_list (pending v)) as [|[a b] l] eqn:Hl; [done|]. injection Hs as <- <-. cbn.
    split; [|done]. exists b. apply elem_of_map_to_list. rewrite Hl. by left.
  - injection Hs as <- <-. split; [done|]. by intros z' ->.
  - injection Hs as <- <-. split; [done|]. by intros q' ->.
  - injection Hs as <- <-. split; [done|]. by intros s' ->.
Qed.

#[local] Instance objects_state : ServerState objects := served_by (objects_fn (answer all_well)).
#[local] Instance objects_heap : Heap objects := fun v => v.
#[local] Instance objects_laws : HeapLaws objects.
Proof. intros i v c r v'. apply objects_fn_view. Qed.

Definition one_waits : objects := MkObjects {[ 1%positive := 1 ]} {[ 1%positive := true ]} ∅ ∅.

(** Where two threads are after [n] calls each. *)
Definition pair_of_threads (n : nat) : config objects unit :=
  play (objects_fn (answer all_well)) (mjoin (replicate n [0; 1]%nat))
    (Config one_waits (map object_turns [2; 2]%nat)).

Definition next_touched (p : prog unit) : option address :=
  match p with Vis c _ => touches c | _ => None end.

Example pair_at_work :
  next_touched <$> threads (pair_of_threads 16) = [Some 1%positive; Some 2%positive] /\
  midway <$> threads (pair_of_threads 150) = [false; false].
Proof. split; vm_compute; reflexivity. Qed.

Lemma pair_reachable n :
  reachable serve_call (Config one_waits (map object_turns [2; 2]%nat)) (pair_of_threads n).
Proof. apply (play_reachable (objects_fn (answer all_well))). Qed.

Lemma one_waits_ok : all_waiting (objects_of one_waits).
Proof. split; [|reflexivity]. cbn. by intros a b [<- <-]%lookup_singleton_Some. Qed.

Lemma objects_safe_witness :
  midway <$> threads (pair_of_threads 150) = [false; false] /\
  (forall i j c c' k k' a, threads (pair_of_threads 16) !! i = Some (Vis c k) ->
     threads (pair_of_threads 16) !! j = Some (Vis c' k') ->
     touches c = Some a -> touches c' = Some a -> i = j) /\
  dom (status_at (objects_of (shared (pair_of_threads 150)))) =
    dom (pending (objects_of (shared (pair_of_threads 150)))).
Proof.
  split; [apply pair_at_work|].
  destruct (objects_safe one_waits [2; 2]%nat (pair_of_threads 16) one_waits_ok (pair_reachable 16))
    as (_ & H1 & _).
  destruct (objects_safe one_waits [2; 2]%nat (pair_of_threads 150) one_waits_ok (pair_reachable 150))
    as (_ & _ & _ & H2).
  split; [exact H1|apply H2]. vm_compute. reflexivity.
Defined.
