(* ===== verification/Client.v ===== *)
(** * The test client ([GRPC/src/seckill_client.cc])

    The client's threads each send one request and count the answers; the one that
    sees the last count checks the outcome in MySQL.  Programs over the calls of
    [Prog.v]; console output is not modelled. *)
From Stdlib Require Import ZArith Lia Ascii String.
From stdpp Require Import base tactics numbers strings sorting list.
From S2P Require Import Prelude Words Pool CString Users Prog Worker.

Local Open Scope string_scope.
Local Open Scope prog_scope.
Local Open Scope Z_scope.

Definition NUM_THREADS : nat := 500.
Definition MYSQL_ADDRESS : string := "localhost".
Definition MYSQL_USRNAME : string := "root".
Definition MYSQL_PORT : Z := 3306.
Definition MYSQL_USRPASSWORD : string := "14225117sa".
Definition MYSQL_USEDB : string := "seckill".
Definition MYSQL_MAX_CONNECTCOUNT : Z := 3.

(** ** [SeckillClient::seckill] *)

Definition seckill (usr_name usr_key : string) : prog string :=
  StartCall usr_name usr_key;;!
  let! e := client_Next in
  if negb (c_got_event e) then Undef "assertion failed" else
  if negb (c_tag e =? 1) then Undef "assertion failed" else
  if negb (c_ok e) then Undef "assertion failed" else
  if c_status_ok e then Ret (c_result e) else Ret "RPC failed".

(** ** [containsDuplicate] *)

(** [sort(nums.begin(), nums.end())] *)
Definition sort (nums : list Z) : list Z := merge_sort Z.le nums.

(** The loop over [i] from the first element on: [nums[i] == nums[i + 1]]. *)
Fixpoint adjacent_equal (nums : list Z) : bool :=
  match nums with
  | a :: (b :: _) as nums' => if a =? b then true else adjacent_equal nums'
  | _ => false
  end.

(** [nums.size() - 1] is unsigned: on an empty vector the loop reads past its end. *)
Definition containsDuplicate (nums : list Z) : option bool :=
  match nums with
  | [] => None
  | _ => Some (adjacent_equal (sort nums))
  end.

(** ** [checkSeckillInfo] *)

Definition checkSql_goods : string := "SELECT g_totalcount FROM goods_info WHERE g_id ='10' ".
Definition checkSql_order : string := "SELECT usr_name FROM order_info".

(** [resul_map.count] and [resul_map[]]. *)
Fixpoint map_get {A} (k : string) (m : list (string * A)) : option A :=
  match m with
  | [] => None
  | (k', v) :: m' => if String.eqb k k' then Some v else map_get k m'
  end.

(** [std::atoi] of every name. *)
Fixpoint to_numbers (names : list (option string)) : prog (list Z) :=
  match names with
  | [] => Ret []
  | n :: names' => do i <- c_atoi n; do l <- to_numbers names'; Ret (i :: l)
  end.

(** The count of the goods, 0 when the statement fails. *)
Definition check_goods (connection : option conn) : prog Z :=
  let! e := mysql_query connection checkSql_goods in
  if negb (e =? 0) then Ret 0 else
  let! result := mysql_use_result connection in
  let! rows := mysql_fetch_rows result in
  do total_count <- last_count rows 0;
  do _ <- free_result result;
  Ret total_count.

(** The tests on the names of the orders: [isnormol] afterwards. *)
Definition check_orders (resul_map : list (string * list (option string))) (isnormol : bool)
    : prog bool :=
  match map_get "usr_name" resul_map with
  | None => Ret isnormol
  | Some names =>
      if negb (0 <? Z.of_nat (List.length names)) then Ret isnormol else
      do namesI <- to_numbers names;
      let! success_count := read_success_count in
      let isnormol := if negb (Z.of_nat (List.length names) =? success_count)
                      then false else isnormol in
      match containsDuplicate namesI with
      | None => Undef "vector read past its end"
      | Some dup => Ret (if dup : bool then false else isnormol)
      end
  end.

Definition checkSeckillInfo : prog bool :=
  getMysqlPoolObject;;!
  mysql_setParameter MYSQL_ADDRESS MYSQL_USRNAME MYSQL_USRPASSWORD MYSQL_USEDB MYSQL_PORT None 0
    MYSQL_MAX_CONNECTCOUNT;;!
  let! connection := mysql_getOneConnect in
  let! success_count := read_success_count in
  let isnormol := if 50 <? success_count then false else true in
  do total_count <- check_goods connection;
  let! success_count := read_success_count in
  let isnormol := if negb (50 - total_count =? success_count) then false else isnormol in
  let! resul_map := mysql_executeSql checkSql_order in
  do isnormol <- check_orders resul_map isnormol;
  delete_mysql;;!
  Ret isnormol.

(** ** [onSeckill] *)

(** The end of a thread: [None], or what the check said. *)
Definition after_count : prog (option bool) :=
  let! response_count := read_response_count in
  if response_count =? 500 then
    do normal <- checkSeckillInfo;
    let! _c := read_success_count in
    Ret (Some normal)
  else Ret None.

(** The section under [mtx]. *)
Definition count_response (resI : Z) : prog (option bool) :=
  mtx_lock;;!
  do _ <-
    (if resI =? 1 then
       let! s := read_success_count in
       write_success_count (s + 1);;!
       Ret ()
     else Ret ());
  let! r := read_response_count in
  write_response_count (r + 1);;!
  mtx_unlock;;!
  after_count.

Definition onSeckill (junk junk8 : list Z) (i : Z) : prog (option bool) :=
  let md5_str := md5_str junk junk8 i in
  let name := to_string i in
  do reply <- seckill name md5_str;
  do resI <- c_atoi (Some reply);
  count_response resI.

(** ** [prepareTestData] *)

(** [rand() % x]: [rand] never returns a negative number. *)
Definition Random (x r : Z) : Z := r mod x.

(** Turn [i] of the loop stores the value made from the [i]-th result of [rand()]. *)
Definition fill (f : Z -> Z) (rnd : nat -> Z) : list Z :=
  map (fun i => f (rnd i)) (seq 0 NUM_THREADS).

Definition prepareTestData (testType : Z) (rnd : nat -> Z) (data : list Z) : list Z :=
  if testType =? 1 then fill (fun r => Random 400 r) rnd
  else if testType =? 2 then fill (fun r => Random 400 r + 400) rnd
  else if testType =? 3 then fill (fun r => Random 5 r) rnd
  else if testType =? 4 then fill (fun r => Random 5 r + 400) rnd
  else if testType =? 5 then fill (fun r => Random 600 r) rnd
  else data.

(** [main]: the programs of the threads, from the last argument and [rand()]; the
    uninitialised storage of thread [n] is [junk n]. *)
Definition client_threads (testType : Z) (rnd : nat -> Z) (junk junk8 : nat -> list Z)
    : list (prog (option bool)) :=
  imap (fun n i => onSeckill (junk n) (junk8 n) i)
    (prepareTestData testType rnd (replicate NUM_THREADS 0)).
