(* ===== verification/ClientProps.v ===== *)
(** * What the test client checks and counts *)
From Stdlib Require Import ZArith Lia Ascii String.
From stdpp Require Import base tactics numbers strings sets sorting list.
From S2P Require Import Prelude Words Pool CString Users Prog Threads Worker Ledger WorkerProps.
From S2P Require Import Client.

Local Open Scope string_scope.
Local Open Scope prog_scope.
Local Open Scope Z_scope.

(** ** [containsDuplicate] *)

Lemma adjacent_equal_spec l :
  StronglySorted Z.le l -> adjacent_equal l = false <-> NoDup l.
Proof.
  induction 1 as [|a l Hs IH Ha]; [split; [by constructor|done]|].
  destruct l as [|b l]; [split; [intros _; apply NoDup_singleton|done]|].
  cbn [adjacent_equal] in *. rewrite NoDup_cons. destruct (Z.eqb_spec a b) as [->|Hab].
  - split; [done|]. intros [Hn _]. exfalso. apply Hn. by left.
  - rewrite IH. split; [|tauto]. intros Hnd. split; [|done].
    intros [Hx|Hx]%elem_of_cons; [congruence|].
    apply Forall_cons in Ha as [Hab' Ha]. inversion Hs as [|? ? Hs' Hb]; subst.
    rewrite Forall_forall in Hb. apply Hb in Hx. lia.
Qed.

Lemma containsDuplicate_nodup nums :
  nums <> [] -> containsDuplicate nums = Some (negb (bool_decide (NoDup nums))).
Proof.
  unfold containsDuplicate. intros Hne. destruct nums as [|a nums]; [done|]. f_equal.
  assert (Hp : sort (a :: nums) ≡ₚ a :: nums) by apply merge_sort_Permutation.
  assert (Hs : StronglySorted Z.le (sort (a :: nums))).
  { apply StronglySorted_merge_sort; apply _. }
  assert (Hsort : NoDup (sort (a :: nums)) <-> NoDup (a :: nums)) by by rewrite Hp.
  pose proof (adjacent_equal_spec _ Hs) as Hadj. rewrite Hsort in Hadj.
  case_bool_decide as Hnd; simpl.
  - by apply Hadj.
  - destruct (adjacent_equal _); [done|]. exfalso. by apply Hnd, Hadj.
Qed.

(** On a vector that is not empty, [containsDuplicate] answers whether a number occurs
    twice; on an empty one it reads past the end. *)
Theorem containsDuplicate_correct (nums : list Z) :
  containsDuplicate nums =
  match nums with [] => None | _ => Some (negb (bool_decide (NoDup nums))) end.
Proof. destruct nums as [|a nums]; [done|]. by apply containsDuplicate_nodup. Qed.

(** ** [checkSeckillInfo] *)

(** The numbers the names stand for. *)
Definition numbers (names : list (option string)) (l : list Z) : Prop := to_numbers names = Ret l.

Lemma to_numbers_no_call names :
  (exists l, to_numbers names = Ret l /\ List.length l = List.length names) \/
  (exists why, to_numbers names = Undef why).
Proof.
  induction names as [|[n|] names IH]; simpl; [eauto| |eauto].
  destruct (atoi (c_str n)); simpl; [|eauto].
  destruct IH as [(l & -> & Hl)|(why & ->)]; simpl; [|eauto].
  left. eexists. split; [reflexivity|]. simpl. congruence.
Qed.

(** What [check_orders] demands of the names found in MySQL. *)
Definition orders_fit (resul_map : list (string * list (option string))) (success : Z) : Prop :=
  forall names, map_get "usr_name" resul_map = Some names -> names <> [] ->
  Z.of_nat (List.length names) = success /\ exists l, to_numbers names = Ret l /\ NoDup l.

Lemma check_orders_spec m b t b' :
  exec (check_orders m b) t (Val b') ->
  exists s, (t = [Ev read_success_count s] /\ (b' = true <-> b = true /\ orders_fit m s)) \/
            (t = [] /\ forall s, (b' = true <-> b = true /\ orders_fit m s)).
Proof.
  unfold check_orders. intros Hex. destruct (map_get "usr_name" m) as [names|] eqn:Hm.
  2: { destruct Hex as [-> [= ->]]. exists 0. right. split; [done|].
       unfold orders_fit. rewrite Hm. naive_solver. }
  destruct (decide (names = [])) as [->|Hne].
  { destruct Hex as [-> [= ->]]. exists 0. right. split; [done|].
    unfold orders_fit. rewrite Hm. naive_solver. }
  rewrite (proj2 (Z.ltb_lt _ _)) in Hex by (destruct names; simpl; [done|lia]). cbn [negb] in Hex.
  destruct (to_numbers_no_call names) as [(l & E & Hl)|(why & E)]; rewrite E in Hex; [|by destruct Hex].
  cbn [bind] in Hex. destruct Hex as (s & t' & -> & Hex). exists s.
  rewrite containsDuplicate_nodup in Hex by (destruct names, l; done).
  destruct Hex as [-> [= ->]]. left. split; [done|].
  assert (Hfit : orders_fit m s <-> Z.of_nat (List.length names) = s /\ NoDup l).
  { unfold orders_fit. rewrite Hm. split.
    - intros Hf. destruct (Hf names eq_refl Hne) as (Hs & l' & El & Hnd).
      rewrite E in El. by injection El as <-.
    - intros [Hs Hnd] ? [= <-] _. eauto. }
  rewrite Hfit. case_bool_decide; destruct (Z.eqb_spec (Z.of_nat (List.length names)) s), b; cbn [negb];
    intuition congruence.
Qed.

(** What a positive check of the client means.  It returns true exactly when at most
    50 requests were answered "1", the count of goods in MySQL is 50 less that number
    (0 when the statement failed), and [order_info], when it gave any name, has one order
    for each, for pairwise different users. *)
Theorem checkSeckillInfo_spec (t : list event) (b : bool) :
  exec checkSeckillInfo t (Val b) ->
  exists s1 s2 s3 total resul_map,
    Ev read_success_count s1 ∈ t /\ Ev read_success_count s2 ∈ t /\
    Ev (mysql_executeSql checkSql_order) resul_map ∈ t /\
    Ev read_success_count s3 ∈ t /\
    (exists c t1 t2 t3, t = (t1 ++ t2 ++ t3)%list /\ exec (check_goods c) t2 (Val total)) /\
    (b = true <-> s1 <= 50 /\ 50 - total = s2 /\ orders_fit resul_map s3).
Proof.
  intros (? & ? & -> & ? & ? & -> & c & ? & -> & s1 & ? & -> & Hex).
  apply exec_bind in Hex as [(t1 & t2 & total & -> & Hg & Hex)|(? & _ & [=])].
  destruct Hex as (s2 & ? & -> & m & ? & -> & Hex).
  apply exec_bind in Hex as [(t3 & t4 & b' & -> & Ho & Hex)|(? & _ & [=])].
  destruct Hex as ([] & ? & -> & -> & [= ->]).
  assert (Hs3 : exists s3, Ev read_success_count s3 ∈ Ev read_success_count s1 :: t3 /\
    (b' = true <-> (if negb (50 - total =? s2) then false else if 50 <? s1 then false else true)
                   = true /\ orders_fit m s3)).
  { apply check_orders_spec in Ho as (s3 & [[-> Hb]|[-> Hb]]).
    - exists s3. split; [set_solver|exact Hb].
    - exists s1. split; [set_solver|apply Hb]. }
  destruct Hs3 as (s3 & Hs3 & Hb). exists s1, s2, s3, total, m. split_and!; [set_solver..| |].
  - eexists c, [_; _; _; _], t1, _. split; [reflexivity|done].
  - rewrite Hb. destruct (Z.ltb_spec 50 s1), (Z.eqb_spec (50 - total) s2); simpl;
      intuition (try discriminate; lia).
Qed.

Definition nothing_sold : service := Service "5" "k" "50" (fun _ => 0) false.

Lemma checkSeckillInfo_spec_witness :
  exists s1 s2 s3 total resul_map,
    (true = true <-> s1 <= 50 /\ 50 - total = s2 /\ orders_fit resul_map s3).
Proof.
  destruct (checkSeckillInfo_spec (calls_of nothing_sold checkSeckillInfo) true)
    as (s1 & s2 & s3 & total & m & _ & _ & _ & _ & _ & H).
  - apply served. vm_compute. reflexivity.
  - exists s1, s2, s3, total, m. exact H.
Defined.

(** ** [prepareTestData] *)

(** The users [prepareForSeckill] registers. *)
Definition registered_user (i : Z) : Prop := 1 <= i <= 400.

Lemma fill_lookup f rnd i : (i < NUM_THREADS)%nat -> fill f rnd !! i = Some (f (rnd i)).
Proof. intros Hi. unfold fill. by rewrite list_lookup_fmap, lookup_seq_lt. Qed.

Lemma fill_Forall (P : Z -> Prop) f rnd :
  (forall r, 0 <= r -> P (f r)) -> (forall i, 0 <= rnd i) -> Forall P (fill f rnd).
Proof. intros Hf Hr. apply Forall_map, Forall_forall. intros i _. by apply Hf. Qed.

(** The names the client draws, for every stream of [rand()]: 500 of them, from 0 to
    399 in the test of registered users, from 400 to 799 in the test of unregistered
    ones, and so on.  The first range holds the unregistered 0 and the second the
    registered 400: whenever [rand()] is a multiple of 400 there, the test for
    registered users asks for an unregistered one, and the other way round. *)
Theorem prepareTestData_ranges (rnd : nat -> Z) (data : list Z) :
  (forall i, 0 <= rnd i) ->
  (forall testType, 1 <= testType <= 5 ->
     List.length (prepareTestData testType rnd data) = NUM_THREADS) /\
  Forall (fun n => 0 <= n < 400) (prepareTestData 1 rnd data) /\
  Forall (fun n => 400 <= n < 800) (prepareTestData 2 rnd data) /\
  Forall (fun n => 0 <= n < 5) (prepareTestData 3 rnd data) /\
  Forall (fun n => 400 <= n < 405) (prepareTestData 4 rnd data) /\
  Forall (fun n => 0 <= n < 600) (prepareTestData 5 rnd data) /\
  (forall i, (i < NUM_THREADS)%nat -> rnd i mod 400 = 0 ->
     (exists n, prepareTestData 1 rnd data !! i = Some n /\ ~ registered_user n) /\
     (exists n, prepareTestData 2 rnd data !! i = Some n /\ registered_user n)).
Proof.
  intros Hr.
  assert (Hm : forall x r, 0 < x -> 0 <= Random x r < x)
    by (intros; unfold Random; by apply Z.mod_pos_bound).
  split; [|split_and!].
  - intros ty Hty. unfold prepareTestData.
    repeat case_match; try (unfold fill; by rewrite length_map, length_seq).
    rewrite !Z.eqb_neq in *. lia.
  - apply fill_Forall; [|done]. intros r _. pose proof (Hm 400 r). lia.
  - apply fill_Forall; [|done]. intros r _. pose proof (Hm 400 r). lia.
  - apply fill_Forall; [|done]. intros r _. pose proof (Hm 5 r). lia.
  - apply fill_Forall; [|done]. intros r _. pose proof (Hm 5 r). lia.
  - apply fill_Forall; [|done]. intros r _. pose proof (Hm 600 r). lia.
  - intros i Hi H0. unfold prepareTestData. simpl (1 =? 1). simpl (2 =? 1). simpl (2 =? 2).
    cbn iota. rewrite !fill_lookup by done. unfold Random. rewrite H0.
    split; eexists; (split; [reflexivity|]); unfold registered_user; lia.
Qed.

Lemma prepareTestData_ranges_witness :
  Forall (fun n => 400 <= n < 800) (prepareTestData 2 (fun i => Z.of_nat i) []).
Proof. apply (prepareTestData_ranges (fun i => Z.of_nat i) []). intros i. apply Nat2Z.is_nonneg. Defined.
