(* ===== verification/ClientThreads.v ===== *)
(** * The client's threads

    [onSeckill] ([GRPC/src/seckill_client.cc]) in any number of threads, interleaved
    call by call over [success_count], [response_count] and [mtx].  The server and
    MySQL may answer anything. *)
From Stdlib Require Import ZArith Lia Ascii String.
From stdpp Require Import base tactics numbers strings relations list.
From S2P Require Import Prelude Words Pool CString Users Prog Threads Worker Ledger WorkerProps Client.

Local Open Scope string_scope.
Local Open Scope prog_scope.
Local Open Scope Z_scope.

(** The variables shared by the threads; [mtx]: the thread that holds it; [ones]: how many
    responses "1" have been delivered so far. *)
Record globals := Globals {
  success_count : Z;
  response_count : Z;
  mtx : option nat;
  ones : Z;
}.

Definition start : globals := Globals 0 0 None 0.

(** The response the thread sees: [resI == 1]. *)
Definition is_one (e : client_completion) : bool :=
  match c_atoi (Some (if c_status_ok e then c_result e else "RPC failed")) with
  | Ret z => z =? 1
  | _ => false
  end.

(** A call of thread [i]: the variables and the mutex behave as C++ says, any other call
    may return anything. *)
Definition client_serve (i : nat) (s : globals) (c : call) (r : ans c) (s' : globals) : Prop :=
  match c return ans c -> Prop with
  | mtx_lock => fun _ =>
      mtx s = None /\ s' = Globals (success_count s) (response_count s) (Some i) (ones s)
  | mtx_unlock => fun _ => s' = Globals (success_count s) (response_count s) None (ones s)
  | read_success_count => fun z => z = success_count s /\ s' = s
  | write_success_count z => fun _ => s' = Globals z (response_count s) (mtx s) (ones s)
  | read_response_count => fun z => z = response_count s /\ s' = s
  | write_response_count z => fun _ => s' = Globals (success_count s) z (mtx s) (ones s)
  | client_Next => fun e => s' =
      Globals (success_count s) (response_count s) (mtx s) (ones s + b2z (is_one e))
  | _ => fun _ => s' = s
  end r.

(** ** The protocol of a thread *)

(** How far a thread is in [count_response]. *)
Inductive phase :=
| Sending | Answered | Locked | ReadSuccess (z : Z) | Summed | ReadResponse (z : Z) | Counted | Unlocked
| Seen (z : Z).

(** [won]: its answer was "1". *)
Record progress := Progress { won : bool; at_ : phase }.

Definition client_pre (g : progress) (c : call) : Prop :=
  match at_ g, c with
  | Answered, mtx_lock => True
  | Sending, (StartCall _ _ | client_Next) => True
  | Locked, read_success_count => won g = true
  | Locked, read_response_count => won g = false
  | ReadSuccess z, write_success_count z' => z' = z + 1
  | Summed, read_response_count => True
  | ReadResponse z, write_response_count z' => z' = z + 1
  | Counted, mtx_unlock => True
  | Unlocked, read_response_count => True
  | Seen _, (read_success_count | getMysqlPoolObject | mysql_setParameter _ _ _ _ _ _ _ _ | mysql_getOneConnect | mysql_query _ _
            | mysql_use_result _ | mysql_fetch_rows _ | mysql_free_result _ | mysql_executeSql _
            | delete_mysql) => True
  | _, _ => False
  end.

Definition client_upd (g : progress) (e : event) : progress :=
  let '(Ev c r) := e in
  match c return ans c -> progress with
  | client_Next => fun e => Progress (is_one e) Answered
  | mtx_lock => fun _ => Progress (won g) Locked
  | mtx_unlock => fun _ => Progress (won g) Unlocked
  | read_success_count => fun z =>
      match at_ g with Seen _ => g | _ => Progress (won g) (ReadSuccess z) end
  | write_success_count _ => fun _ => Progress (won g) Summed
  | read_response_count => fun z =>
      match at_ g with Unlocked => Progress (won g) (Seen z) | _ => Progress (won g) (ReadResponse z) end
  | write_response_count _ => fun _ => Progress (won g) Counted
  | _ => fun _ => g
  end r.

Definition no_condition (g : progress) (c : call) (r : ans c) : Prop := True.

(** How a thread ends: with a check exactly when it read 500. *)
Definition client_end (g : progress) (o : outcome (option bool)) : Prop :=
  match o with
  | Val r => exists z, at_ g = Seen z /\ (is_Some r <-> z = 500)
  | UB _ => True
  end.

Abbreviation follows_client p g := (follows client_pre no_condition client_upd p g client_end).

(** Calls of the check. *)
Definition check_call (c : call) : Prop := client_pre (Progress false (Seen 0)) c.

Lemma to_numbers_calls P names : all_calls P (to_numbers names).
Proof. induction names as [|n names IH]; simpl; [done|]. unfold c_atoi. calls_run. exact IH. Qed.

Lemma last_count_check P rows n : all_calls P (last_count rows n).
Proof. by destruct (last_count_no_call rows n) as [[? ->]|(? & -> & _)]. Qed.

Lemma checkSeckillInfo_calls : all_calls check_call checkSeckillInfo.
Proof.
  unfold checkSeckillInfo, check_goods, check_orders, free_result.
  calls_run; first [apply last_count_check | apply to_numbers_calls].
Qed.

Lemma after_count_follows w : follows_client after_count (Progress w Unlocked).
Proof.
  split; [done|]. intros z _. cbn [client_upd at_].
  destruct (Z.eqb_spec z 500) as [->|Hz]; [|exists z; split; [done|]; split; [by intros []|done]].
  apply follows_bind.
  apply (follows_all_calls _ _ _ check_call).
  - intros c Hc. destruct c; done.
  - intros c r Hc. by destruct c.
  - apply checkSeckillInfo_calls.
  - intros [normal|why]; [|done]. split; [done|]. intros r _. cbn. exists 500. split; [done|].
    split; [done|]. eauto.
Qed.

Lemma onSeckill_follows junk junk8 i : follows_client (onSeckill junk junk8 i) (Progress false Sending).
Proof.
  unfold onSeckill, seckill. split; [done|]. intros [] _. split; [done|]. intros e _.
  cbn [client_upd at_].
  destruct (c_got_event e); [|done]. destruct (c_tag e =? 1); [|done].
  destruct (c_ok e); [|done]. cbn [negb].
  assert (Hgo : follows_client
    (do resI <- c_atoi (Some (if c_status_ok e then c_result e else "RPC failed"));
     count_response resI) (Progress (is_one e) Answered)).
  { unfold is_one. destruct (c_atoi _) as [resI|c k|why] eqn:Ha; [|exfalso|done].
    2: { simpl in Ha. destruct (atoi _) in Ha; done. }
    cbn [bind]. unfold count_response. split; [done|]. intros [] _. cbn [client_upd won at_].
    destruct (resI =? 1).
    - split; [done|]. intros z _. split; [done|]. intros [] _. split; [done|]. intros r _.
      split; [done|]. intros [] _. split; [done|]. intros [] _. apply after_count_follows.
    - split; [done|]. intros r _. split; [done|]. intros [] _. split; [done|]. intros [] _.
      apply after_count_follows. }
  by destruct (c_status_ok e).
Qed.

(** ** The invariant *)

Definition in_section (p : phase) : bool :=
  match p with
  | Locked | ReadSuccess _ | Summed | ReadResponse _ | Counted => true
  | Sending | Answered | Unlocked | Seen _ => false
  end.

Definition counted_response (g : progress) : bool :=
  match at_ g with Counted | Unlocked | Seen _ => true | _ => false end.
Definition counted_success (g : progress) : bool :=
  won g && match at_ g with Sending | Answered | Locked | ReadSuccess _ => false | _ => true end.

(** What a thread has read is still true while it is in the section. *)
Definition fresh_read (s : globals) (g : progress) : Prop :=
  match at_ g with
  | Sending => won g = false
  | ReadSuccess z => z = success_count s /\ won g = true
  | ReadResponse z => z = response_count s
  | _ => True
  end.

(** A thread that has counted the last response, or will see that it did. *)
Definition last_one (n : Z) (g : progress) : Prop :=
  at_ g = Counted \/ at_ g = Unlocked \/ at_ g = Seen n.

Record client_inv (s : globals) (gs : list progress) : Prop := ClientInv {
  ci_success : success_count s = tally counted_success gs;
  ci_response : response_count s = tally counted_response gs;
  ci_ones : ones s = tally won gs;
  ci_holder i : mtx s = Some i -> is_Some (gs !! i);
  ci_mtx i g : gs !! i = Some g -> (mtx s = Some i <-> in_section (at_ g) = true);
  ci_fresh i g : gs !! i = Some g -> fresh_read s g;
  ci_last : (0 < List.length gs)%nat -> response_count s = Z.of_nat (List.length gs) ->
    exists i g, gs !! i = Some g /\ last_one (response_count s) g;
}.

(** Moving thread [i] from [g] to [g'] while the variables go from [s] to [s']. *)
Lemma client_inv_move s s' gs i g g' :
  client_inv s gs -> gs !! i = Some g ->
  success_count s' = success_count s - b2z (counted_success g) + b2z (counted_success g') ->
  response_count s' = response_count s - b2z (counted_response g) + b2z (counted_response g') ->
  ones s' = ones s - b2z (won g) + b2z (won g') ->
  (mtx s' = Some i <-> in_section (at_ g') = true) ->
  (forall j, j <> i -> (mtx s' = Some j <-> mtx s = Some j)) ->
  fresh_read s' g' ->
  (success_count s' = success_count s /\ response_count s' = response_count s \/ mtx s = Some i) ->
  (last_one (response_count s) g -> last_one (response_count s') g') ->
  (response_count s' = response_count s \/ last_one (response_count s') g') ->
  client_inv s' (<[i := g']> gs).
Proof.
  intros [Hs Hr Ho Hh Hm Hf Hl] Hi Hs' Hr' Ho' Hmi Hmj Hfi Hval Hlast Hlast'. split.
  - rewrite (tally_insert _ _ _ _ _ Hi). lia.
  - rewrite (tally_insert _ _ _ _ _ Hi). lia.
  - rewrite (tally_insert _ _ _ _ _ Hi). lia.
  - intros j Hj. rewrite lookup_lt_is_Some, length_insert. apply lookup_lt_is_Some.
    destruct (decide (j = i)) as [->|Hne]; [by eexists|]. by apply Hh, Hmj.
  - intros j gj. destruct (decide (j = i)) as [->|Hj].
    + rewrite list_lookup_insert_eq by by eapply lookup_lt_Some. by intros [= <-].
    + rewrite list_lookup_insert_ne by done. intros Hgj. rewrite Hmj by done. by apply Hm.
  - intros j gj. destruct (decide (j = i)) as [->|Hj].
    + rewrite list_lookup_insert_eq by by eapply lookup_lt_Some. by intros [= <-].
    + rewrite list_lookup_insert_ne by done. intros Hgj. specialize (Hf j gj Hgj).
      specialize (Hm j gj Hgj). unfold fresh_read in *.
      destruct Hval as [[-> ->]|Hval]; [done|].
      destruct (at_ gj); try done; exfalso; rewrite Hval in Hm; naive_solver.
  - rewrite length_insert. intros Hpos Hall.
    destruct Hlast' as [Heq|Hone].
    2: { exists i, g'. split; [|done]. apply list_lookup_insert_eq. by eapply lookup_lt_Some. }
    rewrite Heq in *. destruct (Hl Hpos Hall) as (j & gj & Hgj & Hone).
    destruct (decide (j = i)) as [->|Hj].
    + exists i, g'. split; [apply list_lookup_insert_eq; by eapply lookup_lt_Some|].
      apply Hlast. by simplify_eq.
    + exists j, gj. by rewrite list_lookup_insert_ne.
Qed.

Lemma client_inv_step i s gs g c r s' :
  client_inv s gs -> gs !! i = Some g -> client_pre g c -> client_serve i s c r s' ->
  no_condition g c r /\ client_inv s' (<[i := client_upd g (Ev c r)]> gs).
Proof.
  intros Hinv Hi Hpre Hserve. split; [done|].
  pose proof (ci_mtx _ _ Hinv i g Hi) as Hm. pose proof (ci_fresh _ _ Hinv i g Hi) as Hf.
  destruct g as [w p]. unfold client_pre, fresh_read in *. cbn [at_ won] in *.
  destruct p; cbn [in_section] in Hm; destruct c; try done; cbn [client_serve] in Hserve;
    repeat match goal with H : _ /\ _ |- _ => destruct H end; subst;
    eapply client_inv_move; try exact Hinv; try exact Hi; cbn; 
    unfold last_one, fresh_read, counted_success, counted_response; cbn; rewrite ?andb_true_r, ?andb_false_r; cbn.
  all: try done; try lia; try (destruct w; simpl; lia); naive_solver.
Qed.

Lemma client_inv_start n : client_inv start (replicate n (Progress false Sending)).
Proof.
  split; simpl.
  - by rewrite tally_replicate.
  - by rewrite tally_replicate.
  - by rewrite tally_replicate.
  - done.
  - intros i g [-> _]%lookup_replicate. done.
  - intros i g [-> _]%lookup_replicate. done.
  - rewrite length_replicate. lia.
Qed.

(** ** The outcome *)

(** A thread that has ended, and one that has ended with a check. *)
Definition checked (p : prog (option bool)) : Prop := exists b, p = Ret (Some b).
Definition finished (p : prog (option bool)) : Prop := exists r, p = Ret r.

(** C15: however the 500 threads are interleaved and whatever they are answered, when all have
    ended [response_count] is 500, nobody holds [mtx], [success_count] is the number of
    responses "1" that were delivered (no increment is lost), and at least one thread has run [checkSeckillInfo]: the last response is never
    missed although [response_count] is read again outside the section. *)
Theorem check_runs (names : list Z) (junk junk8 : nat -> list Z) (x : config globals (option bool)) :
  List.length names = NUM_THREADS ->
  reachable client_serve
    (Config start (imap (fun n i => onSeckill (junk n) (junk8 n) i) names)) x ->
  Forall finished (threads x) ->
  response_count (shared x) = 500 /\ mtx (shared x) = None /\
  success_count (shared x) = ones (shared x) /\
  Exists checked (threads x).
Proof.
  intros Hlen Hreach Hfin.
  set (R := fun s gs => client_inv s gs /\ List.length gs = NUM_THREADS).
  assert (Hinv : inv client_pre no_condition client_upd client_end R x).
  { eapply (inv_reachable client_serve); [|exists (replicate NUM_THREADS (Progress false Sending))|exact Hreach].
    - intros i s gs g c r s' [HR Hl] Hi Hpre Hserve.
      destruct (client_inv_step i s gs g c r s' HR Hi Hpre Hserve) as [Hok HR'].
      split; [done|]. split; [done|]. by rewrite length_insert.
    - split; [split; [apply client_inv_start|apply length_replicate]|].
      apply Forall2_same_length_lookup. cbn [threads].
      split; [by rewrite length_imap, length_replicate|].
      intros i p g Hp [-> _]%lookup_replicate. rewrite list_lookup_imap in Hp.
      destruct (names !! i) as [name|]; [|done]. injection Hp as <-. apply onSeckill_follows. }
  destruct Hinv as (gs & [HR Hl] & Hts).
  assert (Hseen : forall g, g ∈ gs -> exists z, at_ g = Seen z).
  { intros g [i Hi]%list_elem_of_lookup. destruct (Forall2_lookup_r _ _ _ _ _ Hts Hi) as (p & Hp & Hf).
    destruct (Forall_lookup_1 _ _ _ _ Hfin Hp) as [r ->]. destruct Hf as (z & Hz & _). eauto. }
  assert (Hresp : response_count (shared x) = 500).
  { rewrite (ci_response _ _ HR), tally_true; [by rewrite Hl|].
    intros g Hg. destruct (Hseen g Hg) as [z Hz]. unfold counted_response. by rewrite Hz. }
  split; [done|]. split; [|split].
  - destruct (mtx (shared x)) as [i|] eqn:Hm; [|done].
    destruct (ci_holder _ _ HR i Hm) as [g Hg]. apply (ci_mtx _ _ HR i g Hg) in Hm.
    destruct (Hseen g) as [z Hz]; [by eapply list_elem_of_lookup_2|]. by rewrite Hz in Hm.
  - rewrite (ci_success _ _ HR), (ci_ones _ _ HR).
    apply (tally_ext _ _ (fun g g' => g = g' /\ exists z, at_ g = Seen z)).
    + apply Forall2_same_length_lookup. split; [done|]. intros i g g' Hg Hg'. simplify_eq.
      split; [done|]. apply Hseen. by eapply list_elem_of_lookup_2.
    + intros g ? [<- [z Hz]]. unfold counted_success. by rewrite Hz, andb_true_r.
  - destruct (ci_last _ _ HR) as (i & g & Hg & Hone).
    + rewrite Hl. unfold NUM_THREADS. lia.
    + rewrite Hresp, Hl. done.
    + destruct (Hseen g) as [z Hz]; [by eapply list_elem_of_lookup_2|].
      destruct (Forall2_lookup_r _ _ _ _ _ Hts Hg) as (p & Hp & Hf).
      destruct (Forall_lookup_1 _ _ _ _ Hfin Hp) as [r ->]. destruct Hf as (z' & Hz' & Hr).
      assert (z' = 500) as -> by (unfold last_one in Hone; rewrite Hz', Hresp in Hone; naive_solver).
      apply Exists_exists. exists (Ret r). split; [by eapply list_elem_of_lookup_2|].
      destruct (proj2 Hr eq_refl) as [b ->]. by exists b.
Qed.

(** A server that answers "1" to everyone. *)
Definition generous (i : nat) (s : globals) (c : call) : option (ans c * globals) :=
  match c return option (ans c * globals) with
  | mtx_lock =>
      match mtx s with
      | None => Some (tt, Globals (success_count s) (response_count s) (Some i) (ones s))
      | Some _ => None
      end
  | mtx_unlock => Some (tt, Globals (success_count s) (response_count s) None (ones s))
  | read_success_count => Some (success_count s, s)
  | write_success_count z => Some (tt, Globals z (response_count s) (mtx s) (ones s))
  | read_response_count => Some (response_count s, s)
  | write_response_count z => Some (tt, Globals (success_count s) z (mtx s) (ones s))
  | client_Next =>
      let e := ClientCompletion true 1 true true "1" in
      Some (e, Globals (success_count s) (response_count s) (mtx s) (ones s + b2z (is_one e)))
  | c => Some (answer all_well c, s)
  end.

Lemma generous_serve i s c r s' : served_by generous i s c r s' -> client_serve i s c r s'.
Proof.
  unfold served_by. destruct c; cbn; try (intros [= <- <-]; done); try (by intros [= _ <-]).
  destruct (mtx s); [done|]. by intros [= _ <-].
Qed.

(** The threads run one after the other. *)
Definition in_turn : list nat := mjoin (map (fun i => replicate 24 i) (seq 0 NUM_THREADS)).
Definition all_threads : config globals (option bool) :=
  Config start (imap (fun n i => onSeckill (replicate 64 0) (replicate 8 0) i)
    (replicate NUM_THREADS 7)).

Definition finishedb (p : prog (option bool)) : bool :=
  match p with Ret _ => true | _ => false end.

Lemma finishedb_spec ts : forallb finishedb ts = true -> Forall finished ts.
Proof.
  intros Hall. apply Forall_forall. intros p Hp%list_elem_of_In.
  apply (proj1 (forallb_forall _ _) Hall) in Hp. destruct p; [|done..]. by eexists.
Qed.

Lemma all_threads_end : forallb finishedb (threads (play generous in_turn all_threads)) = true.
Proof. reflexivity. Qed.

Lemma check_runs_witness :
  Exists checked (threads (play generous in_turn all_threads)).
Proof.
  apply (check_runs (replicate NUM_THREADS 7) (fun _ => replicate 64 0) (fun _ => replicate 8 0)
    (play generous in_turn all_threads)).
  - apply length_replicate.
  - apply (reachable_mono (served_by generous)); [apply generous_serve|apply play_reachable].
  - apply finishedb_spec, all_threads_end.
Defined.

(** Threads 0 to 497 run one after the other; thread 498 stops after it has left the
    section, thread 499 runs to its end, then thread 498 goes on. *)
Definition late_reader : list nat :=
  mjoin (map (fun i => replicate 24 i) (seq 0 498)) ++ replicate 8 498%nat ++
  replicate 24 499%nat ++ replicate 24 498%nat.

Definition checkedb (p : prog (option bool)) : bool :=
  match p with Ret (Some _) => true | _ => false end.

(** The check can run in two threads: both leave the section before either reads
    [response_count] again, and both find 500.  Each of the two deletes the pool. *)
Theorem check_runs_twice :
  exists names junk junk8 x,
    List.length names = NUM_THREADS /\
    reachable client_serve
      (Config start (imap (fun n i => onSeckill (junk n) (junk8 n) i) names)) x /\
    tally checkedb (threads x) = 2.
Proof.
  exists (replicate NUM_THREADS 7), (fun _ => replicate 64 0), (fun _ => replicate 8 0),
    (play generous late_reader all_threads).
  split; [apply length_replicate|]. split.
  - apply (reachable_mono (served_by generous)); [apply generous_serve|apply play_reachable].
  - reflexivity.
Qed.
