(* ===== verification/Stock.v ===== *)
(** * Concurrent requests never sell more than the stock

    Any number of requests ([handle_request] of [Worker.v]), interleaved call by call.
    MySQL is a parameter: what is assumed of it is what its manual says of InnoDB's row
    locks and transactions on the one row of [goods_info] and the rows of [order_info].
    Redis, the locks and the counters may answer anything. *)
From Stdlib Require Import ZArith Lia Ascii String.
From stdpp Require Import base tactics numbers strings relations gmap list.
From S2P Require Import Prelude Words Pool CString Prog Threads Worker Ledger WorkerProps WorkerSafety.

Local Open Scope string_scope.
Local Open Scope prog_scope.
Local Open Scope Z_scope.

(** ** What is assumed of MySQL *)

(** The committed count of goods, the number of committed orders, the session that holds
    the lock on the goods row, with the count and the number of new orders its transaction
    would commit, the sessions with autocommit off, and those whose last statement was the
    locking read of the goods row. *)
Record view := View {
  stock : Z;
  sold : Z;
  tx : option (nat * Z * Z);
  manual : gset nat;
  reading : gset nat;
}.

(** The transaction of session [i], if it holds the lock. *)
Definition tx_of (i : nat) (v : view) : option (Z * Z) :=
  match tx v with
  | Some (j, n, k) => if Nat.eqb j i then Some (n, k) else None
  | None => None
  end.

Definition with_tx (v : view) (i : nat) (n k : Z) : view := View (stock v) (sold v) (Some (i, n, k)) (manual v) (reading v).

(** The transaction of session [i] is rolled back, and committed. *)
Definition dropped_tx (i : nat) (v : view) : view :=
  match tx_of i v with Some _ => View (stock v) (sold v) None (manual v) (reading v) | None => v end.
Definition committed_tx (i : nat) (v : view) : view :=
  match tx_of i v with Some (n, k) => View n (sold v + k) None (manual v) (reading v) | None => v end.

Definition set_manual (m : gset nat) (v : view) : view := View (stock v) (sold v) (tx v) m (reading v).
Definition set_reading (m : gset nat) (v : view) : view :=
  View (stock v) (sold v) (tx v) (manual v) m.

(** A name or key that does not leave the quotes it is put in. *)
Definition plain (s : string) : Prop :=
  forall n c, String.get n s = Some c -> c <> "'"%char /\ c <> "\"%char.

(** One statement of session [i] that succeeds. *)
Definition query_view (i : nat) (q : string) (v v' : view) : Prop :=
  (* with autocommit off, a locking read waits until no other session has the lock, and
     takes it *)
  (q = selSql_goods -> i ∈ manual v ->
     match tx v with
     | None => v' = with_tx v i (stock v) 0
     | Some (j, _, _) => j = i /\ v' = v
     end) /\
  (* the owner of the lock changes its own version *)
  (forall m n k, 0 <= m < 2 ^ 31 -> q = updateSql m -> tx_of i v = Some (n, k) -> v' = with_tx v i m k) /\
  (forall u key, plain u -> plain key -> q = insertOSql u key ->
     v' = match tx_of i v with Some (n, k) => with_tx v i n (k + 1) | None => v end) /\
  (* the reads of other tables *)
  (forall u, plain u -> q = selSql_usr u \/ q = selSql_order u -> v' = v).

(** What one call of session [i] does to the view. *)
Definition mysql_view (i : nat) (c : call) : ans c -> view -> view -> Prop :=
  match c return ans c -> view -> view -> Prop with
  | mysql_query _ q => fun e v v' =>
      if e =? 0 then
        exists w, query_view i q v w /\
          v' = set_reading (if String.eqb q selSql_goods then {[ i ]} ∪ reading v
                            else reading v ∖ {[ i ]}) w
      (* a failed statement changes nothing, or the server rolled the transaction back *)
      else exists w, (w = v \/ w = dropped_tx i v) /\ v' = set_reading (reading v ∖ {[ i ]}) w
  | mysql_fetch_rows _ => fun rows v v' =>
      (* the rows of the locking read, if there are any, show the count *)
      v' = v /\ forall n k m, i ∈ reading v -> tx_of i v = Some (n, k) ->
                 last_count rows 0 = Ret m -> m = n \/ rows = []
  | mysql_commit _ => fun e v v' => v' = if e =? 0 then committed_tx i v else dropped_tx i v
  | mysql_rollback _ => fun _ v v' => v' = dropped_tx i v
  | mysql_autocommit _ mode => fun e v v' =>
      (* switching autocommit on ends the transaction *)
      if negb (e =? 0) then v' = v else
      if mode =? OFF then v' = set_manual ({[ i ]} ∪ manual v) v
      else exists w, (w = committed_tx i v \/ w = dropped_tx i v) /\
                     v' = set_manual (manual v ∖ {[ i ]}) w
  | _ => fun _ v v' => v' = v
  end.

(** The shared state of the requests: request [i] is session [i] of MySQL. *)
Class Database (S : Type) := view_of : S -> view.
Class DatabaseLaws (S : Type) `{ServerState S, Database S} :=
  serve_view i s c r s' : serve_call i s c r s' -> mysql_view i c r (view_of s) (view_of s').

(** ** The protocol of a request *)

Inductive stage :=
| Out                (* no lock on the goods row *)
| Selected           (* the row is locked, its count not yet read *)
| Read (n : Z)       (* the count has been read *)
| Updated            (* the count is lowered in the transaction *)
| Inserted           (* and the order is in it *)
| Failed.            (* a statement failed: to be rolled back *)

(** [off]: autocommit is off; [claimed]: [mysql_commit] was called; [confirmed]: it
    answered 0. *)
Record request := Request { at_ : stage; off : bool; claimed : bool; confirmed : bool }.

Definition request_pre (g : request) (c : call) : Prop :=
  match c with
  | mysql_query _ q =>
      match at_ g with
      | Out => q = selSql_goods /\ off g = true /\ claimed g = false \/
               exists u, plain u /\ (q = selSql_usr u \/ q = selSql_order u)
      | Read n => 0 < n /\ is_int n /\ q = updateSql (n - 1)
      | Updated | Failed => exists u k, plain u /\ plain k /\ q = insertOSql u k
      | _ => False
      end
  | mysql_fetch_rows _ => at_ g = Out \/ at_ g = Selected
  | mysql_commit _ => at_ g = Inserted /\ claimed g = false
  | mysql_rollback _ => at_ g = Failed
  | mysql_autocommit _ mode =>
      if mode =? OFF then at_ g = Out
      else match at_ g with Out | Selected | Read _ => True | _ => False end
  | _ => True
  end.

Definition query_stage (g : request) (q : string) (e : Z) : stage :=
  match at_ g with
  | Out => if String.eqb q selSql_goods && (e =? 0) then Selected else Out
  | Read n => if e =? 0 then Updated else Failed
  | Updated => if e =? 0 then Inserted else Failed
  | p => p
  end.

Definition request_upd (g : request) (e : event) : request :=
  let '(Ev c r) := e in
  match c return ans c -> request with
  | mysql_query _ q => fun e => Request (query_stage g q e) (off g) (claimed g) (confirmed g)
  | mysql_fetch_rows _ => fun rows =>
      match at_ g, last_count rows 0 with
      | Selected, Ret n => Request (Read n) (off g) (claimed g) (confirmed g)
      | _, _ => g
      end
  | mysql_commit _ => fun e => Request Out (off g) true (e =? 0)
  | mysql_rollback _ => fun _ => Request Out (off g) (claimed g) (confirmed g)
  | mysql_autocommit _ mode => fun _ =>
      if mode =? OFF then Request (at_ g) true (claimed g) (confirmed g)
      else Request Out false (claimed g) (confirmed g)
  | _ => fun _ => g
  end r.

(** The code of [mysql_autocommit] is never tested: it is assumed to be 0. *)
Definition switched (g : request) (c : call) : ans c -> Prop :=
  match c return ans c -> Prop with
  | mysql_autocommit _ _ => fun e => e = 0
  | _ => fun _ => True
  end.

(** A request that ends has answered "1" exactly if it called [mysql_commit]. *)
Definition request_end (g : request) (o : outcome string) : Prop :=
  match o with Val s => at_ g = Out /\ (s = "1" <-> claimed g = true) | UB _ => True end.

Abbreviation follows_request p g := (follows request_pre switched request_upd p g request_end).

(** *** Every request follows it *)

Lemma last_count_int rows n m : last_count rows n = Ret m -> is_int n -> is_int m.
Proof.
  revert n. induction rows as [|[|[cell|] row] rows IH]; intros n; simpl; [by intros [= ->]|apply IH| |done].
  unfold atoi. destruct (is_intb _) eqn:Hb; simpl; [|done]. intros Hm _. apply (IH _ Hm).
  unfold is_intb, is_int in *. lia.
Qed.

(** Calls that mean nothing to the protocol of a request that holds no lock. *)
Definition neutral_call (c : call) : Prop :=
  match c with
  | mysql_query _ q => exists u, plain u /\ (q = selSql_usr u \/ q = selSql_order u)
  | mysql_commit _ | mysql_rollback _ | mysql_autocommit _ _ => False
  | _ => True
  end.

Lemma selSql_usr_ne u : String.eqb (selSql_usr u) selSql_goods = false.
Proof. reflexivity. Qed.
Lemma selSql_order_ne u : String.eqb (selSql_order u) selSql_goods = false.
Proof. reflexivity. Qed.

Lemma neutral_upd g c r : at_ g = Out -> neutral_call c -> request_upd g (Ev c r) = g.
Proof.
  intros Hg Hc. destruct g as [p o cl co]. cbn in Hg. subst p. destruct c; try done.
  - destruct Hc as (u & _ & [-> | ->]); cbn; unfold query_stage; cbn [at_];
      by rewrite ?selSql_usr_ne, ?selSql_order_ne.
Qed.

Lemma neutral_pre g c : at_ g = Out -> neutral_call c -> request_pre g c.
Proof.
  intros Hg Hc. destruct c; try done; cbn; rewrite ?Hg; try done; [by right|by left].
Qed.

Lemma match_keys_neutral rows k b : all_calls neutral_call (match_keys rows k b).
Proof. apply match_keys_calls. Qed.

Ltac neutral_step :=
  match goal with
  | |- all_calls _ (Ret _) => exact I
  | |- all_calls _ (Undef _) => exact I
  | |- all_calls _ (match_keys _ _ _) => apply match_keys_neutral
  | |- all_calls _ (Vis _ _) => split; [first [exact I | eexists; split; [eassumption|]; auto]|intros ?]
  | |- all_calls _ (bind (if ?x then _ else _) _) => destruct x eqn:?
  | |- all_calls _ (bind _ _) => apply all_calls_bind; [|intros ?]
  | |- all_calls _ (match ?x with _ => _ end) => destruct x eqn:?
  end.
Ltac neutral_run := repeat (neutral_step; cbn [bind]; cbn beta iota zeta).

Lemma checkUserInfo_neutral u k rc mc :
  plain u -> all_calls neutral_call (checkUserInfo u k rc mc).
Proof.
  intros Hu. unfold checkUserInfo, checkUserInfo_mysql, not_null_conn, sprintf, free_result, not_null.
  neutral_run.
Qed.

(** A program of neutral calls, in a request that has claimed nothing. *)
Abbreviation idle o := (Request Out o false false).

Lemma neutral_bind {A} (p : prog A) (f : A -> prog string) o :
  all_calls neutral_call p -> (forall a, follows_request (f a) (idle o)) ->
  follows_request (bind p f) (idle o).
Proof.
  intros Hp Hf. apply follows_bind.
  refine (follows_mono _ _ _ p (idle o) (fun g _ => g = idle o) _ _ _).
  - intros g [a|why] ->; [apply Hf|done].
  - apply (follows_all_calls _ _ _ neutral_call); [|by intros; apply neutral_upd|done|done].
    intros c. by apply neutral_pre.
Qed.

Lemma last_count_follows {A} (Q : request -> outcome A -> Prop) rows g (k : Z -> prog A) :
  (forall m, last_count rows 0 = Ret m -> is_int m -> follows request_pre switched request_upd (k m) g Q) ->
  (forall why, Q g (UB why)) ->
  follows request_pre switched request_upd (bind (last_count rows 0) k) g Q.
Proof.
  intros Hk HQ. destruct (last_count_no_call rows 0) as [[m E]|(why & E & _)]; rewrite E; simpl; [|apply HQ].
  apply Hk; [done|]. apply (last_count_int _ _ _ E). unfold is_int. lia.
Qed.

Lemma neutral_vis c (k : ans c -> prog string) o :
  neutral_call c -> (forall r, follows_request (k r) (idle o)) -> follows_request (Vis c k) (idle o).
Proof.
  intros Hc Hk. split; [by apply neutral_pre|]. intros r _. by rewrite neutral_upd.
Qed.

Lemma idle_zero o : follows_request (Ret "0") (idle o).
Proof. by split. Qed.

(** The calls of a purchase one by one. *)
Ltac request_step :=
  split; [try done|
    let r := fresh "r" in let Hr := fresh "Hr" in intros r Hr;
    try (cbn [switched] in Hr; subst r); cbn [request_upd at_ off claimed confirmed query_stage];
    cbn beta iota].

(** The last statements: the transaction is committed or rolled back, autocommit is on. *)
Definition finish_tx (c : option conn) (isSuc : bool) : prog string :=
  do response <-
    (if negb isSuc then
       mysql_rollback c;;! rwlock_wrlock;;! let! failedCount := read_failedCount in
       write_failedCount (failedCount + 1);;! rwlock_unlock;;! Ret "0"
     else
       mysql_commit c;;! let! successNum := read_successNum in
       write_successNum (successNum + 1);;! Ret "1");
  mysql_autocommit c ON;;! Ret response.

Lemma finish_follows c p :
  p = Inserted \/ p = Failed ->
  follows_request (finish_tx c (match p with Inserted => true | _ => false end))
    (Request p true false false).
Proof.
  unfold finish_tx. intros [-> | ->]; cbn [negb bind].
  - do 4 request_step. change (ON =? OFF) with false. cbn iota. done.
  - do 6 request_step. change (ON =? OFF) with false. cbn iota. done.
Qed.

Lemma update_follows u k c n :
  plain u -> plain k -> 0 < n -> is_int n ->
  follows_request
    (do updateSql <- sprintf 200 (updateSql (n - 1));
     let! e1 := mysql_query c updateSql in
     do insertOSql <- sprintf 200 (insertOSql u k);
     let! e2 := mysql_query c insertOSql in
     finish_tx c (if e2 =? 0 then if e1 =? 0 then true else false else false))
    (Request (Read n) true false false).
Proof.
  intros Hu Hk Hn Hi. unfold sprintf. destruct (_ <? 200); [|done]. cbn [bind].
  request_step. destruct (_ <? 200); [|done]. cbn [bind].
  destruct (r =? 0); (request_step; [by exists u, k|]); unfold query_stage; cbn [at_];
    match goal with |- context [finish_tx c (if ?x =? 0 then _ else _)] => destruct (x =? 0) end;
    first [apply (finish_follows c Inserted); by left | apply (finish_follows c Failed); by right].
Qed.

Lemma leave_follows c p :
  match p with Out | Selected | Read _ => True | _ => False end ->
  follows_request (let response := "0" in let! _b := mysql_autocommit c ON in Ret response)
    (Request p true false false).
Proof. intros Hp. request_step. by change (ON =? OFF) with false. Qed.

Lemma seckillGoods_mysql_follows u k c r o :
  plain u -> plain k -> follows_request (seckillGoods_mysql u k c r) (idle o).
Proof.
  intros Hu Hk. unfold seckillGoods_mysql, select_goods, free_result.
  destruct (not_null_conn_cases c) as [->| ->]; [cbn [bind]|done].
  request_step. change (OFF =? OFF) with true. cbn [bind]. cbn iota.
  request_step; [by left|]. unfold query_stage. cbn [at_]. rewrite String.eqb_refl.
  destruct (r0 =? 0); cbn [negb bind andb]; [|by apply leave_follows].
  request_step. request_step; [by right|].
  apply follows_bind. apply last_count_follows; [|done]. intros m Hm Hi. rewrite Hm.
  assert (Hrest : follows_request
      (if negb (0 <? m) then
         let response := "0" in let! _b := mysql_autocommit c ON in Ret response
       else
         do updateSql <- sprintf 200 (updateSql (m - 1));
         let! e1 := mysql_query c updateSql in
         do insertOSql <- sprintf 200 (insertOSql u k);
         let! e2 := mysql_query c insertOSql in
         finish_tx c (if e2 =? 0 then if e1 =? 0 then true else false else false))
      (Request (Read m) true false false)).
  { destruct (Z.ltb_spec 0 m); [by apply update_follows|by apply leave_follows]. }
  destruct r1; [cbn [bind]; request_step|]; cbn [bind follows]; exact Hrest.
Qed.

Lemma checkUserHasGot_follows u k rc mc o (f : bool -> prog string) :
  plain u -> (forall b o, follows_request (f b) (idle o)) ->
  follows_request (bind (checkUserHasGot u k rc mc) f) (idle o).
Proof.
  intros Hu Hf. unfold checkUserHasGot. destruct rc as [rc|].
  - apply neutral_bind; [|intros b; apply Hf]. neutral_run.
  - unfold checkUserHasGot_mysql, sprintf, free_result.
    destruct (not_null_conn_cases mc) as [->| ->]; [cbn [bind]|done].
    request_step. change (OFF =? OFF) with true. cbn [bind]. cbn iota.
    destruct (_ <? 200); [|done]. cbn [bind].
    apply neutral_vis; [by exists u; auto|]. intros e.
    destruct (e =? 0); cbn [negb bind].
    + apply neutral_vis; [done|]. intros res. apply neutral_vis; [done|]. intros rows.
      assert (Hend : forall b : bool, follows_request (let! _b := mysql_autocommit mc ON in f b) (idle true)).
      { intros b. request_step. change (ON =? OFF) with false. apply Hf. }
      destruct res; cbn [bind]; [apply neutral_vis; [done|]; intros ?|]; apply Hend.
    + request_step. change (ON =? OFF) with false. apply Hf.
Qed.

Lemma seckillGoods_rec_follows n u k rc mc m r o :
  plain u -> plain k -> follows_request (seckillGoods_rec n u k rc mc m r) (idle o).
Proof.
  intros Hu Hk. revert m r o. induction n as [|n IH]; intros m r o; [done|].
  cbn [seckillGoods_rec]. destruct rc as [rc|]; [|by apply seckillGoods_mysql_follows].
  apply neutral_bind; [unfold read_total_count, is_OK, c_atoi, not_null; neutral_run|].
  intros [count|]; [|apply idle_zero].
  assert (Hretry : forall mr, follows_request
    (do response <- (redisCommand (Some rc) "UNWATCH" [];;!
       (if m + 1 <? RETRYCOUNT then seckillGoods_rec n u k (Some rc) mc (m + 1) r else Ret "0"));
     freeReplyObject mr;;! Ret response) (idle o)).
  { intros mr. cbn [bind]. apply neutral_vis; [done|]. intros _. apply follows_bind.
    apply (follows_mono _ _ _ _ _ request_end); [|destruct (_ <? _); [apply IH|apply idle_zero]].
    intros g [s|why]; [|done]. intros [Hout Hs]. split; [done|]. by intros [] _. }
  destruct (0 <? count).
  - apply neutral_vis; [done|]. intros mr.
    apply neutral_bind; [unfold is_OK, not_null; neutral_run|]. intros [|].
    + do 2 (apply neutral_vis; [done|]; intros ?). apply neutral_vis; [done|]. intros er.
      destruct (exec_committed er).
      * apply neutral_vis; [done|]. intros _. by apply seckillGoods_mysql_follows.
      * apply neutral_bind; [neutral_run|]. intros _. by apply Hretry.
    + by apply Hretry.
  - unfold give_back. do 2 (apply neutral_vis; [done|]; intros ?).
    apply neutral_vis; [done|]. intros failed.
    apply neutral_bind; [unfold is_OK, not_null; neutral_run|]. intros _.
    apply neutral_vis; [done|]. intros _. apply idle_zero.
Qed.

Lemma handle_request_follows w rc mc :
  plain (usrname w) -> plain (usrkey w) -> follows_request (handle_request w rc mc) (idle false).
Proof.
  intros Hu Hk. apply neutral_bind; [by apply checkUserInfo_neutral|].
  intros [|]; [|apply idle_zero]. apply checkUserHasGot_follows; [done|].
  intros [|] o; [apply idle_zero|]. by apply seckillGoods_rec_follows.
Qed.

(** ** The invariant *)

(** What the ghost of request [i] says about the view. *)
Definition fits (i : nat) (v : view) (g : request) : Prop :=
  (off g = true -> i ∈ manual v) /\
  (at_ g <> Out -> claimed g = false) /\ (claimed g = false -> confirmed g = false) /\
  match at_ g with
  | Out => tx_of i v = None
  | Selected => tx_of i v = Some (stock v, 0) /\ i ∈ reading v
  | Read n => tx_of i v = Some (stock v, 0) /\ (0 < n -> n = stock v)
  | Updated => tx_of i v = Some (stock v - 1, 0) /\ 0 < stock v
  | Inserted => tx_of i v = Some (stock v - 1, 1) /\ 0 < stock v
  | Failed => True
  end.

(** What a step of another session leaves to session [j]. *)
Definition quiet_for (j : nat) (v v' : view) : Prop :=
  tx_of j v' = tx_of j v /\ (j ∈ manual v -> j ∈ manual v') /\ (j ∈ reading v -> j ∈ reading v') /\
  (stock v' = stock v \/ tx_of j v = None).

Lemma quiet_fits j v v' g : quiet_for j v v' -> fits j v g -> fits j v' g.
Proof.
  intros (Ht & Hm & Hr & Hs) (Ho & Hc & Hcc & Hg). split; [auto|]. split; [done|]. split; [done|].
  rewrite Ht. destruct (at_ g); try done; destruct Hg as [Hg ?]; destruct Hs as [-> | Hs];
    try congruence; auto.
Qed.

Lemma tx_of_other i j v p : tx_of i v = Some p -> j <> i -> tx_of j v = None.
Proof.
  unfold tx_of. destruct (tx v) as [[[k n] m]|]; [|done].
  destruct (Nat.eqb_spec k i) as [->|]; [|done]. intros _ Hj.
  destruct (Nat.eqb_spec i j); [congruence|done].
Qed.

Lemma tx_of_with i j v n k :
  tx_of j (with_tx v i n k) = if Nat.eqb i j then Some (n, k) else None.
Proof. done. Qed.

Lemma tx_of_none v i : tx v = None -> tx_of i v = None.
Proof. unfold tx_of. by intros ->. Qed.

(** One statement ends the transaction of its own session only. *)
Lemma ended_tx i v w :
  w = dropped_tx i v \/ w = committed_tx i v ->
  tx_of i w = None /\ manual w = manual v /\ reading w = reading v /\
  forall j, j <> i -> tx_of j w = tx_of j v /\ (stock w = stock v \/ tx_of j v = None).
Proof.
  unfold dropped_tx, committed_tx. destruct (tx_of i v) as [[n k]|] eqn:Hi.
  - intros [-> | ->]; (split; [done|]; split; [done|]; split; [done|]); intros j Hj;
      rewrite (tx_of_other i j v _ Hi Hj); auto.
  - intros [-> | ->]; auto 10.
Qed.

Definition sums (v v' : view) (d : Z) : Prop :=
  0 <= stock v' /\ stock v' + sold v' = stock v + sold v /\ sold v' = sold v + d.

(** The effect of a step: on its own session's ghost, on the others, on the sums. *)
Definition good_step (i : nat) (g g' : request) (v v' : view) : Prop :=
  fits i v' g' /\ (forall j, j <> i -> quiet_for j v v') /\
  sums v v' (b2z (confirmed g') - b2z (confirmed g)).

(** Session [i] takes the lock or changes its version; what it last read changes. *)
Lemma owner_step i v n k m :
  tx v = None \/ is_Some (tx_of i v) -> (forall j, j <> i -> j ∈ reading v -> j ∈ m) ->
  let v' := set_reading m (with_tx v i n k) in
  tx_of i v' = Some (n, k) /\ stock v' = stock v /\ sold v' = sold v /\ manual v' = manual v /\
  reading v' = m /\ (forall j, j <> i -> quiet_for j v v').
Proof.
  intros Hown Hm. cbn zeta. split.
  { unfold tx_of. simpl. by rewrite Nat.eqb_refl. }
  do 4 (split; [done|]). intros j Hj.
  assert (Hnone : tx_of j v = None).
  { destruct Hown as [Hn|[p Hp]]; [by apply tx_of_none|by apply (tx_of_other i j v p)]. }
  split; [|split; [done|split; [by apply Hm|by left]]].
  rewrite Hnone. unfold tx_of. simpl. destruct (Nat.eqb_spec i j); [congruence|done].
Qed.

(** Session [i] changes nothing, or loses its transaction; what it last read changes. *)
Lemma failed_step i v w m :
  w = v \/ w = dropped_tx i v -> (forall j, j <> i -> j ∈ reading v -> j ∈ m) ->
  let v' := set_reading m w in
  (tx_of i v' = tx_of i v \/ tx_of i v' = None) /\ stock v' = stock v /\ sold v' = sold v /\
  manual v' = manual v /\ (forall j, j <> i -> quiet_for j v v').
Proof.
  intros Hw Hm. cbn zeta. destruct Hw as [-> | ->].
  - split; [by left|]. do 3 (split; [done|]). intros j Hj. by split_and!; auto.
  - destruct (ended_tx i v (dropped_tx i v)) as (Ht & Hma & Hre & Ho); [by left|].
    split; [by right|]. unfold dropped_tx in *.
    destruct (tx_of i v) eqn:Hi; simpl; (do 3 (split; [done|])); intros j Hj;
      destruct (Ho j Hj) as [Htj Hs]; (split; [exact Htj|]); (split; [by rewrite ?Hma|]);
      (split; [by apply Hm|by left]).
Qed.

Lemma sums_same v v' d : 0 <= stock v -> stock v' = stock v -> sold v' = sold v -> d = 0 -> sums v v' d.
Proof. unfold sums. intros ? -> -> ->. lia. Qed.

Lemma good_step_intro i g g' v v' :
  stock v' = stock v -> sold v' = sold v -> manual v' = manual v -> 0 <= stock v ->
  confirmed g' = confirmed g -> claimed g' = claimed g -> off g' = off g ->
  (forall j, j <> i -> quiet_for j v v') -> fits i v g -> (at_ g' <> Out -> claimed g = false) ->
  match at_ g' with
  | Out => tx_of i v' = None
  | Selected => tx_of i v' = Some (stock v, 0) /\ i ∈ reading v'
  | Read n => tx_of i v' = Some (stock v, 0) /\ (0 < n -> n = stock v)
  | Updated => tx_of i v' = Some (stock v - 1, 0) /\ 0 < stock v
  | Inserted => tx_of i v' = Some (stock v - 1, 1) /\ 0 < stock v
  | Failed => True
  end -> good_step i g g' v v'.
Proof.
  intros Hst Hso Hma Hpos Hco Hcl Hof Hq (Ho & _ & Hcc & _) Hc Hat.
  split; [|split; [done|apply sums_same; try done; rewrite Hco; lia]].
  unfold fits. rewrite Hst, Hma, Hco, Hcl, Hof. by split_and!.
Qed.

Lemma others_reading i v j : j <> i -> j ∈ reading v -> j ∈ reading v ∖ {[ i ]}.
Proof. set_solver. Qed.

(** A statement that fails, or that sees no lock of its session. *)
Lemma unlocked_step i v v' g w g' :
  fits i v g -> 0 <= stock v ->
  w = v \/ w = dropped_tx i v -> v' = set_reading (reading v ∖ {[ i ]}) w ->
  at_ g' = Failed /\ claimed g = false \/ at_ g' = Out /\ at_ g = Out ->
  off g' = off g -> claimed g' = claimed g -> confirmed g' = confirmed g ->
  good_step i g g' v v'.
Proof.
  intros Hfits Hpos Hw -> Hat Hof Hcl Hco.
  destruct (failed_step i v w (reading v ∖ {[i]}) Hw (others_reading i v)) as (H1 & H2 & H3 & H4 & H5).
  apply good_step_intro; try done; destruct Hat as [[-> Hg]|[-> Hg]]; try done.
  destruct Hfits as (_ & _ & _ & Hst). rewrite Hg in Hst. by destruct H1 as [-> | ->].
Qed.

(** The four statements, by the stage they are sent in. *)
Section statements.
Context (i : nat) (c : option conn) (q : string) (e : Z) (v v' : view) (g : request).
Hypothesis Hfits : fits i v g.
Hypothesis Hpos : 0 <= stock v.
Hypothesis Hview : mysql_view i (mysql_query c q) e v v'.

Lemma select_step :
  at_ g = Out -> q = selSql_goods -> off g = true -> claimed g = false ->
  good_step i g (request_upd g (Ev (mysql_query c q) e)) v v'.
Proof.
  intros Hg -> Hof Hcl. cbn in Hview. cbn [request_upd]. unfold query_stage. rewrite Hg.
  rewrite String.eqb_refl in *. destruct (e =? 0); cbn [andb]; destruct Hview as (w & Hw & ->).
  2: { apply (unlocked_step i v _ g w); auto. }
  destruct Hfits as (Ho & _ & _ & Hst). rewrite Hg in Hst.
  destruct Hw as (Hsel & _). specialize (Hsel eq_refl (Ho Hof)).
  assert (Htx : tx v = None).
  { destruct (tx v) as [[[j n] k]|] eqn:E; [|done]. destruct Hsel as [-> _].
    unfold tx_of in Hst. rewrite E, Nat.eqb_refl in Hst. done. }
  rewrite Htx in Hsel. subst w.
  destruct (owner_step i v (stock v) 0 ({[i]} ∪ reading v)) as (H1 & H2 & H3 & H4 & H5 & H6);
    [by left|set_solver|].
  apply good_step_intro; try done. split; [done|]. rewrite H5. set_solver.
Qed.

Lemma other_read_step u :
  at_ g = Out -> plain u -> q = selSql_usr u \/ q = selSql_order u ->
  good_step i g (request_upd g (Ev (mysql_query c q) e)) v v'.
Proof.
  intros Hg Hu Hq. cbn in Hview. cbn [request_upd]. unfold query_stage. rewrite Hg.
  assert (Hne : String.eqb q selSql_goods = false)
    by (destruct Hq as [-> | ->]; [apply selSql_usr_ne|apply selSql_order_ne]).
  rewrite Hne in *. cbn [andb].
  destruct (e =? 0); destruct Hview as (w & Hw & ->); apply (unlocked_step i v _ g w); auto.
  left. by apply (proj2 (proj2 (proj2 Hw)) u).
Qed.

Lemma update_step n :
  at_ g = Read n -> 0 < n -> is_int n -> q = updateSql (n - 1) ->
  good_step i g (request_upd g (Ev (mysql_query c q) e)) v v'.
Proof.
  intros Hg Hn Hint ->. cbn in Hview. cbn [request_upd]. unfold query_stage. rewrite Hg.
  change (String.eqb (updateSql (n - 1)) selSql_goods) with false in Hview.
  destruct Hfits as (_ & Hcl & _ & Hst). rewrite Hg in Hst, Hcl. destruct Hst as [Hst Hns].
  specialize (Hns Hn). specialize (Hcl ltac:(done)). unfold is_int in Hint.
  destruct (e =? 0); destruct Hview as (w & Hw & ->); [|apply (unlocked_step i v _ g w); auto].
  destruct Hw as (_ & Hupd & _). rewrite (Hupd (n - 1) (stock v) 0 ltac:(lia) eq_refl Hst).
  destruct (owner_step i v (n - 1) 0 (reading v ∖ {[i]})) as (H1 & H2 & H3 & H4 & H5 & H6);
    [by right; eexists|apply others_reading|].
  apply good_step_intro; try done. cbn [at_]. rewrite H1. split; [do 2 f_equal; lia|lia].
Qed.

Lemma insert_step u k :
  at_ g = Updated \/ at_ g = Failed -> plain u -> plain k -> q = insertOSql u k ->
  good_step i g (request_upd g (Ev (mysql_query c q) e)) v v'.
Proof.
  intros Hg Hu Hk ->. cbn in Hview. cbn [request_upd]. unfold query_stage.
  change (String.eqb (insertOSql u k) selSql_goods) with false in Hview.
  destruct Hfits as (_ & Hcl & _ & Hst).
  specialize (Hcl ltac:(by destruct Hg as [-> | ->])).
  destruct (e =? 0); destruct Hview as (w & Hw & ->).
  2: { apply (unlocked_step i v _ g w); auto. left. by destruct Hg as [-> | ->]. }
  destruct Hw as (_ & _ & Hins & _). specialize (Hins u k Hu Hk eq_refl).
  assert (Howner : forall n b, tx_of i v = Some (n, b) -> w = with_tx v i n (b + 1) ->
    tx_of i (set_reading (reading v ∖ {[i]}) w) = Some (n, b + 1) /\
    good_step i g (Request Failed (off g) (claimed g) (confirmed g)) v
      (set_reading (reading v ∖ {[i]}) w) /\
    (n = stock v - 1 -> b = 0 -> 0 < stock v ->
     good_step i g (Request Inserted (off g) (claimed g) (confirmed g)) v
       (set_reading (reading v ∖ {[i]}) w))).
  { intros n b Htx ->.
    destruct (owner_step i v n (b + 1) (reading v ∖ {[i]})) as (H1 & H2 & H3 & H4 & H5 & H6);
      [by right; eexists|apply others_reading|].
    split; [done|]. split; [by apply good_step_intro|]. intros -> -> Hs.
    by apply good_step_intro. }
  destruct Hg as [Hg|Hg]; rewrite Hg in *.
  - destruct Hst as [Hst Hs]. rewrite Hst in Hins. by apply (Howner _ _ Hst Hins).
  - destruct (tx_of i v) as [[n b]|] eqn:Htx; [by apply (Howner n b)|].
    apply (unlocked_step i v _ g w); auto.
Qed.
End statements.

Lemma query_step i g c q e v v' :
  fits i v g -> 0 <= stock v -> request_pre g (mysql_query c q) ->
  mysql_view i (mysql_query c q) e v v' ->
  good_step i g (request_upd g (Ev (mysql_query c q) e)) v v'.
Proof.
  intros Hfits Hpos Hpre Hview. unfold request_pre in Hpre. destruct (at_ g) as [| |n| | |] eqn:Hg.
  - destruct Hpre as [(? & ? & ?)|(u & ? & ?)]; [by apply select_step|by apply (other_read_step i c q e v v' g) with u].
  - done.
  - destruct Hpre as (? & ? & ?). by apply (update_step i c q e v v' g) with n.
  - destruct Hpre as (u & k & ? & ? & ?). apply (insert_step i c q e v v' g) with u k; auto.
  - done.
  - destruct Hpre as (u & k & ? & ? & ?). apply (insert_step i c q e v v' g) with u k; auto.
Qed.

Lemma self_step i g v : fits i v g -> 0 <= stock v -> good_step i g g v v.
Proof.
  intros Hfits Hpos. split; [done|]. split; [by intros; split_and!; auto|].
  by apply sums_same; [..|lia].
Qed.

Lemma fetch_step i g res rows v v' :
  fits i v g -> 0 <= stock v -> request_pre g (mysql_fetch_rows res) ->
  mysql_view i (mysql_fetch_rows res) rows v v' ->
  good_step i g (request_upd g (Ev (mysql_fetch_rows res) rows)) v v'.
Proof.
  intros Hfits Hpos Hpre [-> Hrows]. pose proof Hfits as (_ & Hcl & _ & Hst).
  assert (Hq : forall j, j <> i -> quiet_for j v v) by by (intros; split_and!; auto).
  cbn [request_upd]. cbn in Hpre. destruct Hpre as [Hg|Hg]; rewrite Hg in *.
  { by apply self_step. }
  destruct Hst as [Htx Hread]. specialize (Hcl ltac:(done)).
  destruct (last_count_no_call rows 0) as [[m E]|(why & E & _)]; rewrite E.
  - apply good_step_intro; try done. cbn [at_]. split; [done|]. intros Hm.
    destruct (Hrows (stock v) 0 m Hread Htx E) as [->| ->]; [done|].
    injection E as <-. lia.
  - by apply self_step.
Qed.

(** Ending the transaction without having claimed anything. *)
Lemma end_step i g g' v w v' :
  fits i v g -> 0 <= stock v -> w = dropped_tx i v \/ w = committed_tx i v ->
  stock w = stock v -> sold w = sold v ->
  stock v' = stock w -> sold v' = sold w -> tx v' = tx w -> reading v' = reading w ->
  (forall j, j <> i -> j ∈ manual v -> j ∈ manual v') ->
  (off g' = true -> i ∈ manual v') -> at_ g' = Out -> claimed g' = claimed g ->
  confirmed g' = confirmed g -> good_step i g g' v v'.
Proof.
  intros (_ & _ & Hcc & _) Hpos Hw Hs1 Hs2 Hst Hso Htx Hre Hma Hof Hat Hcl Hco.
  destruct (ended_tx i v w Hw) as (Hi & Hm & Hr & Ho).
  assert (Htxj : forall j, tx_of j v' = tx_of j w) by (intros j; unfold tx_of; by rewrite Htx).
  split; [|split].
  - unfold fits. rewrite Hat, Hcl, Hco, Htxj. by split_and!.
  - intros j Hj. destruct (Ho j Hj) as [Htj _]. split; [by rewrite Htxj|].
    split; [by apply Hma|]. split; [by rewrite Hre, Hr|]. left. congruence.
  - apply sums_same; try congruence. rewrite Hco. lia.
Qed.

Lemma dropped_same i v : stock (dropped_tx i v) = stock v /\ sold (dropped_tx i v) = sold v /\
  manual (dropped_tx i v) = manual v.
Proof. unfold dropped_tx. by destruct (tx_of i v). Qed.

Lemma rollback_step i g c e v v' :
  fits i v g -> 0 <= stock v -> mysql_view i (mysql_rollback c) e v v' ->
  good_step i g (request_upd g (Ev (mysql_rollback c) e)) v v'.
Proof.
  intros Hfits Hpos ->. destruct (dropped_same i v) as (? & ? & Hm). pose proof Hfits as (Ho & _).
  apply (end_step i g _ v (dropped_tx i v)); auto; rewrite Hm; auto.
Qed.

Lemma autocommit_step i g c mode e v v' :
  fits i v g -> 0 <= stock v -> request_pre g (mysql_autocommit c mode) ->
  switched g (mysql_autocommit c mode) e -> mysql_view i (mysql_autocommit c mode) e v v' ->
  good_step i g (request_upd g (Ev (mysql_autocommit c mode) e)) v v'.
Proof.
  intros Hfits Hpos Hpre He Hview. cbn in He, Hpre, Hview. rewrite He in Hview. cbn in Hview.
  cbn [request_upd]. pose proof Hfits as (Ho & Hcl & Hcc & Hst). destruct (mode =? OFF).
  - subst v'. rewrite Hpre in *. split; [|split].
    + unfold fits. cbn. split; [set_solver|]. by split_and!.
    + intros j Hj. split_and!; [done|set_solver|done|by left].
    + apply sums_same; try done. cbn. lia.
  - destruct Hview as (w & Hw & ->).
    assert (Hsame : stock w = stock v /\ sold w = sold v /\ manual w = manual v).
    { destruct Hw as [-> | ->]; [|apply dropped_same]. unfold committed_tx.
      destruct (at_ g); try done; [rewrite Hst|destruct Hst as [-> _]..]; simpl; split_and!; done || lia. }
    destruct Hsame as (? & ? & Hm).
    eapply (end_step i g _ v w); auto; [tauto|..]; cbn; [set_solver|done].
Qed.

Lemma commit_step i g c e v v' :
  fits i v g -> 0 <= stock v -> request_pre g (mysql_commit c) ->
  mysql_view i (mysql_commit c) e v v' ->
  good_step i g (request_upd g (Ev (mysql_commit c) e)) v v'.
Proof.
  intros Hfits Hpos [Hg Hncl] Hview. cbn in Hview. cbn [request_upd].
  pose proof Hfits as (Ho & _ & Hcc & Hst). rewrite Hg in Hst. destruct Hst as [Hst Hs].
  specialize (Hcc Hncl).
  assert (Hw : v' = dropped_tx i v \/ v' = committed_tx i v) by (destruct (e =? 0); auto).
  destruct (ended_tx i v v' Hw) as (Hi & Hm & Hr & Hj).
  split; [|split].
  - unfold fits. cbn. rewrite Hm, Hi. by split_and!.
  - intros j Hne. destruct (Hj j Hne). split_and!; [done|by rewrite Hm|by rewrite Hr|done].
  - cbn. rewrite Hcc. unfold sums. destruct (e =? 0); subst v'; unfold dropped_tx, committed_tx;
      rewrite Hst; simpl; lia.
Qed.

(** Every step of a request that follows the protocol. *)
Lemma request_view i g c r v v' :
  fits i v g -> 0 <= stock v -> request_pre g c -> switched g c r -> mysql_view i c r v v' ->
  good_step i g (request_upd g (Ev c r)) v v'.
Proof.
  intros Hfits Hpos Hpre Hsw Hview.
  pose proof (self_step i g v Hfits Hpos) as Hself.
  destruct c; try (cbn in Hview; subst v'; exact Hself).
  - by apply query_step.
  - by apply fetch_step.
  - by apply autocommit_step.
  - by apply commit_step.
  - by apply rollback_step.
Qed.

(** ** Any number of concurrent requests *)

Definition is_winner (p : prog string) : bool :=
  match p with Ret s => String.eqb s "1" | _ => false end.

(** The programs of the requests: a worker with its two connections each. *)
Definition requests_of (l : list (Worker * option conn * option conn)) : list (prog string) :=
  map (fun '(w, rc, mc) => handle_request w rc mc) l.
Definition plain_request (a : Worker * option conn * option conn) : Prop :=
  plain (usrname a.1.1) /\ plain (usrkey a.1.1).

Section outcome.
Context {S : Type} `{DatabaseLaws S} (s0 : S).
Hypothesis autocommit_ok : forall i s c mode r s', serve_call i s (mysql_autocommit c mode) r s' -> r = 0.

Record stock_inv (s : S) (gs : list request) : Prop := StockInv {
  si_stock : 0 <= stock (view_of s);
  si_sum : stock (view_of s) + sold (view_of s) = stock (view_of s0) + sold (view_of s0);
  si_sold : sold (view_of s) = sold (view_of s0) + tally confirmed gs;
  si_fits i g : gs !! i = Some g -> fits i (view_of s) g;
}.

Lemma stock_inv_step i s gs g c r s' :
  stock_inv s gs -> gs !! i = Some g -> request_pre g c -> serve_call i s c r s' ->
  switched g c r /\ stock_inv s' (<[i := request_upd g (Ev c r)]> gs).
Proof using All.
  intros [Hst Hsum Hsold Hfits] Hi Hpre Hserve.
  assert (Hsw : switched g c r) by (destruct c; try done; by apply autocommit_ok in Hserve).
  split; [done|].
  destruct (request_view i g c r _ _ (Hfits i g Hi) Hst Hpre Hsw (serve_view _ _ _ _ _ Hserve))
    as (Hf & Hq & Hs1 & Hs2 & Hs3).
  split; [done|lia| |].
  - rewrite (tally_insert _ _ _ _ _ Hi). lia.
  - intros j gj. destruct (decide (j = i)) as [->|Hj].
    + rewrite list_lookup_insert_eq by by eapply lookup_lt_Some. by intros [= <-].
    + rewrite list_lookup_insert_ne by done. intros Hgj.
      apply (quiet_fits j (view_of s)); [by apply Hq|by apply Hfits].
Qed.

Abbreviation start l := (Config s0 (requests_of l)).

Lemma stock_inv_start (l : list (Worker * option conn * option conn)) :
  0 <= stock (view_of s0) -> tx (view_of s0) = None -> stock_inv s0 (replicate (List.length l) (idle false)).
Proof using All.
  intros Hst Htx. split; [done|done|by rewrite tally_replicate, Z.add_0_r|].
  intros i g [-> _]%lookup_replicate. split_and!; try done. by apply tx_of_none.
Qed.

Lemma requests_follow l :
  Forall plain_request l ->
  Forall2 (fun p g => follows_request p g) (requests_of l) (replicate (List.length l) (idle false)).
Proof using All.
  induction 1 as [|[[w rc] mc] l [Hu Hk] _ IH]; simpl; constructor; [|exact IH].
  by apply handle_request_follows.
Qed.

Lemma reachable_inv l x :
  Forall plain_request l -> 0 <= stock (view_of s0) -> tx (view_of s0) = None ->
  reachable serve_call (start l) x ->
  inv request_pre switched request_upd request_end stock_inv x.
Proof using All.
  intros Hpl Hst Htx Hr. eapply (inv_reachable serve_call); [|exists (replicate (List.length l) (idle false))|exact Hr].
  - intros. by eapply stock_inv_step.
  - split; [by apply stock_inv_start|by apply requests_follow].
Qed.

(** When every [mysql_commit] answers 0, what is claimed is confirmed. *)
Definition backed_inv (s : S) (gs : list request) : Prop :=
  stock_inv s gs /\ forall i g, gs !! i = Some g -> claimed g = true -> confirmed g = true.

Lemma reachable_backed l x :
  (forall i s c r s', serve_call i s (mysql_commit c) r s' -> r = 0) ->
  Forall plain_request l -> 0 <= stock (view_of s0) -> tx (view_of s0) = None ->
  reachable serve_call (start l) x ->
  inv request_pre switched request_upd request_end backed_inv x.
Proof using All.
  intros Hcommit Hpl Hst Htx Hr.
  eapply (inv_reachable serve_call); [|exists (replicate (List.length l) (idle false))|exact Hr].
  - intros i s gs g c r s' [Hs Hc] Hi Hpre Hserve.
    destruct (stock_inv_step i s gs g c r s' Hs Hi Hpre Hserve) as [Hsw Hs']. split; [done|].
    split; [done|]. intros j gj. destruct (decide (j = i)) as [->|Hj];
      [|rewrite list_lookup_insert_ne by done; apply Hc].
    rewrite list_lookup_insert_eq by by eapply lookup_lt_Some. intros [= <-].
    specialize (Hc i g Hi). destruct c; try exact Hc; cbn [request_upd].
    + destruct (at_ g); try exact Hc. by destruct (last_count _ _).
    + by destruct (mode =? OFF).
    + intros _. cbn. by rewrite (Hcommit _ _ _ _ _ Hserve).
  - split; [split; [by apply stock_inv_start|]|by apply requests_follow].
    by intros i g [-> _]%lookup_replicate.
Qed.
End outcome.

Section theorems.
Context {S : Type} `{DatabaseLaws S}.

(** C5: however many requests run at once, with or without Redis, whatever Redis answers and
    however their calls are interleaved, at every moment the committed count of goods is
    not negative and, together with the committed orders, makes up what was there at the
    start: nothing is sold twice and nothing beyond the stock. *)
Theorem no_oversell (s0 : S) (l : list (Worker * option conn * option conn)) (x : config S string) :
  (forall i s c mode r s', serve_call i s (mysql_autocommit c mode) r s' -> r = 0) ->
  Forall plain_request l -> 0 <= stock (view_of s0) -> tx (view_of s0) = None ->
  reachable serve_call (Config s0 (requests_of l)) x ->
  0 <= stock (view_of (shared x)) /\
  stock (view_of (shared x)) + sold (view_of (shared x)) = stock (view_of s0) + sold (view_of s0) /\
  sold (view_of s0) <= sold (view_of (shared x)) <= sold (view_of s0) + stock (view_of s0).
Proof using All.
  intros Hauto Hpl Hst Htx Hr.
  destruct (reachable_inv s0 Hauto l x Hpl Hst Htx Hr) as (gs & [Hs Hsum Hsold _] & _).
  pose proof (tally_bounds confirmed gs). lia.
Qed.

(** C6: if [mysql_commit] always answers 0, then at every moment the requests answered "1"
    are no more than the new committed orders, hence no more than the initial stock; and
    once all requests have ended, the orders are exactly the requests answered "1". *)
Theorem winners_have_orders (s0 : S) (l : list (Worker * option conn * option conn))
    (x : config S string) :
  (forall i s c mode r s', serve_call i s (mysql_autocommit c mode) r s' -> r = 0) ->
  (forall i s c r s', serve_call i s (mysql_commit c) r s' -> r = 0) ->
  Forall plain_request l -> 0 <= stock (view_of s0) -> tx (view_of s0) = None ->
  reachable serve_call (Config s0 (requests_of l)) x ->
  tally is_winner (threads x) <= sold (view_of (shared x)) - sold (view_of s0) /\
  tally is_winner (threads x) <= stock (view_of s0) /\
  (Forall (fun p => exists s, p = Ret s) (threads x) ->
   sold (view_of (shared x)) = sold (view_of s0) + tally is_winner (threads x)).
Proof using All.
  intros Hauto Hcommit Hpl Hst Htx Hr.
  destruct (reachable_backed s0 Hauto l x Hcommit Hpl Hst Htx Hr) as (gs & [[Hs Hsum Hsold Hfits] Hcl] & Hts).
  assert (Hts' : Forall2 (fun p g => follows_request p g /\ (claimed g = true -> confirmed g = true) /\
      (claimed g = false -> confirmed g = false)) (threads x) gs).
  { apply Forall2_same_length_lookup. apply Forall2_same_length_lookup in Hts as [Hl Hts].
    split; [done|]. intros i p g Hp Hg. split; [by apply (Hts i)|].
    split; [by apply (Hcl i)|]. by apply (Hfits i g Hg). }
  assert (Hle : tally is_winner (threads x) <= tally confirmed gs).
  { apply (tally_le _ _ _ _ _ Hts'). intros p g (Hf & Hc & _) Hw. destruct p; [|done..].
    apply Hc. apply String.eqb_eq in Hw as ->. by apply Hf. }
  split; [lia|]. split; [lia|]. intros Hend. rewrite Hsold. f_equal. symmetry.
  assert (Hboth : Forall2 (fun p g => (exists s, p = Ret s) /\ follows_request p g /\
      (claimed g = true -> confirmed g = true) /\ (claimed g = false -> confirmed g = false))
      (threads x) gs).
  { apply Forall2_same_length_lookup. apply Forall2_same_length_lookup in Hts' as [Hl Hts'].
    split; [done|]. intros i p g Hp Hg. split; [|by apply (Hts' i)].
    exact (Forall_lookup_1 _ _ _ _ Hend Hp). }
  apply (tally_ext _ _ _ _ _ Hboth). intros p g ([s ->] & [_ Hs1] & Hc & Hn). simpl.
  destruct (String.eqb_spec s "1") as [->|Hne].
  - symmetry. by apply Hc, Hs1.
  - symmetry. apply Hn. destruct (claimed g); [|done]. exfalso. by apply Hne, Hs1.
Qed.
End theorems.
