(* ===== verification/StockRef.v ===== *)
(** * A database at which the assumptions of [Stock.v] hold

    One table with one goods row, row lock and transactions, executable: the statements
    of the worker are recognised by their text.  With it, schedules of concurrent
    requests are run. *)
From Stdlib Require Import ZArith Lia Ascii String.
From stdpp Require Import base tactics numbers strings relations gmap list.
From S2P Require Import Prelude Words Pool CString Prog Threads Worker Ledger WorkerProps.
From S2P Require Import WorkerSafety Stock.

Local Open Scope string_scope.
Local Open Scope Z_scope.

(** ** Recognising the statements *)

(** [s] without its first [n] characters. *)
Fixpoint skip (n : nat) (s : string) : string :=
  match n, s with
  | S n', String _ s' => skip n' s'
  | _, _ => s
  end.

Definition is_update (q : string) : bool := String.prefix "UPDATE" q.
Definition is_insert (q : string) : bool := String.prefix "INSERT" q.
(** The number in an UPDATE of the worker. *)
Definition update_value (q : string) : Z := atoi_value (skip 37 q).

Lemma print_digits_app fuel n acc : print_digits fuel n acc = print_digits fuel n "" +:+ acc.
Proof.
  revert n acc. induction fuel as [|fuel IH]; intros n acc; [done|]. cbn [print_digits].
  destruct (n <? 10); [done|]. rewrite IH, (IH _ (String _ "")).
  generalize (print_digits fuel (n / 10) "") (char_of (48 + n mod 10)). intros s d.
  induction s as [|c s IHs]; [done|]. unfold String.append in *. cbn. exact (f_equal (String c) IHs).
Qed.

Lemma update_value_spec m : 0 <= m < 2 ^ 31 -> update_value (updateSql m) = m.
Proof.
  intros Hm. unfold update_value, updateSql, to_string. rewrite (proj2 (Z.ltb_ge m 0)) by lia.
  rewrite <- print_digits_app. set (rest := print_digits 10 m _).
  change (atoi_value rest = m). subst rest.
  destruct (print_digits_head 10 m " WHERE g_id = '10' " ltac:(lia)) as (d & s & Hd & Hp); [lia|].
  destruct (digit_char_plain d Hd) as (Hs & Hmi & Hpl).
  unfold atoi_value. rewrite Hp. cbn [skip_spaces]. rewrite Hs, Hmi, Hpl, <- Hp.
  destruct (read_print 10 m " WHERE g_id = '10' " 0) as (k & _ & ->); [lia|]. simpl. lia.
Qed.

(** ** The database *)

Definition goods_rows (i : nat) (v : view) : list MYSQL_ROW :=
  match tx_of i v with
  | Some (n, _) => if is_intb n then [[Some (to_string n)]] else []
  | None => []
  end.

Definition query_result (i : nat) (q : string) (v : view) : option (Z * view) :=
  if String.eqb q selSql_goods then
    match tx v with
    | Some (j, _, _) =>
        if Nat.eqb j i then Some (0, set_reading ({[ i ]} ∪ reading v) v) else None
    | None =>
        Some (0, set_reading ({[ i ]} ∪ reading v)
                   (if decide (i ∈ manual v) then with_tx v i (stock v) 0 else v))
    end
  else
    let w :=
      match tx_of i v with
      | Some (n, k) =>
          if is_update q then with_tx v i (update_value q) k
          else if is_insert q then with_tx v i n (k + 1) else v
      | None => v
      end in
    Some (0, set_reading (reading v ∖ {[ i ]}) w).

(** Redis and the rest answer as the service [sv] does; the row lock makes a session wait. *)
Definition database (sv : service) (i : nat) (v : view) (c : call) : option (ans c * view) :=
  match c return option (ans c * view) with
  | mysql_query _ q => query_result i q v
  | mysql_fetch_rows _ => Some (goods_rows i v, v)
  | mysql_commit _ => Some (0, committed_tx i v)
  | mysql_rollback _ => Some (0, dropped_tx i v)
  | mysql_autocommit _ mode =>
      Some (0, if mode =? OFF then set_manual ({[ i ]} ∪ manual v) v
               else set_manual (manual v ∖ {[ i ]}) (committed_tx i v))
  | c => Some (answer sv c, v)
  end.

#[export] Instance ref_state (sv : service) : ServerState view | 10 := served_by (database sv).
#[export] Instance ref_database : Database view := fun v => v.

Lemma query_result_view i q v e v' :
  query_result i q v = Some (e, v') ->
  e = 0 /\ exists w, query_view i q v w /\
    v' = set_reading (if String.eqb q selSql_goods then {[ i ]} ∪ reading v
                      else reading v ∖ {[ i ]}) w.
Proof.
  unfold query_result. destruct (String.eqb_spec q selSql_goods) as [->|Hne].
  - destruct (tx v) as [[[j n] k]|] eqn:Htx.
    + destruct (Nat.eqb_spec j i) as [->|]; [|done]. intros [= <- <-]. split; [done|].
      exists v. split; [|done]. unfold query_view. rewrite Htx. by split_and!.
    + intros [= <- <-]. split; [done|]. eexists. split; [|done]. unfold query_view. rewrite Htx.
      split; [intros _ Hi; by rewrite decide_True by done|]. split_and!; try done.
      intros u _ [?|?]; discriminate.
  - intros [= <- <-]. split; [done|]. eexists. split; [|done].
    unfold query_view. split; [done|]. split_and!.
    + intros m n k Hm -> ->. change (is_update (updateSql m)) with true. cbn iota.
      by rewrite update_value_spec.
    + intros u k _ _ ->. change (is_update (insertOSql u k)) with false.
      change (is_insert (insertOSql u k)) with true. by destruct (tx_of i v) as [[]|].
    + intros u _ Hq. destruct (tx_of i v) as [[]|]; [|done]. by destruct Hq as [-> | ->].
Qed.

Lemma ref_rows i v res : mysql_view i (mysql_fetch_rows res) (goods_rows i v) v v.
Proof.
  split; [done|]. intros n k m _ Htx. unfold goods_rows. rewrite Htx.
  destruct (is_intb n) eqn:Hn; [|auto]. cbn [last_count c_atoi]. rewrite c_str_to_string.
  rewrite atoi_to_string by (unfold is_intb, is_int in *; lia). intros [= <-]. by left.
Qed.

#[export] Instance ref_database_laws (sv : service) :
  @DatabaseLaws view (ref_state sv) ref_database.
Proof.
  intros i v c r v' Hs. change (served_by (database sv) i v c r v') in Hs. unfold served_by in Hs.
  change (mysql_view i c r v v').
  destruct c; cbn in Hs |- *; try (by injection Hs as <- <-); try (by injection Hs as _ <-).
  - apply query_result_view in Hs as (-> & w & Hw & ->). rewrite Z.eqb_refl. by exists w.
  - injection Hs as <- <-. by apply (ref_rows i v None).
  - injection Hs as <- <-. cbn. destruct (mode =? OFF); [done|]. eauto.
Qed.


(** ** Three requests for one item *)

Fixpoint plainb (s : string) : bool :=
  match s with
  | EmptyString => true
  | String c s' => negb (Ascii.eqb c "'") && negb (Ascii.eqb c "\") && plainb s'
  end.

Lemma plainb_plain s : plainb s = true -> plain s.
Proof.
  unfold plain. induction s as [|c s IH]; intros Hs n c' Hget; [by destruct n|].
  simpl in Hs. rewrite !andb_true_iff, !negb_true_iff in Hs. destruct Hs as [[H1 H2] Hs].
  destruct n as [|n]; simpl in Hget.
  - injection Hget as <-. by split; [apply Ascii.eqb_neq|apply Ascii.eqb_neq].
  - by apply (IH Hs n).
Qed.

Definition three_requests : list (Worker * option conn * option conn) :=
  [ (MkWorker PROCESS "a" "k" "", Some 1%positive, Some 2%positive);
    (MkWorker PROCESS "b" "k" "", Some 3%positive, Some 4%positive);
    (MkWorker PROCESS "c" "k" "", Some 5%positive, Some 6%positive) ].
Definition one_item : view := View 1 0 None ∅ ∅.

(** Each request makes one call in turn. *)
Definition round_robin : list nat := mjoin (replicate 60 [0; 1; 2]%nat).
Definition after_race : config view string :=
  play (database all_well) round_robin (Config one_item (requests_of three_requests)).

Example race_result :
  threads after_race = [Ret "1"; Ret "0"; Ret "0"] /\ stock (shared after_race) = 0 /\
  sold (shared after_race) = 1.
Proof. vm_compute. done. Qed.

Lemma three_plain : Forall plain_request three_requests.
Proof.
  unfold three_requests. rewrite !Forall_cons.
  split_and!; [split; by apply plainb_plain..|by apply Forall_nil].
Qed.

Lemma ref_autocommit sv i s c mode r s' :
  served_by (database sv) i s (mysql_autocommit c mode) r s' -> r = 0.
Proof. by intros [= <- _]. Qed.
Lemma ref_commit sv i s c r s' :
  served_by (database sv) i s (mysql_commit c) r s' -> r = 0.
Proof. by intros [= <- _]. Qed.

Abbreviation ref_view := (@view_of view ref_database).

Lemma no_oversell_witness :
  0 <= stock (ref_view (shared after_race)) /\
  stock (ref_view (shared after_race)) + sold (ref_view (shared after_race)) =
  stock (ref_view one_item) + sold (ref_view one_item).
Proof.
  destruct (@no_oversell view (ref_state all_well) ref_database (ref_database_laws all_well) one_item
    three_requests after_race) as (H1 & H2 & _).
  - exact (ref_autocommit all_well).
  - apply three_plain.
  - simpl. lia.
  - reflexivity.
  - apply play_reachable.
  - split; [exact H1|exact H2].
Defined.

Lemma winners_have_orders_witness :
  sold (ref_view (shared after_race)) = sold (ref_view one_item) + tally is_winner (threads after_race).
Proof.
  apply (@winners_have_orders view (ref_state all_well) ref_database (ref_database_laws all_well) one_item
    three_requests after_race).
  - exact (ref_autocommit all_well).
  - exact (ref_commit all_well).
  - apply three_plain.
  - simpl. lia.
  - reflexivity.
  - apply play_reachable.
  - assert (threads after_race = [Ret "1"; Ret "0"; Ret "0"]) as -> by (vm_compute; reflexivity).
    repeat constructor; by eexists.
Defined.
