(* ===== verification/Livelock.v ===== *)
(** * The throttle and the tokens of [work_list]

    Every request pushes a token on [work_list] and its worker takes one off when it is
    done; [HandleRPCS] stops asking for events while the list is as long as the number of
    items left.  Nothing but an event makes the list shorter: once all threads are turned
    away, they are for as long as Redis answers. *)
From Stdlib Require Import ZArith Lia Ascii String.
From stdpp Require Import base tactics numbers strings relations gmap list.
From S2P Require Import Prelude Words Pool CString Users Prog Threads Worker Ledger WorkerProps.
From S2P Require Import WorkerSafety Server ServerProps.

Local Open Scope string_scope.
Local Open Scope prog_scope.
Local Open Scope Z_scope.

(** ** The shared state *)

(** The length of [work_list] in Redis and the variable [sucNum_]. *)
Class Tokens (S : Type) := {
  token_serve : nat -> S -> forall c, ans c -> S -> Prop;
  work_list : S -> Z;
  sucNum : S -> Z;
}.

(** An integer answered to LLEN is the length; an error reply, no reply at all or a null
    context are possible too.  LLEN, the pool and [freeReplyObject] change neither the list
    nor the variable. *)
Class TokensLaws (S : Type) `{Tokens S} := {
  read_law i s r s' : token_serve i s read_successNum r s' ->
    r = sucNum s /\ work_list s' = work_list s /\ sucNum s' = sucNum s;
  llen_law i s c r s' : token_serve i s (redisCommand c "llen %s" ["work_list"]) r s' ->
    (forall rep, r = Some rep -> type rep = REDIS_REPLY_INTEGER -> integer rep = work_list s) /\
    work_list s' = work_list s /\ sucNum s' = sucNum s;
  get_law i s r s' : token_serve i s redis_getOneConnect r s' ->
    work_list s' = work_list s /\ sucNum s' = sucNum s;
  close_law i s c r s' : token_serve i s (redis_close c) r s' ->
    work_list s' = work_list s /\ sucNum s' = sucNum s;
  free_law i s c r s' : token_serve i s (freeReplyObject c) r s' ->
    work_list s' = work_list s /\ sucNum s' = sucNum s;
}.

(** ** A thread that is turned away *)

Lemma i32_small z : is_int z -> i32 z = z.
Proof. unfold is_int, i32. intros Hz. rewrite Z.mod_small; lia. Qed.

Definition spinning_call (c : call) : Prop :=
  c = read_successNum \/ c = redis_getOneConnect \/
  (exists rc, c = redisCommand rc "llen %s" ["work_list"]) \/
  (exists rc, c = redis_close rc) \/ (exists r, c = freeReplyObject r).

(** The answers while the list has [len] tokens and [n] items are sold. *)
Definition frozen_answer (len n : Z) (c : call) : ans c -> Prop :=
  match c return ans c -> Prop with
  | read_successNum => fun z => z = n
  | redisCommand _ _ _ => fun r =>
      exists rep, r = Some rep /\ type rep = REDIS_REPLY_INTEGER /\ integer rep = len
  | _ => fun _ => True
  end.

Abbreviation spins len n p Q :=
  (follows (fun _ : unit => spinning_call) (fun _ => frozen_answer len n) (fun _ _ => tt) p tt Q).

Lemma throttle_spins {A} len n (f : bool -> prog A) (Q : unit -> outcome A -> Prop) :
  n < 50 -> is_int len -> 50 - n <= len -> spins len n (f false) Q ->
  spins len n (bind throttle f) Q.
Proof.
  intros Hn Hint Hle Hf. unfold throttle. split; [by left|]. intros s1 ->.
  rewrite (proj2 (Z.ltb_lt n 50) Hn). split; [by right; left|]. intros rc _.
  split; [right; right; left; by eexists|]. intros r (rep & -> & Hty & Hlen).
  rewrite Hty. cbn [bind]. rewrite Z.eqb_refl. split; [do 4 right; by eexists|]. intros [] _.
  split; [by left|]. intros s2 ->. rewrite Hlen.
  assert (Hi : i32 len = len) by by apply i32_small.
  rewrite Hi, (proj2 (Z.leb_le _ _) Hle). split; [do 3 right; left; by eexists|]. intros [] _. exact Hf.
Qed.

Lemma HandleRPCS_spins len n turns ws :
  n < 50 -> is_int len -> 50 - n <= len ->
  spins len n (HandleRPCS turns ws) (fun _ o => o = Val ws).
Proof.
  intros Hn Hint Hle. induction turns as [|turns IH]; [done|]. cbn [HandleRPCS].
  apply follows_bind. unfold HandleRPCS_turn. by apply throttle_spins.
Qed.

(** *** The system

    One step of it is a call of LLEN that Redis does not answer with an integer, or any other
    step. *)
Definition is_integer (r : option redisReply) : Prop :=
  exists rep, r = Some rep /\ type rep = REDIS_REPLY_INTEGER.

#[export] Instance is_integer_dec r : Decision (is_integer r).
Proof.
  destruct r as [rep|]; [|right; by intros (? & [=] & _)].
  destruct (decide (type rep = REDIS_REPLY_INTEGER)) as [H|H]; [left; by exists rep|].
  right. by intros (? & [= <-] & ?).
Defined.

(** The length was asked for and is not known. *)
Definition llen_fails (e : event) : Prop :=
  let '(Ev c r) := e in
  match c return ans c -> Prop with
  | redisCommand _ f args => fun r => f = "llen %s" /\ args = ["work_list"] /\ ~ is_integer r
  | _ => fun _ => False
  end r.

#[export] Instance llen_fails_dec e : Decision (llen_fails e).
Proof. destruct e as [c r]. destruct c; simpl; apply _. Defined.

Section freezing.
Context {S : Type} `{TokensLaws S}.

Definition answering (i : nat) (s : S) (c : call) (r : ans c) (s' : S) : Prop :=
  token_serve i s c r s' /\ ~ llen_fails (Ev c r).

(** No thread has got past the test since [s0]. *)
Definition frozen (s0 : S) (x : config S heap) : Prop :=
  work_list (shared x) = work_list s0 /\ sucNum (shared x) = sucNum s0 /\
  forall i c k, threads x !! i = Some (Vis c k) -> c <> cq_Next.

(** Redis did not give thread [i] the length, in the step from [x] to [x']. *)
Definition unanswered (i : nat) (x x' : config S heap) : Prop :=
  exists c k r s', threads x !! i = Some (Vis c k) /\ token_serve i (shared x) c r s' /\
    llen_fails (Ev c r) /\ x' = Config s' (<[i := k r]> (threads x)).

Definition loops_of (loops : list (nat * heap)) : list (prog heap) :=
  map (fun l => HandleRPCS l.1 l.2) loops.

Lemma answering_frozen (s0 : S) (loops : list (nat * heap)) (x : config S heap) :
  sucNum s0 < 50 -> is_int (work_list s0) -> 50 - sucNum s0 <= work_list s0 ->
  reachable answering (Config s0 (loops_of loops)) x -> frozen s0 x.
Proof using All.
  intros Hn Hint Hle Hr.
  set (R := fun (s : S) (gs : list unit) => work_list s = work_list s0 /\ sucNum s = sucNum s0).
  assert (Hinv : inv (fun _ => spinning_call) (fun _ => frozen_answer (work_list s0) (sucNum s0))
    (fun _ _ => tt) (fun _ _ => True) R x).
  { eapply (inv_reachable answering); [|exists (replicate (List.length loops) tt)|exact Hr].
    - intros i s gs g c r s' [Hw Hs] _ Hpre [Hserve Hans]. unfold R. rewrite <- Hw, <- Hs.
      destruct Hpre as [->|[->|[(rc & ->)|[(rc & ->)|(rp & ->)]]]].
      + apply read_law in Hserve as (-> & -> & ->). done.
      + apply get_law in Hserve as [-> ->]. done.
      + apply llen_law in Hserve as (Hrep & -> & ->). split; [|done].
        destruct (decide (is_integer r)) as [(rep & -> & Hty)|Hni]; [|by destruct Hans].
        exists rep. auto.
      + apply close_law in Hserve as [-> ->]. done.
      + apply free_law in Hserve as [-> ->]. done.
    - split; [done|]. cbn [threads]. clear R Hr.
      induction loops as [|[turns ws] loops IH]; [constructor|]. cbn [loops_of map replicate List.length fst snd].
      constructor; [|exact IH]. eapply follows_mono; [|by apply HandleRPCS_spins]. done. }
  destruct Hinv as (gs & [Hw Hs] & Hts). split; [done|]. split; [done|].
  intros i c k Hi ->. destruct (Forall2_lookup_l _ _ _ _ _ Hts Hi) as (g & _ & [Hpre _]).
  destruct Hpre as [?|[?|[[? ?]|[[? ?]|[? ?]]]]]; discriminate.
Qed.

(** A run is answered all the way, or up to its first LLEN without a length. *)
Lemma answering_split (x0 x : config S heap) :
  reachable token_serve x0 x ->
  reachable answering x0 x \/
  exists y i y', reachable answering x0 y /\ unanswered i y y' /\ reachable token_serve y' x.
Proof using Type.
  intros Hr. induction Hr as [x|x0 x1 x Hstep Hr IH]; [left; apply rtc_refl|].
  destruct Hstep as [i s ts c k r s' Hi Hs]. destruct (decide (llen_fails (Ev c r))) as [Hf|Hf].
  { right. exists (Config s ts), i, (Config s' (<[i := k r]> ts)). split; [apply rtc_refl|].
    split; [|exact Hr]. by exists c, k, r, s'. }
  assert (Hone : step answering (Config s ts) (Config s' (<[i := k r]> ts))).
  { by apply step_call with c; [|split]. }
  destruct IH as [IH|(y & j & y' & Hy & Hu & Hx)].
  - left. by eapply rtc_l.
  - right. exists y, j, y'. split; [by eapply rtc_l|done].
Qed.
End freezing.

(** C9: any number of threads, each at the test at the top of its loop, when fewer than 50
    items are sold and [work_list] has at least as many tokens as items are left.  As long
    as Redis answers the threads' LLEN with a number, no thread ever asks the completion
    queue for an event again, however they are scheduled and however long they run: no
    request is served, no finished worker takes its token back, and the list and the count
    stay as they are.  Every way out is a step in which a thread gets no length from Redis
    (an error, no reply, or a null context); up to it nothing has moved. *)
Theorem throttle_livelock {S : Type} `{TokensLaws S} (s0 : S) (loops : list (nat * heap))
    (x : config S heap) :
  sucNum s0 < 50 -> is_int (work_list s0) -> 50 - sucNum s0 <= work_list s0 ->
  reachable token_serve (Config s0 (loops_of loops)) x ->
  frozen s0 x \/
  exists y i y', reachable token_serve (Config s0 (loops_of loops)) y /\ frozen s0 y /\
    unanswered i y y' /\ reachable token_serve y' x.
Proof.
  intros Hn Hint Hle Hr. destruct (answering_split _ _ Hr) as [Ha|(y & i & y' & Hy & Hu & Hx)].
  - left. by eapply answering_frozen.
  - right. exists y, i, y'. split; [|split; [by eapply answering_frozen|done]].
    eapply reachable_mono; [|exact Hy]. by intros ? ? ? ? ? [].
Qed.

(** The list and the variable, alone: the rest of the services answer as [all_well]. *)
Definition restarted (i : nat) (s : Z * Z) (c : call) : option (ans c * (Z * Z)) :=
  match c return option (ans c * (Z * Z)) with
  | read_successNum => Some (s.2, s)
  | write_successNum z => Some (tt, (s.1, z))
  | redisCommand _ f _ =>
      if String.eqb f "llen %s" then Some (Some (RedisReply REDIS_REPLY_INTEGER s.1 None 0), s)
      else if String.eqb f "LPUSH work_list %s" then Some (Some status_reply, (s.1 + 1, s.2))
      else if String.eqb f "lpop %s" then Some (Some status_reply, (Z.max 0 (s.1 - 1), s.2))
      else Some (answer_redis all_well f, s)
  | c => Some (answer all_well c, s)
  end.

#[export] Instance restarted_tokens : Tokens (Z * Z) | 10 := {|
  token_serve := served_by restarted;
  work_list s := s.1;
  sucNum s := s.2;
|}.
#[export] Instance restarted_laws : TokensLaws (Z * Z).
Proof.
  split; unfold token_serve, work_list, sucNum; cbn; unfold served_by; cbn.
  - by intros i s r s' [= <- <-].
  - intros i s c r s' [= <- <-]. split; [|done]. by intros rep [= <-].
  - by intros i s r s' [= _ <-].
  - by intros i s c r s' [= _ <-].
  - by intros i s c r s' [= _ <-].
Qed.

(** Twenty threads, a thousand turns each, with a worker that waits for a request. *)
Definition twenty_loops : list (nat * heap) := replicate WORKER_NUM (1000%nat, waiting_worker).

(** What has become of them after ten rounds of the scheduler, from a list of 50 tokens. *)
Definition spinning : config (Z * Z) heap :=
  play restarted (mjoin (replicate 10 (seq 0 20))) (Config (50, 0) (loops_of twenty_loops)).

Lemma restarted_answers i s c r s' : served_by restarted i s c r s' -> ~ llen_fails (Ev c r).
Proof.
  destruct c; simpl; try tauto. intros Hs (-> & _ & Hni). apply Hni. injection Hs as <- _. by eexists.
Qed.

Lemma throttle_livelock_witness :
  work_list (shared spinning) = 50 /\ sucNum (shared spinning) = 0 /\
  forall i c k, threads spinning !! i = Some (Vis c k) -> c <> cq_Next.
Proof.
  destruct (throttle_livelock (S:=Z * Z) (50, 0) twenty_loops spinning)
    as [Hf|(y & i & y' & _ & _ & (c & k & r & s' & _ & Hs & Hf & _) & _)].
  - reflexivity.
  - cbn; unfold is_int; lia.
  - cbn; lia.
  - apply play_reachable.
  - exact Hf.
  - exfalso. exact (restarted_answers _ _ _ _ _ Hs Hf).
Defined.

(** ** The last item

    A schedule of [restarted] that ends there without an earlier run's tokens.  Twenty threads
    at the top of their loop, no token in the list, 48 items sold: one of them serves one
    request, which is answered "1", before another makes a call.  Its token is still in the
    list, and one item is left: from then on no thread asks for an event, not even for the
    one that would take the token off.  (On other schedules a second thread has passed the
    test by then and goes on.) *)
Definition before_49 : config (Z * Z) heap := Config (0, 48) (loops_of twenty_loops).

Lemma turn_49 :
  exists ws, solo restarted 0 (HandleRPCS_turn waiting_worker) (0, 48) = Some (ws, (1, 49)).
Proof. eexists. vm_compute. reflexivity. Qed.

Theorem last_item_frozen :
  exists x1, reachable (served_by restarted) before_49 x1 /\
    forall x, reachable (served_by restarted) x1 x -> frozen (S:=Z * Z) (1, 49) x.
Proof.
  destruct turn_49 as [ws Hturn].
  exists (Config (1, 49) (loops_of (<[0%nat := (999%nat, ws)]> twenty_loops))). split.
  - replace (loops_of (<[0%nat := (999%nat, ws)]> twenty_loops))
      with (<[0%nat := HandleRPCS 999 ws]> (loops_of twenty_loops)) by done.
    apply (solo_reachable restarted 0 (HandleRPCS_turn waiting_worker) (HandleRPCS 999)); [|exact Hturn].
    reflexivity.
  - intros x Hx. apply (answering_frozen (S:=Z * Z) (1, 49) (<[0%nat := (999%nat, ws)]> twenty_loops));
      [done|cbn; unfold is_int; lia|done|].
    eapply reachable_mono; [|exact Hx]. intros i s c r s' Hs. split; [exact Hs|].
    by eapply restarted_answers.
Qed.
