(* ===== verification/Lending.v ===== *)
(** * The server's threads and their connections

    [Worker.v] takes connections out of the two pools and puts them back; [MysqlPool.v] and
    [RedisPool.v] are the pools.  Here they meet: any number of threads run the loop of
    [HandleRPCS], interleaved call by call, and the calls for connections are answered by
    pools that keep the promise of [Pool.v].  No connection is ever used by two threads. *)
From Stdlib Require Import ZArith Lia Ascii String.
From stdpp Require Import base tactics numbers strings relations gmap list.
From S2P Require Import Prelude Words Pool MysqlPool RedisPool.
From S2P Require Import CString Prog Threads Worker Ledger WorkerProps WorkerSafety Server ServerProps.

Local Open Scope string_scope.
Local Open Scope prog_scope.
Local Open Scope Z_scope.

(** ** A thread of the server *)

(** The workers are shared by all threads: [seen] is what the thread finds on the heap at
    each turn, whatever the others have put there. *)
Fixpoint thread_turns (seen : list heap) : prog unit :=
  match seen with
  | [] => Ret ()
  | workers :: seen' => do _ <- HandleRPCS_turn workers; thread_turns seen'
  end.

(** ** The protocol of the connections *)

(** A call uses the connections the thread holds, and takes one only if it holds none. *)
Definition custody_pre (og : option custody) (c : call) : Prop :=
  match og with
  | None => False
  | Some g =>
      match c with
      | redis_getOneConnect => redis_held g = None
      | mysql_getOneConnect => mysql_held g = None
      | redis_close c | redisCommand c _ _ | redisFree c => redis_held g = Some c
      | mysql_close c | mysql_query c _ | mysql_use_result c | mysql_autocommit c _
      | mysql_commit c | mysql_rollback c => mysql_held g = Some c
      | _ => True
      end
  end.

(** Between two turns the thread holds nothing. *)
Definition holds_none (og : option custody) : Prop :=
  exists g, og = Some g /\ redis_held g = None /\ mysql_held g = None.

Abbreviation keeps_custody p og Q := (follows custody_pre any_answer track p og Q).
Abbreviation custody_end := (fun og (o : outcome _) => match o with Val _ => holds_none og | UB _ => True end).

Lemma request_keeps rc mc reg fin {A} (p : prog A) (Q : option custody -> outcome A -> Prop) :
  all_calls (request_call rc mc) p ->
  (forall o, Q (Some (Custody (Some rc) (Some mc) reg fin)) o) ->
  keeps_custody p (Some (Custody (Some rc) (Some mc) reg fin)) Q.
Proof.
  intros Hp HQ. apply (follows_all_calls _ _ _ (request_call rc mc)); [| |done|done].
  - intros c. destruct c; try done; cbn; congruence.
  - intros c r. apply track_request_call.
Qed.

(** One call on a connection that is held. *)
Ltac custody_step :=
  split; [try done|intros ? _;
    cbn [track takes_redis takes_mysql redis_held mysql_held registered finished];
    unfold uses_redis, uses_mysql; cbn [redis_held mysql_held];
    rewrite ?decide_True by done; cbn [fmap option_fmap option_map returns_redis returns_mysql
      redis_held mysql_held registered finished]].

Lemma throttle_keeps_custody {A} (f : bool -> prog A) reg fin Q :
  (forall b, keeps_custody (f b) (Some (Custody None None reg fin)) Q) ->
  (forall g why, Q g (UB why)) ->
  keeps_custody (bind throttle f) (Some (Custody None None reg fin)) Q.
Proof.
  intros Hf HQ. unfold throttle. cbn [bind]. custody_step.
  destruct (_ <? 50); cbn [bind]; [|apply Hf]. do 2 custody_step.
  destruct r1 as [rep|]; cbn [bind]; [|by custody_step].
  destruct (type rep =? _); cbn [bind]; [|by custody_step]. do 2 custody_step.
  destruct (_ <=? _); cbn [bind]; by custody_step.
Qed.

Lemma Proceed_keeps_custody this w reg fin :
  keeps_custody (Proceed this w) (Some (Custody None None reg fin)) custody_end.
Proof.
  assert (Hend : forall reg fin, holds_none (Some (Custody None None reg fin))).
  { intros. by eexists. }
  unfold Proceed, Worker_create. destruct (status_ w); cbn [bind].
  - custody_step. apply Hend.
  - do 5 custody_step. cbn [bind]. apply follows_bind.
    apply (follows_mono _ _ _ _ _
      (fun og _ => og = Some (Custody (Some r) (Some r0) (reg ++ [r2])%list fin)));
      [|by apply request_keeps; [apply handle_request_calls|]].
    intros og [s|why]; [|done]. intros ->. cbn [set_response response_]. do 3 custody_step. apply Hend.
  - do 4 custody_step. apply Hend.
Qed.

Lemma turns_keep_custody seen og :
  holds_none og -> keeps_custody (thread_turns seen) og custody_end.
Proof.
  revert og. induction seen as [|ws seen IH]; intros og Hog; [done|]. cbn [thread_turns].
  apply follows_bind.
  eapply (follows_mono _ _ _ _ _ custody_end); [intros g [h|why]; [apply IH|done]|].
  destruct Hog as ([rh mh reg fin] & -> & Hr & Hm). cbn in Hr, Hm. subst rh mh.
  unfold HandleRPCS_turn. apply throttle_keeps_custody; [|done]. intros go.
  destruct go; cbn [negb]; [|by eexists]. custody_step.
  destruct (negb (got_event r)); [done|]. destruct (negb (ok r)); [done|].
  destruct (ws !! tag r) as [w|]; [|done]. apply follows_bind.
  eapply follows_mono; [|apply Proceed_keeps_custody]. by intros g [a|why].
Qed.

(** ** What the pools promise *)

(** The connections that are out of the pools. *)
Class Lending (S : Type) := {
  lend_ok : S -> Prop;
  lent_redis : S -> gset conn;
  lent_mysql : S -> gset conn;
}.

Definition grown (r : option conn) (l l' : gset conn) : Prop :=
  match r with Some c => (c ∉ l) /\ l' = {[ c ]} ∪ l | None => l' = l end.
Definition shrunk (r : option conn) (l l' : gset conn) : Prop :=
  match r with Some c => l' = l ∖ {[ c ]} | None => l' = l end.

Definition lending_view (c : call) : ans c -> gset conn * gset conn -> gset conn * gset conn -> Prop :=
  match c return ans c -> _ -> _ -> Prop with
  | redis_getOneConnect => fun r l l' => grown r l.1 l'.1 /\ l'.2 = l.2
  | redis_close c => fun _ l l' => shrunk c l.1 l'.1 /\ l'.2 = l.2
  | mysql_getOneConnect => fun r l l' => l'.1 = l.1 /\ grown r l.2 l'.2
  | mysql_close c => fun _ l l' => l'.1 = l.1 /\ shrunk c l.2 l'.2
  | _ => fun _ l l' => l'.1 = l.1 /\ l'.2 = l.2
  end.

Definition lent {S} `{Lending S} (s : S) : gset conn * gset conn := (lent_redis s, lent_mysql s).

(** A connection is put back by one who has taken it. *)
Definition polite {S} `{Lending S} (s : S) (c : call) : Prop :=
  match c with
  | redis_close (Some c) => c ∈ lent_redis s
  | mysql_close (Some c) => c ∈ lent_mysql s
  | _ => True
  end.

Class LendingLaws (S : Type) `{ServerState S, Lending S} := {
  lend_law i s c r s' : lend_ok s -> polite s c -> serve_call i s c r s' ->
    lend_ok s' /\ lending_view c r (lent s) (lent s');
}.

(** ** The invariant *)

Definition hand (held : custody -> option (option conn)) (og : option custody) : option conn :=
  match og with Some g => mjoin (held g) | None => None end.
Abbreviation redis_hand := (hand redis_held).
Abbreviation mysql_hand := (hand mysql_held).

(** What the threads hold is out of the pool, and no two hold the same. *)
Definition apart (held : custody -> option (option conn)) (l : gset conn)
    (gs : list (option custody)) : Prop :=
  (forall i g c, gs !! i = Some g -> hand held g = Some c -> c ∈ l) /\
  (forall i j g g' c, gs !! i = Some g -> gs !! j = Some g' ->
     hand held g = Some c -> hand held g' = Some c -> i = j).

Lemma apart_insert held l l' gs i g g' :
  apart held l gs -> gs !! i = Some g ->
  (forall c, hand held g' = Some c -> c ∈ l' /\ (hand held g = Some c \/ (c ∉ l))) ->
  (forall c, c ∈ l -> hand held g <> Some c -> c ∈ l') ->
  apart held l' (<[i := g']> gs).
Proof.
  intros [Hin Hne] Hi Hg' Hl. pose proof (lookup_lt_Some _ _ _ Hi) as Hlt.
  assert (Hother : forall k gk c, k <> i -> gs !! k = Some gk -> hand held gk = Some c ->
    hand held g <> Some c).
  { intros k gk c Hk Hgk Hc Hgc. apply Hk. by apply (Hne k i gk g c). }
  split.
  - intros k gk c [[-> ->]|[Hk Hgk]]%insert_cases Hc; [by apply Hg'|].
    apply Hl; [by apply (Hin k gk)|by apply (Hother k gk)].
  - intros k k' gk gk' c [[-> ->]|[Hk Hgk]]%insert_cases [[-> ->]|[Hk' Hgk']]%insert_cases Hc Hc'; try done.
    + destruct (Hg' c Hc) as [_ [Hgc|Hnl]]; [by apply (Hne i k' g gk' c)|].
      destruct Hnl. by apply (Hin k' gk').
    + destruct (Hg' c Hc') as [_ [Hgc|Hnl]]; [by apply (Hne k i gk g c)|].
      destruct Hnl. by apply (Hin k gk).
    + by apply (Hne k k' gk gk' c).
Qed.

(** The ways a hand changes. *)
Lemma apart_same held l gs i g g' :
  apart held l gs -> gs !! i = Some g -> hand held g' = hand held g -> apart held l (<[i := g']> gs).
Proof.
  intros Ha Hi Hg. apply (apart_insert held l l gs i g); [done|done| |done].
  intros c. rewrite Hg. intros Hc. split; [by apply (proj1 Ha i g)|by left].
Qed.

Lemma apart_take held l l' gs i g g' :
  apart held l gs -> gs !! i = Some g -> grown (hand held g') l l' -> apart held l' (<[i := g']> gs).
Proof.
  intros Ha Hi Hg. unfold grown in Hg.
  apply (apart_insert held l l' gs i g); [done|done|..]; destruct (hand held g') as [c|].
  - destruct Hg as [Hc ->]. intros ? [= <-]. split; [set_solver|by right].
  - done.
  - destruct Hg as [_ ->]. set_solver.
  - by subst.
Qed.

Lemma apart_put held l l' gs i g g' :
  apart held l gs -> gs !! i = Some g -> hand held g' = None ->
  shrunk (hand held g) l l' \/ l' = l -> apart held l' (<[i := g']> gs).
Proof.
  intros Ha Hi Hg Hl. apply (apart_insert held l l' gs i g); [done|done|by rewrite Hg|].
  intros c Hc Hne. destruct Hl as [Hl| ->]; [|done]. unfold shrunk in Hl.
  destruct (hand held g) as [c'|]; [|by subst]. rewrite Hl. apply elem_of_difference.
  split; [done|]. intros ->%elem_of_singleton. by apply Hne.
Qed.

(** The connection a call is about. *)
Definition redis_used (c : call) : option conn :=
  match c with redisCommand c _ _ | redis_close c | redisFree c => c | _ => None end.
Definition mysql_used (c : call) : option conn :=
  match c with
  | mysql_query c _ | mysql_use_result c | mysql_autocommit c _ | mysql_commit c
  | mysql_rollback c | mysql_close c => c
  | _ => None
  end.

Lemma custody_pre_used og c n :
  custody_pre og c ->
  (redis_used c = Some n -> redis_hand og = Some n) /\ (mysql_used c = Some n -> mysql_hand og = Some n).
Proof.
  destruct og as [g|]; [|done]. destruct c; cbn; try done;
    (intros ->; split; [try done|try done]; intros ->; done).
Qed.

Section system.
Context {S : Type} `{LendingLaws S}.

Record custody_inv (s : S) (gs : list (option custody)) : Prop := CustodyInv {
  ci_ok : lend_ok s;
  ci_redis : apart redis_held (lent_redis s) gs;
  ci_mysql : apart mysql_held (lent_mysql s) gs;
}.

Lemma custody_polite s gs i g c :
  custody_inv s gs -> gs !! i = Some g -> custody_pre g c -> polite s c.
Proof using Type.
  intros [_ [Hr _] [Hm _]] Hi Hpre. destruct g as [g|]; [|done].
  destruct c; try done; destruct c as [c|]; try done; cbn in Hpre |- *.
  - apply (Hr i (Some g)); [done|]. cbn. by rewrite Hpre.
  - apply (Hm i (Some g)); [done|]. cbn. by rewrite Hpre.
Qed.

Lemma custody_inv_step i s gs g c r s' :
  custody_inv s gs -> gs !! i = Some g -> custody_pre g c -> serve_call i s c r s' ->
  any_answer g c r /\ custody_inv s' (<[i := track g (Ev c r)]> gs).
Proof using All.
  intros Hinv Hi Hpre Hserve. split; [done|].
  pose proof (custody_polite s gs i g c Hinv Hi Hpre) as Hpol. destruct Hinv as [Hok Hr Hm].
  destruct (lend_law i s c r s' Hok Hpol Hserve) as [Hok' Hview].
  destruct g as [g|]; [|done].
  destruct c; cbn in Hpre, Hview; cbn [track]; unfold takes_redis, takes_mysql, uses_redis, uses_mysql;
    rewrite ?Hpre, ?decide_True by done; destruct Hview as [Hv1 Hv2];
    (split; [done|..]); rewrite ?Hv1, ?Hv2;
    first [ by apply (apart_same _ _ _ _ (Some g))
          | by apply (apart_take _ (lent_redis s) _ _ _ (Some g))
          | by apply (apart_take _ (lent_mysql s) _ _ _ (Some g))
          | apply (apart_put _ (lent_redis s) _ _ _ (Some g)); [done..|cbn; rewrite ?Hpre; auto]
          | apply (apart_put _ (lent_mysql s) _ _ _ (Some g)); [done..|cbn; rewrite ?Hpre; auto] ].
Qed.

Lemma threads_custody (s0 : S) (seens : list (list heap)) x :
  lend_ok s0 -> reachable serve_call (Config s0 (map thread_turns seens)) x ->
  inv custody_pre any_answer track custody_end custody_inv x.
Proof using All.
  intros Hok Hr. eapply (inv_reachable serve_call); [| |exact Hr].
  { intros. by eapply custody_inv_step. }
  exists (replicate (List.length seens) (Some (Custody None None [] []))). split.
  - assert (Hnone : forall held l, (forall g, g = Custody None None [] [] -> held g = None) ->
      apart held l (replicate (List.length seens) (Some (Custody None None [] [])))).
    { intros held l Hh. split.
      - intros i g c [-> _]%lookup_replicate. cbn. by rewrite Hh.
      - intros i j g g' c [-> _]%lookup_replicate _. cbn. by rewrite Hh. }
    split; [done|apply Hnone..]; by intros g ->.
  - cbn [threads]. clear Hr. induction seens as [|seen seens IH]; constructor; [|exact IH].
    apply turns_keep_custody. by eexists.
Qed.

(** Any number of threads of the server, each making any number of turns of [HandleRPCS]
    on whatever workers it finds, over pools that lend each connection once: two threads are
    never about to use the same Redis context or the same MySQL connection, whatever the
    interleaving, the workers and the answers; and a connection in use is out of its pool. *)
Theorem threads_exclusive (s0 : S) (seens : list (list heap)) (x : config S unit) :
  lend_ok s0 -> reachable serve_call (Config s0 (map thread_turns seens)) x ->
  (forall i j c c' k k' n,
     threads x !! i = Some (Vis c k) -> threads x !! j = Some (Vis c' k') ->
     redis_used c = Some n /\ redis_used c' = Some n \/ mysql_used c = Some n /\ mysql_used c' = Some n ->
     i = j) /\
  (forall i c k n, threads x !! i = Some (Vis c k) ->
     (redis_used c = Some n -> n ∈ lent_redis (shared x)) /\
     (mysql_used c = Some n -> n ∈ lent_mysql (shared x))).
Proof using All.
  intros Hok Hr. destruct (threads_custody s0 seens x Hok Hr) as (gs & [_ [Hri Hrd] [Hmi Hmd]] & Hts).
  assert (Hg : forall i c k, threads x !! i = Some (Vis c k) -> exists g, gs !! i = Some g /\ custody_pre g c).
  { intros i c k Hi. destruct (Forall2_lookup_l _ _ _ _ _ Hts Hi) as (g & Hg & [Hpre _]). eauto. }
  split.
  - intros i j c c' k k' n (g & Hgi & Hpre)%Hg (g' & Hgj & Hpre')%Hg.
    destruct (custody_pre_used g c n Hpre), (custody_pre_used g' c' n Hpre').
    intros [[? ?]|[? ?]]; [eapply Hrd|eapply Hmd]; eauto.
  - intros i c k n (g & Hgi & Hpre)%Hg. destruct (custody_pre_used g c n Hpre).
    split; intros Hn; [eapply Hri|eapply Hmi]; eauto.
Qed.
End system.

(** ** The two pools keep the promise *)

Definition lend_out (r : option conn) (out : gset conn) : gset conn :=
  match r with Some c => {[ c ]} ∪ out | None => out end.
Definition take_back (r : option conn) (out : gset conn) : gset conn :=
  match r with Some c => out ∖ {[ c ]} | None => out end.

Lemma owns_get {P D} `{PoolLaws P D} (p : P) (d : D) out r p' d' :
  pool_owns p d (base.elements out) -> pool_get p d = Some (r, p', d') ->
  pool_owns p' d' (base.elements (lend_out r out)) /\ grown r out (lend_out r out).
Proof.
  intros Hown Hget. pose proof (get_owns _ _ _ _ _ _ Hown Hget) as Hown'.
  destruct r as [c|]; [|by split]. cbn in Hown'.
  assert (Hc : (c ∉ out)).
  { destruct Hown' as [Hnd _]. apply NoDup_app in Hnd as (_ & _ & Hnd).
    apply NoDup_cons in Hnd as [Hc _]. by rewrite elem_of_elements in Hc. }
  split; [|by split]. cbn. by rewrite elements_union_singleton.
Qed.

Lemma owns_put {P D} `{PoolLaws P D} (p : P) (d : D) out r p' :
  pool_owns p d (base.elements out) -> (forall c, r = Some c -> c ∈ out) -> pool_put r p = Some p' ->
  pool_owns p' d (base.elements (take_back r out)) /\ shrunk r out (take_back r out).
Proof.
  intros Hown Hin Hput. split; [|by destruct r]. apply (put_owns p d _ r); [|done].
  destruct r as [c|]; [|done]. specialize (Hin c eq_refl). cbn [option_list take_back app].
  assert (Hp : c :: base.elements (out ∖ {[c]}) ≡ₚ base.elements out).
  { rewrite <- (elements_union_singleton (out ∖ {[c]}) c) by set_solver.
    by rewrite <- union_difference_singleton_L. }
  by rewrite Hp.
Qed.

(** A thread waits for [poollock] when the operation gives [None]; every other call may be
    answered in any way. *)
Section pools.
Context {P1 D1 P2 D2 : Type} `{PoolLaws P1 D1, PoolLaws P2 D2}.

Record pools := Pools {
  redis_pool : P1;
  redis_driver : D1;
  redis_out : gset conn;
  mysql_pool : P2;
  mysql_driver : D2;
  mysql_out : gset conn;
}.

Definition pools_fn (s : pools) (c : call) : option (ans c * pools) :=
  let '(Pools rp rd ro mp md mo) := s in
  match c return option (ans c * pools) with
  | redis_getOneConnect =>
      '(r, p, d) ← pool_get rp rd; Some (r, Pools p d (lend_out r ro) mp md mo)
  | redis_close c =>
      p ← pool_put c rp; Some (tt, Pools p rd (take_back c ro) mp md mo)
  | mysql_getOneConnect =>
      '(r, p, d) ← pool_get mp md; Some (r, Pools rp rd ro p d (lend_out r mo))
  | mysql_close c =>
      p ← pool_put c mp; Some (tt, Pools rp rd ro p md (take_back c mo))
  | _ => None
  end.

Definition is_pool_call (c : call) : bool :=
  match c with
  | redis_getOneConnect | redis_close _ | mysql_getOneConnect | mysql_close _ => true
  | _ => false
  end.

Definition pools_serve (s : pools) (c : call) (r : ans c) (s' : pools) : Prop :=
  if is_pool_call c then pools_fn s c = Some (r, s') else s' = s.

#[export] Instance pools_state : ServerState pools := fun i => pools_serve.

(** With an answer to each of the other calls, it runs. *)
Definition pools_with (rest : nat -> forall c, ans c) (i : nat) (s : pools) (c : call)
    : option (ans c * pools) :=
  if is_pool_call c then pools_fn s c else Some (rest i c, s).

#[export, refine] Instance pools_lending : Lending pools := {|
  lend_ok s := pool_owns (redis_pool s) (redis_driver s) (base.elements (redis_out s)) /\
    pool_owns (mysql_pool s) (mysql_driver s) (base.elements (mysql_out s));
  lent_redis := redis_out;
  lent_mysql := mysql_out;
|}.
Proof. Defined.

#[export] Instance pools_laws : LendingLaws pools.
Proof using All.
  split. intros i s c r s' [Hr Hm] Hpol Hs. destruct s as [rp rd ro mp md mo].
  cbn in Hr, Hm. unfold lend_ok, lent. cbn. unfold serve_call, pools_state, pools_serve in Hs.
  destruct c; cbn in Hs, Hpol; try (by subst s').
  - destruct (pool_get rp rd) as [[[r1 p] d]|] eqn:Hg; [|done]. cbn in Hs. injection Hs as <- <-.
    destruct (owns_get _ _ _ _ _ _ Hr Hg). by split.
  - destruct (pool_put c rp) as [p|] eqn:Hg; [|done]. cbn in Hs. injection Hs as _ <-.
    destruct (owns_put _ _ _ c _ Hr ltac:(by destruct c; intros ? [= <-]) Hg). by split.
  - destruct (pool_get mp md) as [[[r1 p] d]|] eqn:Hg; [|done]. cbn in Hs. injection Hs as <- <-.
    destruct (owns_get _ _ _ _ _ _ Hm Hg). by split.
  - destruct (pool_put c mp) as [p|] eqn:Hg; [|done]. cbn in Hs. injection Hs as _ <-.
    destruct (owns_put _ _ _ c _ Hm ltac:(by destruct c; intros ? [= <-]) Hg). by split.
Qed.

Lemma pools_with_serve rest i s c r s' :
  served_by (pools_with rest) i s c r s' -> serve_call i s c r s'.
Proof.
  unfold served_by, pools_with, serve_call, pools_state, pools_serve.
  destruct (is_pool_call c); [done|]. by intros [= _ <-].
Qed.
End pools.
Arguments pools : clear implicits.
Arguments Pools {P1 D1 P2 D2}.

(** ** Two threads with a worker each *)

Definition server_pools : Type := pools RedisPool (gset conn) MysqlPool RefDriver.t.

Definition fresh_pools : server_pools :=
  Pools (RedisPool.fresh_pool REDIS_ADDRESS REDIS_PORT REDIS_MAX_CONNECTCOUNT 0 0) ∅ ∅
    (MysqlPool.fresh_pool demo_params MYSQL_MAX_CONNECTCOUNT 0 0) RefDriver.start ∅.

(** The completion queue gives thread [i] the event of worker [i + 1]. *)
Definition two_workers : heap := <[1%positive := MkWorker PROCESS "" "" ""]>
  {[2%positive := MkWorker PROCESS "" "" ""]}.
Definition each_its_worker (i : nat) (c : call) : ans c :=
  match c return ans c with
  | cq_Next => Completion true (Pos.of_succ_nat i) true (Some ("u", "k"))
  | c => answer idle_server c
  end.

(** Where they are after [n] calls each. *)
Definition two_threads (n : nat) : config server_pools unit :=
  play (pools_with each_its_worker) (mjoin (replicate n [0; 1]%nat))
    (Config fresh_pools (map thread_turns [[two_workers]; [two_workers]])).

Definition next_redis (p : prog unit) : option conn :=
  match p with Vis c _ => redis_used c | _ => None end.

Example two_threads_contexts :
  next_redis <$> threads (two_threads 13) = [Some 1%positive; Some 2%positive] /\
  idle (redis_pool (shared (two_threads 60))) = [1; 2]%positive.
Proof. vm_compute. done. Qed.

Lemma fresh_pools_ok : lend_ok fresh_pools.
Proof. split; (split; [apply NoDup_nil_2|intros c Hc; by apply elem_of_nil in Hc]). Qed.

Lemma threads_exclusive_witness :
  next_redis <$> threads (two_threads 13) = [Some 1%positive; Some 2%positive] /\
  forall i j c c' k k' n,
    threads (two_threads 13) !! i = Some (Vis c k) -> threads (two_threads 13) !! j = Some (Vis c' k') ->
    redis_used c = Some n /\ redis_used c' = Some n \/ mysql_used c = Some n /\ mysql_used c' = Some n ->
    i = j.
Proof.
  split; [apply two_threads_contexts|].
  refine (proj1 (threads_exclusive fresh_pools [[two_workers]; [two_workers]] (two_threads 13) _ _)).
  - exact fresh_pools_ok.
  - apply (reachable_mono (served_by (pools_with each_its_worker))); [|apply play_reachable].
    intros i s c r s'. apply pools_with_serve.
Defined.
