(* ===== verification/Tickets.v ===== *)
(** * Redis gives out no more items than it was given

    [total_count] in Redis is the front counter of the sale: a request takes one item off
    it in an optimistic transaction before it goes to MySQL, and what MySQL refuses is
    counted in [failedCount] and put back later.  Here any number of threads of the server
    run over one Redis, which is a parameter: what its manual says of WATCH, MULTI and EXEC,
    and hiredis's of a context that has failed, is assumed. *)
From Stdlib Require Import ZArith Lia Ascii String.
From stdpp Require Import base tactics numbers strings relations gmap list.
From S2P Require Import Prelude Words Pool CString Prog Threads Worker Ledger WorkerProps.
From S2P Require Import WorkerSafety Server ServerProps Lending.

Local Open Scope string_scope.
Local Open Scope prog_scope.
Local Open Scope Z_scope.

(** ** What is assumed of Redis *)

(** The commands that concern [total_count]. *)
Inductive command :=
| Watch | Get | Multi | Decr | Exec | Unwatch | SetCount (n : Z) | Other.

Definition command_of (f : string) (args : list string) : command :=
  if String.eqb f "WATCH %s" then Watch
  else if String.eqb f "GET %s" then Get
  else if String.eqb f "MULTI" then Multi
  else if String.eqb f "DECR %s" then Decr
  else if String.eqb f "EXEC" then Exec
  else if String.eqb f "UNWATCH" then Unwatch
  else if String.eqb f "SET total_count %s" then
    match args with [s] => SetCount (atoi_value s) | _ => Other end
  else if String.eqb f "SET %s %s" then
    match args with
    | [k; s] => if String.eqb k "total_count" then SetCount (atoi_value s) else Other
    | _ => Other
    end
  else Other.

(** The count; the connections that watch it, and those of them for which it has been
    written since; the commands queued on a connection between MULTI and EXEC; the
    contexts hiredis has given up; the sum of the counts that were written by a command
    whose reply was lost; [failedCount] and the thread that has its lock; and how many
    requests have been answered "1". *)
Record redis_view := RedisView {
  total : Z;
  watching : gset conn;
  stale : gset conn;
  queued : gmap conn (list command);
  broken : gset conn;
  unconfirmed : Z;
  failed_count : Z;
  owner : option nat;
  answered : Z;
}.

Definition set_total (n : Z) (v : redis_view) : redis_view :=
  {| total := n; watching := watching v; stale := stale v ∪ watching v; queued := queued v;
     broken := broken v; unconfirmed := unconfirmed v; failed_count := failed_count v;
     owner := owner v; answered := answered v |}.
Definition set_watch (w s : gset conn) (v : redis_view) : redis_view :=
  {| total := total v; watching := w; stale := s; queued := queued v; broken := broken v;
     unconfirmed := unconfirmed v; failed_count := failed_count v; owner := owner v; answered := answered v |}.
Definition unwatch (i : conn) (v : redis_view) : redis_view :=
  set_watch (watching v ∖ {[ i ]}) (stale v ∖ {[ i ]}) v.
Definition set_queued (q : gmap conn (list command)) (v : redis_view) : redis_view :=
  {| total := total v; watching := watching v; stale := stale v; queued := q;
     broken := broken v; unconfirmed := unconfirmed v; failed_count := failed_count v;
     owner := owner v; answered := answered v |}.
Definition back_out (i : conn) (v : redis_view) : redis_view :=
  {| total := total v; watching := watching v; stale := stale v; queued := queued v;
     broken := {[ i ]} ∪ broken v; unconfirmed := unconfirmed v;
     failed_count := failed_count v; owner := owner v; answered := answered v |}.
Definition add_unconfirmed (n : Z) (v : redis_view) : redis_view :=
  {| total := total v; watching := watching v; stale := stale v; queued := queued v;
     broken := broken v; unconfirmed := unconfirmed v + n; failed_count := failed_count v;
     owner := owner v; answered := answered v |}.
Definition set_failed (n : Z) (v : redis_view) : redis_view :=
  {| total := total v; watching := watching v; stale := stale v; queued := queued v;
     broken := broken v; unconfirmed := unconfirmed v; failed_count := n; owner := owner v;
     answered := answered v |}.
Definition set_owner (o : option nat) (v : redis_view) : redis_view :=
  {| total := total v; watching := watching v; stale := stale v; queued := queued v;
     broken := broken v; unconfirmed := unconfirmed v; failed_count := failed_count v;
     owner := o; answered := answered v |}.

Definition add_answered (n : Z) (v : redis_view) : redis_view :=
  {| total := total v; watching := watching v; stale := stale v; queued := queued v;
     broken := broken v; unconfirmed := unconfirmed v; failed_count := failed_count v;
     owner := owner v; answered := answered v + n |}.

(** A command outside a transaction, or run by EXEC. *)
Definition run_command (v : redis_view) (c : command) : redis_view :=
  match c with
  | Decr => set_total (total v - 1) v
  | SetCount n => set_total n v
  | _ => v
  end.

(** A command of connection [i] that Redis accepts: queued in a transaction, which EXEC
    runs at once unless the watched count has been written, and run otherwise. *)
Definition apply (i : conn) (c : command) (v : redis_view) : redis_view :=
  match queued v !! i with
  | Some q =>
      match c with
      | Exec =>
          let w := unwatch i (set_queued (delete i (queued v)) v) in
          if decide (i ∈ stale v) then w else foldl run_command w q
      | Watch | Multi => v
      | _ => set_queued (<[i := (q ++ [c])%list]> (queued v)) v
      end
  | None =>
      match c with
      | Watch => set_watch ({[ i ]} ∪ watching v) (stale v) v
      | Unwatch => unwatch i v
      | Multi => set_queued (<[i := []]> (queued v)) v
      | _ => run_command v c
      end
  end.

(** A command that is answered with an error does nothing; a failed EXEC ends the
    transaction. *)
Definition refuse (i : conn) (c : command) (v : redis_view) : redis_view :=
  match queued v !! i, c with
  | Some _, Exec => unwatch i (set_queued (delete i (queued v)) v)
  | _, _ => v
  end.

(** The reply to a command that Redis accepts.  WATCH and MULTI are not accepted inside a
    transaction, EXEC not outside. *)
Definition reply_fits (i : conn) (c : command) (rep : redisReply) (v : redis_view) : Prop :=
  match queued v !! i with
  | Some q =>
      match c with
      | Exec =>
          if decide (i ∈ stale v) then type rep = REDIS_REPLY_NIL
          else type rep = REDIS_REPLY_ARRAY /\ elements rep = Z.of_nat (List.length q)
      | Watch | Multi => False
      | _ => type rep = REDIS_REPLY_STATUS /\ str rep = Some "QUEUED"
      end
  | None =>
      match c with
      | Watch | Multi | Unwatch | SetCount _ =>
          type rep = REDIS_REPLY_STATUS /\ str rep = Some "OK"
      | Get => forall n, c_atoi (str rep) = Ret n -> 0 < n -> n = total v
      | Exec => False
      | _ => True
      end
  end.

(** The text of an error begins with its kind, a word in upper case. *)
Definition error_text (rep : redisReply) : Prop :=
  exists c s, str rep = Some (String c s) /\ 65 <= char_code c <= 90.

(** A command whose reply is lost may have been run. *)
Definition lost (i : conn) (c : command) (v : redis_view) : redis_view :=
  add_unconfirmed (match c with SetCount n => Z.max 0 n | _ => 0 end) (apply i c v).

(** One command on connection [i].  Without a reply the context is of no use any more:
    every later command on it has no reply and no effect. *)
Definition redis_effect (i : conn) (c : command) (r : option redisReply) (v v' : redis_view) : Prop :=
  if decide (i ∈ broken v) then r = None /\ v' = v else
  match r with
  | None => exists w, (w = v \/ w = lost i c v) /\ v' = back_out i w
  | Some rep =>
      if type rep =? REDIS_REPLY_ERROR then error_text rep /\ v' = refuse i c v
      else reply_fits i c rep v /\ v' = apply i c v
  end.

(** What one call of thread [i] does to the view: a Redis command; the lock, which one
    thread holds at a time; the variable; a response that is sent. *)
Definition tickets_view (i : nat) (c : call) : ans c -> redis_view -> redis_view -> Prop :=
  match c return ans c -> redis_view -> redis_view -> Prop with
  | redisCommand (Some n) f args => fun r v v' => redis_effect n (command_of f args) r v v'
  | rwlock_wrlock => fun _ v v' => owner v = None /\ v' = set_owner (Some i) v
  | rwlock_unlock => fun _ v v' => v' = set_owner None v
  | read_failedCount => fun z v v' => z = failed_count v /\ v' = v
  | write_failedCount z => fun _ v v' => v' = set_failed z v
  | Finish _ s => fun _ v v' => v' = add_answered (b2z (String.eqb s "1")) v
  | _ => fun _ v v' => v' = v
  end.

Class Counter (S : Type) := redis_of : S -> redis_view.
Class CounterLaws (S : Type) `{ServerState S, Counter S} :=
  counter_law i s c r s' : serve_call i s c r s' -> tickets_view i c r (redis_of s) (redis_of s').

(** ** The protocol of a thread *)

Inductive stage :=
| Free                                  (* nothing begun *)
| Watching                              (* WATCH was answered OK *)
| Counted (n : Z)                       (* and GET showed [n] > 0 *)
| Queueing (n : Z) (sent : list command) (* MULTI was answered OK; sent since *)
| Ticket                                (* EXEC took one item off the count *)
| TicketLocked                          (* with it, the lock of [failedCount] *)
| TicketRead (f : Z)                    (* and its value *)
| Locked                                (* the lock, nothing left in Redis *)
| LockedRead (f : Z)                    (* and the value of [failedCount] *)
| Moved (f : Z)                         (* which has been put into Redis *)
| Leaving                               (* [failedCount] is written *)
| Won.                                  (* committed, not yet answered *)

Definition stage_pre (g : stage) (c : call) : Prop :=
  match c with
  | redisCommand (Some _) f args =>
      match command_of f args, g with
      | Watch, Free | Get, (Free | Watching) | Multi, Counted _ | Unwatch, Free => True
      | Decr, Queueing _ [] | Exec, Queueing _ [Decr; Other] => True
      | SetCount _, LockedRead f => args = [to_string f]
      | Other, (Free | Ticket | Won | Queueing _ [Decr]) => True
      | _, _ => False
      end
  | redisCommand None _ _ => False
  | redis_getOneConnect | redis_close _ => g = Free \/ g = Ticket \/ g = Won
  | redisFree _ => False
  | rwlock_wrlock => g = Free \/ g = Ticket
  | rwlock_unlock => match g with LockedRead _ | Leaving => True | _ => False end
  | read_failedCount => match g with Locked | TicketLocked | LockedRead _ => True | _ => False end
  | write_failedCount z =>
      match g with TicketRead f => z = f + 1 | Moved _ => z = 0 | _ => False end
  | mysql_commit _ => g = Ticket
  | Finish _ s => (g = Free \/ g = Ticket \/ g = Won) /\ (s = "1" -> g = Won)
  | _ => True
  end.

(** [is_OK] answers true. *)
Definition ok_reply (r : option redisReply) : bool :=
  match is_OK r with Ret b => b | _ => false end.

(** The count a reply to GET shows, if it is positive. *)
Definition positive_count (r : option redisReply) : option Z :=
  match r with
  | Some rep => match c_atoi (str rep) with Ret n => if 0 <? n then Some n else None | _ => None end
  | None => None
  end.

Definition redis_stage (g : stage) (c : command) (r : option redisReply) : stage :=
  match c, g with
  | Watch, _ => if ok_reply r then Watching else Free
  | Get, Watching => match positive_count r with Some n => Counted n | None => Free end
  | Multi, Counted n => if ok_reply r then Queueing n [] else Free
  | Decr, Queueing n [] => Queueing n [Decr]
  | Other, Queueing n [Decr] => Queueing n [Decr; Other]
  | Exec, _ => if exec_committed r then Ticket else Free
  | SetCount _, LockedRead f => if ok_reply r then Moved f else LockedRead f
  | _, _ => g
  end.

Definition stage_upd (g : stage) (e : event) : stage :=
  let '(Ev c r) := e in
  match c return ans c -> stage with
  | redisCommand (Some _) f args => fun r => redis_stage g (command_of f args) r
  | rwlock_wrlock => fun _ => match g with Ticket => TicketLocked | _ => Locked end
  | rwlock_unlock => fun _ => Free
  | read_failedCount => fun f =>
      match g with
      | Locked | LockedRead _ => LockedRead f
      | TicketLocked => TicketRead f
      | _ => g
      end
  | write_failedCount _ => fun _ => Leaving
  | mysql_commit _ => fun _ => Won
  | Finish _ _ => fun _ => Free
  | _ => fun _ => g
  end r.

(** The pool gives a context. *)
Definition stage_ok (g : stage) (c : call) : ans c -> Prop :=
  match c return ans c -> Prop with
  | redis_getOneConnect => fun r => r <> None
  | _ => fun _ => True
  end.

Abbreviation follows_stages p g Q := (follows stage_pre stage_ok stage_upd p g Q).

(** *** Every turn follows it *)

Definition stage_end (g : stage) (o : outcome string) : Prop :=
  match o with
  | Val s => (g = Free \/ g = Ticket \/ g = Won) /\ (s = "1" -> g = Won)
  | UB _ => True
  end.

(** The calls that mean nothing to the protocol, in a stage where nothing is under way. *)
Definition bystander (c : call) : Prop :=
  match c with
  | redisCommand (Some _) f args => command_of f args = Other
  | redisCommand None _ _ | redis_getOneConnect | redis_close _ | redisFree _
  | rwlock_wrlock | rwlock_unlock | read_failedCount | write_failedCount _
  | mysql_commit _ | Finish _ _ => False
  | _ => True
  end.

Definition quiet_stage (g : stage) : Prop := g = Free \/ g = Ticket \/ g = Won.

Lemma bystander_pre g c : quiet_stage g -> bystander c -> stage_pre g c.
Proof.
  intros Hg Hc. destruct c; try done. destruct c as [c|]; [|done]. cbn in *. rewrite Hc.
  by destruct Hg as [->|[->| ->]].
Qed.

Lemma bystander_upd g c r : quiet_stage g -> bystander c -> stage_upd g (Ev c r) = g.
Proof.
  intros Hg Hc. destruct c; try done. destruct c as [c|]; [|done]. cbn in *. rewrite Hc.
  by destruct Hg as [->|[->| ->]].
Qed.

Lemma bystanders {A} (p : prog A) g (Q : stage -> outcome A -> Prop) :
  quiet_stage g -> all_calls bystander p -> (forall o, Q g o) -> follows_stages p g Q.
Proof.
  intros Hg. apply follows_all_calls; intros; by (apply bystander_pre || apply bystander_upd).
Qed.

(** One call whose place in the protocol is plain. *)
Ltac stage_step :=
  split; [try done; try (by left); try (by right); try (by right; left); try (by right; right)|
    let r := fresh "r" in intros r ?; cbn [stage_upd redis_stage]; cbn beta iota].

Lemma finish_stages c (isSuc : bool) :
  follows_stages
    (do response <-
      (if negb isSuc then
         mysql_rollback c;;! rwlock_wrlock;;! let! failedCount := read_failedCount in
         write_failedCount (failedCount + 1);;! rwlock_unlock;;! Ret "0"
       else
         mysql_commit c;;!
         let response := "1" in
         let! successNum := read_successNum in
         write_successNum (successNum + 1);;! Ret response);
     let! _c := mysql_autocommit c ON in Ret response) Ticket stage_end.
Proof.
  destruct isSuc; cbn [negb bind].
  - do 4 stage_step. split; [by right; right|done].
  - do 6 stage_step. split; [by left|done].
Qed.

Lemma seckillGoods_mysql_stages u k c r :
  follows_stages (seckillGoods_mysql u k c r) Ticket stage_end.
Proof.
  unfold seckillGoods_mysql, select_goods, free_result, sprintf.
  destruct (not_null_conn_cases c) as [->| ->]; [cbn [bind]|done]. stage_step. cbn [bind].
  assert (Hdrop : follows_stages (let response := "0" in let! _b := mysql_autocommit c ON in Ret response)
    Ticket stage_end).
  { stage_step. by split; [right; left|]. }
  stage_step. destruct (negb (r1 =? 0)); cbn [bind]; [apply Hdrop|].
  do 2 stage_step. apply follows_bind.
  assert (Hbuy : forall isSuc n, follows_stages
    (do updateSql <- sprintf 200 (updateSql n);
     let! e1 := mysql_query c updateSql in
     let isSuc := if e1 =? 0 then isSuc else false in
     do insertOSql <- sprintf 200 (insertOSql u k);
     let! e2 := mysql_query c insertOSql in
     let isSuc := if e2 =? 0 then isSuc else false in
     do response <-
      (if negb isSuc then
         mysql_rollback c;;! rwlock_wrlock;;! let! failedCount := read_failedCount in
         write_failedCount (failedCount + 1);;! rwlock_unlock;;! Ret "0"
       else
         mysql_commit c;;!
         let response := "1" in
         let! successNum := read_successNum in
         write_successNum (successNum + 1);;! Ret response);
     let! _c := mysql_autocommit c ON in Ret response) Ticket stage_end).
  { intros isSuc n. unfold sprintf. destruct (_ <? 200); [|done]. cbn [bind]. stage_step.
    destruct (_ <? 200); [|done]. cbn [bind]. stage_step. apply finish_stages. }
  destruct (last_count_no_call r3 0) as [[n E]|(why & E & _)]; rewrite E; cbn [bind follows]; [|done].
  destruct r2; cbn [bind follows]; [stage_step|]; (destruct (0 <? n); cbn [negb]; [apply Hbuy|apply Hdrop]).
Qed.

Lemma is_OK_cases r : is_OK r = Ret (ok_reply r) \/ exists why, is_OK r = Undef why.
Proof. unfold ok_reply. destruct (is_OK_no_call r) as [[b ->]|(why & ->)]; eauto. Qed.

Lemma bind_is_OK {A} r (k : bool -> prog A) g Q :
  (forall why, Q g (UB why)) -> follows_stages (k (ok_reply r)) g Q ->
  follows_stages (bind (is_OK r) k) g Q.
Proof. intros HQ Hk. destruct (is_OK_cases r) as [->|(why & ->)]; cbn [bind follows]; auto. Qed.

Lemma read_total_count_stages {A} c (k : option Z -> prog A) Q :
  (forall why g, Q g (UB why)) ->
  (forall n, 0 < n -> follows_stages (k (Some n)) (Counted n) Q) ->
  (forall n, n <= 0 -> follows_stages (k (Some n)) Free Q) ->
  follows_stages (k None) Free Q ->
  follows_stages (bind (read_total_count (Some c)) k) Free Q.
Proof.
  intros HQ Hpos Hneg Hnone. unfold read_total_count. cbn [bind].
  split; [done|]. intros wr _.
  change (command_of "WATCH %s" _) with Watch. cbn [stage_upd redis_stage].
  change (command_of "WATCH %s" _) with Watch. cbn [redis_stage].
  split; [destruct (ok_reply wr); done|]. intros gr _. cbn [stage_upd].
  change (command_of "GET %s" _) with Get.
  destruct gr as [rep|]; cbn [bind].
  2: { destruct (ok_reply wr); cbn [redis_stage positive_count]; do 2 stage_step; apply Hnone. }
  destruct (is_OK_cases wr) as [->|(why & ->)]; cbn [bind follows]; [|apply HQ].
  destruct (ok_reply wr); cbn [redis_stage bind]; [|do 2 stage_step; apply Hnone].
  unfold positive_count. destruct (c_atoi (str rep)) as [n| |why] eqn:Hn; cbn [bind follows].
  - destruct (Z.ltb_spec 0 n); do 2 stage_step; auto.
  - unfold c_atoi in Hn. destruct (str rep); [|done]. by destruct (atoi _).
  - apply HQ.
Qed.

Lemma give_back_stages c : follows_stages (give_back (Some c)) Free stage_end.
Proof.
  unfold give_back. stage_step. change (command_of "UNWATCH" []) with Unwatch. cbn [redis_stage].
  do 2 stage_step.
  assert (Hend : forall f g, g = LockedRead f \/ g = Leaving ->
    follows_stages (rwlock_unlock;;! Ret "0") g stage_end).
  { intros f g Hg. split; [by destruct Hg as [-> | ->]|]. intros ? _. by split; [left|]. }
  destruct (Z.ltb_spec 0 r1) as [Hr|Hr]; cbn [bind]; [|apply (Hend r1); by left].
  split; [done|]. intros f _. cbn [stage_upd].
  split; [done|]. intros sr _. cbn [stage_upd].
  change (command_of _ _) with (SetCount (atoi_value (to_string f))). cbn [redis_stage].
  destruct (is_OK_cases sr) as [->|(why & ->)]; cbn [bind follows]; [|done].
  destruct (ok_reply sr); cbn [bind]; [stage_step|]; apply (Hend f); auto.
Qed.

Lemma seckillGoods_stages n u k c mc m r :
  follows_stages (seckillGoods_rec n u k (Some c) mc m r) Free stage_end.
Proof.
  revert m. induction n as [|n IH]; intros m; [done|]. cbn [seckillGoods_rec].
  assert (Hidle : follows_stages (Ret "0") Free stage_end) by by split; [left|].
  apply read_total_count_stages; [done| | |exact Hidle].
  2: { intros count Hc. rewrite (proj2 (Z.ltb_ge 0 count)) by lia. apply give_back_stages. }
  intros count Hc. rewrite (proj2 (Z.ltb_lt 0 count)) by lia.
  assert (Hretry : forall mr, follows_stages
    (do response <- (redisCommand (Some c) "UNWATCH" [];;!
       (if m + 1 <? RETRYCOUNT then seckillGoods_rec n u k (Some c) mc (m + 1) r else Ret "0"));
     freeReplyObject mr;;! Ret response) Free stage_end).
  { intros mr. cbn [bind]. stage_step. change (command_of "UNWATCH" []) with Unwatch. cbn [redis_stage].
    apply follows_bind. apply (follows_mono _ _ _ _ _ stage_end);
      [|destruct (_ <? _); [apply IH|exact Hidle]].
    intros g [s|why]; [|done]. intros [Hg Hs]. stage_step. done. }
  split; [done|]. intros mr _. cbn [stage_upd]. change (command_of "MULTI" []) with Multi. cbn [redis_stage].
  apply bind_is_OK; [done|]. destruct (ok_reply mr); [|apply Hretry].
  do 2 (split; [done|]; intros ? _; cbn [stage_upd];
    first [change (command_of "DECR %s" _) with Decr | change (command_of _ _) with Other]; cbn [redis_stage]).
  split; [done|]. intros er _. cbn [stage_upd]. change (command_of "EXEC" []) with Exec. cbn [redis_stage].
  destruct (exec_committed er); [stage_step; apply seckillGoods_mysql_stages|].
  destruct er; cbn [bind]; [stage_step|]; apply Hretry.
Qed.

(** The checks before it only read. *)
Ltac bystander_run :=
  repeat (match goal with
  | |- all_calls _ (match_keys _ _ _) => apply match_keys_calls
  | |- all_calls _ (Vis _ _) => split; [first [exact I|reflexivity]|intros ?]
  | _ => calls_step
  end; cbn beta iota zeta).

Lemma checks_bystanders u k c mc :
  all_calls bystander (checkUserInfo u k (Some c) mc) /\
  all_calls bystander (checkUserHasGot u k (Some c) mc).
Proof.
  unfold checkUserInfo, checkUserHasGot, not_null. split; bystander_run.
Qed.

Lemma handle_request_stages w c mc :
  follows_stages (handle_request w (Some c) mc) Free stage_end.
Proof.
  destruct (checks_bystanders (usrname w) (usrkey w) c mc) as [Hinfo Hgot].
  assert (Hidle : follows_stages (Ret "0") Free stage_end) by by split; [left|].
  assert (Hpass : forall (p : prog bool) (k : bool -> prog string), all_calls bystander p ->
    (forall b, follows_stages (k b) Free stage_end) -> follows_stages (bind p k) Free stage_end).
  { intros p k Hp Hk. apply follows_bind.
    apply (follows_mono _ _ _ _ _ (fun g _ => g = Free)); [intros g [b|why] ->; [apply Hk|done]|].
    apply bystanders; [by left|done|done]. }
  apply Hpass; [done|]. intros [|]; [|done]. apply Hpass; [done|]. intros [|]; [done|].
  apply seckillGoods_stages.
Qed.

(** *** The turns *)

Definition turn_end {A} (g : stage) (o : outcome A) : Prop :=
  match o with Val _ => g = Free | UB _ => True end.

Lemma Proceed_stages this w : follows_stages (Proceed this w) Free turn_end.
Proof.
  unfold Proceed, Worker_create. destruct (status_ w); cbn [bind].
  - by stage_step.
  - stage_step. destruct r as [c|]; [|done]. stage_step. stage_step.
    change (command_of _ _) with Other. cbn [redis_stage]. do 2 stage_step. cbn [bind].
    apply follows_bind. apply (follows_mono _ _ _ _ _ stage_end); [|apply handle_request_stages].
    intros g [s|why]; [|done]. intros [Hg Hs]. cbn [set_response response_].
    stage_step. stage_step. split; [done|]. intros ? _. done.
  - stage_step. destruct r as [c|]; [|done]. stage_step.
    change (command_of _ _) with Other. cbn [redis_stage]. by do 2 stage_step.
Qed.

Lemma throttle_stages {A} (f : bool -> prog A) Q :
  (forall b, follows_stages (f b) Free Q) -> follows_stages (bind throttle f) Free Q.
Proof.
  intros Hf. unfold throttle. cbn [bind]. stage_step.
  destruct (_ <? 50); cbn [bind]; [|apply Hf]. stage_step. destruct r0 as [c|]; [|done]. stage_step.
  change (command_of _ _) with Other. cbn [redis_stage].
  destruct r0 as [rep|]; cbn [bind]; [|stage_step; apply Hf].
  destruct (type rep =? _); cbn [bind]; [|stage_step; apply Hf]. do 2 stage_step.
  destruct (_ <=? _); cbn [bind]; stage_step; apply Hf.
Qed.

Lemma turns_stages seen : follows_stages (thread_turns seen) Free turn_end.
Proof.
  induction seen as [|ws seen IH]; [done|]. cbn [thread_turns]. apply follows_bind.
  apply (follows_mono _ _ _ _ _ turn_end); [by intros g [h|why]; [intros ->|]|].
  unfold HandleRPCS_turn. apply throttle_stages. intros go. destruct go; cbn [negb]; [|done].
  stage_step. destruct (negb (got_event r)); [done|]. destruct (negb (ok r)); [done|].
  destruct (ws !! tag r) as [w|]; [|done]. apply follows_bind.
  apply (follows_mono _ _ _ _ _ turn_end); [|apply Proceed_stages]. by intros g [a|why].
Qed.

(** ** The invariant *)

(** What connection [n] has seen when it watched: the count is still [m] unless it has been
    written since. *)
Definition seen (n : conn) (m : Z) (v : redis_view) : Prop :=
  n ∈ watching v /\ ((n ∉ stale v) -> total v = m).

(** What the stage of thread [i], with the connection it holds, says about the view. *)
Definition stage_fits (held : option conn) (i : nat) (v : redis_view) (g : stage) : Prop :=
  match g with
  | Free | Ticket | Won => True
  | Watching => exists n, held = Some n /\ (n ∈ broken v \/ n ∈ watching v)
  | Counted m => 0 < m /\ exists n, held = Some n /\ (n ∈ broken v \/ seen n m v)
  | Queueing m sent => 0 < m /\ exists n, held = Some n /\
      (n ∈ broken v \/ seen n m v /\ exists q, queued v !! n = Some q /\ q `sublist_of` sent)
  | TicketLocked | Locked | Leaving => owner v = Some i
  | TicketRead f | LockedRead f | Moved f => owner v = Some i /\ failed_count v = f
  end.

(** The items in a thread's hand.  Between the SET and the write of [failedCount] the
    items counted there are in Redis already. *)
Definition weight (g : stage) : Z :=
  match g with Ticket | TicketLocked | TicketRead _ | Won => 1 | Moved f => - f | _ => 0 end.

(** *** What a command of one connection leaves to another *)

Definition quiet (n : conn) (v v' : redis_view) : Prop :=
  (n ∈ broken v -> n ∈ broken v') /\ queued v' !! n = queued v !! n /\
  (n ∈ watching v -> n ∈ watching v') /\ (forall m, seen n m v -> seen n m v').

Lemma quiet_refl n v : quiet n v v.
Proof. by split_and!. Qed.

Lemma quiet_trans n v1 v2 v3 : quiet n v1 v2 -> quiet n v2 v3 -> quiet n v1 v3.
Proof.
  intros (H1 & H2 & H3 & H4) (K1 & K2 & K3 & K4). split_and!; auto. by rewrite K2.
Qed.

Lemma quiet_set_total n m v : quiet n v (set_total m v).
Proof.
  split_and!; try done. intros k [Hw _]. split; [done|]. cbn. intros Hs. exfalso. set_solver.
Qed.

Lemma quiet_unwatch n n' v : n <> n' -> quiet n v (unwatch n' v).
Proof.
  intros Hne. split_and!; cbn; [done|done|set_solver|]. intros m [Hw Hm].
  split; cbn; [set_solver|]. intros Hs. apply Hm. set_solver.
Qed.

Lemma quiet_set_queued n q v : q !! n = queued v !! n -> quiet n v (set_queued q v).
Proof. intros Hq. by split_and!. Qed.

Lemma quiet_watch n n' v : quiet n v (set_watch ({[ n' ]} ∪ watching v) (stale v) v).
Proof.
  split_and!; cbn; [done|done|set_solver|]. intros m [Hw Hm]. split; cbn; [set_solver|done].
Qed.

Lemma quiet_run n v c : quiet n v (run_command v c).
Proof. destruct c; first [apply quiet_set_total | apply quiet_refl]. Qed.

Lemma quiet_transaction n q v : quiet n v (foldl run_command v q).
Proof.
  revert v. induction q as [|c q IH]; intros v; [apply quiet_refl|].
  eapply quiet_trans; [apply quiet_run|apply IH].
Qed.

#[local] Create HintDb tickets.
#[local] Hint Resolve quiet_refl quiet_unwatch quiet_watch quiet_run quiet_transaction : tickets.

Lemma quiet_drop n n' v :
  n <> n' -> quiet n v (unwatch n' (set_queued (delete n' (queued v)) v)).
Proof.
  intros Hne. eapply quiet_trans; [|by apply quiet_unwatch].
  apply quiet_set_queued. by rewrite lookup_delete_ne.
Qed.

Lemma quiet_apply n n' c v : n <> n' -> quiet n v (apply n' c v).
Proof.
  intros Hne. unfold apply. destruct (queued v !! n') as [q|].
  - assert (Hq : quiet n v (set_queued (<[n' := (q ++ [c])%list]> (queued v)) v)).
    { apply quiet_set_queued. by rewrite lookup_insert_ne. }
    destruct c; auto with tickets.
    case_decide; [by apply quiet_drop|]. eapply quiet_trans; [by apply quiet_drop|auto with tickets].
  - destruct c; auto with tickets. apply quiet_set_queued. by rewrite lookup_insert_ne.
Qed.

Lemma quiet_refuse n n' c v : n <> n' -> quiet n v (refuse n' c v).
Proof.
  intros Hne. unfold refuse. destruct (queued v !! n'), c; auto with tickets. by apply quiet_drop.
Qed.

Lemma quiet_back_out n n' v : quiet n v (back_out n' v).
Proof. split_and!; cbn; [set_solver|done..]. Qed.

Lemma quiet_add_unconfirmed n m v : quiet n v (add_unconfirmed m v).
Proof. by split_and!. Qed.

Lemma effect_quiet n n' c r v v' : n <> n' -> redis_effect n' c r v v' -> quiet n v v'.
Proof.
  intros Hne. unfold redis_effect. case_decide; [intros [_ ->]; apply quiet_refl|].
  destruct r as [rep|].
  - destruct (_ =? _); [intros [_ ->]; by apply quiet_refuse|intros [_ ->]; by apply quiet_apply].
  - intros (w & Hw & ->). eapply quiet_trans; [|apply quiet_back_out].
    destruct Hw as [-> | ->]; [apply quiet_refl|]. unfold lost.
    eapply quiet_trans; [by apply quiet_apply|]. apply quiet_add_unconfirmed.
Qed.

(** *** What a command leaves to the memory *)

Definition same_memory (v v' : redis_view) : Prop :=
  failed_count v' = failed_count v /\ owner v' = owner v /\ answered v' = answered v /\
  unconfirmed v <= unconfirmed v'.

Lemma memory_transaction q v : same_memory v (foldl run_command v q) /\
  unconfirmed (foldl run_command v q) = unconfirmed v.
Proof.
  revert v. induction q as [|c q IH]; intros v; [split; [split_and!; done || lia|done]|].
  destruct (IH (run_command v c)) as ((H1 & H2 & H3 & H4) & H5). cbn [foldl]. rewrite H5.
  destruct c; (split; [split_and!|]); cbn in *; done || lia.
Qed.

Lemma memory_apply n c v : same_memory v (apply n c v) /\ unconfirmed (apply n c v) = unconfirmed v.
Proof.
  unfold apply. destruct (queued v !! n) as [q|], c; cbn; try (split; [split_and!; done || lia|done]).
  case_decide; [split; [split_and!; done || lia|done]|].
  apply (memory_transaction q (unwatch n (set_queued (delete n (queued v)) v))).
Qed.

Lemma effect_memory n c r v v' : redis_effect n c r v v' -> same_memory v v'.
Proof.
  unfold redis_effect. case_decide; [intros [_ ->]; split_and!; done || lia|].
  destruct (memory_apply n c v) as [(H1 & H2 & H3 & H4) H5]. destruct r as [rep|].
  - destruct (_ =? _); [intros [_ ->]|by intros [_ ->]].
    unfold refuse. destruct (queued v !! n), c; split_and!; done || (cbn; lia).
  - intros (w & [-> | ->] & ->); split_and!; cbn; try done; try lia. destruct c; lia.
Qed.

(** *** Replies *)

Lemma effect_ok n c r v v' :
  redis_effect n c r v v' -> ok_reply r = true -> c <> Exec ->
  (n ∉ broken v) /\ queued v !! n = None /\ v' = apply n c v /\
  exists rep, r = Some rep /\ reply_fits n c rep v.
Proof.
  unfold redis_effect, ok_reply. intros He Hok Hc. case_decide as Hb; [by destruct He as [-> _]|].
  destruct r as [rep|]; [|done]. cbn [is_OK] in Hok.
  destruct (Z.eqb_spec (type rep) REDIS_REPLY_STATUS) as [Hty|]; [|done].
  rewrite Hty in He. cbn in He. destruct He as [Hfits ->]. split; [done|].
  assert (Hq : queued v !! n = None).
  { unfold reply_fits in Hfits. destruct (queued v !! n); [|done].
    destruct c; try done; destruct Hfits as [_ Hs]; rewrite Hs in Hok; by vm_compute in Hok. }
  eauto.
Qed.

Lemma letter_code c : 65 <= char_code c <= 90 ->
  Ascii.eqb c zero = false /\ is_space c = false /\ Ascii.eqb c "-" = false /\
  Ascii.eqb c "+" = false /\ digit_value c = None.
Proof.
  intros Hc.
  assert (Hne : forall d, char_code d < 65 -> Ascii.eqb c d = false).
  { intros d Hd. destruct (Ascii.eqb_spec c d); [subst; lia|done]. }
  split; [by apply Hne|]. unfold is_space, digit_value.
  rewrite (proj2 (Z.eqb_neq _ 32)), (proj2 (Z.leb_gt _ 13)), (proj2 (Z.leb_gt _ 57)) by lia.
  rewrite !andb_false_r. split; [done|]. by split; [apply Hne|split; [apply Hne|]].
Qed.

Lemma atoi_letter c s : 65 <= char_code c <= 90 -> c_atoi (Some (String c s)) = Ret 0.
Proof.
  intros Hc. destruct (letter_code c Hc) as (H1 & H2 & H3 & H4 & H5).
  unfold c_atoi, atoi, atoi_value. cbn [c_str]. rewrite H1. cbn [skip_spaces]. rewrite H2, H3, H4.
  cbn [read_digits]. by rewrite H5.
Qed.

Lemma effect_count n r v v' m :
  redis_effect n Get r v v' -> positive_count r = Some m -> 0 < m /\ v' = v /\ total v = m.
Proof.
  unfold redis_effect, positive_count. intros He Hp. case_decide as Hb; [by destruct He as [-> _]|].
  destruct r as [rep|]; [|done].
  destruct (Z.eqb_spec (type rep) REDIS_REPLY_ERROR).
  { destruct He as [(c & s & Hs & Hc) _]. by rewrite Hs, (atoi_letter c s Hc) in Hp. }
  destruct He as [Hfits ->]. unfold reply_fits, apply in *. destruct (queued v !! n).
  - destruct Hfits as [_ Hs]. rewrite Hs in Hp. by vm_compute in Hp.
  - destruct (c_atoi (str rep)) as [k| |]; [|done..]. destruct (Z.ltb_spec 0 k); [|done].
    injection Hp as <-. split; [done|]. split; [done|]. symmetry. by apply Hfits.
Qed.

(** *** The thread's own step *)

(** What there is: in Redis, in [failedCount] and in the thread's hand. *)
Definition level (v : redis_view) (g : stage) : Z :=
  total v + failed_count v + weight g - unconfirmed v.

Definition own_step (held : option conn) (i : nat) (v v' : redis_view) (g g' : stage) : Prop :=
  stage_fits held i v' g' /\ 0 <= total v' /\ level v' g' <= level v g.

(** Commands that leave the count alone: all but EXEC and SET, and DECR in a transaction. *)
Definition neutral (n : conn) (c : command) (v : redis_view) : Prop :=
  match c with
  | Exec | SetCount _ => False
  | Decr => n ∈ broken v \/ is_Some (queued v !! n)
  | _ => True
  end.

Lemma neutral_total n c r v v' :
  neutral n c v -> redis_effect n c r v v' ->
  total v' = total v /\ unconfirmed v' = unconfirmed v.
Proof.
  intros Hn. unfold redis_effect. case_decide as Hb; [by intros [_ ->]|].
  assert (Hap : total (apply n c v) = total v /\ unconfirmed (apply n c v) = unconfirmed v).
  { split; [|apply memory_apply]. unfold apply. destruct (queued v !! n) eqn:Hq; destruct c; try done.
    destruct Hn as [Hn|Hn]; [done|]. rewrite Hq in Hn. by destruct Hn. }
  destruct r as [rep|].
  - destruct (_ =? _); [|by intros [_ ->]]. intros [_ ->]. unfold refuse.
    by destruct (queued v !! n), c.
  - intros (w & [-> | ->] & ->); [done|]. destruct Hap as [H1 H2]. cbn. rewrite H1, H2.
    split; [done|]. destruct c; first [done|lia].
Qed.

(** A stage that is not under the lock, after a command that leaves the count alone. *)
Lemma neutral_step held i n c r v v' g g' :
  neutral n c v -> redis_effect n c r v v' -> 0 <= total v -> weight g' = weight g ->
  stage_fits held i v' g' -> own_step held i v v' g g'.
Proof.
  intros Hn He Ht Hw Hf. destruct (neutral_total n c r v v' Hn He) as [H1 H2].
  destruct (effect_memory n c r v v' He) as (H3 & _). unfold own_step, level.
  rewrite H1, H2, H3, Hw. split; [done|lia].
Qed.

Lemma watch_step n i r v v' :
  0 <= total v -> redis_effect n Watch r v v' ->
  own_step (Some n) i v v' Free (redis_stage Free Watch r).
Proof.
  intros Ht He. cbn [redis_stage].
  apply (neutral_step _ _ n Watch r); try done; [by destruct (ok_reply r)|].
  destruct (ok_reply r) eqn:Hok; [|done].
  destruct (effect_ok n Watch r v v' He Hok) as (_ & Hq & -> & _); [done|].
  exists n. split; [done|]. right. unfold apply. rewrite Hq. cbn. set_solver.
Qed.

Lemma get_step n i r v v' g :
  g = Free \/ g = Watching -> stage_fits (Some n) i v g -> 0 <= total v ->
  redis_effect n Get r v v' -> own_step (Some n) i v v' g (redis_stage g Get r).
Proof.
  intros Hg Hf Ht He.
  apply (neutral_step _ _ n Get r); try done; [by destruct Hg as [-> | ->]; cbn; [|destruct (positive_count r)]|].
  destruct Hg as [-> | ->]; [done|]. cbn [redis_stage].
  destruct (positive_count r) as [m|] eqn:Hp; [|done].
  destruct (effect_count n r v v' m He Hp) as (Hm & -> & Htot). split; [done|].
  destruct Hf as (n' & [= <-] & Hb). exists n. split; [done|].
  destruct Hb; [by left|]. right. by split.
Qed.

Lemma broken_or_not n v : n ∈ broken v \/ (n ∉ broken v).
Proof. destruct (decide (n ∈ broken v)); auto. Qed.

Lemma multi_step n i m r v v' :
  stage_fits (Some n) i v (Counted m) -> 0 <= total v -> redis_effect n Multi r v v' ->
  own_step (Some n) i v v' (Counted m) (redis_stage (Counted m) Multi r).
Proof.
  intros (Hm & n' & [= <-] & Hs) Ht He. cbn [redis_stage].
  apply (neutral_step _ _ n Multi r); try done; [by destruct (ok_reply r)|].
  destruct (ok_reply r) eqn:Hok; [|done].
  destruct (effect_ok n Multi r v v' He Hok) as (Hb & Hq & -> & _); [done|].
  destruct Hs as [Hs|Hs]; [done|]. split; [done|]. exists n. split; [done|]. right.
  unfold apply. rewrite Hq. split; [done|]. exists []. cbn. by rewrite lookup_insert_eq.
Qed.

(** DECR and HMSET in the transaction. *)
Lemma queue_step n i m c sent r v v' :
  c = Decr \/ c = Other ->
  stage_fits (Some n) i v (Queueing m sent) -> 0 <= total v -> redis_effect n c r v v' ->
  own_step (Some n) i v v' (Queueing m sent) (Queueing m (sent ++ [c])%list).
Proof.
  intros Hc (Hm & n' & [= <-] & Hs) Ht He.
  apply (neutral_step _ _ n c r); try done.
  { destruct Hc as [-> | ->]; [|done]. destruct Hs as [?|(_ & q & Hq & _)]; [by left|right; by exists q]. }
  split; [done|]. exists n. split; [done|]. unfold redis_effect in He.
  case_decide as Hb; [destruct He as [_ ->]; by left|]. destruct Hs as [|(Hseen & q & Hq & Hsub)]; [done|].
  assert (Hkeep : q `sublist_of` (sent ++ [c])%list) by by apply sublist_inserts_r.
  destruct r as [rep|]; [|destruct He as (w & _ & ->); left; cbn; set_solver]. right.
  destruct (type rep =? _).
  - destruct He as [_ ->]. unfold refuse. rewrite Hq. destruct Hc as [-> | ->]; eauto.
  - destruct He as [_ ->]. unfold apply. rewrite Hq.
    assert (Hadd : (q ++ [c])%list `sublist_of` (sent ++ [c])%list) by by apply sublist_app.
    destruct Hc as [-> | ->]; (split; [done|]); (eexists; split; [cbn; by rewrite lookup_insert_eq|done]).
Qed.

(** What EXEC runs of a transaction of at most one DECR. *)
Lemma transaction_total q v :
  q `sublist_of` [Decr; Other] ->
  total v - 1 <= total (foldl run_command v q) <= total v /\
  (1 < Z.of_nat (List.length q) -> total (foldl run_command v q) = total v - 1).
Proof.
  intros Hq. assert (Hc : q = [] \/ q = [Decr] \/ q = [Other] \/ q = [Decr; Other]).
  { apply sublist_cons_r in Hq as [Hq|(l & -> & Hq)];
      apply sublist_cons_r in Hq as [Hq|(l' & -> & Hq)]; apply sublist_nil_r in Hq; subst; auto. }
  destruct Hc as [->|[->|[->| ->]]]; cbn; lia.
Qed.

Lemma exec_step n i m r v v' :
  stage_fits (Some n) i v (Queueing m [Decr; Other]) -> 0 <= total v -> redis_effect n Exec r v v' ->
  own_step (Some n) i v v' (Queueing m [Decr; Other]) (redis_stage (Queueing m [Decr; Other]) Exec r).
Proof.
  intros (Hm & n' & [= <-] & Hs) Ht He. cbn [redis_stage].
  destruct (effect_memory n Exec r v v' He) as (Hf & _ & _ & Hu).
  unfold own_step, level. rewrite Hf. split; [by destruct (exec_committed r)|].
  enough (0 <= total v' /\ total v' + weight (if exec_committed r then Ticket else Free) <= total v)
    by (cbn [weight] in *; lia).
  unfold redis_effect in He. case_decide as Hb; [destruct He as [-> ->]; change (exec_committed None) with false; cbn; lia|].
  destruct Hs as [|([_ Hseen] & q & Hq & Hsub)]; [done|].
  set (w := unwatch n (set_queued (delete n (queued v)) v)).
  assert (Hrun : total v = m \/ n ∈ stale v) by (destruct (decide (n ∈ stale v)); auto).
  destruct (transaction_total q w Hsub) as [Hle Hone]. change (total w) with (total v) in *.
  assert (Hap : apply n Exec v = if decide (n ∈ stale v) then w else foldl run_command w q)
    by (unfold apply; by rewrite Hq).
  destruct r as [rep|].
  - destruct (Z.eqb_spec (type rep) REDIS_REPLY_ERROR) as [Hty|Hty].
    + destruct He as [_ ->]. unfold exec_committed, refuse. rewrite Hty, Hq. cbn. lia.
    + destruct He as [Hfits ->]. unfold reply_fits in Hfits. rewrite Hq in Hfits. rewrite Hap.
      unfold exec_committed. case_decide as Hst; [rewrite Hfits; change (total w) with (total v); cbn; lia|].
      destruct Hrun as [Hrun|]; [|done]. destruct Hfits as [-> ->]. cbn [Z.eqb andb].
      destruct (Z.ltb_spec 1 (Z.of_nat (List.length q))); cbn; [rewrite Hone by done|]; lia.
  - destruct He as (w' & [-> | ->] & ->); change (exec_committed None) with false; [cbn; lia|].
    change (0 <= total (apply n Exec v) /\ total (apply n Exec v) + 0 <= total v). rewrite Hap.
    case_decide; [change (total w) with (total v); lia|]. destruct Hrun; [lia|done].
Qed.

Lemma atoi_value_to_string f : is_int f -> atoi_value (to_string f) = f.
Proof.
  intros Hf. pose proof (atoi_to_string f Hf) as Ha. unfold atoi in Ha.
  destruct (is_intb _); congruence.
Qed.

(** SET: the items counted in [failedCount] replace what is in Redis. *)
Lemma set_step n i f r v v' :
  stage_fits (Some n) i v (LockedRead f) -> 0 <= f -> is_int f -> 0 <= total v ->
  redis_effect n (SetCount f) r v v' ->
  own_step (Some n) i v v' (LockedRead f) (redis_stage (LockedRead f) (SetCount f) r).
Proof.
  intros [Ho Hfc] Hpos Hint Ht He. cbn [redis_stage].
  destruct (effect_memory n _ r v v' He) as (Hf' & Ho' & _ & Hu).
  unfold own_step, level. destruct (ok_reply r) eqn:Hok.
  - destruct (effect_ok n _ r v v' He Hok) as (_ & Hq & -> & _); [done|].
    unfold apply in *. rewrite Hq in *. cbn in *. split_and!; done || lia.
  - split; [cbn; by rewrite Ho', Hf'|]. rewrite Hf'. cbn [weight].
    unfold redis_effect in He. case_decide; [destruct He as [_ ->]; lia|].
    destruct r as [rep|].
    + destruct (type rep =? _); [destruct He as [_ ->]; unfold refuse; destruct (queued v !! n); lia|].
      destruct He as [Hfits ->]. unfold reply_fits, apply in *. destruct (queued v !! n); [cbn; lia|].
      unfold ok_reply in Hok. destruct Hfits as [Hty Hs]. cbn [is_OK] in Hok. rewrite Hty, Hs in Hok.
      by vm_compute in Hok.
    + destruct He as (w & [-> | ->] & ->); [cbn; lia|]. unfold lost, apply.
      destruct (queued v !! n); cbn; lia.
Qed.

(** Every Redis command of the protocol. *)
Lemma redis_step n i f args r v v' g :
  stage_pre g (redisCommand (Some n) f args) -> stage_fits (Some n) i v g -> 0 <= total v ->
  (forall k, g = LockedRead k -> 0 <= k /\ is_int k) -> redis_effect n (command_of f args) r v v' ->
  own_step (Some n) i v v' g (redis_stage g (command_of f args) r).
Proof.
  intros Hpre Hf Ht Hint He. cbn in Hpre.
  assert (Hother : forall g, quiet_stage g -> redis_effect n Other r v v' ->
    own_step (Some n) i v v' g (redis_stage g Other r)).
  { intros g' Hg' He'. apply (neutral_step _ _ n Other r); try done;
      by destruct Hg' as [->|[->| ->]]. }
  destruct (command_of f args) eqn:Hcmd.
  - destruct g; try done. by apply watch_step.
  - destruct g; try done; apply get_step; auto.
  - destruct g; try done. by apply multi_step.
  - destruct g as [| | |m [|]| | | | | | | |]; try done. apply (queue_step n i m Decr [] r); auto.
  - destruct g as [| | |m [|[] [|[] []]]| | | | | | | |]; try done. by apply exec_step.
  - destruct g; try done. apply (neutral_step _ _ n Unwatch r); done.
  - destruct g; try done. destruct (Hint _ eq_refl) as [Hpos Hi].
    assert (n0 = f0) as ->.
    { unfold command_of in Hcmd. repeat (case_match; try done). simplify_eq.
      by apply atoi_value_to_string. }
    by apply set_step.
  - destruct g as [| | |m [|[] []]| | | | | | | |]; try done;
      first [apply Hother; [unfold quiet_stage; by auto|done] | apply (queue_step n i m Other [Decr] r); auto].
Qed.

(** *** One step of one thread *)

Lemma stage_fits_other held j v v' g :
  (forall n, held = Some n -> quiet n v v') ->
  (owner v = Some j -> owner v' = Some j /\ failed_count v' = failed_count v) ->
  stage_fits held j v g -> stage_fits held j v' g.
Proof.
  intros Hq Ho. destruct g as [| |m|m sent| | |f| |f|f| |]; cbn; try done; try tauto.
  - intros (n & Hn & Hb). destruct (Hq n Hn) as (H1 & _ & H3 & _). exists n. naive_solver.
  - intros (Hpos & n & Hn & Hb). destruct (Hq n Hn) as (H1 & _ & _ & H4). split; [done|].
    exists n. naive_solver.
  - intros (Hpos & n & Hn & Hb). destruct (Hq n Hn) as (H1 & H2 & _ & H4). split; [done|].
    exists n. rewrite H2. naive_solver.
  - intros [H1 H2]. destruct (Ho H1). split; congruence.
  - intros [H1 H2]. destruct (Ho H1). split; congruence.
  - intros [H1 H2]. destruct (Ho H1). split; congruence.
Qed.

(** The step of thread [i], from [held] to [held'], and what it leaves to the others. *)
Record thread_step (held held' : option conn) (i : nat) (v v' : redis_view) (g g' : stage) : Prop :=
ThreadStep {
  ts_fits : stage_fits held' i v' g';
  ts_total : 0 <= total v';
  ts_failed : 0 <= failed_count v';
  ts_answered : answered v <= answered v';
  ts_unconfirmed : unconfirmed v <= unconfirmed v';
  ts_level : level v' g' + answered v' <= level v g + answered v;
  ts_quiet n : held <> Some n -> quiet n v v';
  ts_owner j : j <> i -> owner v = Some j -> owner v' = Some j /\ failed_count v' = failed_count v;
}.

(** A step that does not touch Redis. *)
Lemma memory_step held held' i v g g' :
  0 <= total v -> 0 <= failed_count v -> weight g' <= weight g -> stage_fits held' i v g' ->
  thread_step held held' i v v g g'.
Proof. intros. split; try done; try lia; try (unfold level; lia). Qed.

(** Calls that are about neither the Redis connection, the lock nor the responses. *)
Lemma track_redis_hand og c r :
  custody_pre og c ->
  match c with redis_getOneConnect | redis_close _ | redisCommand _ _ _ | redisFree _ => False | _ => True end ->
  redis_hand (track og (Ev c r)) = redis_hand og.
Proof.
  destruct og as [g|]; [|done]. intros Hpre Hc.
  destruct c; try done; cbn in Hpre |- *; unfold takes_mysql, uses_mysql;
    rewrite ?Hpre, ?decide_True by done; done.
Qed.

Lemma redis_call_step i og g c f args r v v' :
  custody_pre og (redisCommand c f args) -> stage_pre g (redisCommand c f args) ->
  stage_fits (redis_hand og) i v g -> 0 <= total v -> 0 <= failed_count v ->
  (failed_count v < 2 ^ 31 \/ (forall f, g <> LockedRead f)) ->
  tickets_view i (redisCommand c f args) r v v' ->
  thread_step (redis_hand og) (redis_hand (track og (Ev (redisCommand c f args) r))) i v v' g
    (stage_upd g (Ev (redisCommand c f args) r)).
Proof.
  intros Hcu Hpre Hfits Ht Hf Hint Hview. destruct c as [n|]; [|done].
  destruct og as [cu|]; [|done]. cbn in Hcu, Hview. cbn [track]. unfold uses_redis.
  rewrite decide_True by done.
  assert (Hhand : redis_hand (Some cu) = Some n) by (cbn; by rewrite Hcu). rewrite Hhand in *.
  destruct (effect_memory _ _ _ _ _ Hview) as (H1 & H2 & H3 & H4).
  destruct (redis_step n i f args r v v' g Hpre Hfits Ht) as (Hfits' & Ht' & Hl); [|done|].
  { intros k ->. destruct Hfits as [_ Hk]. destruct Hint as [?|Hint]; [|by destruct (Hint k)].
    unfold is_int. split; lia. }
  cbn [stage_upd]. split; try done; try lia; [|by rewrite H1, H2].
  intros n' Hn'. apply (effect_quiet n' n (command_of f args) r); [congruence|done].
Qed.

Lemma call_step i og g c r v v' :
  custody_pre og c -> stage_pre g c -> stage_fits (redis_hand og) i v g ->
  0 <= total v -> 0 <= failed_count v -> failed_count v < 2 ^ 31 \/ (forall f, g <> LockedRead f) ->
  tickets_view i c r v v' ->
  thread_step (redis_hand og) (redis_hand (track og (Ev c r))) i v v' g (stage_upd g (Ev c r)).
Proof.
  intros Hcu Hpre Hfits Ht Hf Hint Hview.
  pose proof (track_redis_hand og c r Hcu) as Hsame.
  destruct c; try (cbn in Hview; subst v'; rewrite Hsame by done; by apply memory_step).
  - cbn in Hview, Hpre. subst v'. apply memory_step; [done..|]. by destruct Hpre as [->|[->| ->]].
  - cbn in Hview, Hpre. subst v'. apply memory_step; [done..|]. by destruct Hpre as [->|[->| ->]].
  - by apply redis_call_step.
  - cbn in Hview, Hpre. subst v' g. rewrite Hsame by done. by apply memory_step.
  - destruct Hview as [Ho ->]. rewrite Hsame by done.
    split; cbn; try done; try lia; [by destruct Hpre as [-> | ->]..| |congruence].
    unfold level. destruct Hpre as [-> | ->]; cbn; lia.
  - cbn in Hview. subst v'. rewrite Hsame by done. cbn in Hpre.
    assert (Hown : owner v = Some i) by by destruct g; try done; destruct Hfits.
    split; cbn; try done; try lia; [|intros j Hj; congruence].
    unfold level. destruct g; try done; cbn; lia.
  - cbn in Hview. destruct Hview as [-> ->]. rewrite Hsame by done.
    apply memory_step; [done..| |]; (destruct g; try done; by destruct Hfits).
  - cbn in Hview. subst v'. rewrite Hsame by done. cbn in Hpre.
    assert (Hown : owner v = Some i) by by destruct g; try done; destruct Hfits.
    split; cbn; try done; try (intros j Hj; congruence); unfold level;
      (destruct g; try done; cbn in *; destruct_and?; subst; lia).
  - cbn in Hview, Hpre. subst v'. rewrite Hsame by done.
    assert (Hw : b2z (String.eqb result "1") <= weight g).
    { destruct Hpre as [Hg Hwon]. destruct (String.eqb_spec result "1") as [E|_];
        [by rewrite Hwon|by destruct Hg as [->|[->| ->]]]. }
    split; cbn; try done; unfold level; cbn; destruct (String.eqb result "1"); cbn in *; lia.
Qed.

(** ** Any number of threads *)

Section system.
Context {S : Type} `{LendingLaws S, !Counter S, !CounterLaws S} (s0 : S).
(** Redis can be reached: the pool never gives a null context. *)
Hypothesis contexts : forall i s r s',
  rtc serves s0 s -> serve_call i s redis_getOneConnect r s' -> r <> None.

Abbreviation v0 := (redis_of s0).

(** What has been added to the counts without the server knowing: writes whose reply was
    lost. *)
Definition unknown (s : S) : Z := unconfirmed (redis_of s) - unconfirmed v0.

(** What there was at the start. *)
Definition supply : Z := total v0 + failed_count v0.

Record tickets_inv (v : redis_view) (gs : list (option custody * stage)) : Prop := TicketsInv {
  ti_total : 0 <= total v;
  ti_failed : 0 <= failed_count v;
  ti_answered : answered v0 <= answered v;
  ti_sum : total v + failed_count v + sum_of (fun g => weight g.2) gs + answered v
           <= supply + answered v0 + (unconfirmed v - unconfirmed v0);
  ti_fits i og g : gs !! i = Some (og, g) -> stage_fits (redis_hand og) i v g;
}.

(** Unless so much was added that the counts leave the range of [int]. *)
Definition server_inv (s : S) (gs : list (option custody * stage)) : Prop :=
  rtc serves s0 s /\ custody_inv s (fst <$> gs) /\ (2 ^ 31 <= supply + unknown s \/ tickets_inv (redis_of s) gs).

(** A thread that has moved [failedCount] into Redis has the lock; without it nothing in
    the threads' hands counts against the supply. *)
Definition is_moved (g : stage) : bool := match g with Moved _ => true | _ => false end.

Lemma no_debt gs :
  (forall i og g, gs !! i = Some (og, g) -> is_moved g = false) ->
  0 <= sum_of (fun g : option custody * stage => weight g.2) gs.
Proof using Type.
  intros Hm. apply sum_of_nonneg. intros i [og g] Hi. specialize (Hm i og g Hi).
  destruct g; cbn in *; done || lia.
Qed.

Lemma moved_alone v gs i og f j og' g :
  tickets_inv v gs -> gs !! i = Some (og, Moved f) -> gs !! j = Some (og', g) -> j <> i ->
  is_moved g = false.
Proof using Type.
  intros Hinv Hi Hj Hne. destruct (ti_fits _ _ Hinv _ _ _ Hi) as [Ho _].
  pose proof (ti_fits _ _ Hinv _ _ _ Hj) as Hfj. destruct g; try done.
  destruct Hfj as (Ho' & _). congruence.
Qed.

Lemma hands_nonneg v gs :
  tickets_inv v gs -> 0 <= failed_count v + sum_of (fun g => weight g.2) gs.
Proof using Type.
  intros Hinv. pose proof (ti_failed _ _ Hinv).
  destruct (decide (Exists (fun g => is_moved g.2 = true) gs)) as [Hex|Hno].
  - apply Exists_exists in Hex as ([og g] & Hin & Hg). apply list_elem_of_lookup in Hin as [i Hi].
    destruct g; try done. destruct (ti_fits _ _ Hinv _ _ _ Hi) as [_ Hf].
    pose proof (sum_of_insert (fun g => weight g.2) gs i _ (og, Free) Hi) as Hsum. cbn in Hsum.
    pose proof (no_debt (<[i := (og, Free)]> gs)) as Hpos. rewrite Hsum in Hpos.
    enough (0 <= sum_of (fun g => weight g.2) gs - - f + 0) by lia. apply Hpos.
    intros j og' g'. destruct (decide (j = i)) as [->|Hne].
    + rewrite list_lookup_insert_eq by by eapply lookup_lt_Some. by intros [= _ <-].
    + rewrite list_lookup_insert_ne by done. intros Hj. by apply (moved_alone v gs i og f j og').
  - enough (0 <= sum_of (fun g => weight g.2) gs) by lia. apply no_debt. intros i og g Hi.
    destruct (is_moved g) eqn:Hg; [|done]. destruct Hno. apply Exists_exists. exists (og, g).
    split; [by eapply list_elem_of_lookup_2|done].
Qed.

Lemma failed_int v gs i og f :
  tickets_inv v gs -> gs !! i = Some (og, LockedRead f) ->
  supply + (unconfirmed v - unconfirmed v0) < 2 ^ 31 -> failed_count v < 2 ^ 31.
Proof using Type.
  intros Hinv Hi Hb. destruct (ti_fits _ _ Hinv _ _ _ Hi) as (Ho & _).
  assert (0 <= sum_of (fun g => weight g.2) gs).
  { apply no_debt. intros j og' g Hj. pose proof (ti_fits _ _ Hinv _ _ _ Hj) as Hfj.
    destruct g; try done. destruct Hfj as (Ho' & _). assert (j = i) as -> by congruence.
    rewrite Hi in Hj. done. }
  destruct Hinv. lia.
Qed.

Lemma tickets_inv_step i v gs og g c r v' :
  (forall j og' g' n, j <> i -> gs !! j = Some (og', g') -> redis_hand og' = Some n ->
     redis_hand og <> Some n) ->
  tickets_inv v gs -> gs !! i = Some (og, g) -> custody_pre og c -> stage_pre g c ->
  supply + (unconfirmed v - unconfirmed v0) < 2 ^ 31 -> tickets_view i c r v v' ->
  tickets_inv v' (<[i := (track og (Ev c r), stage_upd g (Ev c r))]> gs) /\
  unconfirmed v <= unconfirmed v'.
Proof using Type.
  intros Hapart Hinv Hi Hcu Hpre Hb Hview. pose proof Hinv as [Ht Hf Ha Hsum Hfits].
  destruct (call_step i og g c r v v') as [K1 K2 K3 K4 K5 K6 K7 K8]; auto.
  { destruct g; try (right; done). left. by apply (failed_int v gs i og f). }
  split; [|done]. split; [done|done|lia| |].
  - rewrite (sum_of_insert _ _ _ _ _ Hi). cbn [snd]. unfold level in K6. lia.
  - intros j og' g'. destruct (decide (j = i)) as [->|Hne].
    + rewrite list_lookup_insert_eq by by eapply lookup_lt_Some. by intros [= <- <-].
    + rewrite list_lookup_insert_ne by done. intros Hj.
      apply (stage_fits_other _ _ v); [|by apply K8|by apply Hfits].
      intros n Hn. apply K7. by apply (Hapart j og' g' n).
Qed.

Definition both_pre (g : option custody * stage) (c : call) : Prop :=
  custody_pre g.1 c /\ stage_pre g.2 c.
Definition both_ok (g : option custody * stage) (c : call) (r : ans c) : Prop :=
  any_answer g.1 c r /\ stage_ok g.2 c r.
Definition both_upd (g : option custody * stage) (e : event) : option custody * stage :=
  (track g.1 e, stage_upd g.2 e).
Definition both_end (g : option custody * stage) (o : outcome unit) : Prop :=
  custody_end g.1 o /\ turn_end g.2 o.

(** Whatever happens, the writes whose reply was lost only add up. *)
Lemma unconfirmed_mono i c r v v' : tickets_view i c r v v' -> unconfirmed v <= unconfirmed v'.
Proof using Type.
  intros Hview. destruct c; cbn in Hview;
    try (subst v'; cbn; lia); try (destruct Hview as [_ Hview]; subst v'; cbn; lia).
  destruct c as [n|]; [|by subst v']. by destruct (effect_memory _ _ _ _ _ Hview) as (_ & _ & _ & ?).
Qed.

Lemma server_inv_step i s gs g c r s' :
  server_inv s gs -> gs !! i = Some g -> both_pre g c -> serve_call i s c r s' ->
  both_ok g c r /\ server_inv s' (<[i := both_upd g (Ev c r)]> gs).
Proof using All.
  intros (Hst & Hcu & Hti) Hi [Hpre1 Hpre2] Hserve. destruct g as [og g]. cbn in Hpre1, Hpre2.
  assert (Hfi : (fst <$> gs) !! i = Some og) by by rewrite list_lookup_fmap, Hi.
  pose proof (counter_law i s c r s' Hserve) as Hview.
  destruct (custody_inv_step i s _ og c r s' Hcu Hfi Hpre1 Hserve) as [_ Hcu'].
  split; [split; [done|]; destruct c; try done; by apply (contexts i s r s')|].
  split; [eapply rtc_r; [exact Hst|]; by exists i, c, r|].
  split; [by rewrite list_fmap_insert|]. unfold unknown.
  pose proof (unconfirmed_mono i c r _ _ Hview).
  destruct Hti as [Hti|Hti]; [left; unfold unknown in Hti; lia|].
  destruct (Z.lt_ge_cases (supply + (unconfirmed (redis_of s) - unconfirmed v0)) (2 ^ 31)) as [Hb|Hb];
    [|left; lia].
  right. apply (tickets_inv_step i (redis_of s)); try done.
  intros j og' g' n Hne Hj Hn Hn'. apply Hne.
  apply (proj2 (ci_redis _ _ Hcu) j i og' og n); [by rewrite list_lookup_fmap, Hj|done..].
Qed.

Lemma reachable_tickets (seens : list (list heap)) (x : config S unit) :
  lend_ok s0 -> 0 <= total v0 -> 0 <= failed_count v0 ->
  reachable serve_call (Config s0 (map thread_turns seens)) x ->
  inv both_pre both_ok both_upd both_end server_inv x.
Proof using All.
  intros Hok Ht Hf Hr. eapply (inv_reachable serve_call); [| |exact Hr].
  { intros. by eapply server_inv_step. }
  exists (replicate (List.length seens) (Some (Custody None None [] []), Free)). split; [split; [apply rtc_refl|split]|].
  - rewrite fmap_replicate. split; [done|..]; split; intros i; intros;
      repeat match goal with H : replicate _ _ !! _ = Some _ |- _ =>
        apply lookup_replicate in H as [-> _] end; done.
  - right. split; try done; [|by intros i og g [[= -> ->] _]%lookup_replicate].
    cbn [shared]. rewrite sum_of_replicate by done. unfold supply. lia.
  - cbn [threads]. clear Hr. induction seens as [|seen seens IH]; constructor; [|exact IH].
    apply (follows_both custody_pre any_answer track stage_pre stage_ok stage_upd);
      [apply turns_keep_custody; by eexists|apply turns_stages].
Qed.

Lemma reachable_bound (seens : list (list heap)) (x : config S unit) :
  lend_ok s0 -> 0 <= total v0 -> 0 <= failed_count v0 ->
  reachable serve_call (Config s0 (map thread_turns seens)) x ->
  supply + unknown (shared x) < 2 ^ 31 ->
  0 <= total (redis_of (shared x)) /\
  total (redis_of (shared x)) + (answered (redis_of (shared x)) - answered v0) <=
    supply + unknown (shared x).
Proof using All.
  intros Hok Ht Hf Hr Hb.
  destruct (reachable_tickets seens x Hok Ht Hf Hr) as (gs & (_ & _ & [Hge|Hti]) & _); [lia|].
  pose proof (hands_nonneg _ _ Hti). destruct Hti as [K1 _ K2 K3 _]. unfold unknown. lia.
Qed.
End system.

Section theorems.
Context {S : Type} `{LendingLaws S, !Counter S, !CounterLaws S}.

(** C2: any number of threads of the server over one Redis, whatever the interleaving, the
    requests and what MySQL answers: [total_count] is never negative, and what is left in
    it together with the requests answered "1" is never more than there was at the start in
    [total_count] and [failedCount], plus what was written by a SET whose reply was lost.
    So Redis lets no more requests win than there are items, and giving failed purchases
    back never adds an item. *)
Theorem tickets_bounded (s0 : S) (seens : list (list heap)) (x : config S unit) :
  (forall i s r s', rtc serves s0 s -> serve_call i s redis_getOneConnect r s' -> r <> None) ->
  lend_ok s0 -> 0 <= total (redis_of s0) -> 0 <= failed_count (redis_of s0) ->
  reachable serve_call (Config s0 (map thread_turns seens)) x ->
  supply s0 + unknown s0 (shared x) < 2 ^ 31 ->
  0 <= total (redis_of (shared x)) /\
  total (redis_of (shared x)) + (answered (redis_of (shared x)) - answered (redis_of s0)) <=
    supply s0 + unknown s0 (shared x).
Proof using All.
  intros Hctx Hok Ht Hf Hr Hb. by apply (reachable_bound s0 Hctx seens).
Qed.
End theorems.
