(* ===== verification/Sale.v ===== *)
(** * The whole sale

    [Stock.v] follows the requests in MySQL, [Tickets.v] the threads in Redis.  Here both are
    put together: any number of threads of the server, each making any number of turns, over
    one service in which Redis, MySQL and the pools do what their manuals say. *)
From Stdlib Require Import ZArith Lia Ascii String.
From stdpp Require Import base tactics numbers strings relations gmap list.
From S2P Require Import Prelude Words Pool CString Prog Threads Worker Ledger WorkerProps.
From S2P Require Import WorkerSafety Server ServerProps Stock Lending Tickets.

Local Open Scope string_scope.
Local Open Scope prog_scope.
Local Open Scope Z_scope.

(** ** The protocol of [Stock.v], request after request *)

Definition fresh_request : request := Request Out false false false.

(** The answer is "1" exactly if [mysql_commit] was called. *)
Definition sale_pre (g : request) (c : call) : Prop :=
  match c with
  | Finish _ s => at_ g = Out /\ (s = "1" <-> claimed g = true)
  | _ => request_pre g c
  end.

Definition sale_upd (g : request) (e : event) : request :=
  match call_of e with Finish _ _ => fresh_request | _ => request_upd g e end.

(** The names and keys that clients send, and those of the workers on the heap, do not leave
    their quotes. *)
Definition plain_worker (w : Worker) : Prop := plain (usrname w) /\ plain (usrkey w).
Definition plain_completion (e : completion) : Prop :=
  match Prog.request e with Some (name, key) => plain name /\ plain key | None => True end.
Definition plain_heap (ws : heap) : Prop := map_Forall (fun _ w => plain_worker w) ws.

Definition sale_ok (g : request) (c : call) : ans c -> Prop :=
  match c return ans c -> Prop with
  | cq_Next => fun e => plain_completion e
  | c => switched g c
  end.

Abbreviation follows_sale p g Q := (follows sale_pre sale_ok sale_upd p g Q).
Abbreviation sale_end := (fun g (o : outcome _) => match o with Val _ => g = fresh_request | UB _ => True end).

Lemma plain_receive e w : plain_completion e -> plain_worker w -> plain_worker (receive (Prog.request e) w).
Proof. unfold plain_completion. by destruct (Prog.request e) as [[name key]|]. Qed.

Lemma handle_request_sale w rc mc :
  plain_worker w -> follows_sale (handle_request w rc mc) fresh_request request_end.
Proof.
  intros [Hu Hk].
  apply (follows_swap (request_call rc mc) request_pre switched request_upd); [by intros ? []..| |].
  - apply handle_request_calls.
  - by apply handle_request_follows.
Qed.

(** One call that means nothing to MySQL. *)
Ltac sale_step := split; [try done|intros ? ?; unfold sale_upd; cbn [call_of request_upd]; cbn beta iota].

Lemma Proceed_sale this w :
  plain_worker w -> follows_sale (Proceed this w) fresh_request sale_end.
Proof.
  intros Hw. unfold Proceed, Worker_create. destruct (status_ w); cbn [bind].
  - by sale_step.
  - do 5 sale_step. cbn [bind]. apply follows_bind.
    apply (follows_mono _ _ _ _ _ request_end); [|by apply handle_request_sale].
    intros g [s|why]; [|done]. intros [Hg Hs]. cbn [set_response response_].
    do 2 sale_step. split; [by split|]. by intros ? _.
  - by do 4 sale_step.
Qed.

Lemma throttle_sale {A} (f : bool -> prog A) Q :
  (forall b, follows_sale (f b) fresh_request Q) -> follows_sale (bind throttle f) fresh_request Q.
Proof.
  intros Hf. unfold throttle. cbn [bind]. sale_step.
  destruct (_ <? 50); cbn [bind]; [|apply Hf]. do 2 sale_step.
  destruct r1 as [rep|]; cbn [bind]; [|sale_step; apply Hf].
  destruct (type rep =? _); cbn [bind]; [|sale_step; apply Hf]. do 2 sale_step.
  destruct (_ <=? _); cbn [bind]; sale_step; apply Hf.
Qed.

Lemma turns_sale seen :
  Forall plain_heap seen -> follows_sale (thread_turns seen) fresh_request sale_end.
Proof.
  induction 1 as [|ws seen Hws _ IH]; [done|]. cbn [thread_turns]. apply follows_bind.
  apply (follows_mono _ _ _ _ _ sale_end); [by intros g [h|why]; [intros ->|]|].
  unfold HandleRPCS_turn. apply throttle_sale. intros go. destruct go; cbn [negb]; [|done].
  sale_step. destruct (negb (got_event r)); [done|]. destruct (negb (ok r)); [done|].
  destruct (ws !! tag r) as [w|] eqn:Hw; [|done]. apply follows_bind.
  apply (follows_mono _ _ _ _ _ sale_end); [by intros g [a|why]|].
  apply Proceed_sale, plain_receive; [done|]. exact (Hws _ _ Hw).
Qed.

(** ** The invariant *)

Section system.
Context {S : Type} `{ServerState S, !Database S, !DatabaseLaws S, !Counter S, !CounterLaws S} (s0 : S).
Hypothesis autocommit_ok : forall i s c mode r s', serve_call i s (mysql_autocommit c mode) r s' -> r = 0.
Hypothesis commit_ok : forall i s c r s', serve_call i s (mysql_commit c) r s' -> r = 0.
Hypothesis plain_requests : forall i s e s', serve_call i s cq_Next e s' -> plain_completion e.

(** How many have been answered "1" since the start. *)
Definition answers (s : S) : Z := answered (redis_of s) - answered (redis_of s0).

Record sale_inv (s : S) (gs : list request) : Prop := SaleInv {
  sl_stock : 0 <= stock (view_of s);
  sl_sum : stock (view_of s) + sold (view_of s) = stock (view_of s0) + sold (view_of s0);
  sl_sold : sold (view_of s) = sold (view_of s0) + tally confirmed gs + answers s;
  sl_claimed i g : gs !! i = Some g -> claimed g = confirmed g;
  sl_fits i g : gs !! i = Some g -> fits i (view_of s) g;
}.

Lemma answered_step i c r v v' :
  tickets_view i c r v v' ->
  answered v' = answered v + match c with Finish _ s => b2z (String.eqb s "1") | _ => 0 end.
Proof using Type.
  intros Hview. destruct c; cbn in Hview; try (subst v'; cbn; lia);
    try (destruct Hview as [_ Hview]; subst v'; cbn; lia).
  destruct c as [n|]; [|subst v'; lia]. destruct (effect_memory _ _ _ _ _ Hview) as (_ & _ & -> & _). lia.
Qed.

Lemma sale_ok_step i s c r s' g : serve_call i s c r s' -> sale_ok g c r /\ switched g c r.
Proof using autocommit_ok plain_requests.
  intros Hserve. destruct c; try done.
  - apply autocommit_ok in Hserve. by split.
  - by apply plain_requests in Hserve.
Qed.

(** A code of 0 from [mysql_commit] keeps what is claimed and what is confirmed the same. *)
Lemma claimed_step i s c r s' g :
  serve_call i s c r s' -> claimed g = confirmed g ->
  claimed (sale_upd g (Ev c r)) = confirmed (sale_upd g (Ev c r)).
Proof using commit_ok.
  intros Hserve Hg. destruct c; try done; unfold sale_upd; cbn [call_of request_upd].
  - destruct (at_ g); try done. by destruct (last_count r 0).
  - by destruct (mode =? OFF).
  - cbn. by rewrite (commit_ok _ _ _ _ _ Hserve).
Qed.

(** What a call does to the view, to the others and to the sums, the answers included. *)
Lemma sale_view_step i s c r s' g :
  serve_call i s c r s' -> sale_pre g c -> switched g c r -> claimed g = confirmed g ->
  fits i (view_of s) g -> 0 <= stock (view_of s) ->
  fits i (view_of s') (sale_upd g (Ev c r)) /\
  (forall j, j <> i -> quiet_for j (view_of s) (view_of s')) /\
  sums (view_of s) (view_of s')
    (b2z (confirmed (sale_upd g (Ev c r))) - b2z (confirmed g) + (answers s' - answers s)).
Proof using All.
  intros Hserve Hpre Hsw Hcl Hfits Hst.
  pose proof (serve_view i s c r s' Hserve) as Hview.
  pose proof (answered_step i c r _ _ (counter_law i s c r s' Hserve)) as Ha. unfold answers.
  destruct (match c with Finish _ _ => true | _ => false end) eqn:Hc.
  - destruct c; try done. cbn in Hview, Hpre. destruct Hpre as [Hout Hs].
    rewrite Hview, Ha. unfold sale_upd, fresh_request. cbn [call_of confirmed].
    split; [|split; [by intros; split_and!; auto|]].
    + destruct Hfits as (_ & _ & _ & Hf). rewrite Hout in Hf. by split_and!.
    + apply sums_same; try done. rewrite <- Hcl.
      destruct (String.eqb_spec result "1") as [E|E]; [rewrite (proj1 Hs E); cbn; lia|].
      destruct (claimed g); [|cbn; lia]. by destruct E; apply Hs.
  - assert (Hpre' : request_pre g c) by by destruct c.
    assert (Hupd : sale_upd g (Ev c r) = request_upd g (Ev c r)) by by destruct c.
    destruct (request_view i g c r _ _ Hfits Hst Hpre' Hsw Hview) as (K1 & K2 & K3).
    rewrite Hupd. split; [done|]. split; [done|].
    replace (_ + _) with (b2z (confirmed (request_upd g (Ev c r))) - b2z (confirmed g)); [done|].
    rewrite Ha. destruct c; try done; lia.
Qed.

Lemma sale_inv_step i s gs g c r s' :
  sale_inv s gs -> gs !! i = Some g -> sale_pre g c -> serve_call i s c r s' ->
  sale_ok g c r /\ sale_inv s' (<[i := sale_upd g (Ev c r)]> gs).
Proof using All.
  intros [Hst Hsum Hsold Hcl Hfits] Hi Hpre Hserve.
  destruct (sale_ok_step i s c r s' g Hserve) as [Hok Hsw]. split; [done|].
  destruct (sale_view_step i s c r s' g Hserve Hpre Hsw (Hcl i g Hi) (Hfits i g Hi) Hst)
    as (Hf & Hq & Hs1 & Hs2 & Hs3).
  pose proof (claimed_step i s c r s' g Hserve (Hcl i g Hi)) as Hcl'.
  split; [done|lia|rewrite (tally_insert _ _ _ _ _ Hi); lia|..];
    intros j gj; (destruct (decide (j = i)) as [->|Hj];
      [rewrite list_lookup_insert_eq by (by eapply lookup_lt_Some); by intros [= <-]
      |rewrite list_lookup_insert_ne by done; intros Hgj]).
  - by apply (Hcl j).
  - apply (quiet_fits j (view_of s)); [by apply Hq|by apply Hfits].
Qed.

Lemma reachable_sale (seens : list (list heap)) (x : config S unit) :
  Forall (Forall plain_heap) seens -> 0 <= stock (view_of s0) -> tx (view_of s0) = None ->
  reachable serve_call (Config s0 (map thread_turns seens)) x ->
  inv sale_pre sale_ok sale_upd sale_end sale_inv x.
Proof using All.
  intros Hpl Hst Htx Hr. eapply (inv_reachable serve_call); [| |exact Hr].
  { intros. by eapply sale_inv_step. }
  exists (replicate (List.length seens) fresh_request). split.
  - split; cbn [shared]; try done.
    + rewrite tally_replicate by done. unfold answers. lia.
    + by intros i g [-> _]%lookup_replicate.
    + intros i g [-> _]%lookup_replicate. split_and!; try done. by apply tx_of_none.
  - cbn [threads]. clear Hr. induction Hpl as [|seen seens Hseen _ IH]; constructor; [|exact IH].
    by apply turns_sale.
Qed.
End system.

Section theorems.
Context {S : Type} `{LendingLaws S, !Database S, !DatabaseLaws S, !Counter S, !CounterLaws S}.

(** The whole server, any number of threads making any number of turns, interleaved call
    by call: at every moment the committed stock is not negative and makes up the initial
    stock with the committed orders; the requests answered "1" are no more than the new
    orders, and no more than what Redis had to give; and when no thread is in the middle of
    a turn, they are exactly the new orders. *)
Theorem sale (s0 : S) (seens : list (list heap)) (x : config S unit) :
  (forall i s c mode r s', serve_call i s (mysql_autocommit c mode) r s' -> r = 0) ->
  (forall i s c r s', serve_call i s (mysql_commit c) r s' -> r = 0) ->
  (forall i s e s', serve_call i s cq_Next e s' -> plain_completion e) ->
  (forall i s r s', rtc serves s0 s -> serve_call i s redis_getOneConnect r s' -> r <> None) ->
  Forall (Forall plain_heap) seens -> lend_ok s0 -> 0 <= stock (view_of s0) -> tx (view_of s0) = None ->
  0 <= total (redis_of s0) -> 0 <= failed_count (redis_of s0) ->
  reachable serve_call (Config s0 (map thread_turns seens)) x ->
  supply s0 + unknown s0 (shared x) < 2 ^ 31 ->
  0 <= stock (view_of (shared x)) /\
  stock (view_of (shared x)) + sold (view_of (shared x)) = stock (view_of s0) + sold (view_of s0) /\
  answers s0 (shared x) <= sold (view_of (shared x)) - sold (view_of s0) <= stock (view_of s0) /\
  answers s0 (shared x) <= supply s0 + unknown s0 (shared x) /\
  (Forall (fun p => p = Ret tt) (threads x) ->
   answers s0 (shared x) = sold (view_of (shared x)) - sold (view_of s0)).
Proof using All.
  intros Hauto Hcommit Hplain Hctx Hpl Hok Hst Htx Ht Hf Hr Hb.
  destruct (reachable_sale s0 Hauto Hcommit Hplain seens x Hpl Hst Htx Hr)
    as (gs & [K1 K2 K3 _ _] & Hts).
  destruct (reachable_bound s0 Hctx seens x Hok Ht Hf Hr Hb) as [L1 L2].
  pose proof (tally_bounds confirmed gs). unfold answers in *. do 4 (split; [lia|]). intros Hend.
  enough (tally confirmed gs = 0) by lia.
  assert (Hboth : Forall2 (fun p g => p = Ret tt /\ follows_sale p g sale_end) (threads x) gs).
  { apply Forall2_same_length_lookup. apply Forall2_same_length_lookup in Hts as [Hl Hts].
    split; [done|]. intros i p g Hp Hg. split; [|by apply (Hts i)].
    exact (Forall_lookup_1 _ _ _ _ Hend Hp). }
  clear -Hboth. induction Hboth as [|p g ps gs [-> ->] _ IH]; [done|]. exact IH.
Qed.
End theorems.
