(* ===== verification/TicketsRef.v ===== *)
(** * A server at which the assumptions of [Tickets.v] hold

    The two pools, Redis, MySQL's goods row, [failedCount], [successNum] and the lock, all
    executable.  With it, threads of the server are run: a sale, and the schedules in which
    the counters go wrong. *)
From Stdlib Require Import ZArith Lia Ascii String.
From stdpp Require Import base tactics numbers strings relations gmap list.
From S2P Require Import Prelude Words Pool MysqlPool RedisPool.
From S2P Require Import CString Prog Threads Worker Ledger WorkerProps WorkerSafety Server ServerProps.
From S2P Require Import Stock StockRef Lending Tickets Sale.

Local Open Scope string_scope.
Local Open Scope prog_scope.
Local Open Scope Z_scope.

(** ** Redis *)

Definition error_reply : redisReply := RedisReply REDIS_REPLY_ERROR 0 (Some "ERR") 0.
Definition queued_reply : redisReply := RedisReply REDIS_REPLY_STATUS 0 (Some "QUEUED") 0.

(** The reply to a command; [rest] answers those that are not about the count. *)
Definition redis_reply (rest : redisReply) (n : conn) (c : command) (v : redis_view) : redisReply :=
  match queued v !! n with
  | Some q =>
      match c with
      | Exec =>
          if decide (n ∈ stale v) then nil_reply
          else RedisReply REDIS_REPLY_ARRAY 0 None (Z.of_nat (List.length q))
      | Watch | Multi => error_reply
      | _ => queued_reply
      end
  | None =>
      match c with
      | Watch | Multi | Unwatch | SetCount _ => status_reply
      | Get => if is_intb (total v) then string_reply (to_string (total v)) else error_reply
      | Exec => error_reply
      | _ => rest
      end
  end.

Definition redis_fn (rest : redisReply) (n : conn) (c : command) (v : redis_view)
    : option redisReply * redis_view :=
  if decide (n ∈ broken v) then (None, v) else
  let rep := redis_reply rest n c v in
  (Some rep, if type rep =? REDIS_REPLY_ERROR then refuse n c v else apply n c v).

Lemma error_reply_text : error_text error_reply.
Proof. exists "E"%char, "RR". split; [done|]. by vm_compute. Qed.

Lemma count_reply t n :
  c_atoi (str (string_reply (to_string t))) = Ret n -> is_intb t = true -> n = t.
Proof.
  intros Hn Ht. cbn [c_atoi string_reply str] in Hn. rewrite c_str_to_string in Hn.
  rewrite atoi_to_string in Hn by (unfold is_intb, is_int in *; lia). by injection Hn.
Qed.

Lemma redis_fn_effect rest n c v r v' :
  type rest <> REDIS_REPLY_ERROR -> redis_fn rest n c v = (r, v') -> redis_effect n c r v v'.
Proof.
  intros Hrest. unfold redis_fn, redis_effect. case_decide; [by intros [= <- <-]|].
  intros [= <- <-]. pose proof error_reply_text as Herr.
  unfold redis_reply. destruct (queued v !! n) as [q|] eqn:Hq.
  - destruct c; try (split; [exact Herr|done]); cbn;
      try (split; [unfold reply_fits; by rewrite Hq|done]).
    unfold reply_fits. rewrite Hq. case_decide; cbn; by split.
  - destruct c; try (split; [exact Herr|done]);
      try (cbn; split; [unfold reply_fits; by rewrite Hq|done]);
      try (rewrite (proj2 (Z.eqb_neq _ _) Hrest); split; [unfold reply_fits; by rewrite Hq|done]).
    destruct (is_intb (total v)) eqn:Hint; cbn; [|by split].
    split; [|done]. unfold reply_fits. rewrite Hq. intros m Hm _. by apply (count_reply _ _ Hm).
Qed.

(** ** The server *)

(** [MkServer pools redis goods success]: the pools and what is out of them; Redis with
    [failedCount] and its lock; the goods row; [successNum]. *)
Record server := MkServer {
  sv_pools : server_pools;
  sv_redis : redis_view;
  sv_goods : Stock.view;
  sv_success : Z;
}.

Definition set_pools p s := MkServer p (sv_redis s) (sv_goods s) (sv_success s).
Definition set_redis v s := MkServer (sv_pools s) v (sv_goods s) (sv_success s).
Definition set_goods v s := MkServer (sv_pools s) (sv_redis s) v (sv_success s).
Definition set_success n s := MkServer (sv_pools s) (sv_redis s) (sv_goods s) n.

(** Every user is registered with the key "k" and has no order, and can be stored; no request
    is counted in [work_list]. *)
Definition other_reply (f : string) : redisReply :=
  if String.eqb f "HGET usr_info %s" then string_reply "k"
  else if String.eqb f "HGET order_info %s" then nil_reply
  else if String.eqb f "HMSET usr_info  %s %s" then RedisReply REDIS_REPLY_STATUS 0 (Some "OK") 0
  else RedisReply REDIS_REPLY_INTEGER 0 None 0.

(** [refuses]: the statements that MySQL refuses a thread. *)
Definition server_fn (refuses : nat -> string -> bool) (i : nat) (s : server) (c : call)
    : option (ans c * server) :=
  match c return option (ans c * server) with
  | redisCommand (Some n) f args =>
      let '(r, v) := redis_fn (other_reply f) n (command_of f args) (sv_redis s) in
      Some (r, set_redis v s)
  | rwlock_wrlock =>
      match owner (sv_redis s) with
      | None => Some (tt, set_redis (set_owner (Some i) (sv_redis s)) s)
      | Some _ => None
      end
  | rwlock_unlock => Some (tt, set_redis (set_owner None (sv_redis s)) s)
  | read_failedCount => Some (failed_count (sv_redis s), s)
  | write_failedCount z => Some (tt, set_redis (set_failed z (sv_redis s)) s)
  | read_successNum => Some (sv_success s, s)
  | write_successNum z => Some (tt, set_success z s)
  | Finish _ a => Some (tt, set_redis (add_answered (b2z (String.eqb a "1")) (sv_redis s)) s)
  | mysql_query _ q =>
      if refuses i q
      then Some (1, set_goods (set_reading (reading (sv_goods s) ∖ {[ i ]}) (sv_goods s)) s)
      else '(e, v) ← query_result i q (sv_goods s); Some (e, set_goods v s)
  | mysql_fetch_rows res =>
      Some (goods_rows i (sv_goods s), s)
  | mysql_commit _ => Some (0, set_goods (committed_tx i (sv_goods s)) s)
  | mysql_rollback _ => Some (0, set_goods (dropped_tx i (sv_goods s)) s)
  | mysql_autocommit m z =>
      '(r, v) ← database all_well i (sv_goods s) (mysql_autocommit m z); Some (r, set_goods v s)
  | c =>
      if is_pool_call c then '(r, p) ← pools_fn (sv_pools s) c; Some (r, set_pools p s)
      else Some (each_its_worker i c, s)
  end.

#[export] Instance server_state refuses : ServerState server | 10 := served_by (server_fn refuses).
#[export, refine] Instance server_lending : Lending server := {|
  lend_ok s := lend_ok (sv_pools s);
  lent_redis s := lent_redis (sv_pools s);
  lent_mysql s := lent_mysql (sv_pools s);
|}.
Proof. Defined.
#[export] Instance server_counter : Counter server := sv_redis.

(** The answer of the server and its next state, call by call. *)
Ltac server_cases Hs :=
  first [ by injection Hs as _ <- | by injection Hs as <- <-
        | destruct (pools_fn _ _) as [[? ?]|]; [|done]; cbn in Hs; by injection Hs as <- <- ].

Lemma server_pools_step refuses i s c r s' :
  served_by (server_fn refuses) i s c r s' -> pools_serve (sv_pools s) c r (sv_pools s').
Proof.
  unfold served_by, pools_serve. intros Hs. destruct s as [ps v g n].
  destruct c; cbn [server_fn is_pool_call] in Hs |- *; try server_cases Hs.
  - destruct c; [destruct (redis_fn _ _ _ _)|]; server_cases Hs.
  - destruct (refuses i sql); [server_cases Hs|]. destruct (query_result _ _ _) as [[? ?]|]; [|done].
    server_cases Hs.
  - destruct (owner _); [done|]. server_cases Hs.
Qed.

Lemma other_reply_type f : type (other_reply f) <> REDIS_REPLY_ERROR.
Proof. unfold other_reply. by repeat case_match. Qed.

Lemma server_redis_step refuses i s c r s' :
  served_by (server_fn refuses) i s c r s' -> tickets_view i c r (sv_redis s) (sv_redis s').
Proof.
  unfold served_by. intros Hs. destruct s as [ps v g n].
  destruct c; cbn [server_fn is_pool_call tickets_view] in Hs |- *; try server_cases Hs.
  - destruct c as [c|]; [|server_cases Hs].
    destruct (redis_fn _ _ _ _) as [r' v'] eqn:Hr. injection Hs as <- <-.
    apply (redis_fn_effect _ _ _ _ _ _ (other_reply_type format) Hr).
  - destruct (refuses i sql); [server_cases Hs|]. destruct (query_result _ _ _) as [[? ?]|]; [|done].
    server_cases Hs.
  - destruct (owner _) eqn:Ho; [done|]. by injection Hs as <- <-.
Qed.

#[export] Instance server_lending_laws refuses :
  @LendingLaws server (server_state refuses) server_lending.
Proof.
  split. intros i s c r s' Hok Hpol Hs. apply server_pools_step in Hs.
  exact (@lend_law _ _ _ (@pools_laws _ _ _ _ _ _ _ _) i (sv_pools s) c r (sv_pools s') Hok Hpol Hs).
Qed.

#[export] Instance server_counter_laws refuses :
  @CounterLaws server (server_state refuses) server_counter.
Proof. intros i s c r s'. apply server_redis_step. Qed.

(** MySQL's part keeps the promises of [Stock.v]: the two developments fit one server. *)
#[export] Instance server_database : Database server := sv_goods.

Lemma server_goods_step refuses i s c r s' :
  served_by (server_fn refuses) i s c r s' -> mysql_view i c r (sv_goods s) (sv_goods s').
Proof.
  unfold served_by. intros Hs. destruct s as [ps v g n].
  destruct c; cbn [server_fn is_pool_call] in Hs |- *; try server_cases Hs.
  - destruct c; [destruct (redis_fn _ _ _ _)|]; server_cases Hs.
  - destruct (refuses i sql); [injection Hs as <- <-; exists g; by split; [left|]|].
    destruct (query_result _ _ _) as [[e w]|] eqn:Hq; [|done]. cbn in Hs. injection Hs as <- <-.
    apply query_result_view in Hq as (-> & w' & Hw & ->). by exists w'.
  - injection Hs as <- <-. apply (ref_rows i g None).
  - injection Hs as <- <-. cbn. destruct (mode =? OFF); [done|]. eauto.
  - destruct (owner _); [done|]. server_cases Hs.
Qed.

#[export] Instance server_database_laws refuses :
  @DatabaseLaws server (server_state refuses) server_database.
Proof. intros i s c r s'. apply server_goods_step. Qed.

(** ** Runs *)

(** [total] items in Redis, [failed] in [failedCount], [stock] in MySQL, a new server. *)
Definition opened (total failed stock : Z) : server :=
  MkServer fresh_pools (RedisView total ∅ ∅ ∅ ∅ 0 failed None 0) (View stock 0 None ∅ ∅) 0.

Definition three_workers : heap := <[3%positive := MkWorker PROCESS "" "" ""]> two_workers.
Definition obliging (i : nat) (q : string) : bool := false.

(** [n] threads that serve one request each; [from] is the server they start from. *)
Definition one_turn_each (n : nat) (from : server) : config server unit :=
  Config from (map thread_turns (replicate n [three_workers])).
Definition turns_of (l : list (nat * nat)) : list nat :=
  mjoin (map (fun '(i, n) => replicate n i) l).

(** Three requests for one item, call by call in turn. *)
Definition small_sale : config server unit :=
  play (server_fn obliging) (mjoin (replicate 80 [0; 1; 2]%nat)) (one_turn_each 3 (opened 1 0 1)).

Example small_sale_result :
  threads small_sale = [Ret tt; Ret tt; Ret tt] /\ answered (sv_redis (shared small_sale)) = 1 /\
  total (sv_redis (shared small_sale)) = 0 /\ stock (sv_goods (shared small_sale)) = 0.
Proof. vm_compute. done. Qed.

(** The Redis pool has room for ever. *)
Definition roomy (s : server) : Prop :=
  RedisPool.connect_count (redis_pool (sv_pools s)) = 0 /\
  RedisPool.MAX_CONNECT (redis_pool (sv_pools s)) = REDIS_MAX_CONNECTCOUNT.

Lemma roomy_get p d r p' d' :
  RedisPool.connect_count p = 0 -> RedisPool.MAX_CONNECT p = REDIS_MAX_CONNECTCOUNT ->
  RedisPool.getOneConnect (D:=gset conn) p d = Some (r, p', d') ->
  r <> None /\ RedisPool.connect_count p' = 0 /\ RedisPool.MAX_CONNECT p' = REDIS_MAX_CONNECTCOUNT.
Proof.
  intros Hc Hm. rewrite redis_getOneConnect_unfold. destruct (RedisPool.poollock p); [done|].
  destruct (RedisPool.redispool p) as [|c q]; [|by intros [= <- <- _]].
  unfold RedisPool.connect_if_room, RedisPool.createOneConnect. cbn. rewrite Hc, Hm. cbn.
  by intros [= <- <- _].
Qed.

Lemma roomy_step refuses s i c r s' :
  roomy s -> served_by (server_fn refuses) i s c r s' ->
  roomy s' /\ match c return ans c -> Prop with redis_getOneConnect => fun r => r <> None | _ => fun _ => True end r.
Proof.
  intros [Hc Hm] Hs. apply server_pools_step in Hs. unfold roomy. unfold pools_serve in Hs.
  destruct (sv_pools s) as [rp rd ro mp md mo] eqn:Hp. cbn in Hc, Hm.
  destruct c; cbn in Hs; try (by rewrite Hs).
  - destruct (RedisPool.getOneConnect rp rd) as [[[r1 p] d]|] eqn:Hg; [|done]. cbn in Hs.
    injection Hs as <- <-. destruct (roomy_get _ _ _ _ _ Hc Hm Hg) as (? & ? & ?). by split.
  - destruct (RedisPool.close c rp) as [p|] eqn:Hg; [|done]. cbn in Hs. injection Hs as _ <-. cbn.
    unfold RedisPool.close, RedisPool.lock in Hg. destruct c; [|by injection Hg as <-].
    destruct (RedisPool.poollock rp); cbn in Hg; [done|]. by injection Hg as <-.
  - destruct (MysqlPool.getOneConnect mp md) as [[[r1 p] d]|]; [|done]. cbn in Hs. by injection Hs as <- <-.
  - destruct (MysqlPool.close c mp) as [p|]; [|done]. cbn in Hs. by injection Hs as _ <-.
Qed.

Lemma opened_contexts refuses t f n i s r s' :
  rtc (@serves server (server_state refuses)) (opened t f n) s ->
  served_by (server_fn refuses) i s redis_getOneConnect r s' -> r <> None.
Proof.
  intros Hr Hs. assert (Hroom : roomy s).
  { assert (H0 : roomy (opened t f n)) by done. clear Hs. induction Hr as [|a b c (j & k & rk & Hk) _ IH]; [done|].
    apply IH. by apply (roomy_step refuses a j k rk). }
  exact (proj2 (roomy_step refuses s i _ r s' Hroom Hs)).
Qed.

Lemma tickets_bounded_witness :
  answered (sv_redis (shared small_sale)) = 1 /\
  total (redis_of (shared small_sale)) + (answered (redis_of (shared small_sale)) -
    answered (redis_of (opened 1 0 1))) <= supply (opened 1 0 1) + unknown (opened 1 0 1) (shared small_sale).
Proof.
  split; [apply small_sale_result|].
  refine (proj2 (@tickets_bounded server (server_state obliging) server_lending (server_lending_laws obliging)
    server_counter (server_counter_laws obliging) (opened 1 0 1) (replicate 3 [three_workers]) small_sale
    _ _ _ _ _ _)).
  - intros i s r s'. apply opened_contexts.
  - exact fresh_pools_ok.
  - done.
  - done.
  - apply play_reachable.
  - vm_compute. done.
Defined.

Lemma served_code refuses i s s' :
  (forall c r, served_by (server_fn refuses) i s (mysql_commit c) r s' -> r = 0) /\
  (forall c m r, served_by (server_fn refuses) i s (mysql_autocommit c m) r s' -> r = 0) /\
  (forall e, served_by (server_fn refuses) i s cq_Next e s' -> plain_completion e).
Proof.
  split_and!; intros; unfold served_by in *; cbn in *; simplify_eq; try done.
  by split; apply plainb_plain.
Qed.

Lemma plain_workers seen : seen ∈ replicate 3 [three_workers] -> Forall plain_heap seen.
Proof.
  intros ->%elem_of_replicate_inv. apply Forall_singleton.
  unfold three_workers, two_workers. repeat (apply map_Forall_insert_2; [by split; apply plainb_plain|]).
  apply map_Forall_empty.
Qed.

Lemma sale_witness :
  stock (sv_goods (shared small_sale)) = 0 /\
  answers (opened 1 0 1) (shared small_sale) =
    sold (view_of (shared small_sale)) - sold (view_of (opened 1 0 1)).
Proof.
  split; [apply small_sale_result|].
  destruct (@sale server (server_state obliging) server_lending (server_lending_laws obliging)
    server_database (server_database_laws obliging) server_counter (server_counter_laws obliging)
    (opened 1 0 1) (replicate 3 [three_workers]) small_sale) as (_ & _ & _ & _ & Hend).
  - intros i s c m r s'. apply (served_code obliging i s s').
  - intros i s c r s'. apply (served_code obliging i s s').
  - intros i s e s'. apply (served_code obliging i s s').
  - intros i s r s'. apply opened_contexts.
  - apply Forall_forall. exact plain_workers.
  - exact fresh_pools_ok.
  - done.
  - reflexivity.
  - done.
  - done.
  - apply play_reachable.
  - vm_compute. done.
  - apply Hend. rewrite (proj1 small_sale_result). by repeat apply Forall_cons_2.
Defined.

(** ** The counters go wrong *)

(** Both requests win; the second reads [successNum] before the first has written it. *)
Definition lost_update : config server unit :=
  play (server_fn obliging) (turns_of [(0, 33); (1, 80); (0, 60)]%nat) (one_turn_each 2 (opened 2 0 2)).

(** Two requests win and are answered "1", but [successNum] shows one: [++ *successNum_] is
    not under the lock, and the second thread reads it before the first has written it.
    The throttle goes by [successNum]. *)
Theorem success_lost :
  reachable (served_by (server_fn obliging)) (one_turn_each 2 (opened 2 0 2)) lost_update /\
  threads lost_update = [Ret tt; Ret tt] /\ answered (sv_redis (shared lost_update)) = 2 /\
  sold (sv_goods (shared lost_update)) = 2 /\ sv_success (shared lost_update) = 1.
Proof. split; [apply play_reachable|]. vm_compute. done. Qed.

(** One item is in Redis, one in [failedCount].  Thread 2 takes the item; threads 0 and 1
    then read a count of 0.  Thread 1 puts the failed item back, and thread 2's INSERT
    fails, so that one item is in each place again. *)
Definition third_insert_fails (i : nat) (q : string) : bool := Nat.eqb i 2 && is_insert q.
Definition late_refill : config server unit :=
  play (server_fn third_insert_fails) (turns_of [(2, 24); (0, 20); (1, 80); (2, 80); (0, 80)]%nat)
    (one_turn_each 3 (opened 1 1 2)).

(** On one schedule of one service: a failed purchase can be given back over an item that is
    there.  Thread 0, which had found nothing, now finds [failedCount] positive and sets
    [total_count] to it although the count is not 0 any more: an item is lost.  MySQL has
    two, nobody has bought, and Redis will sell one. *)
Theorem refill_loses_item :
  reachable (served_by (server_fn third_insert_fails)) (one_turn_each 3 (opened 1 1 2)) late_refill /\
  threads late_refill = [Ret tt; Ret tt; Ret tt] /\ answered (sv_redis (shared late_refill)) = 0 /\
  stock (sv_goods (shared late_refill)) = 2 /\
  total (sv_redis (shared late_refill)) + failed_count (sv_redis (shared late_refill)) = 1.
Proof. split; [apply play_reachable|]. vm_compute. done. Qed.
