(* ===== verification/Whole.v ===== *)
(** * The server over shared workers

    [Lending.v], [Tickets.v] and [Sale.v] are about threads that find a worker on a heap at
    each turn, whatever it is; [Objects.v] is about the workers as objects in shared memory.
    The second refines the first: what the threads do through the tags of the queue is what
    some sequence of heaps would have made them do.  So the theorems on the sale, on the
    items and on the connections hold of the server as it runs. *)
From Stdlib Require Import ZArith Lia Ascii String.
From stdpp Require Import base tactics numbers strings relations gmap list.
From S2P Require Import Prelude Words Pool CString Prog Threads Worker Ledger WorkerProps.
From S2P Require Import WorkerSafety Server ServerProps Objects Stock Lending Tickets Sale.

Local Open Scope string_scope.
Local Open Scope prog_scope.
Local Open Scope Z_scope.

(** ** A thread and its request *)

(** [good]: what is assumed of the names and keys in the workers' messages. *)
Section refinement.
Context (good : string * string -> Prop) (good_empty : good ("", "")).

Definition good_heap (ws : heap) : Prop := map_Forall (fun _ w => good (usrname w, usrkey w)) ws.

(** The two messages of the object a thread serves, as far as they are known. *)
Abbreviation messages := (option (string * string) * option string)%type.
Abbreviation asked := (holding * messages)%type.

Definition may_ask (q : option (string * string)) (r : string * string) : Prop :=
  match q with Some q => r = q | None => good r end.

Definition ask_pre (g : asked) (c : call) : Prop := hold_pre g.1 c.
Definition message_ok (m : messages) (c : call) : ans c -> Prop :=
  match c return ans c -> Prop with
  | load_request _ => may_ask m.1
  | load_response _ => fun r => forall s, m.2 = Some s -> r = s
  | _ => fun _ => True
  end.
Definition message_upd (m : messages) (e : event) : messages :=
  let '(Ev c r) := e in
  match c return ans c -> messages with
  | cq_Next => fun e => if got_event e then (Prog.request e, None) else m
  | store_response _ s => fun _ => (m.1, Some s)
  | _ => fun _ => m
  end r.

Definition ask_ok (g : asked) (c : call) (r : ans c) : Prop := hold_ok g.1 c r /\ message_ok g.2 c r.
Definition ask_upd (g : asked) (e : event) : asked := (hold_upd g.1 e, message_upd g.2 e).

(** ** Families given by what is not known yet *)

Definition img {T B} (X : T -> Prop) (body : T -> prog B) : prog B -> Prop :=
  fun q => exists x, X x /\ q = body x.

Abbreviation follows_family p g F Q :=
  (follows (family_pre (A:=unit) is_access ask_pre) (family_ok ask_ok) (family_upd is_access ask_upd)
     p (g, F) Q).

(** Ends that a larger family has too. *)
Record closed {A B} (Q : asked * (prog A -> Prop) -> outcome B -> Prop) : Prop := Closed {
  cl_mono g (F F' : prog A -> Prop) o : (forall q, F q -> F' q) -> Q (g, F) o -> Q (g, F') o;
  cl_undef g (F : prog A -> Prop) why : F (Undef why) -> Q (g, F) (UB why);
}.

Section steps.
Context {B : Type} (Q : asked * (prog unit -> Prop) -> outcome B -> Prop) (HQ : closed Q).

Lemma narrow {T U} (X : T -> Prop) (Y : U -> Prop) body body' (p : prog B) g :
  (forall y, Y y -> exists x, X x /\ body' y = body x) ->
  follows_family p g (img Y body') Q -> follows_family p g (img X body) Q.
Proof using HQ.
  intros HXY. apply follows_family_mono; [apply HQ|]. intros q (y & Hy & ->). by apply HXY.
Qed.

Lemma visible {T} (X : T -> Prop) c (k : ans c -> prog B) (body : T -> ans c -> prog unit) g :
  is_access c = false -> ask_pre g c -> (exists x, X x) ->
  (forall r, ask_ok g c r -> follows_family (k r) (ask_upd g (Ev c r)) (img X (fun x => body x r)) Q) ->
  follows_family (Vis c k) g (img X (fun x => Vis c (body x))) Q.
Proof using HQ.
  intros Hc Hpre [x Hx] Hk. split.
  - split; [done|]. exists (Vis c (body x)). split; [by exists x|]. intros _. by exists (body x).
  - intros r Hr. unfold family_upd. cbn [fst snd family_next]. rewrite Hc.
    apply (follows_family_mono _ _ _ _ _ _ (img X (fun x => body x r))); [apply HQ| |by apply Hk].
    intros q (y & Hy & ->). exists (body y). split; [by exists y|done].
Qed.

Lemma access {T} (X : T -> Prop) c (k : ans c -> prog B) (body : T -> prog unit) g :
  is_access c = true -> ask_pre g c -> (exists x, X x) ->
  (forall r, ask_ok g c r -> follows_family (k r) (ask_upd g (Ev c r)) (img X body) Q) ->
  follows_family (Vis c k) g (img X body) Q.
Proof using Type.
  intros Hc Hpre [x Hx] Hk. split.
  - split; [done|]. exists (body x). split; [by exists x|congruence].
  - intros r Hr. unfold family_upd. cbn [fst snd family_next]. rewrite Hc. by apply Hk.
Qed.

(** The part of a turn that is about no object is the same on both sides. *)
Lemma alike {T C} (X : T -> Prop) (p : prog C) (f : C -> prog B) (ctx : T -> prog C -> prog unit) g :
  (forall x c k, ctx x (Vis c k) = Vis c (fun r => ctx x (k r))) ->
  (forall x why, ctx x (Undef why) = Undef why) ->
  all_calls no_object p -> (exists x, X x) ->
  (forall a, follows_family (f a) g (img X (fun x => ctx x (Ret a))) Q) ->
  follows_family (bind p f) g (img X (fun x => ctx x p)) Q.
Proof using HQ.
  intros Hvis Hundef Hp HX Hf. induction p as [a|c k IH|why]; cbn [bind all_calls] in *; [done|..].
  - destruct Hp as [Hc Hk].
    apply (narrow _ X _ (fun x => Vis c (fun r => ctx x (k r)))); [intros x Hx; by exists x|].
    assert (Hupd : forall r, ask_upd g (Ev c r) = g).
    { intros r. destruct g as [h q]. unfold ask_upd. cbn [fst snd]. rewrite no_object_upd by done. by destruct c. }
    apply (visible X c _ (fun x r => ctx x (k r))); [by destruct c|by apply no_object_pre|done|].
    intros r _. rewrite Hupd. by apply IH.
  - destruct HX as [x Hx]. apply (cl_undef _ HQ). by exists x.
Qed.
End steps.

(** ** A turn over shared workers *)

(** What is left of a thread after its turn: some of the turns in [X]. *)
Definition turn_left (X : list heap -> Prop) (g : asked * (prog unit -> Prop)) (o : outcome unit) : Prop :=
  match o with
  | Val _ => g.1.1 = Nothing /\ forall seen, X seen -> g.2 (thread_turns seen)
  | UB why => g.2 (Undef why)
  end.

Lemma turn_left_closed X : closed (turn_left X).
Proof using Type.
  split; [|done]. intros g F F' [a|why] HF; cbn; [|apply HF]. intros [Hg Hs]. split; auto.
Qed.

(** The work of [Proceed] on [w], and the turns after it. *)
Definition proceeding (a : address) (w : Worker) (ws : heap) (seen : list heap) : prog unit :=
  do ws <- (do r <- Proceed a w; Ret (update_heap a r ws)); thread_turns seen.

Lemma some_seen {T} (X : list heap -> Prop) (P : T -> Prop) :
  (exists seen, X seen) -> (exists t, P t) -> exists y : T * list heap, P y.1 /\ X y.2.
Proof using Type. intros [seen Hs] [t Ht]. by exists (t, seen). Qed.

Lemma may_ask_some q : exists r, may_ask q r.
Proof using good_empty. destruct q as [q|]; [by exists q|by exists ("", "")]. Qed.

(** One call that both make. *)
Ltac both := apply (visible _ (turn_left_closed _)); [done|try done|try done|intros ? ?; cbn beta].
(** One call on the members. *)
Ltac own := apply access; [done|try done|try done|intros ? ?; cbn beta].

(** From the request on. *)
Lemma serving_family X a q (ws : string * string -> heap) rc mc next :
  (exists seen, X seen) ->
  follows_family
    (let! req := load_request a in
     do result <- handle_request (MkWorker FINISH req.1 req.2 "") rc mc;
     store_response a result;;!
     redis_close rc;;!
     mysql_close mc;;!
     let! response := load_response a in
     Finish a response;;!
     Ret ()) (Answering a, (q, None))
    (img (fun y : string * string * list heap => may_ask q y.1 /\ X y.2) (fun y =>
       do ws <- (do r <-
           (do result <- handle_request (MkWorker FINISH y.1.1 y.1.2 "") rc mc;
            redis_close rc;;!
            mysql_close mc;;!
            Finish a result;;!
            Ret (Some (MkWorker FINISH y.1.1 y.1.2 result), next)); Ret (update_heap a r (ws y.1)));
       thread_turns y.2)) (turn_left X).
Proof using good_empty.
  intros HX. apply access; [done|done|by apply some_seen, may_ask_some|]. intros r [_ Hr].
  cbn in Hr. change (ask_upd _ _) with (Answering a, (q, @None string)).
  apply (narrow _ (turn_left_closed X) _ X _ (fun seen =>
    do ws <- (do p <-
        (do result <- handle_request (MkWorker FINISH r.1 r.2 "") rc mc;
         redis_close rc;;!
         mysql_close mc;;!
         Finish a result;;!
         Ret (Some (MkWorker FINISH r.1 r.2 result), next)); Ret (update_heap a p (ws r)));
    thread_turns seen)).
  { intros seen Hs. by exists (r, seen). }
  apply (alike _ (turn_left_closed X) X _ _ (fun seen hr =>
    do ws <- (do p <-
        (do result <- hr;
         redis_close rc;;!
         mysql_close mc;;!
         Finish a result;;!
         Ret (Some (MkWorker FINISH r.1 r.2 result), next)); Ret (update_heap a p (ws r)));
    thread_turns seen)); [done|done|apply request_no_object|done|].
  intros result. cbn [bind]. own. both. both. own. destruct H2 as [_ Hs]. rewrite (Hs result) by done.
  both. split; [done|]. intros seen Hs'. by exists seen.
Qed.

(** The families of a turn that has taken the tag [a]: by what the heap holds there. *)
Definition found (X : list heap -> Prop) (w : Worker * list heap) : Prop :=
  good (usrname w.1, usrkey w.1) /\ X w.2.

(** A worker on the heap that may have brought this request. *)
Definition bringer (q : option (string * string)) (u : string * string) : Worker :=
  match q with Some _ => MkWorker PROCESS "" "" "" | None => MkWorker PROCESS u.1 u.2 "" end.

Lemma Proceed_family X a q :
  (exists seen, X seen) ->
  follows_family (Proceed_object a) (Took a, (q, None))
    (img (found X) (fun y => proceeding a (receive q y.1) {[a := y.1]} y.2)) (turn_left X).
Proof using good_empty.
  intros HX. assert (Hfound : exists y, found X y).
  { destruct HX as [seen Hs]. by exists (MkWorker CREATE "" "" "", seen). }
  unfold Proceed_object. cbn [Proceed_mem]. apply access; [done|by left|done|].
  intros s [[-> | ->] _]; cbn [status_code Z.eqb Pos.eqb].
  - change (ask_upd _ _) with (Process a, (q, @None string)). 
    apply access; [done|by right; left|done|]. intros s [-> _]. cbn [status_code Z.eqb Pos.eqb].
    change (ask_upd _ _) with (Process a, (q, @None string)).
    apply (narrow _ (turn_left_closed X) _ (fun y : string * string * list heap => may_ask q y.1 /\ X y.2) _
      (fun y => proceeding a (MkWorker PROCESS y.1.1 y.1.2 "") {[a := bringer q y.1]} y.2)).
    { intros [[u k] seen] [Hq Hs]. cbn in Hq, Hs. destruct q as [[u' k']|].
      - injection Hq as -> ->. by exists (MkWorker PROCESS "" "" "", seen).
      - by exists (MkWorker PROCESS u k "", seen). }
    assert (Hy : exists y : string * string * list heap, may_ask q y.1 /\ X y.2)
      by by apply some_seen, may_ask_some.
    unfold proceeding, Proceed. cbn [status_ bind set_status usrname usrkey response_].
    both. both. own. { left. done. }
    change (ask_upd _ _) with (Serving a, (q, @None string)).
    both. both. { by exists a. }
    change (ask_upd _ _) with (Storage a r3, (q, @None string)). unfold Worker_create. cbn [bind].
    own. { by exists a. } change (ask_upd _ _) with (Built a r3, (q, @None string)).
    own. { right; right; right. by exists a. }
    destruct H5 as [Hz _]. cbn in Hz. subst r5. cbn [status_code Z.eqb bind].
    change (ask_upd _ _) with (Built a r3, (q, @None string)).
    own. { right. by exists a. } change (ask_upd _ _) with (Ready a r3, (q, @None string)).
    both. { by exists a. } change (ask_upd _ _) with (Answering a, (q, @None string)).
    by apply (serving_family X a q (fun u => {[a := bringer q u]})).
  - change (ask_upd _ _) with (Ending a, (q, @None string)).
    apply access; [done|by right; right; left|done|]. intros s [-> _]. cbn [status_code Z.eqb Pos.eqb].
    change (ask_upd _ _) with (Ending a, (q, @None string)).
    apply access; [done|by right; right; left|done|]. intros s [-> _]. cbn [status_code Z.eqb Pos.eqb].
    change (ask_upd _ _) with (Ending a, (q, @None string)).
    apply (narrow _ (turn_left_closed X) _ X _ (fun seen =>
      proceeding a (MkWorker FINISH "" "" "") {[a := MkWorker FINISH "" "" ""]} seen)).
    { intros seen Hs. exists (MkWorker FINISH "" "" "", seen). by destruct q as [[u k]|]. }
    unfold proceeding, Proceed. cbn [status_ bind]. both. both. both. both.
    split; [done|]. intros seen Hs. by exists seen.
Qed.

Lemma HandleRPCS_family X m :
  (exists seen, X seen) ->
  follows_family HandleRPCS_object (Nothing, m)
    (img (fun y : heap * list heap => good_heap y.1 /\ X y.2)
      (fun y => do _ <- HandleRPCS_turn y.1; thread_turns y.2)) (turn_left X).
Proof using good_empty.
  intros HX. unfold HandleRPCS_object, HandleRPCS_turn.
  assert (Hheap : forall P : heap -> Prop, (exists ws, P ws) -> exists y : heap * list heap, P y.1 /\ X y.2).
  { intros P HP. by apply some_seen. }
  assert (Hsome : exists y : heap * list heap, good_heap y.1 /\ X y.2).
  { apply Hheap. exists ∅. apply map_Forall_empty. }
  apply (alike _ (turn_left_closed X) _ throttle _ (fun (y : heap * list heap) p =>
    do ws <- (do go <- p;
      if negb go then Ret y.1 else
      let! e := cq_Next in
      if negb (got_event e) then Undef "assertion failed" else
      if negb (ok e) then Undef "assertion failed" else
      match y.1 !! tag e with
      | None => Undef "dangling tag"
      | Some w => do r <- Proceed (tag e) (receive (Prog.request e) w); Ret (update_heap (tag e) r y.1)
      end); thread_turns y.2)); [done|done|apply throttle_no_object|done|].
  intros go. destruct go; cbn [negb bind]; [|split; [done|]; intros seen Hs; exists (∅, seen);
    split; [split; [apply map_Forall_empty|done]|done]].
  both. unfold ask_upd. cbn [fst snd hold_upd message_upd].
  destruct (got_event r); cbn [negb]; [|destruct Hsome as [y Hy]; by exists y].
  destruct (negb (ok r)); [destruct Hsome as [y Hy]; by exists y|].
  apply (narrow _ (turn_left_closed X) _ (found X) _
    (fun y => proceeding (tag r) (receive (Prog.request r) y.1) {[tag r := y.1]} y.2)); [|by apply Proceed_family].
  intros [w seen] [Hw Hs]. exists ({[tag r := w]}, seen). cbn [fst snd]. split.
  - split; [by apply map_Forall_singleton|done].
  - rewrite lookup_singleton_eq. done.
Qed.

(** The loops of a number of turns. *)
Definition loops (n : nat) (seen : list heap) : Prop := List.length seen = n /\ Forall good_heap seen.

Lemma some_loops n : exists seen, loops n seen.
Proof using Type.
  exists (replicate n ∅). split; [apply length_replicate|]. apply Forall_replicate, map_Forall_empty.
Qed.

Lemma object_turns_family n m :
  follows_family (object_turns n) (Nothing, m) (img (loops n) thread_turns) (family_end (G:=asked)).
Proof using good_empty.
  revert m. induction n as [|n IH]; intros m; [exists []; by split; [split|]|].
  cbn [object_turns]. apply follows_bind.
  apply (follows_mono _ _ _ _ _ (turn_left (loops n))).
  - intros [[h m'] F] [u|why]; [|done]. cbn [turn_left fst snd]. intros [-> HF].
    apply (follows_family_mono _ _ _ _ _ _ (img (loops n) thread_turns)); [|by intros q (x & Hx & ->); apply HF|apply IH].
    intros g F1 F2 [a|why] HF'; apply HF'.
  - apply (narrow _ (turn_left_closed _) _ (fun y : heap * list heap => good_heap y.1 /\ loops n y.2) _
      (fun y => do _ <- HandleRPCS_turn y.1; thread_turns y.2)).
    + intros [ws seen] [Hws [Hl Hseen]]. exists (ws :: seen). split; [|done]. split; [cbn in *; by rewrite Hl|].
      by constructor.
    + apply HandleRPCS_family, some_loops.
Qed.

(** ** The messages stay what they are *)

(** The object a thread serves. *)
Definition subject (g : holding) : option address :=
  match g with
  | Nothing => None
  | Took a | Process a | Ending a | Serving a | Storage a _ | Built a _ | Ready a _ | Answering a => Some a
  end.

Lemma subject_owned g a : subject g = Some a -> a ∈ owns g.
Proof using Type. destruct g; cbn; intros [= ->]; by constructor. Qed.

Definition known (v : objects) (a : address) (m : messages) : Prop :=
  (forall q, m.1 = Some q -> request_at v !! a = Some q) /\
  (forall s, m.2 = Some s -> response_at v !! a = Some s).

Definition asked_inv (n : Z) (v : objects) (gs : list asked) : Prop :=
  objects_inv n v (fst <$> gs) /\
  forall i g a, gs !! i = Some g -> subject g.1 = Some a -> known v a g.2.

(** A call changes the messages of no object but the caller's and the one that is delivered. *)
Lemma messages_kept v v' g c r a :
  hold_pre g c -> objects_view c r v v' -> (a ∉ owns g) -> pending v !! a = None ->
  request_at v' !! a = request_at v !! a /\ response_at v' !! a = response_at v !! a.
Proof using Type.
  intros Hpre Hview Ha Hp.
  assert (Hne : forall b, touches c = Some b -> b <> a).
  { intros b Hb ->. by apply Ha, touches_owned with c. }
  destruct c; cbn in Hview, Hne; try (by subst v').
  - by destruct Hview as [_ [z ->]].
  - subst v'. specialize (Hne _ eq_refl). cbn. by rewrite !lookup_delete_ne by done.
  - destruct (got_event r); [|by subst]. destruct Hview as [[b Hb] ->]. cbn.
    assert (tag r <> a) by congruence. destruct (Prog.request r); [|done]. by rewrite lookup_insert_ne.
  - subst v'. specialize (Hne _ eq_refl). cbn. by rewrite !lookup_insert_ne by done.
  - by destruct Hview as [-> _].
  - by destruct Hview as [-> _].
  - by destruct Hview as [-> _].
  - subst v'. specialize (Hne _ eq_refl). cbn. by rewrite !lookup_insert_ne by done.
Qed.

Lemma messages_own v v' g m c r a :
  hold_fits v g -> hold_pre g c -> objects_view c r v v' -> (forall a, subject g = Some a -> known v a m) ->
  subject (hold_upd g (Ev c r)) = Some a -> known v' a (message_upd m (Ev c r)).
Proof using Type.
  intros Hf Hpre Hview Hm Hsub. destruct c; cbn in Hpre, Hview, Hsub; cbn [message_upd];
    try (by subst v'; apply Hm).
  - destruct Hpre as [b ->]. destruct Hview as [_ [z ->]]. by apply Hm.
  - done.
  - destruct Hpre as [b ->]. subst v'. by apply Hm.
  - destruct (got_event r); [|by subst]. destruct Hview as [_ ->]. cbn in Hsub. injection Hsub as <-.
    split; [|done]. cbn. intros q ->. by rewrite lookup_insert_eq.
  - destruct Hpre as [b ->]. destruct Hf as [Hne _]. injection Hsub as <-. subst v'.
    destruct (Hm b eq_refl) as [H1 H2]. split; cbn; intros x Hx; rewrite lookup_insert_ne by done; auto.
  - destruct Hview as [-> _]. apply Hm. destruct Hpre as [-> |[-> |[-> |[b ->]]]]; cbn in *; try done.
    by destruct (r =? 1).
  - subst v'. apply Hm. by destruct Hpre as [[-> _]|[b [-> _]]].
  - destruct Hview as [-> _]. by apply Hm.
  - destruct Hview as [-> _]. by apply Hm.
  - subst g v'. injection Hsub as <-. destruct (Hm this eq_refl) as [H1 _]. split; [done|].
    cbn. intros s [= <-]. by rewrite lookup_insert_eq.
Qed.

(** ** The refinement *)

Section system.
Context {S : Type} `{HeapLaws S} (s0 : S).
Hypothesis good_requests : forall i s a q s',
  rtc serves s0 s -> serve_call i s (load_request a) q s' -> good q.

Lemma message_answers i s c r s' g m :
  rtc serves s0 s -> serve_call i s c r s' -> hold_pre g c -> (forall a, subject g = Some a -> known (objects_of s) a m) ->
  message_ok m c r.
Proof using All.
  intros Hst Hserve Hpre Hm. pose proof (heap_law i s c r s' Hserve) as Hview.
  destruct c; try done; cbn in Hpre, Hview |- *; subst g; destruct Hview as [_ Hr];
    destruct (Hm this eq_refl) as [K1 K2].
  - unfold may_ask. destruct m.1 as [q|] eqn:Hq; [by apply Hr, K1|by eapply good_requests].
  - intros s1 Hs. by apply Hr, K2.
Qed.

Lemma asked_inv_step n i s gs g c r s' :
  rtc serves s0 s /\ asked_inv n (objects_of s) gs -> gs !! i = Some g -> ask_pre g c ->
  serve_call i s c r s' ->
  ask_ok g c r /\ rtc serves s0 s' /\ asked_inv n (objects_of s') (<[i := ask_upd g (Ev c r)]> gs).
Proof using All.
  intros (Hst & Hinv & Hknown) Hi Hpre Hserve. destruct g as [g m]. unfold ask_pre in Hpre. cbn in Hpre.
  assert (Hgi : (fst <$> gs) !! i = Some g) by by rewrite list_lookup_fmap, Hi.
  destruct (objects_inv_call n i s (fst <$> gs) g c r s' Hinv Hgi Hpre Hserve) as [Hok Hinv'].
  pose proof (heap_law i s c r s' Hserve) as Hview. split.
  - split; [done|]. apply (message_answers i s c r s' g); [done..|]. intros a. apply (Hknown i _ a Hi).
  - split; [eapply rtc_r; [exact Hst|by exists i, c, r]|].
    split; [by rewrite list_fmap_insert|]. intros j gj a. destruct (decide (j = i)) as [->|Hj].
    + rewrite list_lookup_insert_eq by by eapply lookup_lt_Some. intros [= <-] Hsub.
      apply (messages_own (objects_of s) _ g); [by apply (oi_fits _ _ _ Hinv i)|done..| |done].
      intros b. apply (Hknown i _ b Hi).
    + rewrite list_lookup_insert_ne by done. intros Hgj Hsub.
      assert (Hfj : (fst <$> gs) !! j = Some gj.1) by by rewrite list_lookup_fmap, Hgj.
      pose proof (subject_owned _ _ Hsub) as Hown.
      destruct (messages_kept (objects_of s) (objects_of s') g c r a) as [Hq Hs]; [done..| | |].
      * intros Hg. apply Hj. by apply (oi_apart _ _ _ Hinv j i gj.1 g a).
      * by apply (oi_owned _ _ _ Hinv j gj.1).
      * unfold known. rewrite Hq, Hs. by apply (Hknown j).
Qed.

(** The turns of the threads over shared workers, seen as turns over heaps. *)
Lemma objects_refine_turns (turns : list nat) x :
  all_waiting (objects_of s0) -> reachable serve_call (Config s0 (map object_turns turns)) x ->
  exists seens x', Forall2 loops turns seens /\
    reachable (weakly serve_call is_access) (Config s0 (map thread_turns seens)) x' /\
    silent serve_call is_access (shared x') (shared x) /\
    Forall2 (shows is_access) (threads x) (threads x').
Proof using All.
  intros Hs Hr.
  destruct (hiding_refines serve_call is_access ask_pre ask_ok ask_upd
    (fun s gs => rtc serves s0 s /\ asked_inv (waiting (pending (objects_of s0))) (objects_of s) gs)
    (asked_inv_step (waiting (pending (objects_of s0)))) s0 (map object_turns turns)
    (replicate (List.length turns) (Nothing, (None, None)))
    (map (fun n => img (loops n) thread_turns) turns) x) as (qs & x' & Hqs & Hrest).
  - split; [apply rtc_refl|]. split; [|intros i g a [-> _]%lookup_replicate [=]].
    rewrite fmap_replicate. by apply objects_inv_start.
  - by rewrite length_replicate, length_map.
  - clear Hr. induction turns as [|n turns IH]; constructor; [apply object_turns_family|exact IH].
  - exact Hr.
  - assert (Hseens : exists seens, Forall2 loops turns seens /\ qs = map thread_turns seens).
    { clear -Hqs. revert qs Hqs. induction turns as [|n turns IH]; intros qs Hqs.
      - apply Forall2_nil_inv_l in Hqs as ->. exists []. by split.
      - apply Forall2_cons_inv_l in Hqs as (q & qs' & (seen & Hseen & ->) & Hqs' & ->).
        destruct (IH _ Hqs') as (seens & Hf & ->). exists (seen :: seens). split; [by constructor|done]. }
    destruct Hseens as (seens & Hf & ->). exists seens, x'. by split.
Qed.
End system.
End refinement.

(** ** The sale by threads that share their workers *)

(** The service with the accesses to the members hidden keeps what it promises. *)

Section weak.
Context {S : Type} `{ServerState S}.

Definition weak : ServerState S := weakly serve_call is_access.

Lemma silent_serves (s s' : S) : silent serve_call is_access s s' -> rtc (serves (S:=S)) s s'.
Proof. apply rtc_subrel. intros a b (i & c & r & _ & Hs). by exists i, c, r. Qed.

Lemma weak_serves (s s' : S) : rtc (@serves S weak) s s' -> rtc (serves (S:=S)) s s'.
Proof.
  induction 1 as [|a b d (i & c & r & a' & Hsil & Hs) _ IH]; [apply rtc_refl|].
  etrans; [by apply silent_serves|]. apply (rtc_l _ a' b); [by exists i, c, r|exact IH].
Qed.

Lemma silent_lending `{!Lending S, !LendingLaws S} (s s' : S) :
  silent serve_call is_access s s' -> lend_ok s -> lend_ok s' /\ lent s' = lent s.
Proof.
  induction 1 as [|a b d (i & c & r & Hc & Hs) _ IH]; [done|]. intros Hok.
  assert (Hpol : polite a c) by (destruct c; first [exact I|discriminate Hc]).
  destruct (lend_law i a c r b Hok Hpol Hs) as [Hok' Hview].
  destruct (IH Hok') as [? ->]. split; [done|].
  destruct c; try done; destruct Hview as [Hv1 Hv2]; unfold lent in *; cbn in *; by rewrite Hv1, Hv2.
Qed.

Lemma silent_counter `{!Counter S, !CounterLaws S} (s s' : S) :
  silent serve_call is_access s s' -> redis_of s' = redis_of s.
Proof.
  induction 1 as [|a b d (i & c & r & Hc & Hs) _ IH]; [done|]. rewrite IH.
  pose proof (counter_law i a c r b Hs) as Hview. by destruct c.
Qed.

Lemma silent_database `{!Database S, !DatabaseLaws S} (s s' : S) :
  silent serve_call is_access s s' -> view_of s' = view_of s.
Proof.
  induction 1 as [|a b d (i & c & r & Hc & Hs) _ IH]; [done|]. rewrite IH.
  pose proof (serve_view i a c r b Hs) as Hview. by destruct c.
Qed.

Lemma weak_lending_laws `{!Lending S, !LendingLaws S} : @LendingLaws S weak _.
Proof.
  split. intros i s c r s' Hok Hpol (s1 & Hsil & Hs).
  destruct (silent_lending s s1 Hsil Hok) as [Hok1 Hl].
  assert (Hpol1 : polite (S:=S) s1 c).
  { pose proof Hl as Hl'. unfold lent in Hl'. injection Hl' as Hl1 Hl2.
    destruct c; try exact I; destruct c; try exact I; cbn in Hpol |- *; [by rewrite Hl1|by rewrite Hl2]. }
  destruct (lend_law (S:=S) i s1 c r s' Hok1 Hpol1 Hs) as [Hok' Hview]. rewrite Hl in Hview. by split.
Qed.

Lemma weak_counter_laws `{!Counter S, !CounterLaws S} : @CounterLaws S weak _.
Proof.
  intros i s c r s' (s1 & Hsil & Hs). rewrite <- (silent_counter s s1 Hsil). by apply (counter_law i).
Qed.

Lemma weak_database_laws `{!Database S, !DatabaseLaws S} : @DatabaseLaws S weak _.
Proof.
  intros i s c r s' (s1 & Hsil & Hs). rewrite <- (silent_database s s1 Hsil). by apply (serve_view i).
Qed.
End weak.

Section theorems.
Context {S : Type} `{ServerState S, !Heap S, !HeapLaws S, !Lending S, !LendingLaws S}.

Definition plain_message (q : string * string) : Prop := plain q.1 /\ plain q.2.

Lemma plain_empty : plain_message ("", "").
Proof using Type. by split; intros [|n] c. Qed.

Lemma shows_done (ts ts' : list (prog unit)) :
  Forall2 (shows is_access) ts ts' -> Forall (fun p => p = Ret tt) ts -> Forall (fun p => p = Ret tt) ts'.
Proof using Type.
  induction 1 as [|p q ts ts' Hp _ IH]; [done|]. intros [-> Hts]%Forall_cons. constructor; [done|auto].
Qed.

(** C1: the whole server as it runs: any number of threads, each making any number of turns of
    [HandleRPCS] on the workers that gRPC's queue gives it, all sharing the heap, the queue,
    the pools, Redis, MySQL and the counters, interleaved call by call.  At every moment the
    committed stock is not negative and makes up the initial stock with the committed orders;
    the requests answered "1" are no more than the new orders, and no more than what Redis had
    to give; and when every thread has come to the end of a turn, they are exactly the new
    orders. *)
Theorem server_sale `{!Database S, !DatabaseLaws S, !Counter S, !CounterLaws S}
    (s0 : S) (turns : list nat) (x : config S unit) :
  (forall i s c mode r s', serve_call i s (mysql_autocommit c mode) r s' -> r = 0) ->
  (forall i s c r s', serve_call i s (mysql_commit c) r s' -> r = 0) ->
  (forall i s e s', serve_call i s cq_Next e s' -> plain_completion e) ->
  (forall i s a q s', rtc serves s0 s -> serve_call i s (load_request a) q s' -> plain_message q) ->
  (forall i s r s', rtc serves s0 s -> serve_call i s redis_getOneConnect r s' -> r <> None) ->
  all_waiting (objects_of s0) -> lend_ok s0 -> 0 <= stock (view_of s0) -> tx (view_of s0) = None ->
  0 <= total (redis_of s0) -> 0 <= failed_count (redis_of s0) ->
  reachable serve_call (Config s0 (map object_turns turns)) x ->
  supply s0 + unknown s0 (shared x) < 2 ^ 31 ->
  0 <= stock (view_of (shared x)) /\
  stock (view_of (shared x)) + sold (view_of (shared x)) = stock (view_of s0) + sold (view_of s0) /\
  answers s0 (shared x) <= sold (view_of (shared x)) - sold (view_of s0) <= stock (view_of s0) /\
  answers s0 (shared x) <= supply s0 + unknown s0 (shared x) /\
  (Forall (fun p => p = Ret tt) (threads x) ->
   answers s0 (shared x) = sold (view_of (shared x)) - sold (view_of s0)).
Proof using All.
  intros Hauto Hcommit Hplain Hmsg Hctx Hw Hok Hst Htx Ht Hf Hr Hb.
  destruct (objects_refine_turns plain_message plain_empty s0 Hmsg turns x Hw Hr)
    as (seens & x' & Hseens & Hr' & Hsil & Hts).
  unfold answers, unknown in *.
  rewrite (silent_counter _ _ Hsil) in Hb |- *. rewrite (silent_database _ _ Hsil).
  destruct (@sale S weak _ weak_lending_laws _ weak_database_laws _ weak_counter_laws s0 seens x')
    as (K1 & K2 & K3 & K4 & K5); try done.
  - intros i s c mode r s' (s1 & _ & Hs). by apply Hauto in Hs.
  - intros i s c r s' (s1 & _ & Hs). by apply Hcommit in Hs.
  - intros i s e s' (s1 & _ & Hs). by apply Hplain in Hs.
  - intros i s r s' Hs0 (s1 & Hsil' & Hs). apply (Hctx i s1 r s'); [|done].
    etrans; [by apply weak_serves|by apply silent_serves].
  - apply Forall_forall. intros seen Hin. apply list_elem_of_lookup in Hin as [i Hi].
    by destruct (Forall2_lookup_r _ _ _ _ _ Hseens Hi) as (n & _ & _ & Hgood).
  - do 4 (split; [done|]). intros Hend. apply K5. by apply (shows_done (threads x)).
Qed.

(** The thread's next call, when it is about a connection, is that of its turns over heaps. *)
Lemma shows_call (ts ts' : list (prog unit)) i c k :
  Forall2 (shows is_access) ts ts' -> ts !! i = Some (Vis c k) -> is_access c = false ->
  exists k', ts' !! i = Some (Vis c k').
Proof using Type.
  intros Hts Hi Hc. destruct (Forall2_lookup_l _ _ _ _ _ Hts Hi) as (q & Hq & Hs).
  destruct (Hs Hc) as [k' ->]. by exists k'.
Qed.

Lemma used_no_access c n : redis_used c = Some n \/ mysql_used c = Some n -> is_access c = false.
Proof using Type. by destruct c; intros [|]. Qed.

(** C4: any number of threads of the server over shared workers and over pools that lend each
    connection once: two threads are never about to use the same Redis context or the same
    MySQL connection, whatever the interleaving and the answers; and a connection in use is
    out of its pool. *)
Theorem server_exclusive (s0 : S) (turns : list nat) (x : config S unit) :
  all_waiting (objects_of s0) -> lend_ok s0 ->
  reachable serve_call (Config s0 (map object_turns turns)) x ->
  (forall i j c c' k k' n,
     threads x !! i = Some (Vis c k) -> threads x !! j = Some (Vis c' k') ->
     redis_used c = Some n /\ redis_used c' = Some n \/ mysql_used c = Some n /\ mysql_used c' = Some n ->
     i = j) /\
  (forall i c k n, threads x !! i = Some (Vis c k) ->
     (redis_used c = Some n -> n ∈ lent_redis (shared x)) /\
     (mysql_used c = Some n -> n ∈ lent_mysql (shared x))).
Proof using All.
  intros Hw Hok Hr.
  destruct (objects_refine_turns (fun _ => True) I s0 ltac:(done) turns x Hw Hr)
    as (seens & x' & _ & Hr' & Hsil & Hts).
  destruct (@threads_exclusive S weak _ weak_lending_laws s0 seens x' Hok Hr') as [K1 K2].
  assert (Hl : lent (shared x) = lent (shared x')).
  { destruct (@threads_custody S weak _ weak_lending_laws s0 seens x' Hok Hr') as (gs & [Hok' _ _] & _).
    by apply silent_lending. }
  split.
  - intros i j c c' k k' n Hi Hj Hn.
    destruct (shows_call _ _ i c k Hts Hi) as [k1 Hi']; [apply (used_no_access c n); naive_solver|].
    destruct (shows_call _ _ j c' k' Hts Hj) as [k2 Hj']; [apply (used_no_access c' n); naive_solver|].
    by apply (K1 i j c c' k1 k2 n).
  - intros i c k n Hi. unfold lent in Hl. injection Hl as -> ->.
    split; intros Hn; (destruct (shows_call _ _ i c k Hts Hi) as [k1 Hi'];
      [apply (used_no_access c n); by auto|]); by apply (K2 i c k1 n).
Qed.
End theorems.
