(* ===== verification/WholeRef.v ===== *)
(** * A whole server that runs

    The server of [TicketsRef.v] (pools, Redis, MySQL, counters) with the heap and the queue of
    [Objects.v]: every service that the threads of [Whole.v] call, executable, and keeping
    every promise that the theorems there ask for. *)
From Stdlib Require Import ZArith Lia Ascii String.
From stdpp Require Import base tactics numbers strings relations gmap list.
From S2P Require Import Prelude Words Pool MysqlPool RedisPool.
From S2P Require Import CString Prog Threads Worker Ledger WorkerProps WorkerSafety Server ServerProps.
From S2P Require Import Objects Stock StockRef Lending Tickets Sale TicketsRef Whole.

Local Open Scope string_scope.
Local Open Scope prog_scope.
Local Open Scope Z_scope.

(** The calls that the heap and the queue answer; [Finish] is theirs too. *)
Definition is_object_call (c : call) : bool :=
  match c with
  | new_Worker | construct_Worker _ | store_status _ _ | load_status _ | delete_Worker _
  | Requestseckill _ | cq_Next | load_request _ | load_response _ | store_response _ _ => true
  | _ => false
  end.

(** The services, then the heap and the queue. *)
Abbreviation whole := (server * objects)%type.

Definition whole_fn (refuses : nat -> string -> bool) (i : nat) (s : whole) (c : call)
    : option (ans c * whole) :=
  if is_object_call c then
    '(r, o) ← objects_fn (each_its_worker i) i s.2 c; Some (r, (s.1, o))
  else
    '(r, v) ← server_fn refuses i s.1 c;
    Some (r, (v, match c with Finish a _ => set_pending (<[a := false]> (pending s.2)) s.2 | _ => s.2 end)).

#[export] Instance whole_state refuses : ServerState whole := served_by (whole_fn refuses).
#[export] Instance whole_heap : Heap whole := snd.
#[export, refine] Instance whole_lending : Lending whole := {|
  lend_ok s := lend_ok s.1;
  lent_redis s := lent_redis s.1;
  lent_mysql s := lent_mysql s.1;
|}.
Proof. Defined.
#[export] Instance whole_counter : Counter whole := fun s => sv_redis s.1.
#[export] Instance whole_database : Database whole := fun s => sv_goods s.1.

(** The other services do not see a call that the heap and the queue answer. *)
Lemma whole_server_step refuses i s c r s' :
  served_by (whole_fn refuses) i s c r s' ->
  served_by (server_fn refuses) i s.1 c r s'.1 \/ is_object_call c = true /\ s'.1 = s.1.
Proof.
  unfold served_by, whole_fn. destruct (is_object_call c).
  - destruct (objects_fn _ _ _ _) as [[r' o]|]; [|done]. cbn. intros [= <- <-]. by right.
  - destruct (server_fn _ _ _ _) as [[r' v]|] eqn:Hs; [|done]. cbn. intros [= <- <-]. by left.
Qed.

#[export] Instance whole_lending_laws refuses : @LendingLaws whole (whole_state refuses) whole_lending.
Proof.
  split. intros i s c r s' Hok Hpol [Hs|[Hc Hs]]%whole_server_step.
  - exact (@lend_law _ _ _ (server_lending_laws refuses) i s.1 c r s'.1 Hok Hpol Hs).
  - unfold lend_ok, lent. cbn. rewrite Hs. split; [done|]. by destruct c.
Qed.

#[export] Instance whole_counter_laws refuses : @CounterLaws whole (whole_state refuses) whole_counter.
Proof.
  intros i s c r s' [Hs|[Hc Hs]]%whole_server_step; [by apply server_redis_step in Hs|].
  unfold redis_of, whole_counter. rewrite Hs. by destruct c.
Qed.

#[export] Instance whole_database_laws refuses : @DatabaseLaws whole (whole_state refuses) whole_database.
Proof.
  intros i s c r s' [Hs|[Hc Hs]]%whole_server_step; [by apply server_goods_step in Hs|].
  unfold view_of, whole_database. rewrite Hs. by destruct c.
Qed.

#[export] Instance whole_heap_laws refuses : @HeapLaws whole (whole_state refuses) whole_heap.
Proof.
  intros i s c r s' Hs. unfold serve_call, whole_state, served_by, whole_fn in Hs.
  unfold objects_of, whole_heap. destruct (is_object_call c) eqn:Hc.
  - destruct (objects_fn _ _ _ _) as [[r' o]|] eqn:Ho; [|done]. cbn in Hs. injection Hs as -> <-.
    by apply objects_fn_view with (each_its_worker i) i.
  - destruct (server_fn _ _ _ _) as [[r' v]|]; [|done]. cbn in Hs. injection Hs as <- <-. by destruct c.
Qed.

(** ** A run *)

(** Three threads that make two turns each, and one worker that waits. *)
Definition whole_start (total failed stock : Z) : config whole unit :=
  Config (opened total failed stock, one_waits) (map object_turns [2; 2; 2]%nat).

Definition whole_sale : config whole unit :=
  play (whole_fn obliging) (mjoin (replicate 160 [0; 1; 2]%nat)) (whole_start 1 0 1).

Example whole_sale_result :
  threads (whole_sale) = [Ret tt; Ret tt; Ret tt] /\ answered (sv_redis (shared whole_sale).1) = 1 /\
  stock (sv_goods (shared whole_sale).1) = 0.
Proof. vm_compute. done. Qed.

(** *** What the theorems ask for *)

Lemma whole_serves refuses s s' :
  rtc (@serves whole (whole_state refuses)) s s' -> rtc (@serves server (server_state refuses)) s.1 s'.1.
Proof.
  induction 1 as [|a b d (i & c & r & Hs) _ IH]; [apply rtc_refl|].
  apply whole_server_step in Hs as [Hs|[_ Hs]]; [|by rewrite <- Hs].
  eapply rtc_l; [|exact IH]. by exists i, c, r.
Qed.

Lemma whole_contexts refuses t f n i s r s' :
  rtc (@serves whole (whole_state refuses)) (opened t f n, one_waits) s ->
  served_by (whole_fn refuses) i s redis_getOneConnect r s' -> r <> None.
Proof.
  intros Hr%whole_serves [Hs|[Hc _]]%whole_server_step; [|done].
  exact (opened_contexts refuses t f n i s.1 r s'.1 Hr Hs).
Qed.

(** The requests in memory are those of the queue, or empty. *)
Definition plain_memory (o : objects) : Prop := map_Forall (fun _ q => plain_message q) (request_at o).

Lemma plain_memory_step refuses i s c r s' :
  served_by (whole_fn refuses) i s c r s' -> plain_memory s.2 -> plain_memory s'.2.
Proof.
  unfold served_by, whole_fn, plain_memory. destruct (is_object_call c) eqn:Hc; intros Hs Hp.
  - destruct c; try done; cbn in Hs; try (by injection Hs as _ <-).
    + injection Hs as _ <-. by apply map_Forall_delete.
    + destruct (map_to_list (pending s.2)) as [|[a b] l]; [done|]. injection Hs as _ <-. cbn.
      destruct b; [|done]. apply map_Forall_insert_2; [by split; apply plainb_plain|done].
    + injection Hs as _ <-. cbn. by apply map_Forall_insert_2; [apply plain_empty|].
  - destruct (server_fn _ _ _ _) as [[r' v]|]; [|done]. cbn in Hs. injection Hs as _ <-. by destruct c.
Qed.

Lemma whole_messages refuses t f n i s a q s' :
  rtc (@serves whole (whole_state refuses)) (opened t f n, one_waits) s ->
  served_by (whole_fn refuses) i s (load_request a) q s' -> plain_message q.
Proof.
  intros Hr Hs. assert (Hp : plain_memory s.2).
  { assert (H0 : plain_memory one_waits) by apply map_Forall_empty.
    change one_waits with (opened t f n, one_waits).2 in H0. clear Hs.
    induction Hr as [|x y z (j & c & r & Hk) _ IH]; [done|]. apply IH.
    exact (plain_memory_step refuses j x c r y Hk H0). }
  unfold served_by, whole_fn in Hs. cbn in Hs. injection Hs as <- _.
  destruct (request_at s.2 !! a) as [q|] eqn:Hq; [exact (Hp a q Hq)|apply plain_empty].
Qed.

Lemma whole_code refuses i s s' :
  (forall c r, served_by (whole_fn refuses) i s (mysql_commit c) r s' -> r = 0) /\
  (forall c m r, served_by (whole_fn refuses) i s (mysql_autocommit c m) r s' -> r = 0) /\
  (forall e, served_by (whole_fn refuses) i s cq_Next e s' -> plain_completion e).
Proof.
  split; [|split].
  - intros c r [Hs|[Hc _]]%whole_server_step; [|done]. exact (proj1 (served_code refuses i s.1 s'.1) c r Hs).
  - intros c m r [Hs|[Hc _]]%whole_server_step; [|done].
    exact (proj1 (proj2 (served_code refuses i s.1 s'.1)) c m r Hs).
  - unfold served_by, whole_fn. cbn. intros e Hs.
    destruct (map_to_list (pending s.2)) as [|[a b] l]; [done|]. injection Hs as <- _.
    destruct b; [|done]. by split; apply plainb_plain.
Qed.

Lemma whole_sale_reachable n :
  reachable (@serve_call whole (whole_state obliging)) (whole_start 1 0 1)
    (play (whole_fn obliging) (mjoin (replicate n [0; 1; 2]%nat)) (whole_start 1 0 1)).
Proof. apply (play_reachable (whole_fn obliging)). Qed.

Lemma server_sale_witness :
  stock (sv_goods (shared whole_sale).1) = 0 /\
  answers (opened 1 0 1, one_waits) (shared whole_sale) =
    sold (view_of (shared whole_sale)) - sold (view_of (opened 1 0 1, one_waits)).
Proof.
  split; [apply whole_sale_result|].
  destruct (@server_sale whole (whole_state obliging) whole_heap (whole_heap_laws obliging)
    whole_lending (whole_lending_laws obliging) whole_database (whole_database_laws obliging)
    whole_counter (whole_counter_laws obliging) (opened 1 0 1, one_waits) [2; 2; 2]%nat whole_sale)
    as (_ & _ & _ & _ & Hend).
  - intros i s c m r s'. apply (whole_code obliging i s s').
  - intros i s c r s'. apply (whole_code obliging i s s').
  - intros i s e s'. apply (whole_code obliging i s s').
  - intros i s a q s'. apply whole_messages.
  - intros i s r s'. apply whole_contexts.
  - exact one_waits_ok.
  - exact fresh_pools_ok.
  - done.
  - reflexivity.
  - done.
  - done.
  - apply whole_sale_reachable.
  - vm_compute. done.
  - apply Hend. rewrite (proj1 whole_sale_result). by repeat apply Forall_cons_2.
Defined.

(** The three threads after five calls each: with a Redis context of their own. *)
Definition at_work : config whole unit :=
  play (whole_fn obliging) (mjoin (replicate 5 [0; 1; 2]%nat)) (whole_start 1 0 1).

Lemma server_exclusive_witness :
  next_redis <$> threads at_work = [Some 1%positive; Some 2%positive; Some 3%positive] /\
  forall i j c c' k k' n,
    threads at_work !! i = Some (Vis c k) -> threads at_work !! j = Some (Vis c' k') ->
    redis_used c = Some n /\ redis_used c' = Some n \/ mysql_used c = Some n /\ mysql_used c' = Some n ->
    i = j.
Proof.
  split; [vm_compute; reflexivity|].
  refine (proj1 (@server_exclusive whole (whole_state obliging) whole_heap (whole_heap_laws obliging)
    whole_lending (whole_lending_laws obliging) (opened 1 0 1, one_waits) [2; 2; 2]%nat at_work _ _ _)).
  - exact one_waits_ok.
  - exact fresh_pools_ok.
  - apply whole_sale_reachable.
Defined.
