(* ===== verification/Opening.v ===== *)
(** * The server opens

    The theorems of [Whole.v] start from a server with one waiting worker, an empty
    [failedCount] and the items in Redis.  Here [main] brings it there: [prepareForSeckill] and
    the part of [Run] before the threads are created, run by the main thread alone over the
    services, whatever they answer. *)
From Stdlib Require Import ZArith Lia Ascii String.
From stdpp Require Import base tactics numbers strings relations gmap list.
From S2P Require Import Prelude Words Pool CString Prog Threads Worker Ledger WorkerProps.
From S2P Require Import WorkerSafety Server ServerProps Objects Stock StockRef Lending Tickets.
From S2P Require Import Sale TicketsRef Whole WholeRef.

Local Open Scope string_scope.
Local Open Scope prog_scope.
Local Open Scope Z_scope.

(** ** The code *)

(** [Run] up to the creation of the threads; the first worker is an object. *)
Definition start_server : prog unit :=
  BuildAndStart SERVER_ADDRESS MAX_RECEIVE_SIZE MAX_SEND_SIZE;;!
  write_failedCount 0;;!
  pthread_rwlock_init;;!
  write_successNum 0;;!
  let! first := new_Worker in
  construct_Worker first;;!
  Proceed_object first.

(** [main] up to the creation of the threads. *)
Definition open_server (key : Z -> string) : prog after :=
  getMysqlPoolObject;;!
  mysql_setParameter MYSQL_ADDRESS MYSQL_USRNAME MYSQL_USRPASSWORD MYSQL_USEDB MYSQL_PORT None 0
    MYSQL_MAX_CONNECTCOUNT;;!
  getRedisPoolObject;;!
  redis_setParameter REDIS_ADDRESS REDIS_PORT None 0 REDIS_MAX_CONNECTCOUNT;;!
  do prepared <- prepareForSeckill key;
  match prepared with
  | Exited code => Ret (Exited code)
  | Returned => do _ <- start_server; Ret Returned
  end.

(** ** A thread alone *)

Section alone.
Context {S : Type} `{ServerState S}.

(** The calls of a trace, answered to thread [i] one after the other. *)
Fixpoint attended (i : nat) (s : S) (t : list event) (s' : S) : Prop :=
  match t with
  | [] => s' = s
  | Ev c r :: t' => exists s1, serve_call i s c r s1 /\ attended i s1 t' s'
  end.

(** Whatever is answered, [Q] holds of the state, the calls and the outcome. *)
Fixpoint always {A} (i : nat) (p : prog A) (s : S) (Q : S -> list event -> outcome A -> Prop) : Prop :=
  match p with
  | Ret a => Q s [] (Val a)
  | Undef why => Q s [] (UB why)
  | Vis c k => forall r s', serve_call i s c r s' -> always i (k r) s' (fun s1 t o => Q s1 (Ev c r :: t) o)
  end.

Lemma always_exec {A} i (p : prog A) s Q t o s' :
  always i p s Q -> exec p t o -> attended i s t s' -> Q s' t o.
Proof.
  revert s Q t. induction p as [a|c k IH|why]; intros s Q t; simpl.
  - by intros HQ [-> ->] ->.
  - intros HQ (r & t' & -> & Hex) (s1 & Hs & Ht).
    exact (IH r s1 (fun s1 t o => Q s1 (Ev c r :: t) o) t' (HQ r s1 Hs) Hex Ht).
  - by intros HQ [-> ->] ->.
Qed.

Lemma always_mono {A} i (p : prog A) s (Q1 Q2 : S -> list event -> outcome A -> Prop) :
  (forall s t o, Q1 s t o -> Q2 s t o) -> always i p s Q1 -> always i p s Q2.
Proof.
  revert s Q1 Q2. induction p as [a|c k IH|why]; intros s Q1 Q2 HQ; simpl; auto.
  intros Hk r s' Hs. eapply IH; [|by apply Hk]. intros s1 t o. apply HQ.
Qed.

Lemma always_bind {A B} i (p : prog A) (f : A -> prog B) s (Q : S -> list event -> outcome B -> Prop) :
  always i p s (fun s1 t1 o =>
    match o with
    | Val a => always i (f a) s1 (fun s2 t2 o => Q s2 (t1 ++ t2)%list o)
    | UB why => Q s1 t1 (UB why)
    end) ->
  always i (bind p f) s Q.
Proof.
  revert s Q. induction p as [a|c k IH|why]; intros s Q; simpl; [done| |done].
  intros Hk r s' Hs. apply IH. by apply Hk.
Qed.

(** What holds of the traces of a program holds of those attended. *)
Lemma always_traces {A} i (p : prog A) s (Q : S -> list event -> outcome A -> Prop) (R : list event -> outcome A -> Prop) :
  (forall t o, exec p t o -> R t o) -> always i p s Q -> always i p s (fun s' t o => Q s' t o /\ R t o).
Proof.
  revert s Q R. induction p as [a|c k IH|why]; intros s Q R HR; simpl in *; [auto| |auto].
  intros Hk r s' Hs. apply (IH r s' _ (fun t o => R (Ev c r :: t) o)); [|by apply Hk].
  intros t o Hex. apply HR. eauto.
Qed.

(** What no call of a program changes. *)
Lemma always_keeps {A} (P : call -> Prop) (I : S -> Prop) i (p : prog A) s :
  (forall s c r s', P c -> I s -> serve_call i s c r s' -> I s') ->
  all_calls P p -> I s -> always i p s (fun s' _ _ => I s').
Proof.
  intros HI. revert s. induction p as [a|c k IH|why]; intros s; simpl; [done| |done].
  intros [Hc Hk] Hs r s' Hserve. apply IH; eauto.
Qed.
End alone.

(** ** The preparation keeps the promises *)

(** Calls that are about no object and take or return no connection. *)
Definition harmless (c : call) : Prop :=
  match c with
  | redis_getOneConnect | redis_close _ | mysql_getOneConnect | mysql_close _ => False
  | c => no_object c
  end.

Lemma request_harmless rc mc c : request_call rc mc c -> harmless c.
Proof. by destruct c. Qed.

Lemma prepare_users_harmless key mc rc : all_calls harmless (prepare_users key mc rc).
Proof.
  unfold prepare_users. calls_run.
  all: eapply all_calls_mono; [|apply (load_users_calls _ rc mc)]; intros c; apply (request_harmless rc mc).
Qed.

(** A user whose key Redis did not store. *)
Definition user_refused (t : list event) : Prop :=
  exists rc name key rep, Ev (redisCommand rc "HMSET usr_info  %s %s" [name; key]) rep ∈ t /\
    ok_reply rep = false.

Lemma user_refused_app t1 t2 : user_refused t2 -> user_refused (t1 ++ t2)%list.
Proof. intros (rc & u & k & rep & Hin & Hok). exists rc, u, k, rep. rewrite elem_of_app. auto. Qed.

Lemma load_users_refused rows rc t : exec (load_users rows rc) t (Val false) -> user_refused t.
Proof.
  revert t. induction rows as [|row rows IH]; intros t; [by intros [_ [=]]|].
  destruct row as [|[name|] [|[key|] row]]; cbn [load_users not_null bind]; try apply IH; try (by intros [_ [=]]).
  intros (rep & t' & -> & Hex). destruct (is_OK_no_call rep) as [[b Hb]|[why Hb]]; rewrite Hb in Hex;
    cbn [bind] in Hex; [|by destruct Hex as [_ [=]]].
  destruct b.
  - destruct Hex as (u & t2 & -> & Hex). apply (user_refused_app [_; _]). by apply IH.
  - exists rc, (c_str name), (c_str key), rep. split; [by left|]. unfold ok_reply. by rewrite Hb.
Qed.

Lemma prepare_users_refused key mc rc t :
  exec (prepare_users key mc rc) t (Val (Some Returned)) -> user_refused t.
Proof.
  unfold prepare_users. intros (e & t1 & -> & Hex).
  destruct (negb (e =? 0)); [by destruct Hex as (? & ? & -> & _ & [=])|].
  destruct Hex as (res & t2 & -> & row & t3 & -> & Hex).
  apply exec_bind in Hex as [(t4 & t5 & u & -> & _ & Hex)|(? & _ & [=])].
  destruct Hex as (? & t6 & -> & e2 & t7 & -> & Hex).
  destruct (negb (e2 =? 0)); [by destruct Hex as (? & ? & -> & _ & [=])|].
  destruct Hex as (sres & t8 & -> & rows & t9 & -> & Hex).
  apply exec_bind in Hex as [(t10 & t11 & b & -> & Hl & Hex)|(? & _ & [=])].
  destruct b; [by destruct Hex as (? & ? & -> & _ & [=])|].
  do 3 apply (user_refused_app [_]). apply user_refused_app. do 4 apply (user_refused_app [_]).
  destruct (load_users_refused rows rc t10 Hl) as (rc' & u' & k & rep & Hin & Hok).
  exists rc', u', k, rep. rewrite elem_of_app. auto.
Qed.

Section opening.
Context {S : Type} `{ServerState S, !Heap S, !HeapLaws S, !Lending S, !LendingLaws S, !Counter S, !CounterLaws S}.

(** A connection that was taken is out of its pool. *)
Definition out (r : option conn) (l : gset conn) : Prop := forall c, r = Some c -> c ∈ l.

(** The main thread holds [rc] and [mc]; the heap is as it was. *)
Record held (o : objects) (rc mc : option conn) (s : S) : Prop := Held {
  hd_ok : lend_ok s;
  hd_objects : objects_of s = o;
  hd_redis : out rc (lent_redis s);
  hd_mysql : out mc (lent_mysql s);
}.

Lemma harmless_held o rc mc i s c r s' :
  serve_call i s c r s' -> held o rc mc s -> harmless c -> held o rc mc s'.
Proof using All.
  intros Hs [Hok Ho Hr Hm] Hc.
  destruct (lend_law i s c r s' Hok) as [Hok' Hl]; [by destruct c|done|].
  pose proof (heap_law i s c r s' Hs) as Hv.
  assert (Hlent : lent s' = lent s) by by destruct c; try done; destruct Hl as [Hl1 Hl2]; destruct (lent s'), (lent s); cbn in *; subst.
  injection Hlent as Hl1 Hl2. split; [done| |by rewrite Hl1|by rewrite Hl2].
  rewrite <- Ho. by destruct c.
Qed.

Lemma redis_close_held o rc mc i s r s' :
  held o rc mc s -> serve_call i s (redis_close rc) r s' -> held o None mc s'.
Proof using All.
  intros [Hok Ho Hr Hm] Hs.
  destruct (lend_law i s _ r s' Hok) as [Hok' [_ Hl]]; [|exact Hs|].
  { destruct rc as [c|]; [by apply Hr|done]. }
  cbn in Hl. split; [done| |done|by rewrite Hl]. rewrite <- Ho. exact (heap_law i s _ r s' Hs).
Qed.

Lemma mysql_close_held o rc mc i s r s' :
  held o rc mc s -> serve_call i s (mysql_close mc) r s' -> held o rc None s'.
Proof using All.
  intros [Hok Ho Hr Hm] Hs.
  destruct (lend_law i s _ r s' Hok) as [Hok' [Hl _]]; [|exact Hs|].
  { destruct mc as [c|]; [by apply Hm|done]. }
  cbn in Hl. split; [done| |by rewrite Hl|done]. rewrite <- Ho. exact (heap_law i s _ r s' Hs).
Qed.

(** Redis has the count [n], if the command that set it was answered OK. *)
Definition counted (rc : option conn) (rep : option redisReply) (n : Z) (s : S) : Prop :=
  forall c, rc = Some c -> ok_reply rep = true -> total (redis_of s) = n /\ queued (redis_of s) !! c = None.

Lemma set_counted rc n i s rep s' :
  is_int n -> serve_call i s (redisCommand rc "SET %s %s" ["total_count"; to_string n]) rep s' ->
  counted rc rep n s'.
Proof using All.
  intros Hn Hs c -> Hok. pose proof (counter_law i s _ rep s' Hs) as He. cbn in He.
  destruct (effect_ok _ _ _ _ _ He Hok) as (_ & Hq & -> & _); [done|].
  rewrite atoi_value_to_string by done. unfold apply. rewrite Hq. by split.
Qed.

(** A command that only reads the count, or has nothing to do with it. *)
Lemma neutral_counted rc rep n i s f args r s' :
  serve_call i s (redisCommand rc f args) r s' -> counted rc rep n s ->
  command_of f args = Get \/ command_of f args = Other -> counted rc rep n s'.
Proof using All.
  intros Hs Hn Hf c -> Hok. destruct (Hn c eq_refl Hok) as [Ht Hq].
  pose proof (counter_law i s _ r s' Hs) as He. cbn in He. unfold redis_effect in He.
  assert (Happly : apply c (command_of f args) (redis_of s) = redis_of s).
  { unfold apply. rewrite Hq. by destruct Hf as [-> | ->]. }
  case_decide; [destruct He as [_ ->]; by split|]. destruct r as [r|].
  - destruct (type r =? _); destruct He as [_ ->]; [unfold refuse; rewrite Hq|rewrite Happly]; by split.
  - destruct He as (w & [-> | ->] & ->); [by split|]. unfold lost. rewrite Happly. by split.
Qed.

(** Calls that Redis and its lock have no part in. *)
Definition not_redis (c : call) : Prop :=
  match c with
  | redisCommand _ _ _ | rwlock_wrlock | rwlock_unlock | write_failedCount _ | Finish _ _ => False
  | _ => True
  end.

Lemma not_redis_same i s c r s' : not_redis c -> serve_call i s c r s' -> redis_of s' = redis_of s.
Proof using All.
  intros Hc Hs. pose proof (counter_law i s c r s' Hs) as Hv. destruct c; try done. by destruct Hv.
Qed.

Lemma other_counted rc rep n i s c r s' :
  serve_call i s c r s' -> counted rc rep n s -> not_redis c -> counted rc rep n s'.
Proof using All. intros Hs Hn Hc. unfold counted. by rewrite (not_redis_same i s c r s' Hc Hs). Qed.

(** What [prepare_goods] has done when it returns. *)
Definition goods_loaded (o : objects) (rc : option conn) (s : S) (t : list event) (a : outcome after) : Prop :=
  match a with
  | Val Returned => held o None None s /\ exists res rows n rep,
      Ev (mysql_fetch_rows res) rows ∈ t /\ last_goods rows 0 = Ret n /\
      Ev (redisCommand rc "SET %s %s" ["total_count"; to_string n]) rep ∈ t /\ counted rc rep n s
  | _ => True
  end.

Lemma last_goods_int rows n m : last_goods rows n = Ret m -> is_int n -> is_int m.
Proof using Type.
  revert n. induction rows as [|row rows IH]; intros n; cbn [last_goods]; [by intros [= ->]|].
  destruct (1 <? _); [|apply IH]. destruct row as [|? [|? [|[row2|] row]]]; try done.
  unfold c_atoi. cbn [bind not_null]. unfold atoi. destruct (is_intb _) eqn:Hb; [|done].
  cbn [bind]. intros Hm _. apply (IH _ Hm). unfold is_intb, is_int in *. lia.
Qed.

(** One call that changes nothing of the connections and the heap. *)
Ltac harmless_call H :=
  let r := fresh "r" in let s := fresh "s" in let Hs := fresh "Hs" in
  intros r s Hs; pose proof (harmless_held _ _ _ _ _ _ _ _ Hs H I); clear H;
  rename select (held _ _ _ s) into H.

Lemma finish_goods o rc mc i n rep s (Q : S -> list event -> outcome after -> Prop) :
  held o rc mc s -> counted rc rep n s ->
  (forall s t, held o None None s -> counted rc rep n s -> Q s t (Val Returned)) ->
  always i
    (freeReplyObject rep;;!
     let! reply := redisCommand rc "GET %s" ["total_count"] in
     freeReplyObject reply;;!
     redisCommand rc "DEL %s" ["order_info"];;!
     mysql_close mc;;!
     redis_close rc;;!
     Ret Returned) s Q.
Proof using All.
  intros H1 Hn HQ.
  harmless_call H1. pose proof (other_counted _ _ _ _ _ _ _ _ Hs Hn I) as Hn1.
  harmless_call H1. pose proof (neutral_counted _ _ _ _ _ _ _ _ _ Hs0 Hn1 (or_introl eq_refl)) as Hn2.
  harmless_call H1. pose proof (other_counted _ _ _ _ _ _ _ _ Hs1 Hn2 I) as Hn3.
  harmless_call H1. pose proof (neutral_counted _ _ _ _ _ _ _ _ _ Hs2 Hn3 (or_intror eq_refl)) as Hn4.
  intros r4 s5 Hs5. pose proof (mysql_close_held _ _ _ _ _ _ _ H1 Hs5) as H5.
  pose proof (other_counted _ _ _ _ _ _ _ _ Hs5 Hn4 I) as Hn5.
  intros r5 s6 Hs6. apply HQ; [exact (redis_close_held _ _ _ _ _ _ _ H5 Hs6)|].
  exact (other_counted _ _ _ _ _ _ _ _ Hs6 Hn5 I).
Qed.

Lemma finish_failed o rc mc i n rep s (Q : S -> list event -> outcome after -> Prop) :
  held o rc mc s -> counted rc rep n s ->
  (forall s t, held o None None s -> counted rc rep n s -> Q s t (Val Returned)) ->
  always i (redis_close rc;;! mysql_close mc;;! Ret Returned) s Q.
Proof using All.
  intros H1 Hn HQ. intros r s1 Hs1. pose proof (redis_close_held _ _ _ _ _ _ _ H1 Hs1) as H2.
  pose proof (other_counted _ _ _ _ _ _ _ _ Hs1 Hn I) as Hn1.
  intros r1 s2 Hs2. apply HQ; [exact (mysql_close_held _ _ _ _ _ _ _ H2 Hs2)|].
  exact (other_counted _ _ _ _ _ _ _ _ Hs2 Hn1 I).
Qed.

Lemma prepare_goods_always o rc mc i s :
  held o rc mc s -> always i (prepare_goods mc rc) s (goods_loaded o rc).
Proof using All.
  intros H1. unfold prepare_goods. harmless_call H1. destruct (Z.eqb_spec r 0) as [->|]; cbn [negb]; [|done].
  intros res s1 Hs1. pose proof (harmless_held _ _ _ _ _ _ _ _ Hs1 H1 I) as H2. clear H1.
  intros rows s2 Hs2. pose proof (harmless_held _ _ _ _ _ _ _ _ Hs2 H2 I) as H3. clear H2.
  destruct (last_goods_no_call rows 0) as [[n Hn]|[why Hn]]; rewrite Hn; cbn [bind]; [|done].
  do 2 harmless_call H3. intros rep s5 Hs5.
  pose proof (harmless_held _ _ _ _ _ _ _ _ Hs5 H3 I) as H5.
  assert (Hint : is_int n) by (apply (last_goods_int _ _ _ Hn); unfold is_int; lia).
  pose proof (set_counted rc n i _ rep s5 Hint Hs5) as Hc.
  assert (HQ : forall s t, held o None None s -> counted rc rep n s ->
    goods_loaded o rc s
      ([Ev (mysql_query mc goodsSql) 0; Ev (mysql_use_result mc) res; Ev (mysql_fetch_rows res) rows;
        Ev (mysql_free_result res) r; Ev (mysql_query mc createTSql) r0;
        Ev (redisCommand rc "SET %s %s" ["total_count"; to_string n]) rep] ++ t)%list (Val Returned)).
  { intros s' t Hh Hcount. split; [done|]. exists res, rows, n, rep. split; [set_solver|].
    split; [done|]. split; [set_solver|done]. }
  destruct (is_OK_no_call rep) as [[b Hb]|[why Hb]]; rewrite Hb; cbn [bind]; [|done].
  destruct b.
  - apply (finish_goods o rc mc i n rep s5); [done|done|]. exact HQ.
  - destruct rep as [rep|]; cbn [bind].
    + intros r1 s6 Hs6. pose proof (harmless_held _ _ _ _ _ _ _ _ Hs6 H5 I) as H6.
      apply (finish_failed o rc mc i n (Some rep) s6); [done|exact (other_counted _ _ _ _ _ _ _ _ Hs6 Hc I)|].
      intros s7 t. apply (HQ s7 (Ev (freeReplyObject (Some rep)) r1 :: t)).
    + by apply (finish_failed o rc mc i n None s5).
Qed.

(** What [prepareForSeckill] has done when it returns: the count is in Redis and both
    connections are back, or a user could not be stored and the MySQL connection is not. *)
Definition prepared (o : objects) (s : S) (t : list event) (a : outcome after) : Prop :=
  match a with
  | Val Returned => lend_ok s /\ objects_of s = o /\
      ((exists rc, Ev redis_getOneConnect rc ∈ t /\ goods_loaded o rc s t (Val Returned)) \/
       user_refused t /\ exists mc, Ev mysql_getOneConnect mc ∈ t /\ out mc (lent_mysql s))
  | _ => True
  end.

Lemma goods_loaded_app o rc s t1 t2 a :
  goods_loaded o rc s t2 a -> goods_loaded o rc s (t1 ++ t2)%list a.
Proof using Type.
  destruct a as [[|code]|why]; [|done..]. intros (Hh & res & rows & n & rep & H1 & H2 & H3 & H4).
  split; [done|]. exists res, rows, n, rep. rewrite !elem_of_app. auto.
Qed.

Lemma take_mysql o rc i s r s' :
  serve_call i s mysql_getOneConnect r s' -> held o rc None s -> held o rc r s'.
Proof using All.
  intros Hs [Hok Ho Hr Hm]. destruct (lend_law i s _ r s' Hok I Hs) as [Hok' [Hl Hg]].
  cbn in Hl, Hg. split; [done|rewrite <- Ho; exact (heap_law i s _ r s' Hs)|by rewrite Hl|].
  intros c ->. destruct Hg as [_ ->]. set_solver.
Qed.

Lemma take_redis o mc i s r s' :
  serve_call i s redis_getOneConnect r s' -> held o None mc s -> held o r mc s'.
Proof using All.
  intros Hs [Hok Ho Hr Hm]. destruct (lend_law i s _ r s' Hok I Hs) as [Hok' [Hg Hl]].
  cbn in Hl, Hg. split; [done|rewrite <- Ho; exact (heap_law i s _ r s' Hs)| |by rewrite Hl].
  intros c ->. destruct Hg as [_ ->]. set_solver.
Qed.

Lemma prepare_always o key i s :
  held o None None s -> always i (prepareForSeckill key) s (prepared o).
Proof using All.
  intros H1. unfold prepareForSeckill.
  intros mc s1 Hs1. pose proof (take_mysql _ _ _ _ _ _ Hs1 H1) as H2. clear H1.
  intros rc s2 Hs2. pose proof (take_redis _ _ _ _ _ _ Hs2 H2) as H3. clear H2.
  destruct (not_null_conn_cases mc) as [->| ->]; [cbn [bind]|done].
  do 3 harmless_call H3. apply always_bind.
  apply (always_mono _ _ _ (fun s' t a => held o rc mc s' /\ (a = Val (Some Returned) -> user_refused t))).
  2: { apply (always_traces _ _ _ (fun s' _ _ => held o rc mc s'));
         [intros t a Hex ->; by apply (prepare_users_refused key mc rc)|]. apply (always_keeps harmless); [|apply prepare_users_harmless|done].
       intros s' c r' s'' Hc Hh Hs'. exact (harmless_held _ _ _ _ _ _ _ _ Hs' Hh Hc). }
  intros s' t [ended|why] [Hh Href]; [|done]. destruct ended as [[|code]|]; cbn [always]; [|done|].
  - destruct Hh as [Hok Ho _ Hm]. split; [done|]. split; [done|]. right.
    split; [do 5 apply (user_refused_app [_]); rewrite app_nil_r; auto|]. exists mc. split; [set_solver|done].
  - apply (always_mono _ _ _ (goods_loaded o rc)); [|by apply prepare_goods_always].
    intros s'' t' [[|code]|why]; [|done..]. intros Hload. pose proof Hload as ([Hok Ho _ _] & _).
    split; [done|]. split; [done|]. left. exists rc. split; [set_solver|].
    do 5 apply (goods_loaded_app o rc s'' [_]). by apply (goods_loaded_app o rc s'' t _ (Val Returned)).
Qed.

(** *** The first worker *)

(** No worker, and nothing with gRPC. *)
Definition no_objects_yet (o : objects) : Prop := status_at o = ∅ /\ pending o = ∅.

(** The calls of [start_server] leave the pools and the count as they are. *)
Definition starting (c : call) : Prop :=
  match c with
  | redis_getOneConnect | redis_close _ | mysql_getOneConnect | mysql_close _ => False
  | redisCommand _ _ _ | Finish _ _ => False
  | _ => True
  end.

Record settled (s s' : S) : Prop := Settled {
  se_ok : lend_ok s';
  se_lent : lent s' = lent s;
  se_total : total (redis_of s') = total (redis_of s) /\ queued (redis_of s') = queued (redis_of s);
}.

Lemma starting_settled s i s1 c r s2 :
  serve_call i s1 c r s2 -> settled s s1 -> starting c -> settled s s2.
Proof using All.
  intros Hs [Hok Hl [Ht Hq]] Hc. pose proof (counter_law i s1 c r s2 Hs) as Hv.
  destruct (lend_law i s1 c r s2 Hok) as [Hok' Hlv]; [by destruct c|done|]. split; [done|..].
  - rewrite <- Hl. destruct c; try done; destruct Hlv as [Hl1 Hl2]; unfold lent in *; cbn in *; by rewrite Hl1, Hl2.
  - rewrite <- Ht, <- Hq. destruct c; try done; cbn in Hv; try (by rewrite Hv); by destruct Hv as [_ ->].
Qed.

Lemma settled_refl s : lend_ok s -> settled s s.
Proof using Type. by split. Qed.

(** One call of [start_server]: what it does to the heap, and that the rest is settled. *)
Ltac starting_call He :=
  let r := fresh "r" in let s := fresh "s" in let Hs := fresh "Hs" in let V := fresh "V" in
  let C := fresh "C" in
  intros r s Hs; pose proof (heap_law _ _ _ _ _ Hs) as V; pose proof (counter_law _ _ _ _ _ Hs) as C;
  cbn [objects_view] in V; cbn [tickets_view] in C;
  pose proof (starting_settled _ _ _ _ _ _ Hs He I); clear He; rename select (settled _ s) into He; clear Hs.

Lemma start_always i s :
  lend_ok s -> no_objects_yet (objects_of s) ->
  always i start_server s (fun s' _ a =>
    a = Val tt /\ settled s s' /\ failed_count (redis_of s') = 0 /\
    exists a, status_at (objects_of s') = {[ a := code_of true ]} /\ pending (objects_of s') = {[ a := true ]}).
Proof using All.
  intros Hok [Hst Hpe]. pose proof (settled_refl s Hok) as He. unfold start_server.
  do 7 starting_call He. destruct V3 as [Hfresh [z V3]]. destruct V5 as [V5 Hload].
  assert (Hr : r5 = 0) by (apply Hload; rewrite V4; cbn; by rewrite lookup_insert_eq).
  rewrite Hr. cbn [Z.eqb status_code]. do 2 starting_call He. split; [done|]. split; [done|].
  split; [by rewrite C7, C6, C5, C4, C3, C2, C1, C0|].
  exists r3. rewrite V7, V6, V5, V4, V3, V2, V1, V0, V. cbn. rewrite Hst, Hpe.
  by rewrite !insert_insert_eq, !insert_empty.
Qed.

(** The items that [main] has put into Redis: the count in the last row it read from
    [goods_info], if the command was answered OK; or else there was no context, or a user was
    refused and the MySQL connection is still out. *)
Definition stocked (s : S) (t : list event) : Prop :=
  (exists rc res rows n rep, Ev (mysql_fetch_rows res) rows ∈ t /\ last_goods rows 0 = Ret n /\
     Ev (redisCommand (Some rc) "SET %s %s" ["total_count"; to_string n]) rep ∈ t /\
     (ok_reply rep = true -> total (redis_of s) = n)) \/
  Ev redis_getOneConnect None ∈ t \/
  user_refused t /\ exists mc, Ev mysql_getOneConnect mc ∈ t /\ out mc (lent_mysql s).

Lemma prepared_stocked o s1 s2 t1 t :
  (forall e, e ∈ t1 -> e ∈ t) -> prepared o s1 t1 (Val Returned) -> settled s1 s2 -> stocked s2 t.
Proof using Type.
  intros Hin (_ & _ & [(rc & Hrc & _ & res & rows & n & rep & H1 & H2 & H3 & H4)|(Href & mc & Hmc & Hout)]) [_ Hl [Ht _]].
  - destruct rc as [rc|]; [|right; left; by apply Hin]. left.
    exists rc, res, rows, n, rep. split; [by apply Hin|]. split; [done|]. split; [by apply Hin|].
    intros Hok. rewrite Ht. by apply (H4 rc).
  - right. right. split.
    { destruct Href as (rc & u & k & rep & He & Hok). exists rc, u, k, rep. split; [by apply Hin|done]. }
    exists mc. split; [by apply Hin|]. intros c Hc.
    unfold lent in Hl. injection Hl as _ ->. by apply Hout.
Qed.

Lemma open_always key i s :
  lend_ok s -> no_objects_yet (objects_of s) ->
  always i (open_server key) s (fun s' t a =>
    match a with
    | Val Returned => lend_ok s' /\ failed_count (redis_of s') = 0 /\ stocked s' t /\
        exists a, status_at (objects_of s') = {[ a := code_of true ]} /\ pending (objects_of s') = {[ a := true ]}
    | _ => True
    end).
Proof using All.
  intros Hok Ho. assert (H1 : held (objects_of s) None None s) by by split.
  unfold open_server. do 4 harmless_call H1. apply always_bind.
  apply (always_mono _ _ _ (prepared (objects_of s))); [|by apply prepare_always].
  intros s' t [[|code]|why] Hp; cbn [always]; [|done..]. apply always_bind.
  pose proof Hp as (Hok' & Ho' & _).
  apply (always_mono _ _ _ (fun s2 _ a => a = Val tt /\ settled s' s2 /\ failed_count (redis_of s2) = 0 /\
    exists a, status_at (objects_of s2) = {[ a := code_of true ]} /\ pending (objects_of s2) = {[ a := true ]}));
    [|apply start_always; by rewrite ?Ho'].
  intros s4 t2 a (-> & Hset & Hf & Hobj). cbn [always]. split; [apply Hset|]. split; [done|]. split; [|done].
  apply (prepared_stocked (objects_of s) s' s4 t); [|done..].
  intros e He. do 4 right. apply elem_of_app. by left.
Qed.

(** C24: what the server's threads start from, whatever the services answer on the way there.
    When [main] gets as far as creating the threads, exactly one worker exists and waits with
    gRPC for a request, [failedCount] is 0, no connection is handed out that the pools do not
    know of, and Redis has the count of items that stands in the last row of [goods_info], if
    the command that put it there was answered OK; unless there was no Redis context at all, or
    the key of a user was not stored in Redis, and then a MySQL connection is never put back. *)
Theorem server_opens (i : nat) (key : Z -> string) (s0 s1 : S) (t : list event) :
  lend_ok s0 -> no_objects_yet (objects_of s0) ->
  exec (open_server key) t (Val Returned) -> attended i s0 t s1 ->
  all_waiting (objects_of s1) /\ waiting (pending (objects_of s1)) = 1 /\ lend_ok s1 /\
  failed_count (redis_of s1) = 0 /\ stocked s1 t.
Proof using All.
  intros Hok Ho Hex Ht.
  destruct (always_exec i _ _ _ _ _ _ (open_always key i s0 Hok Ho) Hex Ht)
    as (Hok' & Hf & Hst & a & Hs & Hp).
  assert (Hone : waiting {[ a := true ]} = 1) by (rewrite <- insert_empty; by rewrite waiting_insert).
  rewrite Hp. split; [split|by split_and!].
  - intros b z. rewrite Hp, Hs. intros [<- <-]%lookup_singleton_Some. apply lookup_singleton_eq.
  - by rewrite Hp, Hs, !dom_singleton_L.
Qed.
End opening.

(** ** A run of a thread alone *)

Section runs.
Context {S : Type} (serve_fn : nat -> S -> forall c, option (ans c * S)).

(** [None]: the thread waits. *)
Fixpoint run_alone {A} (i : nat) (p : prog A) (s : S) : option (outcome A * list event * S) :=
  match p with
  | Ret a => Some (Val a, [], s)
  | Undef why => Some (UB why, [], s)
  | Vis c k =>
      '(r, s1) ← serve_fn i s c;
      '(o, t, s2) ← run_alone i (k r) s1;
      Some (o, Ev c r :: t, s2)
  end.

Lemma run_alone_attended {A} i (p : prog A) s o t s' :
  run_alone i p s = Some (o, t, s') ->
  exec p t o /\ @attended S (served_by serve_fn) i s t s'.
Proof.
  revert s o t. induction p as [a|c k IH|why]; intros s o t; simpl; [by intros [= <- <- <-]| |by intros [= <- <- <-]].
  destruct (serve_fn i s c) as [[r s1]|] eqn:Hs; [|done]. simpl.
  destruct (run_alone i (k r) s1) as [[[o' t'] s2]|] eqn:Hr; [|done]. simpl. intros [= <- <- <-].
  destruct (IH r s1 o' t' Hr) as [Hex Ht]. split; [by exists r, t'|]. by exists s1.
Qed.
End runs.

(** ** The opening of a server that runs *)

(** The server of [WholeRef.v], and 50 items in MySQL's [goods_info]. *)
Definition shop_fn (i : nat) (s : whole) (c : call) : option (ans c * whole) :=
  match c return option (ans c * whole) with
  | mysql_fetch_rows _ => Some ([[Some "BMW"; Some "10"; Some "50"]], s)
  | c => whole_fn obliging i s c
  end.

Definition shop_state : ServerState whole := served_by shop_fn.

Lemma shop_step i s c r s' :
  served_by shop_fn i s c r s' ->
  served_by (whole_fn obliging) i s c r s' \/ s' = s /\ exists res, c = mysql_fetch_rows res.
Proof. destruct c; try (by left). intros [= _ <-]. right. split; [done|]. by eexists. Qed.

Lemma shop_lending_laws : @LendingLaws whole shop_state whole_lending.
Proof.
  split. intros i s c r s' Hok Hpol [Hs|[-> [res ->]]]%shop_step; [|by split].
  exact (@lend_law _ _ _ (whole_lending_laws obliging) i s c r s' Hok Hpol Hs).
Qed.

Lemma shop_counter_laws : @CounterLaws whole shop_state whole_counter.
Proof.
  intros i s c r s' [Hs|[-> [res ->]]]%shop_step; [|done].
  exact (whole_counter_laws obliging i s c r s' Hs).
Qed.

Lemma shop_heap_laws : @HeapLaws whole shop_state whole_heap.
Proof.
  intros i s c r s' [Hs|[-> [res ->]]]%shop_step; [|done].
  exact (whole_heap_laws obliging i s c r s' Hs).
Qed.

(** No items in Redis yet, no worker. *)
Definition closed_shop : whole := (opened 0 3 50, MkObjects ∅ ∅ ∅ ∅).

Definition shop_opening : option (outcome after * list event * whole) :=
  run_alone shop_fn 0 (open_server (fun _ => "k")) closed_shop.
Definition shop_calls : list event := match shop_opening with Some (_, t, _) => t | None => [] end.
Definition open_shop : whole := match shop_opening with Some (_, _, s) => s | None => closed_shop end.

Example shop_opens :
  (fun x => x.1.1) <$> shop_opening = Some (Val Returned) /\ total (redis_of open_shop) = 50 /\
  failed_count (redis_of open_shop) = 0 /\ map_to_list (status_at open_shop.2) = [(1%positive, 1)].
Proof. vm_compute. done. Qed.

Lemma shop_opening_runs :
  exec (open_server (fun _ => "k")) shop_calls (Val Returned) /\
  @attended whole shop_state 0 closed_shop shop_calls open_shop.
Proof.
  assert (Hr : run_alone shop_fn 0 (open_server (fun _ => "k")) closed_shop =
    Some (Val Returned, shop_calls, open_shop)) by (vm_compute; reflexivity).
  exact (run_alone_attended shop_fn 0 _ _ _ _ _ Hr).
Qed.

Lemma server_opens_witness :
  total (redis_of open_shop) = 50 /\ failed_count (redis_of open_shop) = 0 /\
  waiting (pending (objects_of open_shop)) = 1 /\ stocked open_shop shop_calls.
Proof.
  destruct (@server_opens whole shop_state whole_heap shop_heap_laws whole_lending shop_lending_laws
    whole_counter shop_counter_laws 0 (fun _ => "k") closed_shop open_shop shop_calls)
    as (_ & Hw & _ & Hf & Hst).
  - exact fresh_pools_ok.
  - by split.
  - exact (proj1 shop_opening_runs).
  - exact (proj2 shop_opening_runs).
  - split; [exact (proj1 (proj2 shop_opens))|]. split; [exact Hf|]. split; [exact Hw|exact Hst].
Defined.
