(* ===== verification/Effects.v ===== *)
(** * Programs over two families of calls

    A [tree] is a terminating program over a signature of calls.  When the signature is a
    sum, one family can be answered by an implementation and the other left to the
    environment ([spy], [erase]); [teq] then compares what is left with another program.
    This is how the instrumentation wrappers of the MySQL headers are compared with the
    functions they wrap. *)
From Stdlib Require Import ZArith Lia.
From stdpp Require Import base tactics list.

(** A family of calls with the type of the answer of each. *)
Record signature := Signature {
  op : Type;
  res : op -> Type;
}.

Definition sig_sum (E F : signature) : signature :=
  Signature (op E + op F) (fun o => match o with inl e => res E e | inr f => res F f end).

Inductive tree (E : signature) (A : Type) :=
| Done (a : A)
| Call (o : op E) (k : res E o -> tree E A).
Arguments Done {E A}.
Arguments Call {E A}.

Fixpoint tbind {E A B} (t : tree E A) (f : A -> tree E B) : tree E B :=
  match t with
  | Done a => f a
  | Call o k => Call o (fun r => tbind (k r) f)
  end.
Definition tmap {E A B} (f : A -> B) (t : tree E A) : tree E B := tbind t (fun a => Done (f a)).

(** A call as a program, and the calls of the right summand as calls of the sum. *)
Definition perform {E} (o : op E) : tree E (res E o) := Call o Done.
Fixpoint lift {E F A} (t : tree F A) : tree (sig_sum E F) A :=
  match t with
  | Done a => Done a
  | Call o k => Call (E := sig_sum E F) (inr o) (fun r => lift (k r))
  end.

Declare Scope tree_scope.
Delimit Scope tree_scope with tree.
Notation "'psi!' x ':=' c 'in' k" := (Call (E := sig_sum _ _) (inl c) (fun x => k))
  (at level 10, x name, c at level 100, k at level 200,
   format "'[v' 'psi!'  x  ':='  c  'in' '/' k ']'") : tree_scope.
Notation "'lib!' x ':=' c 'in' k" := (Call (E := sig_sum _ _) (inr c) (fun x => k))
  (at level 10, x name, c at level 100, k at level 200,
   format "'[v' 'lib!'  x  ':='  c  'in' '/' k ']'") : tree_scope.
Notation "'run!' x ':=' t 'in' k" := (tbind (lift t) (fun x => k))
  (at level 10, x name, t at level 100, k at level 200,
   format "'[v' 'run!'  x  ':='  t  'in' '/' k ']'") : tree_scope.

(** ** Runs against a service *)
Section run.
Context {E : signature} {W : Type} (h : forall o : op E, W -> res E o * W).

Fixpoint trun {A} (t : tree E A) (w : W) : A * list (op E) * W :=
  match t with
  | Done a => (a, [], w)
  | Call o k =>
      let '(r, w) := h o w in
      let '(a, tr, w) := trun (k r) w in
      (a, o :: tr, w)
  end.
End run.

(** ** Comparing programs *)

(** The same calls in the same order, and results related by [R]. *)
Inductive teq {E A B} (R : A -> B -> Prop) : tree E A -> tree E B -> Prop :=
| teq_done a b : R a b -> teq R (Done a) (Done b)
| teq_call o k k' : (forall r, teq R (k r) (k' r)) -> teq R (Call o k) (Call o k').

(** Every result of the program satisfies [P]. *)
Fixpoint leaves {E A} (P : A -> Prop) (t : tree E A) : Prop :=
  match t with
  | Done a => P a
  | Call o k => forall r, leaves P (k r)
  end.

Lemma teq_refl {E A} (R : A -> A -> Prop) (t : tree E A) : (forall a, R a a) -> teq R t t.
Proof. intros HR. induction t; constructor; auto. Qed.

Lemma teq_mono {E A B} (R R' : A -> B -> Prop) (t : tree E A) (u : tree E B) :
  (forall a b, R a b -> R' a b) -> teq R t u -> teq R' t u.
Proof. intros HR. induction 1; constructor; auto. Qed.

Lemma teq_bind {E A B A' B'} (R : A -> B -> Prop) (R' : A' -> B' -> Prop)
    (t : tree E A) (u : tree E B) f g :
  teq R t u -> (forall a b, R a b -> teq R' (f a) (g b)) -> teq R' (tbind t f) (tbind u g).
Proof. intros Ht Hf. induction Ht; simpl; [auto|constructor; auto]. Qed.

Lemma teq_leaves {E A B} (P : A -> Prop) (R : A -> B -> Prop) (t : tree E A) (u : tree E B) :
  (forall a b, R a b -> P a) -> teq R t u -> leaves P t.
Proof. intros HP. induction 1; simpl; eauto. Qed.

Lemma teq_call_inv {E A B} (R : A -> B -> Prop) (o : op E) (k : res E o -> tree E A) (u : tree E B) :
  teq R (Call o k) u -> exists k', u = Call o k' /\ forall r, teq R (k r) (k' r).
Proof.
  intros Ht.
  refine (match Ht in teq _ t' u' return
    match t' with
    | Call o g => exists k', u' = Call o k' /\ forall r, teq R (g r) (k' r)
    | Done _ => True end with
    | teq_done _ _ _ _ => I
    | teq_call _ o g g' Hg => _ end). eauto.
Qed.
Lemma teq_done_inv {E A B} (R : A -> B -> Prop) (a : A) (u : tree E B) :
  teq R (Done a) u -> exists b, u = Done b /\ R a b.
Proof. remember (Done a) as t eqn:Ht. destruct 1; simplify_eq; eauto. Qed.

(** Related programs, run against the same service, make the same calls, leave it in the
    same state and return related results. *)
Lemma teq_run {E W A B} (R : A -> B -> Prop) (h : forall o : op E, W -> res E o * W)
    (t : tree E A) (u : tree E B) (w : W) :
  teq R t u ->
  R (trun h t w).1.1 (trun h u w).1.1 /\ (trun h t w).1.2 = (trun h u w).1.2 /\
  (trun h t w).2 = (trun h u w).2.
Proof.
  intros Htu. revert w. induction Htu as [a b HR|o k k' _ IH]; intros w; simpl; [done|].
  destruct (h o w) as [r w']. destruct (IH r w') as (IH1 & IH2 & IH3).
  destruct (trun h (k r) w') as [[a tr] w1], (trun h (k' r) w') as [[b tr'] w2].
  simpl in *. by subst.
Qed.

(** ** Answering one family *)
Section spy.
Context {E F : signature} {S M : Type}.
(** An implementation of the calls of [E], with a state of its own, and a monitor that sees
    the calls of both families with their answers. *)
Context (h : forall e : op E, S -> res E e * S).
Context (see_psi : forall e : op E, res E e -> M -> M) (see_lib : forall f : op F, res F f -> M -> M).

Fixpoint spy {A} (t : tree (sig_sum E F) A) (s : S) (m : M) : tree F (A * S * M) :=
  match t with
  | Done a => Done (a, s, m)
  | Call o k =>
      match o return ((res (sig_sum E F) o -> tree (sig_sum E F) A) -> tree F (A * S * M)) with
      | inl e => fun k => let '(r, s') := h e s in spy (k r) s' (see_psi e r m)
      | inr f => fun k => Call f (fun r => spy (k r) s (see_lib f r m))
      end k
  end.
End spy.

(** The program with the calls of [E] answered by [h]. *)
Definition erase {E F S A} (h : forall e : op E, S -> res E e * S) (t : tree (sig_sum E F) A) (s : S)
    : tree F (A * S * unit) :=
  spy h (fun _ _ m => m) (fun _ _ m => m) t s tt.

(** Comparing with a monitor is comparing without. *)
Lemma spy_erase {E F S M A B} (h : forall e : op E, S -> res E e * S)
    (see_psi : forall e : op E, res E e -> M -> M) (see_lib : forall f : op F, res F f -> M -> M)
    (t : tree (sig_sum E F) A) (u : tree F B) (R : A -> S -> B -> Prop) s m :
  teq (fun x b => R x.1.1 x.1.2 b) (spy h see_psi see_lib t s m) u ->
  teq (fun x b => R x.1.1 x.1.2 b) (erase h t s) u.
Proof.
  unfold erase. revert s m u. induction t as [a|[e|f] k IH]; intros s m u; simpl.
  - intros (b & -> & HR)%teq_done_inv. by constructor.
  - destruct (h e s) as [r s']. eauto.
  - intros (k' & -> & Hk)%teq_call_inv.
    constructor. intros r. eapply IH, Hk.
Qed.

(** What holds of the results of a part holds of what follows it. *)
Lemma spy_bind_leaves {E F S M A B} (h : forall e : op E, S -> res E e * S)
    (see_psi : forall e : op E, res E e -> M -> M) (see_lib : forall f : op F, res F f -> M -> M)
    (t : tree (sig_sum E F) A) (f : A -> tree (sig_sum E F) B) (s : S) (m : M)
    (Q : A * S * M -> Prop) (P : B * S * M -> Prop) :
  leaves Q (spy h see_psi see_lib t s m) ->
  (forall a s m, Q (a, s, m) -> leaves P (spy h see_psi see_lib (f a) s m)) ->
  leaves P (spy h see_psi see_lib (tbind t f) s m).
Proof.
  intros HQ Hf. revert s m HQ. induction t as [a|[e|e] k IH]; intros s m; simpl; [auto| |eauto].
  destruct (h e s) as [r s']. eauto.
Qed.

(** A sequence runs as its parts do, whatever state the first leaves the implementation in. *)
Lemma erase_bind {E F S A B A' B'} (h : forall e : op E, S -> res E e * S)
    (t : tree (sig_sum E F) A) (f : A -> tree (sig_sum E F) B) (u : tree F A') (g : A' -> tree F B')
    (R : B * S * unit -> B' -> Prop) (s : S) :
  teq (fun _ _ => True) (erase h t s) u -> (forall a b s, teq R (erase h (f a) s) (g b)) ->
  teq R (erase h (tbind t f) s) (tbind u g).
Proof.
  unfold erase. intros Ht Hf. revert s u Ht. induction t as [a|[e|e] k IH]; intros s u; simpl.
  - intros (b & -> & _)%teq_done_inv. apply Hf.
  - destruct (h e s) as [r s']. eauto.
  - intros (k' & -> & Hk)%teq_call_inv. constructor. intros r. eapply IH, Hk.
Qed.

(** A monitor that ignores the calls of [F] is left alone by a program over them. *)
Lemma spy_lift_leaves {E F S M A} (h : forall e : op E, S -> res E e * S)
    (see_psi : forall e : op E, res E e -> M -> M) (t : tree F A) s m :
  leaves (fun x => x.2 = m) (spy h see_psi (fun _ _ m => m) (lift t) s m).
Proof. induction t; simpl; auto. Qed.

(** A program over the calls of [F] alone runs as it is. *)
Lemma erase_bind_lift {E F S A B C} (h : forall e : op E, S -> res E e * S) (t : tree F A)
    (f : A -> tree (sig_sum E F) B) (g : A -> tree F C) (R : B * S * unit -> C -> Prop) (s : S) :
  (forall a, teq R (erase h (f a) s) (g a)) -> teq R (erase h (tbind (lift t) f) s) (tbind t g).
Proof.
  intros Hf. induction t as [a|o k IH]; [apply Hf|]. constructor. intros r. apply IH.
Qed.

(** ** Running programs in proofs *)

(** Rewriting of a monitor's tests. *)
Create Rewrite HintDb bracket.

(** The answer of an implementation in the context, or a test in the program. *)
Ltac answer_step :=
  match goal with
  | h : forall c, _ -> _ * _ |- context [?h' ?e ?s] => constr_eq h h'; destruct (h e s) as [? ?]
  | |- context [match ?x with (_, _) => _ end] => is_var x; destruct x
  | |- context [match ?x with Some _ => _ | None => _ end] => destruct x eqn:?
  | |- context [if ?b then _ else _] => destruct b eqn:?
  end.

(** One step of running two programs side by side: a library call they share, or a step of
    the first. *)
Ltac spy_step :=
  cbn; autorewrite with bracket;
  match goal with
  | |- teq _ (Done _) (Done _) => constructor; cbn; repeat split
  | |- teq _ (Call _ _) (Call _ _) => constructor; intros ?
  | _ => answer_step
  end.
Ltac spy_run := repeat spy_step.

(** One step towards the results of a program. *)
Ltac leaves_step :=
  cbn; autorewrite with bracket;
  match goal with
  | |- leaves _ (Done _) => cbn
  | |- leaves _ (Call _ _) => intros ?
  | |- forall _, _ => intros ?
  | _ => answer_step
  end.
Ltac leaves_run := repeat leaves_step.
