(* ===== verification/PsiThread.v ===== *)
(** * Instrumented mutexes, locks, conditions and threads

    [mysql/psi/mysql_thread.h]: each inline function calls the performance schema
    interface (psi calls) around one call of the threads library (lib calls).  A pointer
    to a real object is its address; the build options are a record, and an argument that
    a build does not have is an unused argument here. *)
From Stdlib Require Import ZArith Lia String.
From stdpp Require Import base tactics list strings.
From S2P Require Import Effects.

Local Open Scope Z_scope.
Local Open Scope tree_scope.

(** ** Build options *)

Record thread_build := ThreadBuild {
  HAVE_PSI_MUTEX_INTERFACE : bool;
  HAVE_PSI_RWLOCK_INTERFACE : bool;
  HAVE_PSI_COND_INTERFACE : bool;
  HAVE_PSI_THREAD_INTERFACE : bool;
  SAFE_MUTEX : bool;
  MY_PTHREAD_FASTMUTEX : bool;
}.

(** ** The calls *)

(** [PSI_mutex_operation], [PSI_rwlock_operation] and [PSI_cond_operation]. *)
Inductive PSI_mutex_operation := PSI_MUTEX_LOCK | PSI_MUTEX_TRYLOCK.
Inductive PSI_rwlock_operation :=
| PSI_RWLOCK_READLOCK | PSI_RWLOCK_WRITELOCK | PSI_RWLOCK_TRYREADLOCK | PSI_RWLOCK_TRYWRITELOCK.
Inductive PSI_cond_operation := PSI_COND_WAIT | PSI_COND_TIMEDWAIT.

(** Addresses: of the real objects, of the instrumentation's objects and of its lockers. *)
Abbreviation obj := positive.
Abbreviation hook := positive.
Abbreviation locker := positive.

Inductive psi_thread_call :=
| register_mutex (category : string) (info : obj) (count : Z)
| register_rwlock (category : string) (info : obj) (count : Z)
| register_cond (category : string) (info : obj) (count : Z)
| register_thread (category : string) (info : obj) (count : Z)
| init_mutex (key : Z) (identity : obj)
| init_rwlock (key : Z) (identity : obj)
| init_cond (key : Z) (identity : obj)
| destroy_mutex (m : hook)
| destroy_rwlock (m : hook)
| destroy_cond (m : hook)
| start_mutex_wait (m : hook) (op : PSI_mutex_operation) (src_file : string) (src_line : Z)
| end_mutex_wait (l : locker) (rc : Z)
| unlock_mutex (m : hook)
| start_rwlock_rdwait (m : hook) (op : PSI_rwlock_operation) (src_file : string) (src_line : Z)
| end_rwlock_rdwait (l : locker) (rc : Z)
| start_rwlock_wrwait (m : hook) (op : PSI_rwlock_operation) (src_file : string) (src_line : Z)
| end_rwlock_wrwait (l : locker) (rc : Z)
| unlock_rwlock (m : hook)
| start_cond_wait (c : hook) (m : option hook) (op : PSI_cond_operation) (src_file : string) (src_line : Z)
| end_cond_wait (l : locker) (rc : Z)
| signal_cond (c : hook)
| broadcast_cond (c : hook)
| spawn_thread (key : Z) (thread : obj) (attr : option obj) (start_routine : obj) (arg : option obj)
| get_thread
| set_thread_id (psi : option hook) (id : Z).

Definition psi_thread : signature := Signature psi_thread_call (fun c =>
  match c with
  | init_mutex _ _ | init_rwlock _ _ | init_cond _ _ => option hook
  | start_mutex_wait _ _ _ _ | start_rwlock_rdwait _ _ _ _ | start_rwlock_wrwait _ _ _ _
  | start_cond_wait _ _ _ _ _ => option locker
  | spawn_thread _ _ _ _ _ => Z
  | get_thread => option hook
  | _ => unit
  end).

(** The threads library; every call returns an error number.  [fast_inner m] is the address
    of the mutex inside the [my_pthread_fastmutex_t] at [m]. *)
Inductive thread_object := Whole (m : obj) | fast_inner (m : obj).

Inductive lib_thread_call :=
| safe_mutex_init (m : obj) (attr : option obj) (name src_file : string) (src_line : Z)
| my_pthread_fastmutex_init (m : obj) (attr : option obj)
| pthread_mutex_init (m : obj) (attr : option obj)
| safe_mutex_destroy (m : obj) (src_file : string) (src_line : Z)
| pthread_mutex_destroy (m : thread_object)
| safe_mutex_lock (m : obj) (try_lock : bool) (src_file : string) (src_line : Z)
| my_pthread_fastmutex_lock (m : obj)
| pthread_mutex_lock (m : obj)
| pthread_mutex_trylock (m : thread_object)
| safe_mutex_unlock (m : obj) (src_file : string) (src_line : Z)
| pthread_mutex_unlock (m : thread_object)
| my_rwlock_init (rw : obj) (attr : option obj)
| rwlock_destroy (rw : obj)
| rw_rdlock (rw : obj)
| rw_wrlock (rw : obj)
| rw_tryrdlock (rw : obj)
| rw_trywrlock (rw : obj)
| rw_unlock (rw : obj)
| rw_pr_init (rw : obj)
| rw_pr_destroy (rw : obj)
| rw_pr_rdlock (rw : obj)
| rw_pr_wrlock (rw : obj)
| rw_pr_unlock (rw : obj)
| pthread_cond_init (c : obj) (attr : option obj)
| pthread_cond_destroy (c : obj)
| my_cond_wait (c m : obj)
| my_cond_timedwait (c m : obj) (abstime : obj)
| pthread_cond_signal (c : obj)
| pthread_cond_broadcast (c : obj)
| pthread_create (thread : obj) (attr : option obj) (start_routine : obj) (arg : option obj).

Definition lib_thread : signature := Signature lib_thread_call (fun _ => Z).
Abbreviation thread_tree := (tree (sig_sum psi_thread lib_thread)).

(** ** The instrumented objects *)

Record mysql_mutex_t := Mutex { m_mutex : obj; mutex_psi : option hook }.
Record mysql_rwlock_t := Rwlock { m_rwlock : obj; rwlock_psi : option hook }.
Record mysql_prlock_t := Prlock { m_prlock : obj; prlock_psi : option hook }.
Record mysql_cond_t := Cond { m_cond : obj; cond_psi : option hook }.

Section thread.
Context (cfg : thread_build).

(** The [#ifdef SAFE_MUTEX] chains, each repeated in the code in both branches. *)
Definition raw_mutex_init (m : obj) (attr : option obj) (src_name src_file : string) (src_line : Z)
    : tree lib_thread Z :=
  if SAFE_MUTEX cfg then perform (E := lib_thread) (safe_mutex_init m attr src_name src_file src_line)
  else if MY_PTHREAD_FASTMUTEX cfg then perform (E := lib_thread) (my_pthread_fastmutex_init m attr)
  else perform (E := lib_thread) (pthread_mutex_init m attr).

Definition raw_mutex_destroy (m : obj) (src_file : string) (src_line : Z) : tree lib_thread Z :=
  if SAFE_MUTEX cfg then perform (E := lib_thread) (safe_mutex_destroy m src_file src_line)
  else if MY_PTHREAD_FASTMUTEX cfg then perform (E := lib_thread) (pthread_mutex_destroy (fast_inner m))
  else perform (E := lib_thread) (pthread_mutex_destroy (Whole m)).

Definition raw_mutex_lock (m : obj) (src_file : string) (src_line : Z) : tree lib_thread Z :=
  if SAFE_MUTEX cfg then perform (E := lib_thread) (safe_mutex_lock m false src_file src_line)
  else if MY_PTHREAD_FASTMUTEX cfg then perform (E := lib_thread) (my_pthread_fastmutex_lock m)
  else perform (E := lib_thread) (pthread_mutex_lock m).

Definition raw_mutex_trylock (m : obj) (src_file : string) (src_line : Z) : tree lib_thread Z :=
  if SAFE_MUTEX cfg then perform (E := lib_thread) (safe_mutex_lock m true src_file src_line)
  else if MY_PTHREAD_FASTMUTEX cfg then perform (E := lib_thread) (pthread_mutex_trylock (fast_inner m))
  else perform (E := lib_thread) (pthread_mutex_trylock (Whole m)).

Definition raw_mutex_unlock (m : obj) (src_file : string) (src_line : Z) : tree lib_thread Z :=
  if SAFE_MUTEX cfg then perform (E := lib_thread) (safe_mutex_unlock m src_file src_line)
  else if MY_PTHREAD_FASTMUTEX cfg then perform (E := lib_thread) (pthread_mutex_unlock (fast_inner m))
  else perform (E := lib_thread) (pthread_mutex_unlock (Whole m)).

(** ** Mutexes *)

Definition inline_mysql_mutex_register (category : string) (info : obj) (count : Z) : thread_tree unit :=
  if HAVE_PSI_MUTEX_INTERFACE cfg
  then psi! _ := (register_mutex category info count : op psi_thread) in Done tt
  else Done tt.

(** The initialised object, and the result. *)
Definition inline_mysql_mutex_init (key : Z) (that : mysql_mutex_t) (attr : option obj)
    (src_name src_file : string) (src_line : Z) : thread_tree (mysql_mutex_t * Z) :=
  if HAVE_PSI_MUTEX_INTERFACE cfg then
    psi! m_psi := (init_mutex key (m_mutex that) : op psi_thread) in
    run! result := raw_mutex_init (m_mutex that) attr src_name src_file src_line in
    Done (Mutex (m_mutex that) m_psi, result)
  else
    run! result := raw_mutex_init (m_mutex that) attr src_name src_file src_line in
    Done (Mutex (m_mutex that) None, result).

Definition inline_mysql_mutex_destroy (that : mysql_mutex_t) (src_file : string) (src_line : Z)
    : thread_tree (mysql_mutex_t * Z) :=
  let real that :=
    run! result := raw_mutex_destroy (m_mutex that) src_file src_line in
    Done (that, result) in
  if HAVE_PSI_MUTEX_INTERFACE cfg then
    match mutex_psi that with
    | Some m_psi => psi! _ := (destroy_mutex m_psi : op psi_thread) in real (Mutex (m_mutex that) None)
    | None => real that
    end
  else real that.

Definition inline_mysql_mutex_lock (that : mysql_mutex_t) (src_file : string) (src_line : Z)
    : thread_tree Z :=
  let plain := lift (raw_mutex_lock (m_mutex that) src_file src_line) in
  if HAVE_PSI_MUTEX_INTERFACE cfg then
    match mutex_psi that with
    | Some m_psi =>
        psi! locker := (start_mutex_wait m_psi PSI_MUTEX_LOCK src_file src_line : op psi_thread) in
        run! result := raw_mutex_lock (m_mutex that) src_file src_line in
        match locker with
        | Some l => psi! _ := (end_mutex_wait l result : op psi_thread) in Done result
        | None => Done result
        end
    | None => plain
    end
  else plain.

Definition inline_mysql_mutex_trylock (that : mysql_mutex_t) (src_file : string) (src_line : Z)
    : thread_tree Z :=
  let plain := lift (raw_mutex_trylock (m_mutex that) src_file src_line) in
  if HAVE_PSI_MUTEX_INTERFACE cfg then
    match mutex_psi that with
    | Some m_psi =>
        psi! locker := (start_mutex_wait m_psi PSI_MUTEX_TRYLOCK src_file src_line : op psi_thread) in
        run! result := raw_mutex_trylock (m_mutex that) src_file src_line in
        match locker with
        | Some l => psi! _ := (end_mutex_wait l result : op psi_thread) in Done result
        | None => Done result
        end
    | None => plain
    end
  else plain.

Definition inline_mysql_mutex_unlock (that : mysql_mutex_t) (src_file : string) (src_line : Z)
    : thread_tree Z :=
  let real := lift (raw_mutex_unlock (m_mutex that) src_file src_line) in
  if HAVE_PSI_MUTEX_INTERFACE cfg then
    match mutex_psi that with
    | Some m_psi => psi! _ := (unlock_mutex m_psi : op psi_thread) in real
    | None => real
    end
  else real.

(** ** Read-write locks, and those that prefer readers *)

Definition inline_mysql_rwlock_register (category : string) (info : obj) (count : Z) : thread_tree unit :=
  if HAVE_PSI_RWLOCK_INTERFACE cfg
  then psi! _ := (register_rwlock category info count : op psi_thread) in Done tt
  else Done tt.

Definition inline_mysql_rwlock_init (key : Z) (that : mysql_rwlock_t) : thread_tree (mysql_rwlock_t * Z) :=
  if HAVE_PSI_RWLOCK_INTERFACE cfg then
    psi! m_psi := (init_rwlock key (m_rwlock that) : op psi_thread) in
    lib! result := (my_rwlock_init (m_rwlock that) None : op lib_thread) in
    Done (Rwlock (m_rwlock that) m_psi, result)
  else
    lib! result := (my_rwlock_init (m_rwlock that) None : op lib_thread) in
    Done (Rwlock (m_rwlock that) None, result).

Definition inline_mysql_prlock_init (key : Z) (that : mysql_prlock_t) : thread_tree (mysql_prlock_t * Z) :=
  if HAVE_PSI_RWLOCK_INTERFACE cfg then
    psi! m_psi := (init_rwlock key (m_prlock that) : op psi_thread) in
    lib! result := (rw_pr_init (m_prlock that) : op lib_thread) in
    Done (Prlock (m_prlock that) m_psi, result)
  else
    lib! result := (rw_pr_init (m_prlock that) : op lib_thread) in
    Done (Prlock (m_prlock that) None, result).

Definition inline_mysql_rwlock_destroy (that : mysql_rwlock_t) : thread_tree (mysql_rwlock_t * Z) :=
  let real that :=
    lib! result := (rwlock_destroy (m_rwlock that) : op lib_thread) in
    Done (that, result) in
  if HAVE_PSI_RWLOCK_INTERFACE cfg then
    match rwlock_psi that with
    | Some m_psi => psi! _ := (destroy_rwlock m_psi : op psi_thread) in real (Rwlock (m_rwlock that) None)
    | None => real that
    end
  else real that.

Definition inline_mysql_prlock_destroy (that : mysql_prlock_t) : thread_tree (mysql_prlock_t * Z) :=
  let real that :=
    lib! result := (rw_pr_destroy (m_prlock that) : op lib_thread) in
    Done (that, result) in
  if HAVE_PSI_RWLOCK_INTERFACE cfg then
    match prlock_psi that with
    | Some m_psi => psi! _ := (destroy_rwlock m_psi : op psi_thread) in real (Prlock (m_prlock that) None)
    | None => real that
    end
  else real that.

Definition inline_mysql_rwlock_rdlock (that : mysql_rwlock_t) (src_file : string) (src_line : Z)
    : thread_tree Z :=
  let plain := lib! result := (rw_rdlock (m_rwlock that) : op lib_thread) in Done result in
  if HAVE_PSI_RWLOCK_INTERFACE cfg then
    match rwlock_psi that with
    | Some m_psi =>
        psi! locker := (start_rwlock_rdwait m_psi PSI_RWLOCK_READLOCK src_file src_line : op psi_thread) in
        lib! result := (rw_rdlock (m_rwlock that) : op lib_thread) in
        match locker with
        | Some l => psi! _ := (end_rwlock_rdwait l result : op psi_thread) in Done result
        | None => Done result
        end
    | None => plain
    end
  else plain.

Definition inline_mysql_prlock_rdlock (that : mysql_prlock_t) (src_file : string) (src_line : Z)
    : thread_tree Z :=
  let plain := lib! result := (rw_pr_rdlock (m_prlock that) : op lib_thread) in Done result in
  if HAVE_PSI_RWLOCK_INTERFACE cfg then
    match prlock_psi that with
    | Some m_psi =>
        psi! locker := (start_rwlock_rdwait m_psi PSI_RWLOCK_READLOCK src_file src_line : op psi_thread) in
        lib! result := (rw_pr_rdlock (m_prlock that) : op lib_thread) in
        match locker with
        | Some l => psi! _ := (end_rwlock_rdwait l result : op psi_thread) in Done result
        | None => Done result
        end
    | None => plain
    end
  else plain.

Definition inline_mysql_rwlock_wrlock (that : mysql_rwlock_t) (src_file : string) (src_line : Z)
    : thread_tree Z :=
  let plain := lib! result := (rw_wrlock (m_rwlock that) : op lib_thread) in Done result in
  if HAVE_PSI_RWLOCK_INTERFACE cfg then
    match rwlock_psi that with
    | Some m_psi =>
        psi! locker := (start_rwlock_wrwait m_psi PSI_RWLOCK_WRITELOCK src_file src_line : op psi_thread) in
        lib! result := (rw_wrlock (m_rwlock that) : op lib_thread) in
        match locker with
        | Some l => psi! _ := (end_rwlock_wrwait l result : op psi_thread) in Done result
        | None => Done result
        end
    | None => plain
    end
  else plain.

Definition inline_mysql_prlock_wrlock (that : mysql_prlock_t) (src_file : string) (src_line : Z)
    : thread_tree Z :=
  let plain := lib! result := (rw_pr_wrlock (m_prlock that) : op lib_thread) in Done result in
  if HAVE_PSI_RWLOCK_INTERFACE cfg then
    match prlock_psi that with
    | Some m_psi =>
        psi! locker := (start_rwlock_wrwait m_psi PSI_RWLOCK_WRITELOCK src_file src_line : op psi_thread) in
        lib! result := (rw_pr_wrlock (m_prlock that) : op lib_thread) in
        match locker with
        | Some l => psi! _ := (end_rwlock_wrwait l result : op psi_thread) in Done result
        | None => Done result
        end
    | None => plain
    end
  else plain.

Definition inline_mysql_rwlock_tryrdlock (that : mysql_rwlock_t) (src_file : string) (src_line : Z)
    : thread_tree Z :=
  let plain := lib! result := (rw_tryrdlock (m_rwlock that) : op lib_thread) in Done result in
  if HAVE_PSI_RWLOCK_INTERFACE cfg then
    match rwlock_psi that with
    | Some m_psi =>
        psi! locker := (start_rwlock_rdwait m_psi PSI_RWLOCK_TRYREADLOCK src_file src_line : op psi_thread) in
        lib! result := (rw_tryrdlock (m_rwlock that) : op lib_thread) in
        match locker with
        | Some l => psi! _ := (end_rwlock_rdwait l result : op psi_thread) in Done result
        | None => Done result
        end
    | None => plain
    end
  else plain.

Definition inline_mysql_rwlock_trywrlock (that : mysql_rwlock_t) (src_file : string) (src_line : Z)
    : thread_tree Z :=
  let plain := lib! result := (rw_trywrlock (m_rwlock that) : op lib_thread) in Done result in
  if HAVE_PSI_RWLOCK_INTERFACE cfg then
    match rwlock_psi that with
    | Some m_psi =>
        psi! locker := (start_rwlock_wrwait m_psi PSI_RWLOCK_TRYWRITELOCK src_file src_line : op psi_thread) in
        lib! result := (rw_trywrlock (m_rwlock that) : op lib_thread) in
        match locker with
        | Some l => psi! _ := (end_rwlock_wrwait l result : op psi_thread) in Done result
        | None => Done result
        end
    | None => plain
    end
  else plain.

Definition inline_mysql_rwlock_unlock (that : mysql_rwlock_t) : thread_tree Z :=
  let real := lib! result := (rw_unlock (m_rwlock that) : op lib_thread) in Done result in
  if HAVE_PSI_RWLOCK_INTERFACE cfg then
    match rwlock_psi that with
    | Some m_psi => psi! _ := (unlock_rwlock m_psi : op psi_thread) in real
    | None => real
    end
  else real.

Definition inline_mysql_prlock_unlock (that : mysql_prlock_t) : thread_tree Z :=
  let real := lib! result := (rw_pr_unlock (m_prlock that) : op lib_thread) in Done result in
  if HAVE_PSI_RWLOCK_INTERFACE cfg then
    match prlock_psi that with
    | Some m_psi => psi! _ := (unlock_rwlock m_psi : op psi_thread) in real
    | None => real
    end
  else real.

(** ** Conditions *)

Definition inline_mysql_cond_register (category : string) (info : obj) (count : Z) : thread_tree unit :=
  if HAVE_PSI_COND_INTERFACE cfg
  then psi! _ := (register_cond category info count : op psi_thread) in Done tt
  else Done tt.

Definition inline_mysql_cond_init (key : Z) (that : mysql_cond_t) (attr : option obj) : thread_tree (mysql_cond_t * Z) :=
  if HAVE_PSI_COND_INTERFACE cfg then
    psi! m_psi := (init_cond key (m_cond that) : op psi_thread) in
    lib! result := (pthread_cond_init (m_cond that) attr : op lib_thread) in
    Done (Cond (m_cond that) m_psi, result)
  else
    lib! result := (pthread_cond_init (m_cond that) attr : op lib_thread) in
    Done (Cond (m_cond that) None, result).

Definition inline_mysql_cond_destroy (that : mysql_cond_t) : thread_tree (mysql_cond_t * Z) :=
  let real that :=
    lib! result := (pthread_cond_destroy (m_cond that) : op lib_thread) in
    Done (that, result) in
  if HAVE_PSI_COND_INTERFACE cfg then
    match cond_psi that with
    | Some m_psi => psi! _ := (destroy_cond m_psi : op psi_thread) in real (Cond (m_cond that) None)
    | None => real that
    end
  else real that.

Definition inline_mysql_cond_wait (that : mysql_cond_t) (mutex : mysql_mutex_t) (src_file : string) (src_line : Z)
    : thread_tree Z :=
  let plain := lib! result := (my_cond_wait (m_cond that) (m_mutex mutex) : op lib_thread) in Done result in
  if HAVE_PSI_COND_INTERFACE cfg then
    match cond_psi that with
    | Some m_psi =>
        psi! locker := (start_cond_wait m_psi (mutex_psi mutex) PSI_COND_WAIT src_file src_line : op psi_thread) in
        lib! result := (my_cond_wait (m_cond that) (m_mutex mutex) : op lib_thread) in
        match locker with
        | Some l => psi! _ := (end_cond_wait l result : op psi_thread) in Done result
        | None => Done result
        end
    | None => plain
    end
  else plain.

Definition inline_mysql_cond_timedwait (that : mysql_cond_t) (mutex : mysql_mutex_t) (abstime : obj) (src_file : string) (src_line : Z)
    : thread_tree Z :=
  let plain := lib! result := (my_cond_timedwait (m_cond that) (m_mutex mutex) abstime : op lib_thread) in Done result in
  if HAVE_PSI_COND_INTERFACE cfg then
    match cond_psi that with
    | Some m_psi =>
        psi! locker := (start_cond_wait m_psi (mutex_psi mutex) PSI_COND_TIMEDWAIT src_file src_line : op psi_thread) in
        lib! result := (my_cond_timedwait (m_cond that) (m_mutex mutex) abstime : op lib_thread) in
        match locker with
        | Some l => psi! _ := (end_cond_wait l result : op psi_thread) in Done result
        | None => Done result
        end
    | None => plain
    end
  else plain.

Definition inline_mysql_cond_signal (that : mysql_cond_t) : thread_tree Z :=
  let real := lib! result := (pthread_cond_signal (m_cond that) : op lib_thread) in Done result in
  if HAVE_PSI_COND_INTERFACE cfg then
    match cond_psi that with
    | Some m_psi => psi! _ := (signal_cond m_psi : op psi_thread) in real
    | None => real
    end
  else real.

Definition inline_mysql_cond_broadcast (that : mysql_cond_t) : thread_tree Z :=
  let real := lib! result := (pthread_cond_broadcast (m_cond that) : op lib_thread) in Done result in
  if HAVE_PSI_COND_INTERFACE cfg then
    match cond_psi that with
    | Some m_psi => psi! _ := (broadcast_cond m_psi : op psi_thread) in real
    | None => real
    end
  else real.

(** ** Threads *)

Definition inline_mysql_thread_register (category : string) (info : obj) (count : Z) : thread_tree unit :=
  if HAVE_PSI_THREAD_INTERFACE cfg
  then psi! _ := (register_thread category info count : op psi_thread) in Done tt
  else Done tt.

Definition inline_mysql_thread_create (key : Z) (thread : obj) (attr : option obj)
    (start_routine : obj) (arg : option obj) : thread_tree Z :=
  psi! result := (spawn_thread key thread attr start_routine arg : op psi_thread) in
  Done result.

Definition inline_mysql_thread_set_psi_id (id : Z) : thread_tree unit :=
  psi! psi := (get_thread : op psi_thread) in
  psi! _ := (set_thread_id psi id : op psi_thread) in
  Done tt.

(** The macros that choose between the instrumented function and the plain one. *)
Definition mysql_thread_create (key : Z) (thread : obj) (attr : option obj) (start_routine : obj)
    (arg : option obj) : thread_tree Z :=
  if HAVE_PSI_THREAD_INTERFACE cfg then inline_mysql_thread_create key thread attr start_routine arg
  else lib! result := (pthread_create thread attr start_routine arg : op lib_thread) in Done result.

Definition mysql_thread_set_psi_id (id : Z) : thread_tree unit :=
  if HAVE_PSI_THREAD_INTERFACE cfg then inline_mysql_thread_set_psi_id id else Done tt.
End thread.
