(* ===== verification/PsiThreadProps.v ===== *)
(** * The instrumented locks are the locks they replace

    Whatever the performance schema answers, and in every build, a wrapper of
    [mysql_thread.h] makes the one library call it replaces and returns its result; each
    wait it announces it also ends, once, with that result; and an object's hook is used
    only between [init] and [destroy]. *)
From Stdlib Require Import ZArith Lia String.
From stdpp Require Import base tactics list strings numbers.
From S2P Require Import Effects.
From S2P Require Import PsiThread.

Local Open Scope Z_scope.
Local Open Scope tree_scope.

(** ** What each wrapper replaces *)

(** The functions of a kind of mutex. *)
Record mutex_functions := MutexFunctions {
  call_init : obj -> option obj -> string -> string -> Z -> lib_thread_call;
  call_destroy : obj -> string -> Z -> lib_thread_call;
  call_lock : obj -> string -> Z -> lib_thread_call;
  call_trylock : obj -> string -> Z -> lib_thread_call;
  call_unlock : obj -> string -> Z -> lib_thread_call;
}.

(** Checked mutexes know where they are used; fast ones are locked by a function of their
    own and for the rest are the [pthread_mutex_t] inside; the plain ones are pthread's. *)
Definition safe_mutexes : mutex_functions :=
  MutexFunctions safe_mutex_init safe_mutex_destroy (fun m => safe_mutex_lock m false)
    (fun m => safe_mutex_lock m true) safe_mutex_unlock.
Definition fast_mutexes : mutex_functions :=
  MutexFunctions (fun m attr _ _ _ => my_pthread_fastmutex_init m attr)
    (fun m _ _ => pthread_mutex_destroy (fast_inner m)) (fun m _ _ => my_pthread_fastmutex_lock m)
    (fun m _ _ => pthread_mutex_trylock (fast_inner m)) (fun m _ _ => pthread_mutex_unlock (fast_inner m)).
Definition plain_mutexes : mutex_functions :=
  MutexFunctions (fun m attr _ _ _ => pthread_mutex_init m attr)
    (fun m _ _ => pthread_mutex_destroy (Whole m)) (fun m _ _ => pthread_mutex_lock m)
    (fun m _ _ => pthread_mutex_trylock (Whole m)) (fun m _ _ => pthread_mutex_unlock (Whole m)).

(** The mutexes of a build; [SAFE_MUTEX] goes first. *)
Definition mutexes (cfg : thread_build) : mutex_functions :=
  match SAFE_MUTEX cfg, MY_PTHREAD_FASTMUTEX cfg with
  | true, _ => safe_mutexes
  | false, true => fast_mutexes
  | false, false => plain_mutexes
  end.

(** The table of the header's comments: the wrapper and the library's function. *)
Inductive replaces (cfg : thread_build) : thread_tree Z -> tree lib_thread Z -> Prop :=
| r_mutex_init key that attr name file line :
    replaces cfg (tmap snd (inline_mysql_mutex_init cfg key that attr name file line))
      (perform (E := lib_thread) (call_init (mutexes cfg) (m_mutex that) attr name file line))
| r_mutex_destroy that file line :
    replaces cfg (tmap snd (inline_mysql_mutex_destroy cfg that file line))
      (perform (E := lib_thread) (call_destroy (mutexes cfg) (m_mutex that) file line))
| r_mutex_lock that file line :
    replaces cfg (inline_mysql_mutex_lock cfg that file line)
      (perform (E := lib_thread) (call_lock (mutexes cfg) (m_mutex that) file line))
| r_mutex_trylock that file line :
    replaces cfg (inline_mysql_mutex_trylock cfg that file line)
      (perform (E := lib_thread) (call_trylock (mutexes cfg) (m_mutex that) file line))
| r_mutex_unlock that file line :
    replaces cfg (inline_mysql_mutex_unlock cfg that file line)
      (perform (E := lib_thread) (call_unlock (mutexes cfg) (m_mutex that) file line))
| r_rwlock_init key that :
    replaces cfg (tmap snd (inline_mysql_rwlock_init cfg key that)) (perform (E := lib_thread) (my_rwlock_init (m_rwlock that) None))
| r_prlock_init key that :
    replaces cfg (tmap snd (inline_mysql_prlock_init cfg key that)) (perform (E := lib_thread) (rw_pr_init (m_prlock that)))
| r_rwlock_destroy that :
    replaces cfg (tmap snd (inline_mysql_rwlock_destroy cfg that)) (perform (E := lib_thread) (rwlock_destroy (m_rwlock that)))
| r_prlock_destroy that :
    replaces cfg (tmap snd (inline_mysql_prlock_destroy cfg that)) (perform (E := lib_thread) (rw_pr_destroy (m_prlock that)))
| r_rwlock_rdlock that file line :
    replaces cfg (inline_mysql_rwlock_rdlock cfg that file line) (perform (E := lib_thread) (rw_rdlock (m_rwlock that)))
| r_prlock_rdlock that file line :
    replaces cfg (inline_mysql_prlock_rdlock cfg that file line) (perform (E := lib_thread) (rw_pr_rdlock (m_prlock that)))
| r_rwlock_wrlock that file line :
    replaces cfg (inline_mysql_rwlock_wrlock cfg that file line) (perform (E := lib_thread) (rw_wrlock (m_rwlock that)))
| r_prlock_wrlock that file line :
    replaces cfg (inline_mysql_prlock_wrlock cfg that file line) (perform (E := lib_thread) (rw_pr_wrlock (m_prlock that)))
| r_rwlock_tryrdlock that file line :
    replaces cfg (inline_mysql_rwlock_tryrdlock cfg that file line) (perform (E := lib_thread) (rw_tryrdlock (m_rwlock that)))
| r_rwlock_trywrlock that file line :
    replaces cfg (inline_mysql_rwlock_trywrlock cfg that file line) (perform (E := lib_thread) (rw_trywrlock (m_rwlock that)))
| r_rwlock_unlock that :
    replaces cfg (inline_mysql_rwlock_unlock cfg that) (perform (E := lib_thread) (rw_unlock (m_rwlock that)))
| r_prlock_unlock that :
    replaces cfg (inline_mysql_prlock_unlock cfg that) (perform (E := lib_thread) (rw_pr_unlock (m_prlock that)))
| r_cond_init key that attr :
    replaces cfg (tmap snd (inline_mysql_cond_init cfg key that attr)) (perform (E := lib_thread) (pthread_cond_init (m_cond that) attr))
| r_cond_destroy that :
    replaces cfg (tmap snd (inline_mysql_cond_destroy cfg that)) (perform (E := lib_thread) (pthread_cond_destroy (m_cond that)))
| r_cond_wait that mutex file line :
    replaces cfg (inline_mysql_cond_wait cfg that mutex file line)
      (perform (E := lib_thread) (my_cond_wait (m_cond that) (m_mutex mutex)))
| r_cond_timedwait that mutex abstime file line :
    replaces cfg (inline_mysql_cond_timedwait cfg that mutex abstime file line)
      (perform (E := lib_thread) (my_cond_timedwait (m_cond that) (m_mutex mutex) abstime))
| r_cond_signal that :
    replaces cfg (inline_mysql_cond_signal cfg that) (perform (E := lib_thread) (pthread_cond_signal (m_cond that)))
| r_cond_broadcast that :
    replaces cfg (inline_mysql_cond_broadcast cfg that) (perform (E := lib_thread) (pthread_cond_broadcast (m_cond that)))
| r_registers category info count :
    replaces cfg
      (tbind (inline_mysql_mutex_register cfg category info count) (fun _ =>
       tbind (inline_mysql_rwlock_register cfg category info count) (fun _ =>
       tbind (inline_mysql_cond_register cfg category info count) (fun _ =>
       tbind (inline_mysql_thread_register cfg category info count) (fun _ => Done 0)))))
      (Done 0)
| r_thread_create key thread attr routine arg :
    HAVE_PSI_THREAD_INTERFACE cfg = false ->
    replaces cfg (mysql_thread_create cfg key thread attr routine arg)
      (perform (E := lib_thread) (pthread_create thread attr routine arg))
| r_thread_set_psi_id id :
    replaces cfg (tmap (fun _ => 0) (mysql_thread_set_psi_id cfg id)) (Done 0).

(** ** The protocol of a wait *)

Inductive wait_kind := on_mutex | on_read | on_write | on_cond.
#[export] Instance wait_kind_eq : EqDecision wait_kind.
Proof. solve_decision. Defined.

(** No wait announced; one announced with its locker; the library's call made with its
    result; the protocol violated. *)
Inductive bracket :=
| Idle
| Waiting (k : wait_kind) (l : locker)
| Waited (k : wait_kind) (l : locker) (rc : Z)
| Broken.

Definition start_wait (k : wait_kind) (r : option locker) (m : bracket) : bracket :=
  match m, r with
  | Idle, Some l => Waiting k l
  | Idle, None => Idle
  | _, _ => Broken
  end.
Definition end_wait (k : wait_kind) (l : locker) (rc : Z) (m : bracket) : bracket :=
  match m with
  | Waited k' l' rc' => if decide (k = k' /\ l = l' /\ rc = rc') then Idle else Broken
  | _ => Broken
  end.

Definition see_wait (c : psi_thread_call) : res psi_thread c -> bracket -> bracket :=
  match c with
  | start_mutex_wait _ _ _ _ => start_wait on_mutex
  | start_rwlock_rdwait _ _ _ _ => start_wait on_read
  | start_rwlock_wrwait _ _ _ _ => start_wait on_write
  | start_cond_wait _ _ _ _ _ => start_wait on_cond
  | end_mutex_wait l rc => fun _ => end_wait on_mutex l rc
  | end_rwlock_rdwait l rc => fun _ => end_wait on_read l rc
  | end_rwlock_wrwait l rc => fun _ => end_wait on_write l rc
  | end_cond_wait l rc => fun _ => end_wait on_cond l rc
  | _ => fun _ m => m
  end.
Definition see_call (c : lib_thread_call) (rc : Z) (m : bracket) : bracket :=
  match m with
  | Idle => Idle
  | Waiting k l => Waited k l rc
  | Waited _ _ _ | Broken => Broken
  end.

(** The monitor's test of a locker and a result against themselves succeeds. *)
Lemma thread_wait_waited k l rc : end_wait k l rc (Waited k l rc) = Idle.
Proof. unfold end_wait. by rewrite decide_True. Qed.
#[local] Hint Rewrite thread_wait_waited : bracket.
#[local] Opaque end_wait.

Section compare.
Context (cfg : thread_build).
Context {S : Type} (h : forall c : psi_thread_call, S -> res psi_thread c * S).

Lemma thread_replaced_spied w b s :
  replaces cfg w b ->
  teq (fun x r => x.1.1 = r /\ x.2 = Idle) (spy (E := psi_thread) (F := lib_thread) h see_wait see_call w s Idle) b.
Proof.
  destruct 1; cbv [mutexes perform tmap raw_mutex_init raw_mutex_destroy raw_mutex_lock raw_mutex_trylock
    raw_mutex_unlock inline_mysql_mutex_register inline_mysql_rwlock_register
    inline_mysql_cond_register inline_mysql_thread_register mysql_thread_create
    mysql_thread_set_psi_id inline_mysql_thread_create inline_mysql_thread_set_psi_id
    inline_mysql_mutex_init inline_mysql_mutex_destroy inline_mysql_mutex_lock
    inline_mysql_mutex_trylock inline_mysql_mutex_unlock inline_mysql_rwlock_init
    inline_mysql_prlock_init inline_mysql_rwlock_destroy inline_mysql_prlock_destroy
    inline_mysql_rwlock_rdlock inline_mysql_prlock_rdlock inline_mysql_rwlock_wrlock
    inline_mysql_prlock_wrlock inline_mysql_rwlock_tryrdlock inline_mysql_rwlock_trywrlock
    inline_mysql_rwlock_unlock inline_mysql_prlock_unlock inline_mysql_cond_init
    inline_mysql_cond_destroy inline_mysql_cond_wait inline_mysql_cond_timedwait
    inline_mysql_cond_signal inline_mysql_cond_broadcast].
  all: destruct (SAFE_MUTEX cfg), (MY_PTHREAD_FASTMUTEX cfg);
    cbn [call_init call_destroy call_lock call_trylock call_unlock safe_mutexes fast_mutexes plain_mutexes];
    spy_run; congruence.
Qed.
End compare.

(** C27: in every build, and whatever the performance schema answers, each wrapper of
    [mysql_thread.h] is a drop-in replacement: it makes exactly the library call it
    replaces, with the same arguments, and returns its result. *)
Theorem thread_transparent (cfg : thread_build) {S : Type}
    (h : forall c : psi_thread_call, S -> res psi_thread c * S) (s : S)
    (w : thread_tree Z) (b : tree lib_thread Z) :
  replaces cfg w b ->
  teq (fun x r => x.1.1 = r) (erase (E := psi_thread) (F := lib_thread) h w s) b.
Proof.
  intros Hr. apply (spy_erase (E := psi_thread) (F := lib_thread) h see_wait see_call w b
    (fun a _ r => a = r) s Idle).
  eapply teq_mono, (thread_replaced_spied cfg h), Hr. by intros x r [].
Qed.

(** A wait that is announced to the performance schema is ended exactly once, by the end
    of its own kind, with the locker it was given, after the library's call and with its
    result; without a locker nothing is ended. *)
Theorem thread_brackets (cfg : thread_build) {S : Type}
    (h : forall c : psi_thread_call, S -> res psi_thread c * S) (s : S)
    (w : thread_tree Z) (b : tree lib_thread Z) :
  replaces cfg w b ->
  leaves (fun x => x.2 = Idle) (spy (E := psi_thread) (F := lib_thread) h see_wait see_call w s Idle).
Proof.
  intros Hr. eapply teq_leaves, (thread_replaced_spied cfg h), Hr. by intros x r [].
Qed.

(** ** The life of a mutex's hook *)

Inductive mutex_use :=
| use_lock (src_file : string) (src_line : Z)
| use_trylock (src_file : string) (src_line : Z)
| use_unlock (src_file : string) (src_line : Z).

Section life.
Context (cfg : thread_build).

Fixpoint use_mutex (that : mysql_mutex_t) (l : list mutex_use) : thread_tree unit :=
  match l with
  | [] => Done tt
  | use_lock f n :: l => tbind (inline_mysql_mutex_lock cfg that f n) (fun _ => use_mutex that l)
  | use_trylock f n :: l => tbind (inline_mysql_mutex_trylock cfg that f n) (fun _ => use_mutex that l)
  | use_unlock f n :: l => tbind (inline_mysql_mutex_unlock cfg that f n) (fun _ => use_mutex that l)
  end.

(** Initialised, used any number of times, destroyed. *)
Definition mutex_life (key : Z) (that : mysql_mutex_t) (attr : option obj) (l : list mutex_use)
    (name file : string) (line : Z) : thread_tree mysql_mutex_t :=
  tbind (inline_mysql_mutex_init cfg key that attr name file line) (fun x =>
  tbind (use_mutex x.1 l) (fun _ =>
  tmap fst (inline_mysql_mutex_destroy cfg x.1 file line))).
End life.

(** No hook yet; the hook [init_mutex] has returned; the hook destroyed; another hook used,
    or one used after it was destroyed. *)
Inductive hook_life := Unborn | Alive (p : option hook) | Dead | Misused.

Definition see_use (m : hook) (s s' : hook_life) : hook_life :=
  match s with Alive (Some p) => if decide (m = p) then s' else Misused | _ => Misused end.
Definition see_hook (c : psi_thread_call) : res psi_thread c -> hook_life -> hook_life :=
  match c with
  | init_mutex _ _ => fun r s => match s with Unborn => Alive r | _ => Misused end
  | start_mutex_wait m _ _ _ | unlock_mutex m => fun _ s => see_use m s s
  | destroy_mutex m => fun _ s => see_use m s Dead
  | _ => fun _ s => s
  end.
Abbreviation watch h := (spy (E := psi_thread) (F := lib_thread) h see_hook (fun _ _ s => s)).

Lemma see_use_alive m s' : see_use m (Alive (Some m)) s' = s'.
Proof. unfold see_use. by rewrite decide_True. Qed.

#[local] Hint Rewrite see_use_alive : bracket.
#[local] Opaque see_use.

Section hook.
Context (cfg : thread_build) {S : Type}.
Context (h : forall c : psi_thread_call, S -> res psi_thread c * S).

(** What a use leaves: the hook as it was. *)
Lemma use_mutex_alive that l s m :
  (HAVE_PSI_MUTEX_INTERFACE cfg = true -> m = Alive (mutex_psi that)) ->
  leaves (fun x => x.2 = m) (watch h (use_mutex cfg that l) s m).
Proof.
  intros Hm. revert s. induction l as [|u l IH]; intros s; [done|].
  assert (forall t, leaves (fun x => x.2 = m) (watch h t s m) ->
    leaves (fun x => x.2 = m) (watch h (tbind t (fun _ : Z => use_mutex cfg that l)) s m)) as Hbind.
  { intros t Ht. eapply spy_bind_leaves; [exact Ht|]. intros a s' m' Hm'. simpl in Hm'. by subst. }
  destruct u; simpl; apply Hbind; clear Hbind IH;
    cbv [inline_mysql_mutex_lock inline_mysql_mutex_trylock inline_mysql_mutex_unlock
      raw_mutex_lock raw_mutex_trylock raw_mutex_unlock perform];
    destruct (HAVE_PSI_MUTEX_INTERFACE cfg); try rewrite Hm by done;
    leaves_run; done.
Qed.
End hook.

(** C39: over the whole life of a mutex, initialised, used any number of times and destroyed,
    the performance schema sees no hook but the one it returned from [init_mutex], and none
    after [destroy_mutex]; the object is left without a hook. *)
Theorem mutex_hook_life (cfg : thread_build) {S : Type}
    (h : forall c : psi_thread_call, S -> res psi_thread c * S) (s : S) key that attr l name file line :
  leaves (fun x => mutex_psi x.1.1 = None /\
      if HAVE_PSI_MUTEX_INTERFACE cfg then x.2 = Dead \/ x.2 = Alive None else x.2 = Unborn)
    (watch h (mutex_life cfg key that attr l name file line) s Unborn).
Proof.
  apply spy_bind_leaves with (Q := fun x =>
    (HAVE_PSI_MUTEX_INTERFACE cfg = true -> x.2 = Alive (mutex_psi x.1.1.1)) /\
    (HAVE_PSI_MUTEX_INTERFACE cfg = false -> x.2 = Unborn /\ mutex_psi x.1.1.1 = None)).
  - cbv [inline_mysql_mutex_init raw_mutex_init perform]. leaves_run; naive_solver.
  - intros [that' rc] s' m [Hon Hoff]. cbn [fst snd] in *.
    eapply spy_bind_leaves; [by apply use_mutex_alive|].
    intros [] s'' m' Hm. cbn in Hm. subst m'.
    cbv [tmap inline_mysql_mutex_destroy raw_mutex_destroy perform].
    destruct (HAVE_PSI_MUTEX_INTERFACE cfg) eqn:Hf.
    + rewrite Hon by done. leaves_run; naive_solver.
    + destruct Hoff as [-> Hnone]; [done|]. leaves_run; done.
Qed.

(** ** A concrete instrumentation, at which the theorems apply *)

(** Every hook is 7; the lockers are numbered. *)
Definition numbered (c : psi_thread_call) (n : positive) : res psi_thread c * positive :=
  match c return (res psi_thread c * positive) with
  | init_mutex _ _ | init_rwlock _ _ | init_cond _ _ => (Some 7%positive, n)
  | start_mutex_wait _ _ _ _ | start_rwlock_rdwait _ _ _ _ | start_rwlock_wrwait _ _ _ _
  | start_cond_wait _ _ _ _ _ => (Some n, Pos.succ n)
  | spawn_thread _ _ _ _ _ => (0, n)
  | get_thread => (Some 7%positive, n)
  | _ => (tt, n)
  end.

Definition full_build : thread_build := ThreadBuild true true true true false false.
Definition demo_mutex : mysql_mutex_t := Mutex 1 (Some 7%positive).

Lemma thread_transparent_witness :
  replaces full_build (inline_mysql_mutex_trylock full_build demo_mutex "my.cc" 10)
    (perform (E := lib_thread) (call_trylock (mutexes full_build) 1 "my.cc" 10)) /\
  teq (fun x r => x.1.1 = r)
    (erase (E := psi_thread) (F := lib_thread) numbered
       (inline_mysql_mutex_trylock full_build demo_mutex "my.cc" 10) 1%positive)
    (perform (E := lib_thread) (call_trylock (mutexes full_build) 1 "my.cc" 10)).
Proof.
  split; [apply (r_mutex_trylock full_build demo_mutex)|].
  apply (thread_transparent full_build numbered), (r_mutex_trylock full_build demo_mutex).
Defined.

Lemma thread_brackets_witness :
  replaces full_build (inline_mysql_mutex_lock full_build demo_mutex "my.cc" 10)
    (perform (E := lib_thread) (call_lock (mutexes full_build) 1 "my.cc" 10)) /\
  leaves (fun x => x.2 = Idle)
    (spy (E := psi_thread) (F := lib_thread) numbered see_wait see_call
      (inline_mysql_mutex_lock full_build demo_mutex "my.cc" 10) 1%positive Idle).
Proof.
  split; [apply (r_mutex_lock full_build demo_mutex)|].
  eapply (thread_brackets full_build numbered), (r_mutex_lock full_build demo_mutex).
Defined.

(** The instrumented program, run: its psi and library calls in order. *)
Example trylock_calls :
  trun (E := sig_sum psi_thread lib_thread)
    (fun o s => match o with inl c => numbered c s | inr c => (16, s) end)
    (inline_mysql_mutex_trylock full_build demo_mutex "my.cc" 10) 1%positive =
  (16, [inl (start_mutex_wait 7 PSI_MUTEX_TRYLOCK "my.cc" 10); inr (pthread_mutex_trylock (Whole 1));
        inl (end_mutex_wait 1 16)], 2%positive).
Proof. reflexivity. Qed.
