(* ===== verification/PsiFile.v ===== *)
(** * Instrumented files

    [mysql/psi/mysql_file.h]: the wrappers of the file functions of [mysys] and of stdio.
    Each asks the performance schema for a locker, and if it gets one announces the wait
    and its number of bytes before the call, and its end and number of bytes after it. *)
From Stdlib Require Import ZArith Lia String.
From stdpp Require Import base tactics list strings.
From S2P Require Import Words.
From S2P Require Import Effects.

Local Open Scope Z_scope.
Local Open Scope tree_scope.

(** ** The calls *)

Inductive PSI_file_operation :=
| PSI_FILE_CREATE | PSI_FILE_CREATE_TMP | PSI_FILE_OPEN | PSI_FILE_STREAM_OPEN | PSI_FILE_CLOSE
| PSI_FILE_STREAM_CLOSE | PSI_FILE_READ | PSI_FILE_WRITE | PSI_FILE_SEEK | PSI_FILE_TELL
| PSI_FILE_FLUSH | PSI_FILE_STAT | PSI_FILE_FSTAT | PSI_FILE_CHSIZE | PSI_FILE_DELETE
| PSI_FILE_RENAME | PSI_FILE_SYNC.

(** The flags of [my_sys.h] used here, and the result of a failed read or write. *)
Definition MY_FNABP : Z := 2.
Definition MY_NABP : Z := 4.
Definition MY_WME : Z := 16.
Definition MY_UNPACK_FILENAME : Z := 4.
Definition MY_APPEND_EXT : Z := 256.
Definition MY_FILE_ERROR : Z := u64 (-1).

(** Addresses: of C objects, of the instrumentation's objects and of its lockers. *)
Abbreviation obj := positive.
Abbreviation hook := positive.
Abbreviation locker := positive.

(** [identity] is the last argument of [get_thread_file_name_locker]: the stream, or [None]
    for the address of the wrapper's own variable. *)
Inductive psi_file_call :=
| register_file (category : string) (info : obj) (count : Z)
| create_file (key : Z) (name : obj) (file : Z)
| get_thread_file_name_locker (key : Z) (op : PSI_file_operation) (name : string) (identity : option obj)
| get_thread_file_stream_locker (file : option hook) (op : PSI_file_operation)
| get_thread_file_descriptor_locker (file : Z) (op : PSI_file_operation)
| start_file_open_wait (l : locker) (src_file : string) (src_line : Z)
| end_file_open_wait (l : locker) (result : option obj)
| end_file_open_wait_and_bind_to_descriptor (l : locker) (file : Z)
| start_file_wait (l : locker) (count : Z) (src_file : string) (src_line : Z)
| end_file_wait (l : locker) (count : Z)
| start_file_close_wait (l : locker) (src_file : string) (src_line : Z)
| end_file_close_wait (l : locker) (rc : Z).

Definition psi_file : signature := Signature psi_file_call (fun c =>
  match c with
  | get_thread_file_name_locker _ _ _ _ | get_thread_file_stream_locker _ _
  | get_thread_file_descriptor_locker _ _ => option locker
  | end_file_open_wait _ _ => option hook
  | _ => unit
  end).

(** The functions of [mysys] and stdio.  [fgets] returns what it has read, as the string
    now in the buffer. *)
Inductive lib_file_call :=
| fgets (str : obj) (size : Z) (f : option obj)
| fgetc (f : option obj)
| fputs (str : option string) (f : option obj)
| fputc (c : Z) (f : option obj)
| vfprintf (f : option obj) (format : string) (args : obj)
| fflush (f : option obj)
| feof (f : option obj)
| my_fstat (filenr : Z) (stat_area : obj) (flags : Z)
| my_stat (path : string) (stat_area : obj) (flags : Z)
| my_chsize (file newlength filler flags : Z)
| my_malloc_MYSQL_FILE (flags : Z)
| my_free (p : obj)
| my_fopen (filename : string) (flags myFlags : Z)
| my_fclose (f : option obj) (flags : Z)
| my_fread (f : option obj) (buffer : obj) (count flags : Z)
| my_fwrite (f : option obj) (buffer : obj) (count flags : Z)
| my_fseek (f : option obj) (pos whence flags : Z)
| my_ftell (f : option obj) (flags : Z)
| my_create (filename : string) (create_flags access_flags myFlags : Z)
| create_temp_file (to : obj) (dir pfx : string) (mode myFlags : Z)
| my_open (filename : string) (flags myFlags : Z)
| my_close (file flags : Z)
| my_read (file : Z) (buffer : obj) (count flags : Z)
| my_write (file : Z) (buffer : obj) (count flags : Z)
| my_pread (file : Z) (buffer : obj) (count offset flags : Z)
| my_pwrite (file : Z) (buffer : obj) (count offset flags : Z)
| my_seek (file pos whence flags : Z)
| my_tell (file flags : Z)
| my_delete (name : string) (flags : Z)
| my_rename (from to : string) (flags : Z)
| my_create_with_symlink (linkname filename : string) (create_flags access_flags flags : Z)
| fn_format (name dir ext : string) (flags : Z)
| my_handler_delete_with_symlink (fullname : string) (flags : Z)
| my_rename_with_symlink (from to : string) (flags : Z)
| my_sync (fd flags : Z).

Definition lib_file : signature := Signature lib_file_call (fun c =>
  match c with
  | fgets _ _ _ => option string
  | my_stat _ _ _ | my_malloc_MYSQL_FILE _ | my_fopen _ _ _ => option obj
  | my_free _ => unit
  | fn_format _ _ _ _ => string
  | _ => Z
  end).
Abbreviation file_tree := (tree (sig_sum psi_file lib_file)).

(** [MYSQL_FILE], with its own address for [my_free]. *)
Record MYSQL_FILE := MysqlFile {
  file_at : obj;
  m_file : option obj;
  file_psi : option hook;
}.

(** [strlen] of a pointer that may be null, as the wrappers guard it. *)
Definition strlen_or_0 (s : option string) : Z :=
  match s with Some s => Z.of_nat (String.length s) | None => 0 end.

Section file.
(** The option [HAVE_PSI_FILE_INTERFACE] of the build. *)
Context (HAVE_PSI_FILE_INTERFACE : bool).

Definition inline_mysql_file_register (category : string) (info : obj) (count : Z)
    : file_tree unit :=
  if HAVE_PSI_FILE_INTERFACE
  then psi! _ := (register_file category info count : op psi_file) in Done tt
  else Done tt.

(** ** Streams *)

Definition inline_mysql_file_fgets (src_file : string) (src_line : Z) (str : obj) (size : Z) (file : MYSQL_FILE)
    : file_tree (option string) :=
  let plain := lib! result := (fgets str size (m_file file) : op lib_file) in Done result in
  if HAVE_PSI_FILE_INTERFACE then
    psi! locker := (get_thread_file_stream_locker (file_psi file) PSI_FILE_READ : op psi_file) in
    match locker with
    | Some locker =>
        psi! _ := (start_file_wait locker (u64 size) src_file src_line : op psi_file) in
        lib! result := (fgets str size (m_file file) : op lib_file) in
        psi! _ := (end_file_wait locker (strlen_or_0 result) : op psi_file) in
        Done result
    | None => plain
    end
  else plain.

Definition inline_mysql_file_fgetc (src_file : string) (src_line : Z) (file : MYSQL_FILE)
    : file_tree Z :=
  let plain := lib! result := (fgetc (m_file file) : op lib_file) in Done result in
  if HAVE_PSI_FILE_INTERFACE then
    psi! locker := (get_thread_file_stream_locker (file_psi file) PSI_FILE_READ : op psi_file) in
    match locker with
    | Some locker =>
        psi! _ := (start_file_wait locker 1 src_file src_line : op psi_file) in
        lib! result := (fgetc (m_file file) : op lib_file) in
        psi! _ := (end_file_wait locker 1 : op psi_file) in
        Done result
    | None => plain
    end
  else plain.

Definition inline_mysql_file_fputs (src_file : string) (src_line : Z) (str : option string) (file : MYSQL_FILE)
    : file_tree Z :=
  let plain := lib! result := (fputs str (m_file file) : op lib_file) in Done result in
  if HAVE_PSI_FILE_INTERFACE then
    psi! locker := (get_thread_file_stream_locker (file_psi file) PSI_FILE_WRITE : op psi_file) in
    match locker with
    | Some locker =>
        let bytes := strlen_or_0 str in
        psi! _ := (start_file_wait locker bytes src_file src_line : op psi_file) in
        lib! result := (fputs str (m_file file) : op lib_file) in
        psi! _ := (end_file_wait locker bytes : op psi_file) in
        Done result
    | None => plain
    end
  else plain.

Definition inline_mysql_file_fputc (src_file : string) (src_line : Z) (c : Z) (file : MYSQL_FILE)
    : file_tree Z :=
  let plain := lib! result := (fputc c (m_file file) : op lib_file) in Done result in
  if HAVE_PSI_FILE_INTERFACE then
    psi! locker := (get_thread_file_stream_locker (file_psi file) PSI_FILE_WRITE : op psi_file) in
    match locker with
    | Some locker =>
        psi! _ := (start_file_wait locker 1 src_file src_line : op psi_file) in
        lib! result := (fputc c (m_file file) : op lib_file) in
        psi! _ := (end_file_wait locker 1 : op psi_file) in
        Done result
    | None => plain
    end
  else plain.

(** The [va_list] is the address of the arguments; the position is that of the header. *)
Definition inline_mysql_file_fprintf (file : MYSQL_FILE) (format : string) (args : obj) (src_file : string) (src_line : Z)
    : file_tree Z :=
  let plain := lib! result := (vfprintf (m_file file) format args : op lib_file) in Done result in
  if HAVE_PSI_FILE_INTERFACE then
    psi! locker := (get_thread_file_stream_locker (file_psi file) PSI_FILE_WRITE : op psi_file) in
    match locker with
    | Some locker =>
        psi! _ := (start_file_wait locker 0 src_file src_line : op psi_file) in
        lib! result := (vfprintf (m_file file) format args : op lib_file) in
        psi! _ := (end_file_wait locker (u64 result) : op psi_file) in
        Done result
    | None => plain
    end
  else plain.

Definition inline_mysql_file_vfprintf (src_file : string) (src_line : Z) (file : MYSQL_FILE) (format : string) (args : obj)
    : file_tree Z :=
  let plain := lib! result := (vfprintf (m_file file) format args : op lib_file) in Done result in
  if HAVE_PSI_FILE_INTERFACE then
    psi! locker := (get_thread_file_stream_locker (file_psi file) PSI_FILE_WRITE : op psi_file) in
    match locker with
    | Some locker =>
        psi! _ := (start_file_wait locker 0 src_file src_line : op psi_file) in
        lib! result := (vfprintf (m_file file) format args : op lib_file) in
        psi! _ := (end_file_wait locker (u64 result) : op psi_file) in
        Done result
    | None => plain
    end
  else plain.

Definition inline_mysql_file_fflush (src_file : string) (src_line : Z) (file : MYSQL_FILE)
    : file_tree Z :=
  let plain := lib! result := (fflush (m_file file) : op lib_file) in Done result in
  if HAVE_PSI_FILE_INTERFACE then
    psi! locker := (get_thread_file_stream_locker (file_psi file) PSI_FILE_FLUSH : op psi_file) in
    match locker with
    | Some locker =>
        psi! _ := (start_file_wait locker 0 src_file src_line : op psi_file) in
        lib! result := (fflush (m_file file) : op lib_file) in
        psi! _ := (end_file_wait locker 0 : op psi_file) in
        Done result
    | None => plain
    end
  else plain.

Definition inline_mysql_file_feof (file : MYSQL_FILE) : file_tree Z :=
  lib! result := (feof (m_file file) : op lib_file) in Done result.

Definition inline_mysql_file_fstat (src_file : string) (src_line : Z) (filenr : Z) (stat_area : obj) (flags : Z)
    : file_tree Z :=
  let plain := lib! result := (my_fstat filenr stat_area flags : op lib_file) in Done result in
  if HAVE_PSI_FILE_INTERFACE then
    psi! locker := (get_thread_file_descriptor_locker filenr PSI_FILE_FSTAT : op psi_file) in
    match locker with
    | Some locker =>
        psi! _ := (start_file_wait locker 0 src_file src_line : op psi_file) in
        lib! result := (my_fstat filenr stat_area flags : op lib_file) in
        psi! _ := (end_file_wait locker 0 : op psi_file) in
        Done result
    | None => plain
    end
  else plain.

Definition inline_mysql_file_stat (src_file : string) (src_line : Z) (key : Z) (path : string) (stat_area : obj) (flags : Z)
    : file_tree (option obj) :=
  let plain := lib! result := (my_stat path stat_area flags : op lib_file) in Done result in
  if HAVE_PSI_FILE_INTERFACE then
    psi! locker := (get_thread_file_name_locker key PSI_FILE_STAT path None : op psi_file) in
    match locker with
    | Some locker =>
        psi! _ := (start_file_open_wait locker src_file src_line : op psi_file) in
        lib! result := (my_stat path stat_area flags : op lib_file) in
        psi! _ := (end_file_open_wait locker result : op psi_file) in
        Done result
    | None => plain
    end
  else plain.

Definition inline_mysql_file_chsize (src_file : string) (src_line : Z) (file newlength filler flags : Z)
    : file_tree Z :=
  let plain := lib! result := (my_chsize file newlength filler flags : op lib_file) in Done result in
  if HAVE_PSI_FILE_INTERFACE then
    psi! locker := (get_thread_file_descriptor_locker file PSI_FILE_CHSIZE : op psi_file) in
    match locker with
    | Some locker =>
        psi! _ := (start_file_wait locker newlength src_file src_line : op psi_file) in
        lib! result := (my_chsize file newlength filler flags : op lib_file) in
        psi! _ := (end_file_wait locker newlength : op psi_file) in
        Done result
    | None => plain
    end
  else plain.

(** The stream, allocated here, and freed again when the file cannot be opened. *)
Definition inline_mysql_file_fopen (src_file : string) (src_line : Z) (key : Z) (filename : string)
    (flags myFlags : Z) : file_tree (option MYSQL_FILE) :=
  lib! that := (my_malloc_MYSQL_FILE MY_WME : op lib_file) in
  match that with
  | None => Done None
  | Some that =>
      let plain :=
        lib! m_file := (my_fopen filename flags myFlags : op lib_file) in
        match m_file with
        | None => lib! _ := (my_free that : op lib_file) in Done None
        | Some _ => Done (Some (MysqlFile that m_file None))
        end in
      if HAVE_PSI_FILE_INTERFACE then
        psi! locker := (get_thread_file_name_locker key PSI_FILE_STREAM_OPEN filename (Some that) : op psi_file) in
        match locker with
        | Some locker =>
            psi! _ := (start_file_open_wait locker src_file src_line : op psi_file) in
            lib! m_file := (my_fopen filename flags myFlags : op lib_file) in
            psi! m_psi := (end_file_open_wait locker m_file : op psi_file) in
            match m_file with
            | None => lib! _ := (my_free that : op lib_file) in Done None
            | Some _ => Done (Some (MysqlFile that m_file m_psi))
            end
        | None => plain
        end
      else plain
  end.

Definition inline_mysql_file_fclose (src_file : string) (src_line : Z) (file : option MYSQL_FILE)
    (flags : Z) : file_tree Z :=
  match file with
  | None => Done 0
  | Some file =>
      let plain :=
        lib! result := (my_fclose (m_file file) flags : op lib_file) in
        lib! _ := (my_free (file_at file) : op lib_file) in
        Done result in
      if HAVE_PSI_FILE_INTERFACE then
        psi! locker := (get_thread_file_stream_locker (file_psi file) PSI_FILE_STREAM_CLOSE : op psi_file) in
        match locker with
        | Some locker =>
            psi! _ := (start_file_close_wait locker src_file src_line : op psi_file) in
            lib! result := (my_fclose (m_file file) flags : op lib_file) in
            psi! _ := (end_file_close_wait locker result : op psi_file) in
            lib! _ := (my_free (file_at file) : op lib_file) in
            Done result
        | None => plain
        end
      else plain
  end.

(** What a read or write reports, from its flags and result. *)
Definition bytes_moved (flags count result : Z) : Z :=
  if negb (Z.land flags (Z.lor MY_NABP MY_FNABP) =? 0)
  then (if result =? 0 then count else 0)
  else (if negb (result =? MY_FILE_ERROR) then result else 0).

Definition inline_mysql_file_fread (src_file : string) (src_line : Z) (file : MYSQL_FILE) (buffer : obj) (count flags : Z)
    : file_tree Z :=
  let plain := lib! result := (my_fread (m_file file) buffer count flags : op lib_file) in Done result in
  if HAVE_PSI_FILE_INTERFACE then
    psi! locker := (get_thread_file_stream_locker (file_psi file) PSI_FILE_READ : op psi_file) in
    match locker with
    | Some locker =>
        psi! _ := (start_file_wait locker count src_file src_line : op psi_file) in
        lib! result := (my_fread (m_file file) buffer count flags : op lib_file) in
        psi! _ := (end_file_wait locker (bytes_moved flags count result) : op psi_file) in
        Done result
    | None => plain
    end
  else plain.

Definition inline_mysql_file_fwrite (src_file : string) (src_line : Z) (file : MYSQL_FILE) (buffer : obj) (count flags : Z)
    : file_tree Z :=
  let plain := lib! result := (my_fwrite (m_file file) buffer count flags : op lib_file) in Done result in
  if HAVE_PSI_FILE_INTERFACE then
    psi! locker := (get_thread_file_stream_locker (file_psi file) PSI_FILE_WRITE : op psi_file) in
    match locker with
    | Some locker =>
        psi! _ := (start_file_wait locker count src_file src_line : op psi_file) in
        lib! result := (my_fwrite (m_file file) buffer count flags : op lib_file) in
        psi! _ := (end_file_wait locker (bytes_moved flags count result) : op psi_file) in
        Done result
    | None => plain
    end
  else plain.

Definition inline_mysql_file_fseek (src_file : string) (src_line : Z) (file : MYSQL_FILE) (pos whence flags : Z)
    : file_tree Z :=
  let plain := lib! result := (my_fseek (m_file file) pos whence flags : op lib_file) in Done result in
  if HAVE_PSI_FILE_INTERFACE then
    psi! locker := (get_thread_file_stream_locker (file_psi file) PSI_FILE_SEEK : op psi_file) in
    match locker with
    | Some locker =>
        psi! _ := (start_file_wait locker 0 src_file src_line : op psi_file) in
        lib! result := (my_fseek (m_file file) pos whence flags : op lib_file) in
        psi! _ := (end_file_wait locker 0 : op psi_file) in
        Done result
    | None => plain
    end
  else plain.

Definition inline_mysql_file_ftell (src_file : string) (src_line : Z) (file : MYSQL_FILE) (flags : Z)
    : file_tree Z :=
  let plain := lib! result := (my_ftell (m_file file) flags : op lib_file) in Done result in
  if HAVE_PSI_FILE_INTERFACE then
    psi! locker := (get_thread_file_stream_locker (file_psi file) PSI_FILE_TELL : op psi_file) in
    match locker with
    | Some locker =>
        psi! _ := (start_file_wait locker 0 src_file src_line : op psi_file) in
        lib! result := (my_ftell (m_file file) flags : op lib_file) in
        psi! _ := (end_file_wait locker 0 : op psi_file) in
        Done result
    | None => plain
    end
  else plain.

(** ** Descriptors *)

Definition inline_mysql_file_create (src_file : string) (src_line : Z) (key : Z) (filename : string) (create_flags access_flags myFlags : Z)
    : file_tree Z :=
  let plain := lib! result := (my_create filename create_flags access_flags myFlags : op lib_file) in Done result in
  if HAVE_PSI_FILE_INTERFACE then
    psi! locker := (get_thread_file_name_locker key PSI_FILE_CREATE filename None : op psi_file) in
    match locker with
    | Some locker =>
        psi! _ := (start_file_open_wait locker src_file src_line : op psi_file) in
        lib! result := (my_create filename create_flags access_flags myFlags : op lib_file) in
        psi! _ := (end_file_open_wait_and_bind_to_descriptor locker result : op psi_file) in
        Done result
    | None => plain
    end
  else plain.

(** The file is announced after it has been created, whether it has been or not. *)
Definition inline_mysql_file_create_temp (key : Z) (to : obj) (dir pfx : string) (mode myFlags : Z)
    : file_tree Z :=
  lib! file := (create_temp_file to dir pfx mode myFlags : op lib_file) in
  if HAVE_PSI_FILE_INTERFACE
  then psi! _ := (create_file key to file : op psi_file) in Done file
  else Done file.

Definition inline_mysql_file_open (src_file : string) (src_line : Z) (key : Z) (filename : string) (flags myFlags : Z)
    : file_tree Z :=
  let plain := lib! result := (my_open filename flags myFlags : op lib_file) in Done result in
  if HAVE_PSI_FILE_INTERFACE then
    psi! locker := (get_thread_file_name_locker key PSI_FILE_OPEN filename None : op psi_file) in
    match locker with
    | Some locker =>
        psi! _ := (start_file_open_wait locker src_file src_line : op psi_file) in
        lib! result := (my_open filename flags myFlags : op lib_file) in
        psi! _ := (end_file_open_wait_and_bind_to_descriptor locker result : op psi_file) in
        Done result
    | None => plain
    end
  else plain.

Definition inline_mysql_file_close (src_file : string) (src_line : Z) (file flags : Z)
    : file_tree Z :=
  let plain := lib! result := (my_close file flags : op lib_file) in Done result in
  if HAVE_PSI_FILE_INTERFACE then
    psi! locker := (get_thread_file_descriptor_locker file PSI_FILE_CLOSE : op psi_file) in
    match locker with
    | Some locker =>
        psi! _ := (start_file_close_wait locker src_file src_line : op psi_file) in
        lib! result := (my_close file flags : op lib_file) in
        psi! _ := (end_file_close_wait locker result : op psi_file) in
        Done result
    | None => plain
    end
  else plain.

Definition inline_mysql_file_read (src_file : string) (src_line : Z) (file : Z) (buffer : obj) (count flags : Z)
    : file_tree Z :=
  let plain := lib! result := (my_read file buffer count flags : op lib_file) in Done result in
  if HAVE_PSI_FILE_INTERFACE then
    psi! locker := (get_thread_file_descriptor_locker file PSI_FILE_READ : op psi_file) in
    match locker with
    | Some locker =>
        psi! _ := (start_file_wait locker count src_file src_line : op psi_file) in
        lib! result := (my_read file buffer count flags : op lib_file) in
        psi! _ := (end_file_wait locker (bytes_moved flags count result) : op psi_file) in
        Done result
    | None => plain
    end
  else plain.

Definition inline_mysql_file_write (src_file : string) (src_line : Z) (file : Z) (buffer : obj) (count flags : Z)
    : file_tree Z :=
  let plain := lib! result := (my_write file buffer count flags : op lib_file) in Done result in
  if HAVE_PSI_FILE_INTERFACE then
    psi! locker := (get_thread_file_descriptor_locker file PSI_FILE_WRITE : op psi_file) in
    match locker with
    | Some locker =>
        psi! _ := (start_file_wait locker count src_file src_line : op psi_file) in
        lib! result := (my_write file buffer count flags : op lib_file) in
        psi! _ := (end_file_wait locker (bytes_moved flags count result) : op psi_file) in
        Done result
    | None => plain
    end
  else plain.

Definition inline_mysql_file_pread (src_file : string) (src_line : Z) (file : Z) (buffer : obj) (count offset flags : Z)
    : file_tree Z :=
  let plain := lib! result := (my_pread file buffer count offset flags : op lib_file) in Done result in
  if HAVE_PSI_FILE_INTERFACE then
    psi! locker := (get_thread_file_descriptor_locker file PSI_FILE_READ : op psi_file) in
    match locker with
    | Some locker =>
        psi! _ := (start_file_wait locker count src_file src_line : op psi_file) in
        lib! result := (my_pread file buffer count offset flags : op lib_file) in
        psi! _ := (end_file_wait locker (bytes_moved flags count result) : op psi_file) in
        Done result
    | None => plain
    end
  else plain.

Definition inline_mysql_file_pwrite (src_file : string) (src_line : Z) (file : Z) (buffer : obj) (count offset flags : Z)
    : file_tree Z :=
  let plain := lib! result := (my_pwrite file buffer count offset flags : op lib_file) in Done result in
  if HAVE_PSI_FILE_INTERFACE then
    psi! locker := (get_thread_file_descriptor_locker file PSI_FILE_WRITE : op psi_file) in
    match locker with
    | Some locker =>
        psi! _ := (start_file_wait locker count src_file src_line : op psi_file) in
        lib! result := (my_pwrite file buffer count offset flags : op lib_file) in
        psi! _ := (end_file_wait locker (bytes_moved flags count result) : op psi_file) in
        Done result
    | None => plain
    end
  else plain.

Definition inline_mysql_file_seek (src_file : string) (src_line : Z) (file pos whence flags : Z)
    : file_tree Z :=
  let plain := lib! result := (my_seek file pos whence flags : op lib_file) in Done result in
  if HAVE_PSI_FILE_INTERFACE then
    psi! locker := (get_thread_file_descriptor_locker file PSI_FILE_SEEK : op psi_file) in
    match locker with
    | Some locker =>
        psi! _ := (start_file_wait locker 0 src_file src_line : op psi_file) in
        lib! result := (my_seek file pos whence flags : op lib_file) in
        psi! _ := (end_file_wait locker 0 : op psi_file) in
        Done result
    | None => plain
    end
  else plain.

Definition inline_mysql_file_tell (src_file : string) (src_line : Z) (file flags : Z)
    : file_tree Z :=
  let plain := lib! result := (my_tell file flags : op lib_file) in Done result in
  if HAVE_PSI_FILE_INTERFACE then
    psi! locker := (get_thread_file_descriptor_locker file PSI_FILE_TELL : op psi_file) in
    match locker with
    | Some locker =>
        psi! _ := (start_file_wait locker 0 src_file src_line : op psi_file) in
        lib! result := (my_tell file flags : op lib_file) in
        psi! _ := (end_file_wait locker 0 : op psi_file) in
        Done result
    | None => plain
    end
  else plain.

(** ** Names *)

Definition inline_mysql_file_delete (src_file : string) (src_line : Z) (key : Z) (name : string) (flags : Z)
    : file_tree Z :=
  let plain := lib! result := (my_delete name flags : op lib_file) in Done result in
  if HAVE_PSI_FILE_INTERFACE then
    psi! locker := (get_thread_file_name_locker key PSI_FILE_DELETE name None : op psi_file) in
    match locker with
    | Some locker =>
        psi! _ := (start_file_close_wait locker src_file src_line : op psi_file) in
        lib! result := (my_delete name flags : op lib_file) in
        psi! _ := (end_file_close_wait locker result : op psi_file) in
        Done result
    | None => plain
    end
  else plain.

Definition inline_mysql_file_rename (src_file : string) (src_line : Z) (key : Z) (from to : string) (flags : Z)
    : file_tree Z :=
  let plain := lib! result := (my_rename from to flags : op lib_file) in Done result in
  if HAVE_PSI_FILE_INTERFACE then
    psi! locker := (get_thread_file_name_locker key PSI_FILE_RENAME to None : op psi_file) in
    match locker with
    | Some locker =>
        psi! _ := (start_file_wait locker 0 src_file src_line : op psi_file) in
        lib! result := (my_rename from to flags : op lib_file) in
        psi! _ := (end_file_wait locker 0 : op psi_file) in
        Done result
    | None => plain
    end
  else plain.

Definition inline_mysql_file_create_with_symlink (src_file : string) (src_line : Z) (key : Z) (linkname filename : string) (create_flags access_flags flags : Z)
    : file_tree Z :=
  let plain := lib! result := (my_create_with_symlink linkname filename create_flags access_flags flags : op lib_file) in Done result in
  if HAVE_PSI_FILE_INTERFACE then
    psi! locker := (get_thread_file_name_locker key PSI_FILE_CREATE filename None : op psi_file) in
    match locker with
    | Some locker =>
        psi! _ := (start_file_open_wait locker src_file src_line : op psi_file) in
        lib! result := (my_create_with_symlink linkname filename create_flags access_flags flags : op lib_file) in
        psi! _ := (end_file_open_wait_and_bind_to_descriptor locker result : op psi_file) in
        Done result
    | None => plain
    end
  else plain.

Definition inline_mysql_file_delete_with_symlink (src_file : string) (src_line : Z) (key : Z)
    (name ext : string) (flags : Z) : file_tree Z :=
  lib! fullname := (fn_format name "" ext (Z.lor MY_UNPACK_FILENAME MY_APPEND_EXT) : op lib_file) in
  let plain :=
    lib! result := (my_handler_delete_with_symlink fullname flags : op lib_file) in Done result in
  if HAVE_PSI_FILE_INTERFACE then
    psi! locker := (get_thread_file_name_locker key PSI_FILE_DELETE fullname None : op psi_file) in
    match locker with
    | Some locker =>
        psi! _ := (start_file_close_wait locker src_file src_line : op psi_file) in
        lib! result := (my_handler_delete_with_symlink fullname flags : op lib_file) in
        psi! _ := (end_file_close_wait locker result : op psi_file) in
        Done result
    | None => plain
    end
  else plain.

Definition inline_mysql_file_rename_with_symlink (src_file : string) (src_line : Z) (key : Z) (from to : string) (flags : Z)
    : file_tree Z :=
  let plain := lib! result := (my_rename_with_symlink from to flags : op lib_file) in Done result in
  if HAVE_PSI_FILE_INTERFACE then
    psi! locker := (get_thread_file_name_locker key PSI_FILE_RENAME to None : op psi_file) in
    match locker with
    | Some locker =>
        psi! _ := (start_file_wait locker 0 src_file src_line : op psi_file) in
        lib! result := (my_rename_with_symlink from to flags : op lib_file) in
        psi! _ := (end_file_wait locker 0 : op psi_file) in
        Done result
    | None => plain
    end
  else plain.

Definition inline_mysql_file_sync (src_file : string) (src_line : Z) (fd flags : Z) : file_tree Z :=
  let plain := lib! result := (my_sync fd flags : op lib_file) in Done result in
  if HAVE_PSI_FILE_INTERFACE then
    psi! locker := (get_thread_file_descriptor_locker fd PSI_FILE_SYNC : op psi_file) in
    match locker with
    | Some locker =>
        psi! _ := (start_file_wait locker 0 src_file src_line : op psi_file) in
        lib! result := (my_sync fd flags : op lib_file) in
        psi! _ := (end_file_wait locker 0 : op psi_file) in
        Done result
    | None => plain
    end
  else plain.
End file.
