(* ===== verification/PsiFileProps.v ===== *)
(** * The instrumented files are the files they replace

    The wrappers of [mysql_file.h] make the library calls of the functions they replace, in
    every build and whatever the performance schema answers; a wait is announced and ended
    in pairs; the bytes a read or write reports are the bytes moved.  Some reports are wrong
    when the call fails. *)
From Stdlib Require Import ZArith Lia String.
From stdpp Require Import base tactics list strings numbers.
From S2P Require Import Words.
From S2P Require Import Effects.
From S2P Require Import PsiFile.

Local Open Scope Z_scope.
Local Open Scope tree_scope.

(** ** What each wrapper replaces *)

(** A stream without its hook: the address of the object and the real file. *)
Definition stream_of (f : MYSQL_FILE) : obj * option obj := (file_at f, m_file f).

Definition open_stream (filename : string) (flags myFlags : Z) : tree lib_file (option (obj * option obj)) :=
  Call (E := lib_file) (my_malloc_MYSQL_FILE MY_WME) (fun that =>
    match that with
    | None => Done None
    | Some that => Call (E := lib_file) (my_fopen filename flags myFlags) (fun f =>
        match f with
        | None => Call (E := lib_file) (my_free that) (fun _ => Done None)
        | Some _ => Done (Some (that, f))
        end)
    end).
Definition close_stream (file : option (obj * option obj)) (flags : Z) : tree lib_file Z :=
  match file with
  | None => Done 0
  | Some (at_, f) => Call (E := lib_file) (my_fclose f flags) (fun result =>
      Call (E := lib_file) (my_free at_) (fun _ => Done result))
  end.

Inductive replaces (on : bool) : forall {A : Type}, file_tree A -> tree lib_file A -> Prop :=
| f_fgets src_file src_line str size file :
    replaces on (inline_mysql_file_fgets on src_file src_line str size file)
      (perform (E := lib_file) (fgets str size (m_file file)))
| f_fgetc src_file src_line file :
    replaces on (inline_mysql_file_fgetc on src_file src_line file)
      (perform (E := lib_file) (fgetc (m_file file)))
| f_fputs src_file src_line str file :
    replaces on (inline_mysql_file_fputs on src_file src_line str file)
      (perform (E := lib_file) (fputs str (m_file file)))
| f_fputc src_file src_line c file :
    replaces on (inline_mysql_file_fputc on src_file src_line c file)
      (perform (E := lib_file) (fputc c (m_file file)))
| f_vfprintf src_file src_line file format args :
    replaces on (inline_mysql_file_vfprintf on src_file src_line file format args)
      (perform (E := lib_file) (vfprintf (m_file file) format args))
| f_fflush src_file src_line file :
    replaces on (inline_mysql_file_fflush on src_file src_line file)
      (perform (E := lib_file) (fflush (m_file file)))
| f_fstat src_file src_line filenr area flags :
    replaces on (inline_mysql_file_fstat on src_file src_line filenr area flags)
      (perform (E := lib_file) (my_fstat filenr area flags))
| f_stat src_file src_line key path area flags :
    replaces on (inline_mysql_file_stat on src_file src_line key path area flags)
      (perform (E := lib_file) (my_stat path area flags))
| f_chsize src_file src_line file len filler flags :
    replaces on (inline_mysql_file_chsize on src_file src_line file len filler flags)
      (perform (E := lib_file) (my_chsize file len filler flags))
| f_fread src_file src_line file buf count flags :
    replaces on (inline_mysql_file_fread on src_file src_line file buf count flags)
      (perform (E := lib_file) (my_fread (m_file file) buf count flags))
| f_fwrite src_file src_line file buf count flags :
    replaces on (inline_mysql_file_fwrite on src_file src_line file buf count flags)
      (perform (E := lib_file) (my_fwrite (m_file file) buf count flags))
| f_fseek src_file src_line file pos whence flags :
    replaces on (inline_mysql_file_fseek on src_file src_line file pos whence flags)
      (perform (E := lib_file) (my_fseek (m_file file) pos whence flags))
| f_ftell src_file src_line file flags :
    replaces on (inline_mysql_file_ftell on src_file src_line file flags)
      (perform (E := lib_file) (my_ftell (m_file file) flags))
| f_create src_file src_line key name cflags aflags flags :
    replaces on (inline_mysql_file_create on src_file src_line key name cflags aflags flags)
      (perform (E := lib_file) (my_create name cflags aflags flags))
| f_open src_file src_line key name oflags flags :
    replaces on (inline_mysql_file_open on src_file src_line key name oflags flags)
      (perform (E := lib_file) (my_open name oflags flags))
| f_close src_file src_line file flags :
    replaces on (inline_mysql_file_close on src_file src_line file flags)
      (perform (E := lib_file) (my_close file flags))
| f_read src_file src_line file buf count flags :
    replaces on (inline_mysql_file_read on src_file src_line file buf count flags)
      (perform (E := lib_file) (my_read file buf count flags))
| f_write src_file src_line file buf count flags :
    replaces on (inline_mysql_file_write on src_file src_line file buf count flags)
      (perform (E := lib_file) (my_write file buf count flags))
| f_pread src_file src_line file buf count offset flags :
    replaces on (inline_mysql_file_pread on src_file src_line file buf count offset flags)
      (perform (E := lib_file) (my_pread file buf count offset flags))
| f_pwrite src_file src_line file buf count offset flags :
    replaces on (inline_mysql_file_pwrite on src_file src_line file buf count offset flags)
      (perform (E := lib_file) (my_pwrite file buf count offset flags))
| f_seek src_file src_line file pos whence flags :
    replaces on (inline_mysql_file_seek on src_file src_line file pos whence flags)
      (perform (E := lib_file) (my_seek file pos whence flags))
| f_tell src_file src_line file flags :
    replaces on (inline_mysql_file_tell on src_file src_line file flags)
      (perform (E := lib_file) (my_tell file flags))
| f_delete src_file src_line key name flags :
    replaces on (inline_mysql_file_delete on src_file src_line key name flags)
      (perform (E := lib_file) (my_delete name flags))
| f_rename src_file src_line key from to flags :
    replaces on (inline_mysql_file_rename on src_file src_line key from to flags)
      (perform (E := lib_file) (my_rename from to flags))
| f_create_with_symlink src_file src_line key link name cflags aflags flags :
    replaces on (inline_mysql_file_create_with_symlink on src_file src_line key link name cflags aflags flags)
      (perform (E := lib_file) (my_create_with_symlink link name cflags aflags flags))
| f_rename_with_symlink src_file src_line key from to flags :
    replaces on (inline_mysql_file_rename_with_symlink on src_file src_line key from to flags)
      (perform (E := lib_file) (my_rename_with_symlink from to flags))
| f_sync src_file src_line fd flags :
    replaces on (inline_mysql_file_sync on src_file src_line fd flags)
      (perform (E := lib_file) (my_sync fd flags))
| f_fprintf file format args src_file src_line :
    replaces on (inline_mysql_file_fprintf on file format args src_file src_line)
      (perform (E := lib_file) (vfprintf (m_file file) format args))
| f_feof file :
    replaces on (inline_mysql_file_feof file) (perform (E := lib_file) (feof (m_file file)))
| f_create_temp key to dir pfx mode flags :
    replaces on (inline_mysql_file_create_temp on key to dir pfx mode flags)
      (perform (E := lib_file) (create_temp_file to dir pfx mode flags))
| f_delete_with_symlink src_file src_line key name ext flags :
    replaces on (inline_mysql_file_delete_with_symlink on src_file src_line key name ext flags)
      (Call (E := lib_file) (fn_format name "" ext (Z.lor MY_UNPACK_FILENAME MY_APPEND_EXT))
         (fun fullname => perform (E := lib_file) (my_handler_delete_with_symlink fullname flags)))
| f_fopen src_file src_line key name oflags flags :
    replaces on (tmap (option_map stream_of) (inline_mysql_file_fopen on src_file src_line key name oflags flags))
      (open_stream name oflags flags)
| f_fclose src_file src_line file flags :
    replaces on (inline_mysql_file_fclose on src_file src_line file flags)
      (close_stream (option_map stream_of file) flags)
| f_register category info count :
    replaces on (inline_mysql_file_register on category info count) (Done tt).

(** ** The protocol of a wait *)

Inductive file_wait := wait_io | wait_open | wait_close.
#[export] Instance file_wait_eq : EqDecision file_wait.
Proof. solve_decision. Defined.

(** No locker; a locker not used yet; a wait announced; the library's call made, with the
    result to report if that is a number; the protocol violated. *)
Inductive bracket :=
| Idle
| Given (l : locker)
| Waiting (k : file_wait) (l : locker)
| Waited (k : file_wait) (l : locker) (rc : option Z)
| Broken.

Definition start_wait (k : file_wait) (l : locker) (m : bracket) : bracket :=
  match m with Given l' => if decide (l = l') then Waiting k l else Broken | _ => Broken end.
(** [ok]: what is reported agrees with the result. *)
Definition end_wait (k : file_wait) (l : locker) (ok : option Z -> bool) (m : bracket) : bracket :=
  match m with
  | Waited k' l' rc => if decide (k = k' /\ l = l') then (if ok rc then Idle else Broken) else Broken
  | _ => Broken
  end.
Definition give (r : option locker) (m : bracket) : bracket :=
  match m, r with Idle, Some l => Given l | Idle, None => Idle | _, _ => Broken end.

Definition see_wait (c : psi_file_call) : res psi_file c -> bracket -> bracket :=
  match c with
  | get_thread_file_name_locker _ _ _ _ | get_thread_file_stream_locker _ _
  | get_thread_file_descriptor_locker _ _ => give
  | start_file_wait l _ _ _ => fun _ => start_wait wait_io l
  | start_file_open_wait l _ _ => fun _ => start_wait wait_open l
  | start_file_close_wait l _ _ => fun _ => start_wait wait_close l
  | end_file_wait l _ => fun _ => end_wait wait_io l (fun _ => true)
  | end_file_open_wait l _ => fun _ => end_wait wait_open l (fun _ => true)
  | end_file_open_wait_and_bind_to_descriptor l fd => fun _ =>
      end_wait wait_open l (fun rc => bool_decide (rc = Some fd))
  | end_file_close_wait l rc' => fun _ => end_wait wait_close l (fun rc => bool_decide (rc = Some rc'))
  | register_file _ _ _ | create_file _ _ _ => fun _ m => m
  end.

(** The numbers the library returns. *)
Definition number (c : lib_file_call) : res lib_file c -> option Z :=
  match c with
  | fgets _ _ _ | my_stat _ _ _ | my_malloc_MYSQL_FILE _ | my_fopen _ _ _ | my_free _
  | fn_format _ _ _ _ => fun _ => None
  | _ => Some
  end.
Definition see_call (c : lib_file_call) (r : res lib_file c) (m : bracket) : bracket :=
  match m with
  | Idle => Idle
  | Waiting k l => Waited k l (number c r)
  | Given _ | Waited _ _ _ | Broken => Broken
  end.

(** The monitor's tests of a locker and a result against themselves succeed. *)
Lemma start_wait_given k l : start_wait k l (Given l) = Waiting k l.
Proof. unfold start_wait. by rewrite decide_True. Qed.
Lemma file_wait_waited k l ok rc : ok rc = true -> end_wait k l ok (Waited k l rc) = Idle.
Proof. intros Hok. unfold end_wait. by rewrite decide_True, Hok. Qed.
#[local] Hint Rewrite start_wait_given : bracket.
#[local] Hint Rewrite file_wait_waited using first [done | by rewrite bool_decide_true] : bracket.
#[local] Opaque start_wait end_wait.

Section compare.
Context (on : bool) {S : Type} (h : forall c : psi_file_call, S -> res psi_file c * S).

Lemma file_replaced_spied {A} (w : file_tree A) b s :
  replaces on w b ->
  teq (fun x r => x.1.1 = r /\ x.2 = Idle)
    (spy (E := psi_file) (F := lib_file) h see_wait see_call w s Idle) b.
Proof.
  destruct 1; cbv [perform tmap tbind option_map stream_of open_stream close_stream 
    inline_mysql_file_fgets inline_mysql_file_fgetc inline_mysql_file_fputs
    inline_mysql_file_fputc inline_mysql_file_vfprintf inline_mysql_file_fflush
    inline_mysql_file_fstat inline_mysql_file_stat inline_mysql_file_chsize
    inline_mysql_file_fread inline_mysql_file_fwrite inline_mysql_file_fseek
    inline_mysql_file_ftell inline_mysql_file_create inline_mysql_file_open
    inline_mysql_file_close inline_mysql_file_read inline_mysql_file_write
    inline_mysql_file_pread inline_mysql_file_pwrite inline_mysql_file_seek
    inline_mysql_file_tell inline_mysql_file_delete inline_mysql_file_rename
    inline_mysql_file_create_with_symlink inline_mysql_file_rename_with_symlink
    inline_mysql_file_sync inline_mysql_file_fprintf inline_mysql_file_feof
    inline_mysql_file_create_temp inline_mysql_file_delete_with_symlink
    inline_mysql_file_fopen inline_mysql_file_fclose inline_mysql_file_register];
    destruct on; spy_run.
Qed.
End compare.

(** C26: in every build, and whatever the performance schema answers, each wrapper of
    [mysql_file.h] makes exactly the library calls of the function it replaces, in order and
    with the same arguments, and returns its result (a stream up to its hook). *)
Theorem file_transparent (on : bool) {S A : Type}
    (h : forall c : psi_file_call, S -> res psi_file c * S) (s : S)
    (w : file_tree A) (b : tree lib_file A) :
  replaces on w b ->
  teq (fun x r => x.1.1 = r) (erase (E := psi_file) (F := lib_file) h w s) b.
Proof.
  intros Hr. apply (spy_erase (E := psi_file) (F := lib_file) h see_wait see_call w b
    (fun a _ r => a = r) s Idle).
  eapply teq_mono, (file_replaced_spied on h), Hr. by intros x r [].
Qed.

(** C40: a locker, once given, is used for exactly one wait: announced before the library's
    call and ended after it by the end of its kind, a descriptor or a close with the result
    of the call. *)
Theorem file_brackets (on : bool) {S A : Type}
    (h : forall c : psi_file_call, S -> res psi_file c * S) (s : S)
    (w : file_tree A) (b : tree lib_file A) :
  replaces on w b ->
  leaves (fun x => x.2 = Idle)
    (spy (E := psi_file) (F := lib_file) h see_wait see_call w s Idle).
Proof.
  intros Hr. eapply teq_leaves, (file_replaced_spied on h), Hr. by intros x r [].
Qed.

(** ** The bytes of a read or write *)

Inductive moves (on : bool) (count flags : Z) : file_tree Z -> Prop :=
| m_fread f l file buf : moves on count flags (inline_mysql_file_fread on f l file buf count flags)
| m_fwrite f l file buf : moves on count flags (inline_mysql_file_fwrite on f l file buf count flags)
| m_read f l file buf : moves on count flags (inline_mysql_file_read on f l file buf count flags)
| m_write f l file buf : moves on count flags (inline_mysql_file_write on f l file buf count flags)
| m_pread f l file buf off : moves on count flags (inline_mysql_file_pread on f l file buf count off flags)
| m_pwrite f l file buf off : moves on count flags (inline_mysql_file_pwrite on f l file buf count off flags).

(** What [my_read] and the others promise: with one of the two flags "all bytes" (0) or an
    error, otherwise the number of bytes, or an error. *)
Definition all_or_error (flags : Z) : bool := Z.testbit flags 1 || Z.testbit flags 2.
Inductive io_result (flags count : Z) : Z -> Z -> Prop :=
| io_all : all_or_error flags = true -> io_result flags count 0 count
| io_some n : all_or_error flags = false -> 0 <= n <= count -> n <> MY_FILE_ERROR -> io_result flags count n n
| io_failed : io_result flags count MY_FILE_ERROR 0.

Lemma all_or_error_land flags : (Z.land flags (Z.lor MY_NABP MY_FNABP) =? 0) = negb (all_or_error flags).
Proof.
  unfold all_or_error. change (Z.lor MY_NABP MY_FNABP) with (Z.ones 2 * 2 ^ 1).
  assert (Z.land flags (Z.ones 2 * 2 ^ 1) = 2 * (Z.b2z (Z.testbit flags 1) + 2 * Z.b2z (Z.testbit flags 2))) as ->.
  { apply Z.bits_inj'. intros n Hn. rewrite Z.land_spec, <- Z.shiftl_mul_pow2, Z.shiftl_spec by lia.
    destruct (Z.eq_dec n 0) as [->|]; [|destruct (Z.eq_dec n 1) as [->|]; [|destruct (Z.eq_dec n 2) as [->|]]].
    - rewrite Z.testbit_even_0. apply andb_false_r.
    - rewrite (Z.testbit_even_succ _ 0) by lia. rewrite Z.add_comm, Z.testbit_0_r. apply andb_true_r.
    - rewrite (Z.testbit_even_succ _ 1), Z.add_comm, (Z.testbit_succ_r _ _ 0) by lia.
      rewrite (Z.b2z_bit0 (Z.testbit flags 2)). apply andb_true_r.
    - rewrite Z.testbit_ones_nonneg, (proj2 (Z.ltb_ge _ _)), andb_false_r by lia.
      replace n with (Z.succ (Z.succ (n - 2))) by lia.
      rewrite (Z.testbit_even_succ _ (Z.succ (n - 2))), Z.add_comm, Z.testbit_succ_r by lia.
      destruct (Z.testbit flags 2); simpl; [|by rewrite Z.bits_0].
      symmetry. apply Z.bits_above_log2; simpl; lia. }
  by destruct (Z.testbit flags 1), (Z.testbit flags 2).
Qed.

Lemma bytes_moved_spec flags count result moved :
  io_result flags count result moved -> bytes_moved flags count result = moved.
Proof.
  unfold bytes_moved. rewrite all_or_error_land, negb_involutive.
  destruct 1 as [->|n -> Hn Hne|]; [done| |].
  - by rewrite (proj2 (Z.eqb_neq _ _) Hne).
  - by destruct (all_or_error flags).
Qed.

(** The bytes announced and reported, and the result of the library's call. *)
Record traffic := Traffic { given : bool; announced : list Z; result : option Z; reported : list Z }.
Definition see_bytes (c : psi_file_call) : res psi_file c -> traffic -> traffic :=
  match c with
  | get_thread_file_stream_locker _ _ | get_thread_file_descriptor_locker _ _ => fun r m =>
      Traffic (bool_decide (is_Some r)) (announced m) (result m) (reported m)
  | start_file_wait _ n _ _ => fun _ m => Traffic (given m) (announced m ++ [n]) (result m) (reported m)
  | end_file_wait _ n => fun _ m => Traffic (given m) (announced m) (result m) (reported m ++ [n])
  | _ => fun _ m => m
  end.
Definition see_result (c : lib_file_call) (r : res lib_file c) (m : traffic) : traffic :=
  Traffic (given m) (announced m) (number c r) (reported m).

(** A read or write that was given a locker announces the bytes asked for and reports
    exactly the bytes moved: none if the call failed, all of them if it was to move all or
    fail, the number it returned otherwise. *)
Theorem file_bytes_reported (on : bool) {S : Type}
    (h : forall c : psi_file_call, S -> res psi_file c * S) (s : S) (count flags : Z) (w : file_tree Z) :
  moves on count flags w ->
  leaves (fun x => forall r moved, result x.2 = Some r -> io_result flags count r moved ->
      x.1.1 = r /\
      (given x.2 = true -> announced x.2 = [count] /\ reported x.2 = [moved]) /\
      (given x.2 = false -> announced x.2 = [] /\ reported x.2 = []))
    (spy (E := psi_file) (F := lib_file) h see_bytes see_result w s (Traffic false [] None [])).
Proof.
  destruct 1; cbv [inline_mysql_file_fread inline_mysql_file_fwrite inline_mysql_file_read
    inline_mysql_file_write inline_mysql_file_pread inline_mysql_file_pwrite]; destruct on;
    leaves_run; simplify_eq/=; split_and!; try done; intros _; split; try done;
    match goal with Hio : io_result _ _ _ _ |- _ => by rewrite (bytes_moved_spec _ _ _ _ Hio) end.
Qed.

(** ** What is reported when a call fails *)

(** A performance schema that gives lockers, over a library whose calls return [rc]. *)
Definition lockers (c : psi_file_call) (n : positive) : res psi_file c * positive :=
  match c return (res psi_file c * positive) with
  | get_thread_file_name_locker _ _ _ _ | get_thread_file_stream_locker _ _
  | get_thread_file_descriptor_locker _ _ => (Some n, Pos.succ n)
  | end_file_open_wait _ r => (r, n)
  | _ => (tt, n)
  end.
Definition returning (rc : Z) (c : lib_file_call) : res lib_file c :=
  match c return res lib_file c with
  | fgets _ _ _ => None
  | my_stat _ _ _ | my_malloc_MYSQL_FILE _ | my_fopen _ _ _ => Some 1%positive
  | my_free _ => tt
  | fn_format n _ _ _ => n
  | _ => rc
  end.
(** The bytes reported in a run. *)
Definition run_reports (w : file_tree Z) (rc : Z) : list Z :=
  omap (fun o => match o with inl (end_file_wait _ n) => Some n | _ => None end)
    (trun (E := sig_sum psi_file lib_file)
       (fun o n => match o with inl c => lockers c n | inr c => (returning rc c, n) end) w 1%positive).1.2.

(** When stdio fails, the report is not what was written: [fprintf] and [vfprintf]
    report their negative result as a [size_t], almost 2^64 bytes; [fgetc], [fputs] and
    [chsize] report all the bytes they were asked for. *)
Theorem failed_calls_report (src_file : string) (src_line : Z) (file : MYSQL_FILE) (format text : string)
    (args : obj) (fd newlength filler flags rc : Z) :
  - 2 ^ 31 <= rc < 0 ->
  run_reports (inline_mysql_file_fprintf true file format args src_file src_line) rc = [2 ^ 64 + rc] /\
  run_reports (inline_mysql_file_vfprintf true src_file src_line file format args) rc = [2 ^ 64 + rc] /\
  run_reports (inline_mysql_file_fgetc true src_file src_line file) rc = [1] /\
  run_reports (inline_mysql_file_fputs true src_file src_line (Some text) file) rc = [Z.of_nat (String.length text)] /\
  run_reports (inline_mysql_file_chsize true src_file src_line fd newlength filler flags) rc = [newlength].
Proof.
  intros Hrc. assert (u64 rc = 2 ^ 64 + rc) as Hu.
  { unfold u64. rewrite <- (Z_mod_plus_full rc 1), Z.mod_small by lia. lia. }
  cbv [run_reports trun]. cbn. rewrite Hu. split_and!; reflexivity.
Qed.

(** ** Witnesses *)

Definition demo_file : MYSQL_FILE := MysqlFile 5 (Some 6%positive) (Some 7%positive).

Lemma file_transparent_witness :
  replaces true (inline_mysql_file_fclose true "my.cc" 10 (Some demo_file) 0)
    (close_stream (Some (5%positive, Some 6%positive)) 0) /\
  teq (fun x r => x.1.1 = r)
    (erase (E := psi_file) (F := lib_file) lockers (inline_mysql_file_fclose true "my.cc" 10 (Some demo_file) 0) 1%positive)
    (close_stream (Some (5%positive, Some 6%positive)) 0).
Proof.
  split; [apply (f_fclose true "my.cc" 10 (Some demo_file))|].
  apply (file_transparent true lockers), (f_fclose true "my.cc" 10 (Some demo_file)).
Defined.

Lemma file_brackets_witness :
  replaces true (inline_mysql_file_close true "my.cc" 10 3 0) (perform (E := lib_file) (my_close 3 0)) /\
  leaves (fun x => x.2 = Idle)
    (spy (E := psi_file) (F := lib_file) lockers see_wait see_call
      (inline_mysql_file_close true "my.cc" 10 3 0) 1%positive Idle).
Proof.
  split; [apply f_close|]. eapply (file_brackets true lockers), f_close.
Defined.

Lemma file_bytes_reported_witness :
  io_result 4 100 0 100 /\
  leaves (fun x => forall r moved, result x.2 = Some r -> io_result 4 100 r moved ->
      x.1.1 = r /\
      (given x.2 = true -> announced x.2 = [100] /\ reported x.2 = [moved]) /\
      (given x.2 = false -> announced x.2 = [] /\ reported x.2 = []))
    (spy (E := psi_file) (F := lib_file) lockers see_bytes see_result
      (inline_mysql_file_read true "my.cc" 10 3 8 100 4) 1%positive (Traffic false [] None [])).
Proof.
  split; [by apply io_all|]. apply (file_bytes_reported true lockers), m_read.
Defined.

Lemma failed_calls_report_witness :
  - 2 ^ 31 <= -1 < 0 /\
  run_reports (inline_mysql_file_fprintf true demo_file "%d" 9 "my.cc" 10) (-1) = [18446744073709551615] /\
  run_reports (inline_mysql_file_vfprintf true "my.cc" 10 demo_file "%d" 9) (-1) = [2 ^ 64 + -1] /\
  run_reports (inline_mysql_file_fgetc true "my.cc" 10 demo_file) (-1) = [1] /\
  run_reports (inline_mysql_file_fputs true "my.cc" 10 (Some "lost") demo_file) (-1) = [4] /\
  run_reports (inline_mysql_file_chsize true "my.cc" 10 3 4096 0 0) (-1) = [4096].
Proof.
  split; [lia|]. apply (failed_calls_report "my.cc" 10 demo_file "%d" "lost" 9 3 4096 0 0 (-1)). lia.
Defined.
