(* ===== verification/PsiSocket.v ===== *)
(** * Instrumented sockets

    [mysql/psi/mysql_socket.h], as it is built outside Windows: the wrappers of the socket
    functions.  An instrumented socket is passed by value; a wait is announced when it has a
    hook, and ended when the performance schema gave a locker. *)
From Stdlib Require Import ZArith Lia String.
From stdpp Require Import base tactics list strings.
From S2P Require Import Words.
From S2P Require Import Effects.

Local Open Scope Z_scope.
Local Open Scope tree_scope.

(** ** Build options and constants of the platform *)

Record socket_build := SocketBuild {
  HAVE_PSI_SOCKET_INTERFACE : bool;
  HAVE_ACCEPT4 : bool;
  have_FD_CLOEXEC : bool;
  SOCK_CLOEXEC : Z;
}.

Definition INVALID_SOCKET : Z := -1.
Definition F_GETFD : Z := 1.
Definition F_SETFD : Z := 2.
Definition FD_CLOEXEC : Z := 1.

(** ** The calls *)

Inductive PSI_socket_operation :=
| PSI_SOCKET_CREATE | PSI_SOCKET_CONNECT | PSI_SOCKET_BIND | PSI_SOCKET_CLOSE | PSI_SOCKET_SEND
| PSI_SOCKET_RECV | PSI_SOCKET_SENDTO | PSI_SOCKET_RECVFROM | PSI_SOCKET_SENDMSG
| PSI_SOCKET_RECVMSG | PSI_SOCKET_SEEK | PSI_SOCKET_OPT | PSI_SOCKET_STAT | PSI_SOCKET_SHUTDOWN
| PSI_SOCKET_SELECT.
Inductive PSI_socket_state := PSI_SOCKET_STATE_IDLE | PSI_SOCKET_STATE_ACTIVE.

Abbreviation obj := positive.
Abbreviation hook := positive.
Abbreviation locker := positive.

Inductive psi_socket_call :=
| register_socket (category : string) (info : obj) (count : Z)
| init_socket (key : Z) (fd : Z) (addr : option obj) (addr_len : Z)
| destroy_socket (s : hook)
| start_socket_wait (s : hook) (op : PSI_socket_operation) (count : Z) (src_file : string) (src_line : Z)
| end_socket_wait (l : locker) (count : Z)
| set_socket_state (s : hook) (state : PSI_socket_state)
| set_socket_info (s : hook) (addr : option obj) (addr_len : Z)
| set_socket_thread_owner (s : hook).

Definition psi_socket : signature := Signature psi_socket_call (fun c =>
  match c with
  | init_socket _ _ _ _ => option hook
  | start_socket_wait _ _ _ _ _ => option locker
  | _ => unit
  end).

(** The system's socket functions.  [accept] and [accept4] are given the length of the
    buffer at [addr] and return the descriptor and the length they store back. *)
Inductive lib_socket_call :=
| socket (domain type protocol : Z)
| bind (fd : Z) (addr : option obj) (len : Z)
| getsockname (fd : Z) (addr len : option obj)
| connect (fd : Z) (addr : option obj) (len : Z)
| getpeername (fd : Z) (addr len : option obj)
| send (fd : Z) (buf : obj) (n flags : Z)
| recv (fd : Z) (buf : obj) (n flags : Z)
| sendto (fd : Z) (buf : obj) (n flags : Z) (addr : option obj) (addr_len : Z)
| recvfrom (fd : Z) (buf : obj) (n flags : Z) (addr addr_len : option obj)
| getsockopt (fd level optname : Z) (optval optlen : obj)
| setsockopt (fd level optname : Z) (optval : obj) (optlen : Z)
| listen (fd backlog : Z)
| accept4 (fd : Z) (addr : option obj) (addr_length flags : Z)
| accept (fd : Z) (addr : option obj) (addr_length : Z)
| fcntl (fd cmd arg : Z)
| closesocket (fd : Z)
| shutdown (fd how : Z).

Definition lib_socket : signature := Signature lib_socket_call (fun c =>
  match c with
  | accept4 _ _ _ _ | accept _ _ _ => (Z * Z)%type
  | _ => Z
  end).
Abbreviation socket_tree := (tree (sig_sum psi_socket lib_socket)).

(** ** The instrumented socket *)

Record MYSQL_SOCKET := MysqlSocket { fd : Z; m_psi : option hook }.

Definition mysql_socket_invalid : MYSQL_SOCKET := MysqlSocket INVALID_SOCKET None.
Abbreviation MYSQL_INVALID_SOCKET := mysql_socket_invalid.

Definition mysql_socket_getfd (mysql_socket : MYSQL_SOCKET) : Z := fd mysql_socket.

(** The object at the pointer afterwards. *)
Definition mysql_socket_setfd (mysql_socket : option MYSQL_SOCKET) (fd : Z) : option MYSQL_SOCKET :=
  match mysql_socket with
  | Some s => Some (MysqlSocket fd (m_psi s))
  | None => None
  end.

Section sockets.
Context (cfg : socket_build).

Definition mysql_socket_set_address (socket : MYSQL_SOCKET) (addr : option obj) (addr_len : Z)
    : socket_tree unit :=
  if HAVE_PSI_SOCKET_INTERFACE cfg then
    match m_psi socket with
    | Some p => psi! _ := (set_socket_info p addr addr_len : op psi_socket) in Done tt
    | None => Done tt
    end
  else Done tt.

Definition mysql_socket_set_thread_owner (socket : MYSQL_SOCKET) : socket_tree unit :=
  if HAVE_PSI_SOCKET_INTERFACE cfg then
    match m_psi socket with
    | Some p => psi! _ := (set_socket_thread_owner p : op psi_socket) in Done tt
    | None => Done tt
    end
  else Done tt.

(** The three functions that only an instrumented build has. *)
Definition inline_mysql_start_socket_wait (mysql_socket : MYSQL_SOCKET) (op_ : PSI_socket_operation)
    (byte_count : Z) (src_file : string) (src_line : Z) : socket_tree (option locker) :=
  match m_psi mysql_socket with
  | Some p =>
      psi! locker := (start_socket_wait p op_ byte_count src_file src_line : op psi_socket) in
      Done locker
  | None => Done None
  end.

Definition inline_mysql_end_socket_wait (locker : option locker) (byte_count : Z)
    : socket_tree unit :=
  match locker with
  | Some l => psi! _ := (end_socket_wait l byte_count : op psi_socket) in Done tt
  | None => Done tt
  end.

Definition inline_mysql_socket_set_state (socket : MYSQL_SOCKET) (state : PSI_socket_state)
    : socket_tree unit :=
  match m_psi socket with
  | Some p => psi! _ := (set_socket_state p state : op psi_socket) in Done tt
  | None => Done tt
  end.

Definition inline_mysql_socket_register (category : string) (info : obj) (count : Z)
    : socket_tree unit :=
  psi! _ := (register_socket category info count : op psi_socket) in Done tt.

(** ** Creating a socket *)

Definition inline_mysql_socket_socket (key : Z) (domain type protocol : Z)
    : socket_tree MYSQL_SOCKET :=
  let mysql_socket := MYSQL_INVALID_SOCKET in
  lib! fd := (socket domain (Z.lor type (SOCK_CLOEXEC cfg)) protocol : op lib_socket) in
  let mysql_socket := MysqlSocket fd (m_psi mysql_socket) in
  if HAVE_PSI_SOCKET_INTERFACE cfg then
    if negb (fd =? INVALID_SOCKET) then
      psi! p := (init_socket key fd None 0 : op psi_socket) in
      Done (MysqlSocket fd p)
    else Done mysql_socket
  else Done mysql_socket.

(** ** Calls on a socket *)

(** A bound socket's address is recorded before the wait ends. *)
Definition inline_mysql_socket_bind (src_file : string) (src_line : Z) (mysql_socket : MYSQL_SOCKET)
    (addr : option obj) (len : Z) : socket_tree Z :=
  let plain := lib! result := (bind (fd mysql_socket) addr len : op lib_socket) in Done result in
  if HAVE_PSI_SOCKET_INTERFACE cfg then
    match m_psi mysql_socket with
    | Some p =>
        psi! locker := (start_socket_wait p PSI_SOCKET_BIND 0 src_file src_line : op psi_socket) in
        lib! result := (bind (fd mysql_socket) addr len : op lib_socket) in
        let finish :=
          match locker with
          | Some l => psi! _ := (end_socket_wait l 0 : op psi_socket) in Done result
          | None => Done result
          end in
        if result =? 0
        then psi! _ := (set_socket_info p addr len : op psi_socket) in finish
        else finish
    | None => plain
    end
  else plain.

Definition inline_mysql_socket_getsockname (src_file : string) (src_line : Z) (mysql_socket : MYSQL_SOCKET) (addr len : option obj)
    : socket_tree Z :=
  let plain := lib! result := (getsockname (fd mysql_socket) addr len : op lib_socket) in Done result in
  if HAVE_PSI_SOCKET_INTERFACE cfg then
    match m_psi mysql_socket with
    | Some p =>
        psi! locker := (start_socket_wait p PSI_SOCKET_BIND 0 src_file src_line : op psi_socket) in
        lib! result := (getsockname (fd mysql_socket) addr len : op lib_socket) in
        match locker with
        | Some l => psi! _ := (end_socket_wait l 0 : op psi_socket) in Done result
        | None => Done result
        end
    | None => plain
    end
  else plain.

Definition inline_mysql_socket_connect (src_file : string) (src_line : Z) (mysql_socket : MYSQL_SOCKET) (addr : option obj) (len : Z)
    : socket_tree Z :=
  let plain := lib! result := (connect (fd mysql_socket) addr len : op lib_socket) in Done result in
  if HAVE_PSI_SOCKET_INTERFACE cfg then
    match m_psi mysql_socket with
    | Some p =>
        psi! locker := (start_socket_wait p PSI_SOCKET_CONNECT 0 src_file src_line : op psi_socket) in
        lib! result := (connect (fd mysql_socket) addr len : op lib_socket) in
        match locker with
        | Some l => psi! _ := (end_socket_wait l 0 : op psi_socket) in Done result
        | None => Done result
        end
    | None => plain
    end
  else plain.

Definition inline_mysql_socket_getpeername (src_file : string) (src_line : Z) (mysql_socket : MYSQL_SOCKET) (addr len : option obj)
    : socket_tree Z :=
  let plain := lib! result := (getpeername (fd mysql_socket) addr len : op lib_socket) in Done result in
  if HAVE_PSI_SOCKET_INTERFACE cfg then
    match m_psi mysql_socket with
    | Some p =>
        psi! locker := (start_socket_wait p PSI_SOCKET_BIND 0 src_file src_line : op psi_socket) in
        lib! result := (getpeername (fd mysql_socket) addr len : op lib_socket) in
        match locker with
        | Some l => psi! _ := (end_socket_wait l 0 : op psi_socket) in Done result
        | None => Done result
        end
    | None => plain
    end
  else plain.

(** The bytes of a send or receive: none when it failed. *)
Definition bytes_sent (result : Z) : Z := if -1 <? result then result else 0.

Definition inline_mysql_socket_send (src_file : string) (src_line : Z) (mysql_socket : MYSQL_SOCKET) (buf : obj) (n flags : Z)
    : socket_tree Z :=
  let plain := lib! result := (send (fd mysql_socket) buf n flags : op lib_socket) in Done result in
  if HAVE_PSI_SOCKET_INTERFACE cfg then
    match m_psi mysql_socket with
    | Some p =>
        psi! locker := (start_socket_wait p PSI_SOCKET_SEND n src_file src_line : op psi_socket) in
        lib! result := (send (fd mysql_socket) buf n flags : op lib_socket) in
        match locker with
        | Some l => psi! _ := (end_socket_wait l (bytes_sent result) : op psi_socket) in Done result
        | None => Done result
        end
    | None => plain
    end
  else plain.

Definition inline_mysql_socket_recv (src_file : string) (src_line : Z) (mysql_socket : MYSQL_SOCKET) (buf : obj) (n flags : Z)
    : socket_tree Z :=
  let plain := lib! result := (recv (fd mysql_socket) buf n flags : op lib_socket) in Done result in
  if HAVE_PSI_SOCKET_INTERFACE cfg then
    match m_psi mysql_socket with
    | Some p =>
        psi! locker := (start_socket_wait p PSI_SOCKET_RECV 0 src_file src_line : op psi_socket) in
        lib! result := (recv (fd mysql_socket) buf n flags : op lib_socket) in
        match locker with
        | Some l => psi! _ := (end_socket_wait l (bytes_sent result) : op psi_socket) in Done result
        | None => Done result
        end
    | None => plain
    end
  else plain.

Definition inline_mysql_socket_sendto (src_file : string) (src_line : Z) (mysql_socket : MYSQL_SOCKET) (buf : obj) (n flags : Z) (addr : option obj) (addr_len : Z)
    : socket_tree Z :=
  let plain := lib! result := (sendto (fd mysql_socket) buf n flags addr addr_len : op lib_socket) in Done result in
  if HAVE_PSI_SOCKET_INTERFACE cfg then
    match m_psi mysql_socket with
    | Some p =>
        psi! locker := (start_socket_wait p PSI_SOCKET_SEND n src_file src_line : op psi_socket) in
        lib! result := (sendto (fd mysql_socket) buf n flags addr addr_len : op lib_socket) in
        match locker with
        | Some l => psi! _ := (end_socket_wait l (bytes_sent result) : op psi_socket) in Done result
        | None => Done result
        end
    | None => plain
    end
  else plain.

Definition inline_mysql_socket_recvfrom (src_file : string) (src_line : Z) (mysql_socket : MYSQL_SOCKET) (buf : obj) (n flags : Z) (addr addr_len : option obj)
    : socket_tree Z :=
  let plain := lib! result := (recvfrom (fd mysql_socket) buf n flags addr addr_len : op lib_socket) in Done result in
  if HAVE_PSI_SOCKET_INTERFACE cfg then
    match m_psi mysql_socket with
    | Some p =>
        psi! locker := (start_socket_wait p PSI_SOCKET_RECV 0 src_file src_line : op psi_socket) in
        lib! result := (recvfrom (fd mysql_socket) buf n flags addr addr_len : op lib_socket) in
        match locker with
        | Some l => psi! _ := (end_socket_wait l (bytes_sent result) : op psi_socket) in Done result
        | None => Done result
        end
    | None => plain
    end
  else plain.

Definition inline_mysql_socket_getsockopt (src_file : string) (src_line : Z) (mysql_socket : MYSQL_SOCKET) (level optname : Z) (optval optlen : obj)
    : socket_tree Z :=
  let plain := lib! result := (getsockopt (fd mysql_socket) level optname optval optlen : op lib_socket) in Done result in
  if HAVE_PSI_SOCKET_INTERFACE cfg then
    match m_psi mysql_socket with
    | Some p =>
        psi! locker := (start_socket_wait p PSI_SOCKET_OPT 0 src_file src_line : op psi_socket) in
        lib! result := (getsockopt (fd mysql_socket) level optname optval optlen : op lib_socket) in
        match locker with
        | Some l => psi! _ := (end_socket_wait l 0 : op psi_socket) in Done result
        | None => Done result
        end
    | None => plain
    end
  else plain.

Definition inline_mysql_socket_setsockopt (src_file : string) (src_line : Z) (mysql_socket : MYSQL_SOCKET) (level optname : Z) (optval : obj) (optlen : Z)
    : socket_tree Z :=
  let plain := lib! result := (setsockopt (fd mysql_socket) level optname optval optlen : op lib_socket) in Done result in
  if HAVE_PSI_SOCKET_INTERFACE cfg then
    match m_psi mysql_socket with
    | Some p =>
        psi! locker := (start_socket_wait p PSI_SOCKET_OPT 0 src_file src_line : op psi_socket) in
        lib! result := (setsockopt (fd mysql_socket) level optname optval optlen : op lib_socket) in
        match locker with
        | Some l => psi! _ := (end_socket_wait l 0 : op psi_socket) in Done result
        | None => Done result
        end
    | None => plain
    end
  else plain.

Definition inline_mysql_socket_listen (src_file : string) (src_line : Z) (mysql_socket : MYSQL_SOCKET) (backlog : Z)
    : socket_tree Z :=
  let plain := lib! result := (listen (fd mysql_socket) backlog : op lib_socket) in Done result in
  if HAVE_PSI_SOCKET_INTERFACE cfg then
    match m_psi mysql_socket with
    | Some p =>
        psi! locker := (start_socket_wait p PSI_SOCKET_CONNECT 0 src_file src_line : op psi_socket) in
        lib! result := (listen (fd mysql_socket) backlog : op lib_socket) in
        match locker with
        | Some l => psi! _ := (end_socket_wait l 0 : op psi_socket) in Done result
        | None => Done result
        end
    | None => plain
    end
  else plain.

(** ** Accepting a connection *)

(** The [#ifdef] chain of [accept], which the code has in both branches: the new descriptor,
    made close-on-exec, and the length stored in the wrapper's [addr_length]. *)
Definition raw_accept (listen_fd : Z) (addr : option obj) (addr_length : Z) : tree lib_socket (Z * Z) :=
  if HAVE_ACCEPT4 cfg then perform (E := lib_socket) (accept4 listen_fd addr addr_length (SOCK_CLOEXEC cfg))
  else Call (E := lib_socket) (accept listen_fd addr addr_length) (fun r =>
    if have_FD_CLOEXEC cfg then
      Call (E := lib_socket) (fcntl r.1 F_GETFD 0) (fun flags =>
        if negb (flags =? -1) then
          Call (E := lib_socket) (fcntl r.1 F_SETFD (Z.lor flags FD_CLOEXEC)) (fun _ => Done r)
        else Done r)
    else Done r).

(** [addr_len] is the integer the caller's pointer points to, if it is not null; the result
    has that integer as the function leaves it. *)
Definition inline_mysql_socket_accept (src_file : string) (src_line : Z) (key : Z)
    (socket_listen : MYSQL_SOCKET) (addr : option obj) (addr_len : option Z)
    : socket_tree (MYSQL_SOCKET * option Z) :=
  let socket_accept := MYSQL_INVALID_SOCKET in
  let addr_length := match addr_len with Some n => n | None => 0 end in
  let finish (r : Z * Z) :=
    let '(new_fd, addr_length) := r in
    if HAVE_PSI_SOCKET_INTERFACE cfg then
      if negb (new_fd =? INVALID_SOCKET) then
        psi! p := (init_socket key new_fd addr addr_length : op psi_socket) in
        Done (MysqlSocket new_fd p, addr_len)
      else Done (MysqlSocket new_fd (m_psi socket_accept), addr_len)
    else Done (MysqlSocket new_fd (m_psi socket_accept), addr_len) in
  if HAVE_PSI_SOCKET_INTERFACE cfg then
    match m_psi socket_listen with
    | Some p =>
        psi! locker := (start_socket_wait p PSI_SOCKET_CONNECT 0 src_file src_line : op psi_socket) in
        run! r := raw_accept (fd socket_listen) addr addr_length in
        match locker with
        | Some l => psi! _ := (end_socket_wait l 0 : op psi_socket) in finish r
        | None => finish r
        end
    | None => run! r := raw_accept (fd socket_listen) addr addr_length in finish r
    end
  else run! r := raw_accept (fd socket_listen) addr addr_length in finish r.

(** ** Closing *)

Definition inline_mysql_socket_close (src_file : string) (src_line : Z) (mysql_socket : MYSQL_SOCKET)
    : socket_tree Z :=
  let plain := lib! result := (closesocket (fd mysql_socket) : op lib_socket) in Done result in
  if HAVE_PSI_SOCKET_INTERFACE cfg then
    match m_psi mysql_socket with
    | Some p =>
        psi! locker := (start_socket_wait p PSI_SOCKET_CLOSE 0 src_file src_line : op psi_socket) in
        lib! result := (closesocket (fd mysql_socket) : op lib_socket) in
        match locker with
        | Some l => psi! _ := (end_socket_wait l 0 : op psi_socket) in psi! _ := (destroy_socket p : op psi_socket) in Done result
        | None => psi! _ := (destroy_socket p : op psi_socket) in Done result
        end
    | None => plain
    end
  else plain.

Definition inline_mysql_socket_shutdown (src_file : string) (src_line : Z) (mysql_socket : MYSQL_SOCKET) (how : Z)
    : socket_tree Z :=
  let plain := lib! result := (shutdown (fd mysql_socket) how : op lib_socket) in Done result in
  if HAVE_PSI_SOCKET_INTERFACE cfg then
    match m_psi mysql_socket with
    | Some p =>
        psi! locker := (start_socket_wait p PSI_SOCKET_SHUTDOWN 0 src_file src_line : op psi_socket) in
        lib! result := (shutdown (fd mysql_socket) how : op lib_socket) in
        match locker with
        | Some l => psi! _ := (end_socket_wait l 0 : op psi_socket) in Done result
        | None => Done result
        end
    | None => plain
    end
  else plain.
End sockets.
