(* ===== verification/PsiSocketProps.v ===== *)
(** * The instrumented sockets are the sockets they replace

    The wrappers of [mysql_socket.h] make the system calls of the functions they replace,
    in every build and whatever the performance schema answers; a wait is ended once, with
    the bytes of a send or receive.  [mysql_socket_accept] is not quite a replacement: the
    length of the peer's address stays in the wrapper. *)
From Stdlib Require Import ZArith Lia String.
From stdpp Require Import base tactics list strings numbers.
From S2P Require Import Words.
From S2P Require Import Effects.
From S2P Require Import PsiSocket.

Local Open Scope Z_scope.
Local Open Scope tree_scope.

(** ** What each wrapper replaces *)

Inductive replaces (cfg : socket_build) : socket_tree Z -> tree lib_socket Z -> Prop :=
| s_bind src_file src_line s addr len :
    replaces cfg (inline_mysql_socket_bind cfg src_file src_line s addr len) (perform (E := lib_socket) (bind (fd s) addr len))
| s_getsockname src_file src_line s addr len :
    replaces cfg (inline_mysql_socket_getsockname cfg src_file src_line s addr len) (perform (E := lib_socket) (getsockname (fd s) addr len))
| s_connect src_file src_line s addr len :
    replaces cfg (inline_mysql_socket_connect cfg src_file src_line s addr len) (perform (E := lib_socket) (connect (fd s) addr len))
| s_getpeername src_file src_line s addr len :
    replaces cfg (inline_mysql_socket_getpeername cfg src_file src_line s addr len) (perform (E := lib_socket) (getpeername (fd s) addr len))
| s_send src_file src_line s buf n flags :
    replaces cfg (inline_mysql_socket_send cfg src_file src_line s buf n flags) (perform (E := lib_socket) (send (fd s) buf n flags))
| s_recv src_file src_line s buf n flags :
    replaces cfg (inline_mysql_socket_recv cfg src_file src_line s buf n flags) (perform (E := lib_socket) (recv (fd s) buf n flags))
| s_sendto src_file src_line s buf n flags addr len :
    replaces cfg (inline_mysql_socket_sendto cfg src_file src_line s buf n flags addr len) (perform (E := lib_socket) (sendto (fd s) buf n flags addr len))
| s_recvfrom src_file src_line s buf n flags addr len :
    replaces cfg (inline_mysql_socket_recvfrom cfg src_file src_line s buf n flags addr len) (perform (E := lib_socket) (recvfrom (fd s) buf n flags addr len))
| s_getsockopt src_file src_line s level name val len :
    replaces cfg (inline_mysql_socket_getsockopt cfg src_file src_line s level name val len) (perform (E := lib_socket) (getsockopt (fd s) level name val len))
| s_setsockopt src_file src_line s level name val len :
    replaces cfg (inline_mysql_socket_setsockopt cfg src_file src_line s level name val len) (perform (E := lib_socket) (setsockopt (fd s) level name val len))
| s_listen src_file src_line s backlog :
    replaces cfg (inline_mysql_socket_listen cfg src_file src_line s backlog) (perform (E := lib_socket) (listen (fd s) backlog))
| s_close src_file src_line s :
    replaces cfg (inline_mysql_socket_close cfg src_file src_line s) (perform (E := lib_socket) (closesocket (fd s)))
| s_shutdown src_file src_line s how :
    replaces cfg (inline_mysql_socket_shutdown cfg src_file src_line s how) (perform (E := lib_socket) (shutdown (fd s) how))
| s_socket key domain type protocol :
    replaces cfg (tmap fd (inline_mysql_socket_socket cfg key domain type protocol))
      (perform (E := lib_socket) (socket domain (Z.lor type (SOCK_CLOEXEC cfg)) protocol))
| s_accept src_file src_line key s addr addr_len :
    replaces cfg (tmap (fun r => fd r.1) (inline_mysql_socket_accept cfg src_file src_line key s addr addr_len))
      (tmap fst (raw_accept cfg (fd s) addr (match addr_len with Some n => n | None => 0 end)))
| s_settings s addr len :
    replaces cfg
      (tbind (mysql_socket_set_address cfg s addr len) (fun _ =>
       tbind (mysql_socket_set_thread_owner cfg s) (fun _ => Done 0))) (Done 0)
| s_notices s state category info count :
    replaces cfg
      (tbind (inline_mysql_socket_register category info count) (fun _ =>
       tbind (inline_mysql_socket_set_state s state) (fun _ => Done 0))) (Done 0).

(** ** The protocol of a wait *)

(** No wait announced; one announced, for a transfer of bytes or not; the system's call made,
    with its result; the protocol violated. *)
Inductive bracket :=
| Idle
| Waiting (l : locker) (transfer : bool)
| Waited (l : locker) (transfer : bool) (rc : Z)
| Broken.

Definition transfers (o : PSI_socket_operation) : bool :=
  match o with
  | PSI_SOCKET_SEND | PSI_SOCKET_RECV | PSI_SOCKET_SENDTO | PSI_SOCKET_RECVFROM
  | PSI_SOCKET_SENDMSG | PSI_SOCKET_RECVMSG => true
  | _ => false
  end.

(** A transfer reports its bytes, none if it failed; any other wait reports 0. *)
Definition end_wait (l : locker) (n : Z) (m : bracket) : bracket :=
  match m with
  | Waited l' transfer rc =>
      if decide (l = l' /\ n = if transfer : bool then Z.max 0 rc else 0) then Idle else Broken
  | _ => Broken
  end.
Definition see_wait (c : psi_socket_call) : res psi_socket c -> bracket -> bracket :=
  match c with
  | start_socket_wait _ o _ _ _ => fun r m =>
      match m, r with
      | Idle, Some l => Waiting l (transfers o)
      | Idle, None => Idle
      | _, _ => Broken
      end
  | end_socket_wait l n => fun _ => end_wait l n
  | _ => fun _ m => m
  end.
(** The result of a call; [fcntl] only prepares the descriptor of [accept]. *)
Definition see_call (c : lib_socket_call) : res lib_socket c -> bracket -> bracket :=
  let see rc m :=
    match m with
    | Idle => Idle
    | Waiting l t => Waited l t rc
    | Waited _ _ _ | Broken => Broken
    end in
  match c with
  | fcntl _ _ _ => fun _ m => m
  | accept4 _ _ _ _ | accept _ _ _ => fun r => see r.1
  | _ => see
  end.

Lemma end_wait_other l rc : end_wait l 0 (Waited l false rc) = Idle.
Proof. unfold end_wait. by rewrite decide_True. Qed.
Lemma end_wait_transfer l rc : end_wait l (bytes_sent rc) (Waited l true rc) = Idle.
Proof.
  unfold end_wait, bytes_sent. rewrite decide_True; [done|]. split; [done|].
  destruct (Z.ltb_spec (-1) rc); lia.
Qed.
#[local] Hint Rewrite end_wait_other end_wait_transfer : bracket.
#[local] Opaque end_wait bytes_sent.

Section compare.
Context (cfg : socket_build) {S : Type} (h : forall c : psi_socket_call, S -> res psi_socket c * S).

Lemma socket_replaced_spied w b s :
  replaces cfg w b ->
  teq (fun x r => x.1.1 = r /\ x.2 = Idle)
    (spy (E := psi_socket) (F := lib_socket) h see_wait see_call w s Idle) b.
Proof.
  destruct 1; cbv [perform tmap raw_accept mysql_socket_set_address
    mysql_socket_set_thread_owner inline_mysql_socket_register inline_mysql_socket_set_state
    inline_mysql_socket_socket inline_mysql_socket_accept 
    inline_mysql_socket_bind inline_mysql_socket_getsockname inline_mysql_socket_connect
    inline_mysql_socket_getpeername inline_mysql_socket_send inline_mysql_socket_recv
    inline_mysql_socket_sendto inline_mysql_socket_recvfrom inline_mysql_socket_getsockopt
    inline_mysql_socket_setsockopt inline_mysql_socket_listen inline_mysql_socket_close
    inline_mysql_socket_shutdown];
    spy_run; simplify_eq/=; done.
Qed.
End compare.

(** In every build, and whatever the performance schema answers, each wrapper of
    [mysql_socket.h] makes exactly the system calls of the function it replaces, in order
    and with the same arguments, and returns its result (a socket up to its hook). *)
Theorem socket_transparent (cfg : socket_build) {S : Type}
    (h : forall c : psi_socket_call, S -> res psi_socket c * S) (s : S)
    (w : socket_tree Z) (b : tree lib_socket Z) :
  replaces cfg w b ->
  teq (fun x r => x.1.1 = r) (erase (E := psi_socket) (F := lib_socket) h w s) b.
Proof.
  intros Hr. apply (spy_erase (E := psi_socket) (F := lib_socket) h see_wait see_call w b
    (fun a _ r => a = r) s Idle).
  eapply teq_mono, (socket_replaced_spied cfg h), Hr. by intros x r [].
Qed.

(** A wait on a socket is ended exactly once, after the system call, with the locker it
    was given: a send or receive reports the bytes it moved, or 0 if it failed, everything
    else 0. *)
Theorem socket_brackets (cfg : socket_build) {S : Type}
    (h : forall c : psi_socket_call, S -> res psi_socket c * S) (s : S)
    (w : socket_tree Z) (b : tree lib_socket Z) :
  replaces cfg w b ->
  leaves (fun x => x.2 = Idle)
    (spy (E := psi_socket) (F := lib_socket) h see_wait see_call w s Idle).
Proof.
  intros Hr. eapply teq_leaves, (socket_replaced_spied cfg h), Hr. by intros x r [].
Qed.

(** The macros [MYSQL_START_SOCKET_WAIT] and [MYSQL_END_SOCKET_WAIT] around any code that
    makes system calls change neither its calls nor its result. *)
Theorem socket_wait_macros {S A : Type} (h : forall c : psi_socket_call, S -> res psi_socket c * S)
    (s : S) (payload : tree lib_socket A) sock o n n' src_file src_line :
  teq (fun x r => x.1.1 = r)
    (erase (E := psi_socket) (F := lib_socket) h
      (tbind (inline_mysql_start_socket_wait sock o n src_file src_line) (fun locker =>
       tbind (lift payload) (fun r =>
       tbind (inline_mysql_end_socket_wait locker n') (fun _ => Done r)))) s)
    (tbind payload Done).
Proof.
  cbv [inline_mysql_start_socket_wait inline_mysql_end_socket_wait].
  destruct (m_psi sock) as [p|]; unfold erase; cbn;
    [destruct (h (start_socket_wait p o n src_file src_line) s) as [l s']|];
    apply (erase_bind_lift (E := psi_socket) (F := lib_socket)); intros a; unfold erase; spy_run.
Qed.

(** ** The length of the peer's address *)

(** A performance schema that gives hooks and lockers. *)
Definition lockers (c : psi_socket_call) (n : positive) : res psi_socket c * positive :=
  match c return (res psi_socket c * positive) with
  | init_socket _ _ _ _ => (Some n, Pos.succ n)
  | start_socket_wait _ _ _ _ _ => (Some n, Pos.succ n)
  | _ => (tt, n)
  end.
(** A system on which a peer whose address takes [len] bytes connects as [fd]; any other
    call returns [rc]. *)
Definition peer (new_fd len rc : Z) (c : lib_socket_call) : res lib_socket c :=
  match c return res lib_socket c with
  | accept4 _ _ _ _ | accept _ _ _ => (new_fd, len)
  | _ => rc
  end.
Definition run_socket {A} (new_fd len rc : Z) (w : socket_tree A) : A * list (psi_socket_call + lib_socket_call) :=
  (trun (E := sig_sum psi_socket lib_socket)
     (fun o n => match o with inl c => lockers c n | inr c => (peer new_fd len rc c, n) end) w 1%positive).1.

(** [mysql_socket_accept] does not tell its caller how long the peer's address is: what
    [addr_len] points to stays as it was, although the system returned the length [len] and
    the wrapper reported it to the performance schema. *)
Theorem accept_length_lost (cfg : socket_build) src_file src_line key s addr (n new_fd len rc : Z) :
  HAVE_PSI_SOCKET_INTERFACE cfg = true -> new_fd <> INVALID_SOCKET ->
  let '(r, calls) := run_socket new_fd len rc
    (inline_mysql_socket_accept cfg src_file src_line key s addr (Some n)) in
  fd r.1 = new_fd /\ r.2 = Some n /\ inl (init_socket key new_fd addr len) ∈ calls.
Proof.
  intros Hon Hfd. cbv [run_socket inline_mysql_socket_accept raw_accept perform].
  rewrite Hon. apply Z.eqb_neq in Hfd.
  destruct (m_psi s), (HAVE_ACCEPT4 cfg), (have_FD_CLOEXEC cfg), (rc =? -1) eqn:Hrc;
    cbn; rewrite ?Hrc; cbn; rewrite Hfd; cbn; split_and!; try done;
    repeat first [apply list_elem_of_here | apply list_elem_of_further].
Qed.

(** ** The operations announced *)

(** The operation [psi.h] documents for each call. *)
Definition documented (c : lib_socket_call) : option PSI_socket_operation :=
  match c with
  | socket _ _ _ => Some PSI_SOCKET_CREATE
  | connect _ _ _ | listen _ _ | accept4 _ _ _ _ | accept _ _ _ => Some PSI_SOCKET_CONNECT
  | bind _ _ _ | getsockname _ _ _ | getpeername _ _ _ => Some PSI_SOCKET_BIND
  | send _ _ _ _ => Some PSI_SOCKET_SEND
  | recv _ _ _ _ => Some PSI_SOCKET_RECV
  | sendto _ _ _ _ _ _ => Some PSI_SOCKET_SENDTO
  | recvfrom _ _ _ _ _ _ => Some PSI_SOCKET_RECVFROM
  | getsockopt _ _ _ _ _ | setsockopt _ _ _ _ _ => Some PSI_SOCKET_OPT
  | shutdown _ _ => Some PSI_SOCKET_SHUTDOWN
  | fcntl _ _ _ | closesocket _ => None
  end.

(** The operations announced in a run, and those documented for its system calls. *)
Definition announced {A} (w : socket_tree A) (rc : Z) : list PSI_socket_operation :=
  omap (fun c => match c with inl (start_socket_wait _ o _ _ _) => Some o | _ => None end)
    (run_socket 3 16 rc w).2.
Definition expected {A} (w : socket_tree A) (rc : Z) : list PSI_socket_operation :=
  omap (fun c => match c with inr c => documented c | _ => None end) (run_socket 3 16 rc w).2.

(** A wait announces the operation documented for its call, except that [sendto] and
    [recvfrom] are announced as [send] and [recv]. *)
Theorem announced_operations f l s p addr alen len buf n flags level name optlen backlog how rc :
  let cfg := SocketBuild true true true 0 in
  let s := MysqlSocket s (Some p) in
  let agrees (w : socket_tree Z) := announced w rc = expected w rc in
  agrees (inline_mysql_socket_bind cfg f l s addr len) /\
  agrees (inline_mysql_socket_getsockname cfg f l s addr alen) /\
  agrees (inline_mysql_socket_connect cfg f l s addr len) /\
  agrees (inline_mysql_socket_getpeername cfg f l s addr alen) /\
  agrees (inline_mysql_socket_send cfg f l s buf n flags) /\
  agrees (inline_mysql_socket_recv cfg f l s buf n flags) /\
  agrees (inline_mysql_socket_getsockopt cfg f l s level name buf optlen) /\
  agrees (inline_mysql_socket_setsockopt cfg f l s level name buf len) /\
  agrees (inline_mysql_socket_listen cfg f l s backlog) /\
  agrees (inline_mysql_socket_shutdown cfg f l s how) /\
  (announced (inline_mysql_socket_sendto cfg f l s buf n flags addr len) rc = [PSI_SOCKET_SEND] /\
   expected (inline_mysql_socket_sendto cfg f l s buf n flags addr len) rc = [PSI_SOCKET_SENDTO]) /\
  (announced (inline_mysql_socket_recvfrom cfg f l s buf n flags addr alen) rc = [PSI_SOCKET_RECV] /\
   expected (inline_mysql_socket_recvfrom cfg f l s buf n flags addr alen) rc = [PSI_SOCKET_RECVFROM]).
Proof.
  cbv zeta. split; [cbv [announced expected run_socket inline_mysql_socket_bind]; cbn; by destruct (rc =? 0)|].
  split_and!; reflexivity.
Qed.

(** ** Witnesses *)

Definition linux_build : socket_build := SocketBuild true true true 524288.
Definition demo_socket : MYSQL_SOCKET := MysqlSocket 5 (Some 9%positive).

Lemma socket_transparent_witness :
  replaces linux_build (inline_mysql_socket_send linux_build "net.c" 7 demo_socket 3 100 0)
    (perform (E := lib_socket) (send 5 3 100 0)) /\
  teq (fun x r => x.1.1 = r)
    (erase (E := psi_socket) (F := lib_socket) lockers
      (inline_mysql_socket_send linux_build "net.c" 7 demo_socket 3 100 0) 1%positive)
    (perform (E := lib_socket) (send 5 3 100 0)).
Proof.
  split; [apply (s_send linux_build "net.c" 7 demo_socket)|].
  apply (socket_transparent linux_build lockers), (s_send linux_build "net.c" 7 demo_socket).
Defined.

Lemma socket_brackets_witness :
  replaces linux_build (inline_mysql_socket_recv linux_build "net.c" 7 demo_socket 3 100 0)
    (perform (E := lib_socket) (recv 5 3 100 0)) /\
  leaves (fun x => x.2 = Idle)
    (spy (E := psi_socket) (F := lib_socket) lockers see_wait see_call
      (inline_mysql_socket_recv linux_build "net.c" 7 demo_socket 3 100 0) 1%positive Idle).
Proof.
  split; [apply (s_recv linux_build "net.c" 7 demo_socket)|].
  eapply (socket_brackets linux_build lockers), (s_recv linux_build "net.c" 7 demo_socket).
Defined.

Lemma accept_length_lost_witness :
  7 <> INVALID_SOCKET /\
  let '(r, calls) := run_socket 7 16 0
    (inline_mysql_socket_accept linux_build "net.c" 7 1 demo_socket (Some 4%positive) (Some 128)) in
  fd r.1 = 7 /\ r.2 = Some 128 /\ inl (init_socket 1 7 (Some 4%positive) 16) ∈ calls.
Proof.
  split; [done|]. apply (accept_length_lost linux_build "net.c" 7 1 demo_socket (Some 4%positive) 128 7 16 0); done.
Defined.
