(* ===== verification/PsiStatement.v ===== *)
(** * Instrumented statements, stages, tables and idle waits

    [mysql/psi/mysql_statement.h], [mysql_stage.h], [mysql_table.h] and [mysql_idle.h]: the
    helpers with which a server marks what it is doing.  The code between the marks makes
    calls of its own, over any signature [F]. *)
From Stdlib Require Import ZArith Lia String.
From stdpp Require Import base tactics list strings.
From S2P Require Import Effects.

Local Open Scope Z_scope.
Local Open Scope tree_scope.

(** ** The calls *)

Abbreviation obj := positive.
Abbreviation hook := positive.
Abbreviation lock_ref := positive.

Inductive psi_statement_call :=
| register_statement (category : string) (info : obj) (count : Z)
| register_stage (category : string) (info : obj) (count : Z)
| get_thread_statement_locker (key : Z) (charset : obj)
| refine_statement (l : lock_ref) (key : Z)
| start_statement (l : lock_ref) (db : string) (db_len : Z) (src_file : string) (src_line : Z)
| set_statement_text (l : lock_ref) (text : string) (text_len : Z)
| set_statement_lock_time (l : lock_ref) (count : Z)
| set_statement_rows_sent (l : lock_ref) (count : Z)
| set_statement_rows_examined (l : lock_ref) (count : Z)
| end_statement (l : lock_ref) (stmt_da : obj)
| start_stage (key : Z) (src_file : string) (src_line : Z)
| end_stage
| digest_start (l : lock_ref)
| digest_end (l : lock_ref) (digest : obj)
| start_table_io_wait (t : hook) (op index : Z) (src_file : string) (src_line : Z)
| end_table_io_wait (l : lock_ref)
| start_table_lock_wait (t : hook) (op flags : Z) (src_file : string) (src_line : Z)
| end_table_lock_wait (l : lock_ref)
| start_idle_wait (src_file : string) (src_line : Z)
| end_idle_wait (l : lock_ref).

Definition psi_statement : signature := Signature psi_statement_call (fun c =>
  match c with
  | get_thread_statement_locker _ _ | refine_statement _ _ | digest_start _
  | start_table_io_wait _ _ _ _ _ | start_table_lock_wait _ _ _ _ _ | start_idle_wait _ _ => option lock_ref
  | _ => unit
  end).

Record statement_build := StatementBuild {
  HAVE_PSI_STATEMENT_INTERFACE : bool;
  HAVE_PSI_STATEMENT_DIGEST_INTERFACE : bool;
  HAVE_PSI_STAGE_INTERFACE : bool;
  HAVE_PSI_TABLE_INTERFACE : bool;
  HAVE_PSI_IDLE_INTERFACE : bool;
}.

Section statements.
Context (cfg : statement_build) {F : signature}.
Abbreviation prog := (tree (sig_sum psi_statement F)).
Abbreviation call c k := (Call (E := sig_sum psi_statement F) (inl c) k).

(** ** The inline functions *)

Definition inline_mysql_statement_register (category : string) (info : obj) (count : Z) : prog unit :=
  call (register_statement category info count) (fun _ => Done tt).

Definition inline_mysql_digest_start (locker : option lock_ref) : prog (option lock_ref) :=
  match locker with
  | Some l => call (digest_start l) (fun digest_locker => Done digest_locker)
  | None => Done None
  end.

Definition inline_mysql_digest_end (locker : option lock_ref) (digest : obj) : prog unit :=
  match locker with
  | Some l => call (digest_end l digest) (fun _ => Done tt)
  | None => Done tt
  end.

Definition inline_mysql_start_statement (key : Z) (db : string) (db_len : Z) (charset : obj)
    (src_file : string) (src_line : Z) : prog (option lock_ref) :=
  call (get_thread_statement_locker key charset) (fun locker =>
  match locker with
  | Some l => call (start_statement l db db_len src_file src_line) (fun _ => Done locker)
  | None => Done locker
  end).

Definition inline_mysql_refine_statement (locker : option lock_ref) (key : Z) : prog (option lock_ref) :=
  match locker with
  | Some l => call (refine_statement l key) (fun locker => Done locker)
  | None => Done locker
  end.

Definition inline_mysql_set_statement_text (locker : option lock_ref) (text : string) (text_len : Z)
    : prog unit :=
  match locker with
  | Some l => call (set_statement_text l text text_len) (fun _ => Done tt)
  | None => Done tt
  end.

Definition inline_mysql_set_statement_lock_time (locker : option lock_ref) (count : Z) : prog unit :=
  match locker with
  | Some l => call (set_statement_lock_time l count) (fun _ => Done tt)
  | None => Done tt
  end.

Definition inline_mysql_set_statement_rows_sent (locker : option lock_ref) (count : Z) : prog unit :=
  match locker with
  | Some l => call (set_statement_rows_sent l count) (fun _ => Done tt)
  | None => Done tt
  end.

Definition inline_mysql_set_statement_rows_examined (locker : option lock_ref) (count : Z) : prog unit :=
  match locker with
  | Some l => call (set_statement_rows_examined l count) (fun _ => Done tt)
  | None => Done tt
  end.

Definition inline_mysql_end_statement (locker : option lock_ref) (stmt_da : obj) : prog unit :=
  call end_stage (fun _ =>
  match locker with
  | Some l => call (end_statement l stmt_da) (fun _ => Done tt)
  | None => Done tt
  end).

Definition inline_mysql_stage_register (category : string) (info : obj) (count : Z) : prog unit :=
  call (register_stage category info count) (fun _ => Done tt).

Definition inline_mysql_set_stage (key : Z) (src_file : string) (src_line : Z) : prog unit :=
  call (start_stage key src_file src_line) (fun _ => Done tt).

Definition inline_mysql_start_idle_wait (src_file : string) (src_line : Z) : prog (option lock_ref) :=
  call (start_idle_wait src_file src_line) (fun locker => Done locker).

Definition inline_mysql_end_idle_wait (locker : option lock_ref) : prog unit :=
  match locker with
  | Some l => call (end_idle_wait l) (fun _ => Done tt)
  | None => Done tt
  end.

Definition inline_mysql_start_table_lock_wait (psi : option hook) (op flags : Z)
    (src_file : string) (src_line : Z) : prog (option lock_ref) :=
  match psi with
  | Some p => call (start_table_lock_wait p op flags src_file src_line) (fun locker => Done locker)
  | None => Done None
  end.

Definition inline_mysql_end_table_lock_wait (locker : option lock_ref) : prog unit :=
  match locker with
  | Some l => call (end_table_lock_wait l) (fun _ => Done tt)
  | None => Done tt
  end.

(** ** The macros: the functions, or nothing, as the build says *)

Definition mysql_statement_register category info count : prog unit :=
  if HAVE_PSI_STATEMENT_INTERFACE cfg then inline_mysql_statement_register category info count else Done tt.
Definition MYSQL_DIGEST_START (locker : option lock_ref) : prog (option lock_ref) :=
  if HAVE_PSI_STATEMENT_DIGEST_INTERFACE cfg then inline_mysql_digest_start locker else Done None.
Definition MYSQL_DIGEST_END (locker : option lock_ref) (digest : obj) : prog unit :=
  if HAVE_PSI_STATEMENT_DIGEST_INTERFACE cfg then inline_mysql_digest_end locker digest else Done tt.
Definition MYSQL_START_STATEMENT key db db_len charset src_file src_line : prog (option lock_ref) :=
  if HAVE_PSI_STATEMENT_INTERFACE cfg
  then inline_mysql_start_statement key db db_len charset src_file src_line else Done None.
Definition MYSQL_REFINE_STATEMENT (locker : option lock_ref) (key : Z) : prog (option lock_ref) :=
  if HAVE_PSI_STATEMENT_INTERFACE cfg then inline_mysql_refine_statement locker key else Done None.
Definition MYSQL_SET_STATEMENT_TEXT (locker : option lock_ref) text text_len : prog unit :=
  if HAVE_PSI_STATEMENT_INTERFACE cfg then inline_mysql_set_statement_text locker text text_len else Done tt.
Definition MYSQL_SET_STATEMENT_LOCK_TIME (locker : option lock_ref) (count : Z) : prog unit :=
  if HAVE_PSI_STATEMENT_INTERFACE cfg then inline_mysql_set_statement_lock_time locker count else Done tt.
Definition MYSQL_SET_STATEMENT_ROWS_SENT (locker : option lock_ref) (count : Z) : prog unit :=
  if HAVE_PSI_STATEMENT_INTERFACE cfg then inline_mysql_set_statement_rows_sent locker count else Done tt.
Definition MYSQL_SET_STATEMENT_ROWS_EXAMINED (locker : option lock_ref) (count : Z) : prog unit :=
  if HAVE_PSI_STATEMENT_INTERFACE cfg then inline_mysql_set_statement_rows_examined locker count else Done tt.
Definition MYSQL_END_STATEMENT (locker : option lock_ref) (stmt_da : obj) : prog unit :=
  if HAVE_PSI_STATEMENT_INTERFACE cfg then inline_mysql_end_statement locker stmt_da else Done tt.
Definition mysql_stage_register category info count : prog unit :=
  if HAVE_PSI_STAGE_INTERFACE cfg then inline_mysql_stage_register category info count else Done tt.
Definition MYSQL_SET_STAGE key src_file src_line : prog unit :=
  if HAVE_PSI_STAGE_INTERFACE cfg then inline_mysql_set_stage key src_file src_line else Done tt.
(** The locker is a variable of the user's: without instrumentation it is not assigned. *)
Definition MYSQL_START_IDLE_WAIT (locker : option lock_ref) src_file src_line : prog (option lock_ref) :=
  if HAVE_PSI_IDLE_INTERFACE cfg then inline_mysql_start_idle_wait src_file src_line else Done locker.
Definition MYSQL_END_IDLE_WAIT (locker : option lock_ref) : prog unit :=
  if HAVE_PSI_IDLE_INTERFACE cfg then inline_mysql_end_idle_wait locker else Done tt.
Definition MYSQL_START_TABLE_LOCK_WAIT (locker : option lock_ref) psi op flags src_file src_line
    : prog (option lock_ref) :=
  if HAVE_PSI_TABLE_INTERFACE cfg
  then inline_mysql_start_table_lock_wait psi op flags src_file src_line else Done locker.
Definition MYSQL_END_TABLE_LOCK_WAIT (locker : option lock_ref) : prog unit :=
  if HAVE_PSI_TABLE_INTERFACE cfg then inline_mysql_end_table_lock_wait locker else Done tt.

(** The macros that take the code to run as an argument. *)
Definition MYSQL_TABLE_IO_WAIT {A} (psi : option hook) (op index : Z) src_file src_line
    (PAYLOAD : prog A) : prog A :=
  if HAVE_PSI_TABLE_INTERFACE cfg then
    match psi with
    | Some p =>
        call (start_table_io_wait p op index src_file src_line) (fun locker =>
        tbind PAYLOAD (fun r =>
        match locker with
        | Some l => call (end_table_io_wait l) (fun _ => Done r)
        | None => Done r
        end))
    | None => PAYLOAD
    end
  else PAYLOAD.

Definition MYSQL_TABLE_LOCK_WAIT {A} (psi : option hook) (op flags : Z) src_file src_line
    (PAYLOAD : prog A) : prog A :=
  if HAVE_PSI_TABLE_INTERFACE cfg then
    match psi with
    | Some p =>
        call (start_table_lock_wait p op flags src_file src_line) (fun locker =>
        tbind PAYLOAD (fun r =>
        match locker with
        | Some l => call (end_table_lock_wait l) (fun _ => Done r)
        | None => Done r
        end))
    | None => PAYLOAD
    end
  else PAYLOAD.
End statements.
