(* ===== verification/PsiStatementProps.v ===== *)
(** * Marking statements changes nothing

    Over the whole life of a statement, with any mix of refinements, statistics, stages,
    digests and work of the server's own, the marks leave the work as it is, and the
    performance schema sees a statement started and ended once, always by its current
    locker. *)
From Stdlib Require Import ZArith Lia String.
From stdpp Require Import base tactics list strings.
From S2P Require Import Effects.
From S2P Require Import PsiStatement.

Local Open Scope Z_scope.
Local Open Scope tree_scope.

Section life.
Context (cfg : statement_build) {F : signature}.
Abbreviation prog := (tree (sig_sum psi_statement F)).

(** ** The life of a statement *)

(** What a server does between start and end; [work] is its own calls. *)
Inductive statement_step :=
| work (t : tree F unit)
| refine_to (key : Z)
| text (t : string) (n : Z)
| lock_time (n : Z)
| rows_sent (n : Z)
| rows_examined (n : Z)
| stage (key : Z) (src_file : string) (src_line : Z)
| digest (t : tree F unit) (d : obj)
| table_io (psi : option hook) (op index : Z) (src_file : string) (src_line : Z) (t : tree F unit)
| table_lock (psi : option hook) (op flags : Z) (src_file : string) (src_line : Z) (t : tree F unit)
| table_lock_marks (psi : option hook) (op flags : Z) (src_file : string) (src_line : Z) (t : tree F unit)
| idle (src_file : string) (src_line : Z) (t : tree F unit).

(** The locker after the step. *)
Definition run_step (locker : option lock_ref) (s : statement_step) : prog (option lock_ref) :=
  match s with
  | work t => tbind (lift t) (fun _ => Done locker)
  | refine_to key => MYSQL_REFINE_STATEMENT cfg locker key
  | text t n => tbind (MYSQL_SET_STATEMENT_TEXT cfg locker t n) (fun _ => Done locker)
  | lock_time n => tbind (MYSQL_SET_STATEMENT_LOCK_TIME cfg locker n) (fun _ => Done locker)
  | rows_sent n => tbind (MYSQL_SET_STATEMENT_ROWS_SENT cfg locker n) (fun _ => Done locker)
  | rows_examined n => tbind (MYSQL_SET_STATEMENT_ROWS_EXAMINED cfg locker n) (fun _ => Done locker)
  | stage key f n => tbind (MYSQL_SET_STAGE cfg key f n) (fun _ => Done locker)
  | digest t d =>
      tbind (MYSQL_DIGEST_START cfg locker) (fun d_locker => tbind (lift t) (fun _ =>
      tbind (MYSQL_DIGEST_END cfg d_locker d) (fun _ => Done locker)))
  | table_io p o i f n t => tbind (MYSQL_TABLE_IO_WAIT cfg p o i f n (lift t)) (fun _ => Done locker)
  | table_lock p o i f n t => tbind (MYSQL_TABLE_LOCK_WAIT cfg p o i f n (lift t)) (fun _ => Done locker)
  | table_lock_marks p o i f n t =>
      tbind (MYSQL_START_TABLE_LOCK_WAIT cfg None p o i f n) (fun t_locker => tbind (lift t) (fun _ =>
      tbind (MYSQL_END_TABLE_LOCK_WAIT cfg t_locker) (fun _ => Done locker)))
  | idle f n t =>
      tbind (MYSQL_START_IDLE_WAIT cfg None f n) (fun i_locker => tbind (lift t) (fun _ =>
      tbind (MYSQL_END_IDLE_WAIT cfg i_locker) (fun _ => Done locker)))
  end.

Fixpoint run_steps (locker : option lock_ref) (l : list statement_step) : prog (option lock_ref) :=
  match l with
  | [] => Done locker
  | s :: l => tbind (run_step locker s) (fun locker => run_steps locker l)
  end.

Definition run_statement (key : Z) (db : string) (db_len : Z) (charset da : obj) (src_file : string)
    (src_line : Z) (l : list statement_step) : prog unit :=
  tbind (MYSQL_START_STATEMENT cfg key db db_len charset src_file src_line) (fun locker =>
  tbind (run_steps locker l) (fun locker => MYSQL_END_STATEMENT cfg locker da)).

(** The work alone. *)
Definition step_work (s : statement_step) : tree F unit :=
  match s with
  | work t | digest t _ | table_io _ _ _ _ _ t | table_lock _ _ _ _ _ t
  | table_lock_marks _ _ _ _ _ t | idle _ _ t => t
  | _ => Done tt
  end.
Definition work_of (l : list statement_step) : tree F unit :=
  foldr (fun s t => tbind (step_work s) (fun _ => t)) (Done tt) l.
End life.
Arguments statement_step : clear implicits.

(** Every macro unfolded to its call. *)
Ltac unfold_macros :=
  cbv [run_step step_work MYSQL_REFINE_STATEMENT MYSQL_SET_STATEMENT_TEXT MYSQL_SET_STATEMENT_LOCK_TIME
    MYSQL_SET_STATEMENT_ROWS_SENT MYSQL_SET_STATEMENT_ROWS_EXAMINED MYSQL_SET_STAGE MYSQL_DIGEST_START
    MYSQL_DIGEST_END MYSQL_TABLE_IO_WAIT MYSQL_TABLE_LOCK_WAIT MYSQL_START_TABLE_LOCK_WAIT
    MYSQL_END_TABLE_LOCK_WAIT MYSQL_START_IDLE_WAIT MYSQL_END_IDLE_WAIT MYSQL_START_STATEMENT
    MYSQL_END_STATEMENT inline_mysql_refine_statement inline_mysql_set_statement_text
    inline_mysql_set_statement_lock_time inline_mysql_set_statement_rows_sent
    inline_mysql_set_statement_rows_examined inline_mysql_set_stage inline_mysql_digest_start
    inline_mysql_digest_end inline_mysql_start_table_lock_wait inline_mysql_end_table_lock_wait
    inline_mysql_start_idle_wait inline_mysql_end_idle_wait inline_mysql_start_statement
    inline_mysql_end_statement].

(** ** The work is left as it is *)
Section transparent.
Context (cfg : statement_build) {F : signature} {S : Type}.
Context (h : forall c : psi_statement_call, S -> res psi_statement c * S).

Lemma tbind_done (t : tree F unit) : teq (fun _ _ => True) t (tbind t (fun _ => Done tt)).
Proof. induction t; constructor; auto. Qed.

(** A mark, the work, and what follows: the work alone. *)
Lemma marked_work {A} (t : tree F unit) (f : unit -> tree (sig_sum psi_statement F) A) s :
  (forall a, teq (fun _ _ => True) (erase (E := psi_statement) h (f a) s) (Done tt)) ->
  teq (fun _ _ => True) (erase (E := psi_statement) h (tbind (lift t) f) s) t.
Proof.
  intros Hf. induction t as [[]|o k IH]; [apply Hf|]. constructor. intros r. apply IH.
Qed.

Lemma marked_payload {A B} (t : tree F unit) (g : unit -> tree (sig_sum psi_statement F) A)
    (f : A -> tree (sig_sum psi_statement F) B) s :
  (forall a, teq (fun _ _ => True) (erase (E := psi_statement) h (tbind (g a) f) s) (Done tt)) ->
  teq (fun _ _ => True) (erase (E := psi_statement) h (tbind (tbind (lift t) g) f) s) t.
Proof.
  intros Hf. induction t as [[]|o k IH]; [apply Hf|]. constructor. intros r. apply IH.
Qed.

(** One step through the marks around the work. *)
Ltac mark_step :=
  first [ apply marked_work; intros ? | apply marked_payload; intros ? ];
  unfold erase; cbn; repeat answer_step; by constructor.

Lemma step_transparent locker (x : statement_step F) s :
  teq (fun _ _ => True) (erase (E := psi_statement) h (run_step cfg locker x) s) (step_work x).
Proof.
  destruct x; unfold_macros;
    repeat match goal with |- context [if ?b then _ else _] => destruct b end;
    repeat match goal with |- context [match ?x with Some _ => _ | None => _ end] => is_var x; destruct x end;
    first [ mark_step
          | unfold erase; cbn; repeat answer_step; first [ by constructor | mark_step ] ].
Qed.

Lemma steps_transparent locker (l : list (statement_step F)) s :
  teq (fun _ _ => True) (erase (E := psi_statement) h (run_steps cfg locker l) s) (work_of l).
Proof.
  revert locker s. induction l as [|x l IH]; intros locker s; simpl; [by constructor|].
  apply (erase_bind (E := psi_statement)); [apply step_transparent|]. intros a _ s'. apply IH.
Qed.

(** In every build, and whatever the performance schema answers, marking a statement,
    with its statistics, stages, digests, table and idle waits, leaves the server's own calls
    exactly as they are without the marks. *)
Theorem statement_transparent key db db_len charset da src_file src_line
    (l : list (statement_step F)) s :
  teq (fun _ _ => True)
    (erase (E := psi_statement) h (run_statement cfg key db db_len charset da src_file src_line l) s)
    (tbind (work_of l) (fun _ => Done tt)).
Proof.
  assert (forall locker s, teq (fun _ _ => True)
    (erase (E := psi_statement) h (tbind (run_steps cfg locker l) (fun locker => MYSQL_END_STATEMENT cfg locker da)) s)
    (tbind (work_of l) (fun _ => Done tt))) as Hrest.
  { intros locker s'. apply (erase_bind (E := psi_statement)); [apply steps_transparent|].
    intros a _ s''. unfold_macros. unfold erase. cbn. repeat (answer_step; cbn); by constructor. }
  apply (erase_bind (E := psi_statement) h _ _ (Done tt) (fun _ => tbind (work_of l) (fun _ => Done tt)));
    [|intros; apply Hrest].
  unfold_macros. destruct (HAVE_PSI_STATEMENT_INTERFACE cfg); unfold erase; cbn; repeat (answer_step; cbn);
    by constructor.
Qed.
End transparent.

(** ** The statement the performance schema sees *)

(** None; one whose locker is given but which is not started; one in progress, with the
    digest being computed, if any; one ended; the protocol violated. *)
Inductive statement_life :=
| No_statement
| Given (l : lock_ref)
| Running (l : lock_ref) (d : option lock_ref)
| Ended
| Broken.

Definition during (l : lock_ref) (m m' : statement_life) : statement_life :=
  match m with Running l' None => if decide (l = l') then m' else Broken | _ => Broken end.

Definition see_statement (c : psi_statement_call) : res psi_statement c -> statement_life -> statement_life :=
  match c with
  | get_thread_statement_locker _ _ => fun r m =>
      match m, r with No_statement, Some l => Given l | No_statement, None => No_statement | _, _ => Broken end
  | start_statement l _ _ _ _ => fun _ m =>
      match m with Given l' => if decide (l = l') then Running l None else Broken | _ => Broken end
  | refine_statement l _ => fun r m =>
      during l m (match r with Some l' => Running l' None | None => No_statement end)
  | set_statement_text l _ _ | set_statement_lock_time l _ | set_statement_rows_sent l _
  | set_statement_rows_examined l _ => fun _ m => during l m m
  | digest_start l => fun r m => during l m (Running l r)
  | digest_end d _ => fun _ m =>
      match m with
      | Running l (Some d') => if decide (d = d') then Running l None else Broken
      | _ => Broken
      end
  | end_statement l _ => fun _ m => during l m Ended
  | _ => fun _ m => m
  end.

(** What the monitor must have seen when the current locker is [locker]. *)
Definition life_of (locker : option lock_ref) : statement_life :=
  match locker with Some l => Running l None | None => No_statement end.

Lemma during_running l m : during l (Running l None) m = m.
Proof. unfold during. by rewrite decide_True. Qed.
Lemma decide_same (l : lock_ref) {A} (x y : A) : (if decide (l = l) then x else y) = x.
Proof. by rewrite decide_True. Qed.
#[local] Hint Rewrite during_running @decide_same : bracket.
#[local] Opaque during.

Section protocol.
Context (cfg : statement_build) {F : signature} {S : Type}.
Context (h : forall c : psi_statement_call, S -> res psi_statement c * S).
Abbreviation watch := (spy (E := psi_statement) (F := F) h see_statement (fun _ _ m => m)).

(** The monitor is where it was after the work. *)
Lemma leaves_work {A} (t : tree F unit) (f : unit -> tree (sig_sum psi_statement F) A) P s m :
  (forall s, leaves P (watch (f tt) s m)) -> leaves P (watch (tbind (lift t) f) s m).
Proof.
  intros Hf. eapply spy_bind_leaves; [apply spy_lift_leaves|]. intros [] s' m' Hm. cbn in Hm. by subst.
Qed.
Lemma leaves_payload {A B} (t : tree F unit) (g : unit -> tree (sig_sum psi_statement F) A)
    (f : A -> tree (sig_sum psi_statement F) B) P s m :
  (forall s, leaves P (watch (tbind (g tt) f) s m)) -> leaves P (watch (tbind (tbind (lift t) g) f) s m).
Proof.
  intros Hf. revert s. induction t as [[]|o k IH]; intros s; [apply Hf|]. intros r. apply IH.
Qed.

Ltac life_step :=
  first [ apply leaves_work; intros ? | apply leaves_payload; intros ? | leaves_step ].

(** The monitor has followed the current locker; a build without statements has none. *)
Definition follows (x : option lock_ref * S * statement_life) : Prop :=
  x.2 = life_of x.1.1 /\ (HAVE_PSI_STATEMENT_INTERFACE cfg = false -> x.1.1 = None).

Lemma step_protocol locker (x : statement_step F) s :
  (HAVE_PSI_STATEMENT_INTERFACE cfg = false -> locker = None) ->
  leaves follows (watch (run_step cfg locker x) s (life_of locker)).
Proof.
  unfold follows. intros Hoff.
  destruct x; unfold_macros; destruct (HAVE_PSI_STATEMENT_INTERFACE cfg); try rewrite Hoff by done;
    repeat match goal with |- context [if ?b then _ else _] => destruct b end;
    repeat match goal with |- context [match ?x with Some _ => _ | None => _ end] => is_var x; destruct x end;
    cbv [life_of]; repeat life_step; done.
Qed.

Lemma steps_protocol locker (l : list (statement_step F)) s :
  (HAVE_PSI_STATEMENT_INTERFACE cfg = false -> locker = None) ->
  leaves follows (watch (run_steps cfg locker l) s (life_of locker)).
Proof.
  revert locker s. induction l as [|x l IH]; intros locker s Hoff; [done|]. simpl.
  eapply spy_bind_leaves; [by apply step_protocol|].
  intros a s' m [Hm Ha]. cbn in *. subst m. by apply IH.
Qed.

(** Over a statement's life the performance schema sees it started and ended exactly once
    or not at all, every mark made with the statement's current locker (a refinement may
    replace or withdraw it), and every digest ended before the next mark. *)
Theorem statement_protocol key db db_len charset da src_file src_line
    (l : list (statement_step F)) s :
  leaves (fun x => x.2 = Ended \/ x.2 = No_statement)
    (watch (run_statement cfg key db db_len charset da src_file src_line l) s No_statement).
Proof.
  unfold run_statement. eapply spy_bind_leaves with (Q := follows).
  - unfold follows. unfold_macros. destruct (HAVE_PSI_STATEMENT_INTERFACE cfg); repeat life_step; done.
  - intros locker s' m [Hm Hoff]. cbn in *. subst m. eapply spy_bind_leaves; [by apply steps_protocol|].
    intros locker' s'' m [Hm Hoff']. cbn in *. subst m. unfold_macros.
    destruct (HAVE_PSI_STATEMENT_INTERFACE cfg); try rewrite Hoff' by done;
      destruct locker'; cbv [life_of]; repeat life_step; cbn; auto.
Qed.
End protocol.
