(* ===== verification/Sds.v ===== *)
(** * hiredis's dynamic strings

    The inline functions of [hiredis/sds.h].  An [sds] is the address of the characters; the
    header that lies before them has the length, the allocated size and, in the last byte
    before the characters, the type that says how wide the other two are.  The memory is a
    function from addresses to bytes, the headers packed, the words little-endian. *)
From Stdlib Require Import ZArith Lia List.
From stdpp Require Import base tactics numbers list.
From S2P Require Import Prelude.
From S2P Require Import Words.

Local Open Scope Z_scope.

(** ** Memory *)

Abbreviation memory := (Z -> Z).
Definition load (n : nat) (m : memory) (a : Z) : Z :=
  le_word (map (fun i => m (a + Z.of_nat i)) (seq 0 n)).
Definition store (n : nat) (m : memory) (a x : Z) : memory := fun b =>
  if (a <=? b) && (b <? a + Z.of_nat n) then nth (Z.to_nat (b - a)) (le_bytes n x) 0 else m b.

(** ** The header *)

Definition SDS_TYPE_5 : Z := 0.
Definition SDS_TYPE_8 : Z := 1.
Definition SDS_TYPE_16 : Z := 2.
Definition SDS_TYPE_32 : Z := 3.
Definition SDS_TYPE_64 : Z := 4.
Definition SDS_TYPE_MASK : Z := 7.
Definition SDS_TYPE_BITS : Z := 3.

(** The structures [sdshdr8] to [sdshdr64]: [len] and [alloc] of [w] bytes each, [flags]. *)
Definition sizeof_sdshdr (w : nat) : Z := 2 * Z.of_nat w + 1.
(** [SDS_HDR(T, s)] with its fields [len] and [alloc]. *)
Definition SDS_HDR (w : nat) (s : Z) : Z := s - sizeof_sdshdr w.
Definition hdr_len (w : nat) (s : Z) : Z := SDS_HDR w s.
Definition hdr_alloc (w : nat) (s : Z) : Z := SDS_HDR w s + Z.of_nat w.

Definition SDS_TYPE_5_LEN (f : Z) : Z := Z.shiftr f SDS_TYPE_BITS.

(** ** The functions *)

(** [size_t] and [uint32_t] arithmetic wraps around; that of the narrower fields is done in
    [int] and converted to [size_t]. *)
Definition sdslen (m : memory) (s : Z) : Z :=
  let flags := m (s - 1) in
  match Z.land flags SDS_TYPE_MASK with
  | 0 => SDS_TYPE_5_LEN flags
  | 1 => load 1 m (hdr_len 1 s)
  | 2 => load 2 m (hdr_len 2 s)
  | 3 => load 4 m (hdr_len 4 s)
  | 4 => load 8 m (hdr_len 8 s)
  | _ => 0
  end.

Definition sdsavail (m : memory) (s : Z) : Z :=
  let flags := m (s - 1) in
  match Z.land flags SDS_TYPE_MASK with
  | 0 => 0
  | 1 => u64 (load 1 m (hdr_alloc 1 s) - load 1 m (hdr_len 1 s))
  | 2 => u64 (load 2 m (hdr_alloc 2 s) - load 2 m (hdr_len 2 s))
  | 3 => u32 (load 4 m (hdr_alloc 4 s) - load 4 m (hdr_len 4 s))
  | 4 => u64 (load 8 m (hdr_alloc 8 s) - load 8 m (hdr_len 8 s))
  | _ => 0
  end.

Definition sdssetlen (m : memory) (s newlen : Z) : memory :=
  let flags := m (s - 1) in
  match Z.land flags SDS_TYPE_MASK with
  | 0 => store 1 m (s - 1) (Z.lor SDS_TYPE_5 (Z.shiftl newlen SDS_TYPE_BITS))
  | 1 => store 1 m (hdr_len 1 s) newlen
  | 2 => store 2 m (hdr_len 2 s) newlen
  | 3 => store 4 m (hdr_len 4 s) newlen
  | 4 => store 8 m (hdr_len 8 s) newlen
  | _ => m
  end.

Definition sdsinclen (m : memory) (s inc : Z) : memory :=
  let flags := m (s - 1) in
  match Z.land flags SDS_TYPE_MASK with
  | 0 =>
      let newlen := u8 (SDS_TYPE_5_LEN flags + inc) in
      store 1 m (s - 1) (Z.lor SDS_TYPE_5 (Z.shiftl newlen SDS_TYPE_BITS))
  | 1 => store 1 m (hdr_len 1 s) (load 1 m (hdr_len 1 s) + inc)
  | 2 => store 2 m (hdr_len 2 s) (load 2 m (hdr_len 2 s) + inc)
  | 3 => store 4 m (hdr_len 4 s) (load 4 m (hdr_len 4 s) + inc)
  | 4 => store 8 m (hdr_len 8 s) (load 8 m (hdr_len 8 s) + inc)
  | _ => m
  end.

Definition sdsalloc (m : memory) (s : Z) : Z :=
  let flags := m (s - 1) in
  match Z.land flags SDS_TYPE_MASK with
  | 0 => SDS_TYPE_5_LEN flags
  | 1 => load 1 m (hdr_alloc 1 s)
  | 2 => load 2 m (hdr_alloc 2 s)
  | 3 => load 4 m (hdr_alloc 4 s)
  | 4 => load 8 m (hdr_alloc 8 s)
  | _ => 0
  end.

Definition sdssetalloc (m : memory) (s newlen : Z) : memory :=
  let flags := m (s - 1) in
  match Z.land flags SDS_TYPE_MASK with
  | 0 => m
  | 1 => store 1 m (hdr_alloc 1 s) newlen
  | 2 => store 2 m (hdr_alloc 2 s) newlen
  | 3 => store 4 m (hdr_alloc 4 s) newlen
  | 4 => store 8 m (hdr_alloc 8 s) newlen
  | _ => m
  end.

(** ** Loads and stores *)

Lemma load_bytes n m a : (forall b, is_byte (m b)) -> 0 <= load n m a < 2 ^ (8 * Z.of_nat n).
Proof.
  intros Hm. unfold load. set (l := map _ _).
  assert (Forall is_byte l) as Hl by (apply Forall_map, Forall_true; auto).
  assert (length l = n) as Hn by (unfold l; rewrite length_map; apply length_seq).
  rewrite <- (le_bytes_word l Hl), Hn, le_word_bytes. apply Z.mod_pos_bound. lia.
Qed.

Lemma load_ext n m m' a b :
  (forall i, (i < n)%nat -> m (a + Z.of_nat i) = m' (b + Z.of_nat i)) -> load n m a = load n m' b.
Proof.
  intros H. unfold load. f_equal. apply map_ext_in. intros i [_ Hi]%in_seq. apply H. lia.
Qed.

Lemma store_same n m a x i :
  (i < n)%nat -> store n m a x (a + Z.of_nat i) = nth i (le_bytes n x) 0.
Proof.
  intros Hi. unfold store. rewrite (proj2 (Z.leb_le _ _)), (proj2 (Z.ltb_lt _ _)) by lia.
  cbn [andb]. f_equal. lia.
Qed.

Lemma store_other n m a x b : b < a \/ a + Z.of_nat n <= b -> store n m a x b = m b.
Proof.
  intros Hb. unfold store. destruct (Z.leb_spec a b), (Z.ltb_spec b (a + Z.of_nat n)); [lia|done..].
Qed.

Lemma load_store n m a x : load n (store n m a x) a = x mod 2 ^ (8 * Z.of_nat n).
Proof.
  rewrite <- le_word_bytes. unfold load. f_equal.
  apply (nth_ext _ _ 0 0); rewrite length_map, length_seq; [by rewrite length_le_bytes|].
  intros i Hi. rewrite (nth_indep _ 0 (store n m a x (a + Z.of_nat 0))) by (by rewrite length_map, length_seq).
  rewrite (map_nth (fun i => store n m a x (a + Z.of_nat i))), seq_nth by done. by apply store_same.
Qed.

Lemma load_store_other n n' m a a' x :
  a' + Z.of_nat n' <= a \/ a + Z.of_nat n <= a' -> load n' (store n m a x) a' = load n' m a'.
Proof. intros H. apply load_ext. intros i Hi. apply store_other. lia. Qed.

Lemma store_bytes n m a x : (forall b, is_byte (m b)) -> forall b, is_byte (store n m a x b).
Proof.
  intros Hm b. unfold store. destruct (_ && _); [|done].
  destruct (nth_in_or_default (Z.to_nat (b - a)) (le_bytes n x) 0) as [Hin| ->]; [|done].
  pose proof (le_bytes_bytes n x) as Hall. rewrite List.Forall_forall in Hall. by apply Hall.
Qed.

(** ** The type and the invariant *)

Definition sds_type (m : memory) (s : Z) : Z := Z.land (m (s - 1)) SDS_TYPE_MASK.

(** How many bits a length of the type has. *)
Definition len_bits (t : Z) : Z :=
  match t with 0 => 5 | 1 => 8 | 2 => 16 | 3 => 32 | _ => 64 end.

(** One of the five types, a length within the allocated size. *)
Record sds_ok (m : memory) (s : Z) : Prop := SdsOk {
  sds_bytes : forall b, is_byte (m b);
  sds_known : 0 <= sds_type m s <= 4;
  sds_room : sdslen m s <= sdsalloc m s;
}.

(** Type 5 keeps the length in the flags. *)
Lemma flags_5_type n : Z.land (u8 (Z.lor SDS_TYPE_5 (Z.shiftl n SDS_TYPE_BITS))) SDS_TYPE_MASK = 0.
Proof.
  apply Z.bits_inj'. intros i Hi. change SDS_TYPE_MASK with (Z.ones 3).
  rewrite Z.bits_0, Z.land_spec, u8_bits, Z.lor_spec, Z.bits_0, Z.shiftl_spec, Z.testbit_ones_nonneg by lia.
  destruct (Z.ltb_spec i 3); [|apply andb_false_r]. unfold SDS_TYPE_BITS.
  rewrite (Z.testbit_neg_r n) by lia. by rewrite andb_false_r.
Qed.
Lemma flags_5_len n : SDS_TYPE_5_LEN (u8 (Z.lor SDS_TYPE_5 (Z.shiftl n SDS_TYPE_BITS))) = n mod 2 ^ 5.
Proof.
  unfold SDS_TYPE_5_LEN, SDS_TYPE_BITS. apply Z.bits_inj'. intros i Hi.
  rewrite Z.shiftr_spec, u8_bits, Z.lor_spec, Z.bits_0, Z.shiftl_spec by lia. cbn [orb].
  replace (i + 3 - 3) with i by lia. destruct (Z.ltb_spec (i + 3) 8).
  - by rewrite Z.mod_pow2_bits_low by lia.
  - by rewrite Z.mod_pow2_bits_high by lia.
Qed.

(** The five cases of a function on a string of known type. *)
Lemma sds_type_cases m s :
  0 <= sds_type m s <= 4 ->
  sds_type m s = 0 \/ sds_type m s = 1 \/ sds_type m s = 2 \/ sds_type m s = 3 \/ sds_type m s = 4.
Proof. lia. Qed.
Ltac sds_cases m s H :=
  destruct (sds_type_cases m s H) as [Ht|[Ht|[Ht|[Ht|Ht]]]].
Ltac sds_layout := cbv [hdr_len hdr_alloc SDS_HDR sizeof_sdshdr]; cbn -[Z.add Z.sub Z.mul]; lia.

Lemma store_first m a x : store 1 m a x a = u8 x.
Proof. pose proof (store_same 1 m a x 0) as H. rewrite Z.add_0_r in H. apply H. lia. Qed.

(** The type survives both setters. *)
Lemma setlen_type m s n : 0 <= sds_type m s <= 4 -> sds_type (sdssetlen m s n) s = sds_type m s.
Proof.
  intros Hk. unfold sdssetlen. fold (sds_type m s). sds_cases m s Hk; rewrite Ht; cbv zeta.
  { unfold sds_type. rewrite store_first. apply flags_5_type. }
  all: rewrite <- Ht; unfold sds_type; rewrite store_other; [done|sds_layout].
Qed.
Lemma setalloc_type m s n : 0 <= sds_type m s <= 4 -> sds_type (sdssetalloc m s n) s = sds_type m s.
Proof.
  intros Hk. unfold sdssetalloc. fold (sds_type m s). sds_cases m s Hk; rewrite Ht; cbv zeta; [done|..].
  all: rewrite <- Ht; unfold sds_type; rewrite store_other; [done|sds_layout].
Qed.

Lemma setlen_bytes m s n : (forall b, is_byte (m b)) -> forall b, is_byte (sdssetlen m s n b).
Proof. intros Hm. unfold sdssetlen. repeat case_match; auto using store_bytes. Qed.
Lemma setalloc_bytes m s n : (forall b, is_byte (m b)) -> forall b, is_byte (sdssetalloc m s n b).
Proof. intros Hm. unfold sdssetalloc. repeat case_match; auto using store_bytes. Qed.

(** [sdssetlen] stores the length modulo the width of the string's type, and [sdslen]
    reads it back; the type, the allocated size (of a type that has one) and the characters
    stay as they were. *)
Theorem sds_set_length (m : memory) (s n : Z) :
  0 <= sds_type m s <= 4 ->
  sdslen (sdssetlen m s n) s = n mod 2 ^ len_bits (sds_type m s) /\
  sds_type (sdssetlen m s n) s = sds_type m s /\
  (sds_type m s <> 0 -> sdsalloc (sdssetlen m s n) s = sdsalloc m s) /\
  (forall b, s <= b -> sdssetlen m s n b = m b).
Proof.
  intros Hk. pose proof (setlen_type m s n Hk) as Hty. split_and!; [|done|..].
  - unfold sdslen. fold (sds_type (sdssetlen m s n) s). rewrite Hty.
    unfold sdssetlen. fold (sds_type m s). sds_cases m s Hk; rewrite Ht; cbv zeta.
    { rewrite store_first. apply flags_5_len. }
    all: by rewrite load_store.
  - intros Hne. unfold sdsalloc. fold (sds_type (sdssetlen m s n) s) (sds_type m s). rewrite Hty.
    unfold sdssetlen. fold (sds_type m s). sds_cases m s Hk; rewrite Ht in *; cbv zeta; [done|..];
      apply load_store_other; sds_layout.
  - intros b Hb. unfold sdssetlen. fold (sds_type m s). sds_cases m s Hk; rewrite Ht; cbv zeta;
      apply store_other; sds_layout.
Qed.

(** As the header says, the allocated size is the available size plus the length. *)
Theorem sds_alloc_sum (m : memory) (s : Z) :
  sds_ok m s -> sdsalloc m s = sdsavail m s + sdslen m s.
Proof.
  intros [Hm Hk Hroom]. unfold sdsalloc, sdsavail, sdslen in *. fold (sds_type m s) in *.
  sds_cases m s Hk; rewrite Ht in *; [lia|..];
    match goal with |- load ?n _ ?a = _ + load _ _ ?b =>
      pose proof (load_bytes n m a Hm); pose proof (load_bytes n m b Hm) end;
    cbn [Z.of_nat Pos.of_succ_nat Pos.succ] in *; unfold u32, u64; rewrite Z.mod_small; lia.
Qed.

(** [sdsinclen] is [sdssetlen] of the length and the increment. *)
Theorem sds_inc_length (m : memory) (s inc b : Z) :
  sdsinclen m s inc b = sdssetlen m s (sdslen m s + inc) b.
Proof.
  unfold sdsinclen, sdssetlen, sdslen. repeat case_match; try done.
  unfold store. destruct (_ && _); [|done]. f_equal. cbn [le_bytes]. f_equal.
  apply Z.bits_inj'. intros i Hi. rewrite !u8_bits by done. destruct (Z.ltb_spec i 8); [|done].
  rewrite !Z.lor_spec, Z.bits_0. cbn [orb andb]. unfold SDS_TYPE_BITS. rewrite !Z.shiftl_spec by lia.
  destruct (Z.ltb_spec (i - 3) 0); [by rewrite !Z.testbit_neg_r by lia|].
  rewrite u8_bits by lia. by rewrite (proj2 (Z.ltb_lt _ _)) by lia.
Qed.

(** The allocated size fits its field. *)
Lemma sdsalloc_range m s :
  (forall b, is_byte (m b)) -> 0 < sds_type m s <= 4 -> 0 <= sdsalloc m s < 2 ^ len_bits (sds_type m s).
Proof.
  intros Hm Hk. unfold sdsalloc. fold (sds_type m s).
  assert (0 <= sds_type m s <= 4) as Hk' by lia.
  sds_cases m s Hk'; rewrite Ht in *; [lia|..];
    match goal with |- 0 <= load ?n _ ?a < _ => pose proof (load_bytes n m a Hm) end; done.
Qed.

Lemma setalloc_len m s n : 0 <= sds_type m s <= 4 -> sdslen (sdssetalloc m s n) s = sdslen m s.
Proof.
  intros Hk. pose proof (setalloc_type m s n Hk) as Hty. unfold sdslen.
  fold (sds_type (sdssetalloc m s n) s) (sds_type m s). rewrite Hty.
  unfold sdssetalloc. fold (sds_type m s). sds_cases m s Hk; rewrite Ht; cbv zeta; [done|..];
    apply load_store_other; sds_layout.
Qed.
Lemma setalloc_alloc m s n :
  0 < sds_type m s <= 4 -> sdsalloc (sdssetalloc m s n) s = n mod 2 ^ len_bits (sds_type m s).
Proof.
  intros Hk. assert (0 <= sds_type m s <= 4) as Hk' by lia.
  pose proof (setalloc_type m s n Hk') as Hty. unfold sdsalloc.
  fold (sds_type (sdssetalloc m s n) s). rewrite Hty.
  unfold sdssetalloc. fold (sds_type m s). sds_cases m s Hk'; rewrite Ht in *; cbv zeta; [lia|..];
    by rewrite load_store.
Qed.

Lemma setalloc_chars m s n b : 0 <= sds_type m s <= 4 -> s <= b -> sdssetalloc m s n b = m b.
Proof.
  intros Hk Hb. unfold sdssetalloc. fold (sds_type m s). sds_cases m s Hk; rewrite Ht; cbv zeta; [done|..];
    apply store_other; sds_layout.
Qed.

(** A length the string has room for. *)
Definition has_room (m : memory) (s n : Z) : Prop :=
  0 <= n /\ (sds_type m s = 0 -> n < 2 ^ 5) /\ (sds_type m s <> 0 -> n <= sdsalloc m s).

(** [m'] has the string of [m] with the length [n]: well formed, of the same type, with the
    same characters. *)
Definition relengthed (m m' : memory) (s n : Z) : Prop :=
  sds_ok m' s /\ sdslen m' s = n /\ sds_type m' s = sds_type m s /\ forall b, s <= b -> m' b = m b.

Lemma setlen_relengthed m s n : sds_ok m s -> has_room m s n -> relengthed m (sdssetlen m s n) s n.
Proof.
  intros [Hm Hk Hroom] (Hn & H5 & Hle). destruct (sds_set_length m s n Hk) as (Hlen & Hty & Hall & Hchars).
  assert (sdslen (sdssetlen m s n) s = n) as Hset.
  { rewrite Hlen. apply Z.mod_small. destruct (Z.eq_dec (sds_type m s) 0) as [H0|H0].
    - rewrite H0. split; [done|]. by apply H5.
    - pose proof (sdsalloc_range m s Hm). specialize (Hle H0). lia. }
  split; [|done]. split; [by apply setlen_bytes|by rewrite Hty|].
  rewrite Hset. destruct (Z.eq_dec (sds_type m s) 0) as [H0|H0].
  - rewrite <- Hset at 1. unfold sdslen, sdsalloc.
    fold (sds_type (sdssetlen m s n) s). rewrite Hty, H0. done.
  - rewrite Hall by done. by apply Hle.
Qed.

(** The functions read the memory byte by byte. *)
Lemma sdslen_ext m m' s : (forall b, m b = m' b) -> sdslen m s = sdslen m' s.
Proof. intros H. unfold sdslen. rewrite (H (s - 1)). repeat case_match; try done; by apply load_ext. Qed.
Lemma sdsalloc_ext m m' s : (forall b, m b = m' b) -> sdsalloc m s = sdsalloc m' s.
Proof. intros H. unfold sdsalloc. rewrite (H (s - 1)). repeat case_match; try done; by apply load_ext. Qed.

Lemma relengthed_ext m m1 m2 s n :
  (forall b, m2 b = m1 b) -> relengthed m m1 s n -> relengthed m m2 s n.
Proof.
  intros H ([Hm Hk Hroom] & Hlen & Hty & Hchars). unfold relengthed.
  assert (sds_type m2 s = sds_type m1 s) as Ht by (unfold sds_type; by rewrite H).
  rewrite (sdslen_ext m2 m1), Ht by done. split; [|split; [done|split; [done|]]].
  - split; [intros b; rewrite H; apply Hm|by rewrite Ht|].
    by rewrite (sdslen_ext m2 m1), (sdsalloc_ext m2 m1) by done.
  - intros b Hb. rewrite H. by apply Hchars.
Qed.

(** C33: a well-formed string (bytes, a known type, a length within the allocated size) stays
    well-formed, of the same type and with the same characters, when its length is set by
    [sdssetlen] or changed by [sdsinclen] within its room, or its allocated size set by
    [sdssetalloc] to no less than its length.  The length or size reads back what was set,
    the other one (where the type has an allocated size) what it was. *)
Theorem sds_ok_updates (m : memory) (s n inc : Z) :
  sds_ok m s ->
  (has_room m s n -> relengthed m (sdssetlen m s n) s n /\
    (sds_type m s <> 0 -> sdsalloc (sdssetlen m s n) s = sdsalloc m s)) /\
  (has_room m s (sdslen m s + inc) -> relengthed m (sdsinclen m s inc) s (sdslen m s + inc) /\
    (sds_type m s <> 0 -> sdsalloc (sdsinclen m s inc) s = sdsalloc m s)) /\
  (sds_type m s <> 0 -> sdslen m s <= n < 2 ^ len_bits (sds_type m s) -> 0 <= n ->
    relengthed m (sdssetalloc m s n) s (sdslen m s) /\ sdsalloc (sdssetalloc m s n) s = n).
Proof.
  intros Hok. split; [|split].
  - intros Hn. split; [by apply setlen_relengthed|]. apply (sds_set_length m s n), Hok.
  - intros Hn. split; [eapply relengthed_ext; [apply sds_inc_length|by apply setlen_relengthed]|].
    intros H0. rewrite (sdsalloc_ext _ _ s (sds_inc_length m s inc)).
    apply (sds_set_length m s (sdslen m s + inc)); [apply Hok|done].
  - destruct Hok as [Hm Hk Hroom]. intros H0 Hn Hpos.
    assert (sdsalloc (sdssetalloc m s n) s = n) as Hset.
    { rewrite setalloc_alloc by lia. apply Z.mod_small. lia. }
    split; [|done]. split; [|split; [by apply setalloc_len|split; [by apply setalloc_type|]]].
    + split; [by apply setalloc_bytes|by rewrite setalloc_type|]. rewrite Hset, setalloc_len by done. lia.
    + intros b. by apply setalloc_chars.
Qed.

(** ** Witnesses *)

(** "abc" at address 100 in a string of type 8 with room for 10 characters. *)
Definition demo_memory : memory := fun a =>
  match a with 97 => 3 | 98 => 10 | 99 => 1 | 100 => 97 | 101 => 98 | 102 => 99 | _ => 0 end.

Lemma demo_ok : sds_ok demo_memory 100.
Proof.
  split; [|vm_compute; split; discriminate|vm_compute; discriminate].
  intros b. unfold demo_memory. repeat case_match; split; reflexivity || discriminate.
Qed.

Lemma sds_set_length_witness :
  sdslen (sdssetlen demo_memory 100 300) 100 = 300 mod 2 ^ len_bits (sds_type demo_memory 100) /\
  sds_type (sdssetlen demo_memory 100 300) 100 = sds_type demo_memory 100 /\
  (sds_type demo_memory 100 <> 0 -> sdsalloc (sdssetlen demo_memory 100 300) 100 = sdsalloc demo_memory 100) /\
  (forall b, 100 <= b -> sdssetlen demo_memory 100 300 b = demo_memory b).
Proof. apply (sds_set_length demo_memory 100 300). vm_compute. split; discriminate. Defined.

Lemma sds_alloc_sum_witness : sdsalloc demo_memory 100 = sdsavail demo_memory 100 + sdslen demo_memory 100.
Proof. apply (sds_alloc_sum demo_memory 100). apply demo_ok. Defined.

Lemma sds_ok_updates_witness :
  sds_ok demo_memory 100 /\ relengthed demo_memory (sdssetlen demo_memory 100 7) 100 7 /\
  relengthed demo_memory (sdsinclen demo_memory 100 2) 100 5 /\
  sdsalloc (sdssetalloc demo_memory 100 7) 100 = 7.
Proof.
  split; [apply demo_ok|].
  destruct (sds_ok_updates demo_memory 100 7 2 demo_ok) as (Hlen & Hinc & Halloc).
  assert (Hroom : forall k, 0 <= k <= 10 -> has_room demo_memory 100 k).
  { intros k Hk. split; [lia|]. split; [intros H; vm_compute in H; discriminate H|].
    intros _. change (sdsalloc demo_memory 100) with 10. lia. }
  split; [apply Hlen, Hroom; lia|]. split.
  - apply Hinc, Hroom. change (sdslen demo_memory 100) with 3. lia.
  - apply Halloc; [discriminate|split; [discriminate|reflexivity]|lia].
Defined.
