(* ===== verification/ByteOrderGeneric.v ===== *)
(** * Integers in the low-byte-first format, any processor

    [mysql/byte_order_generic.h]: the macros that read ([korr]) and store integers in the
    format of the MySQL protocol and files.  A macro's pointer is the list of the bytes from
    there on; a store is the list of the bytes written.  The argument of a store is an
    integer wide enough for the shifts of the macro. *)
From Stdlib Require Import ZArith Lia.
From stdpp Require Import base tactics numbers list.
From S2P Require Import Prelude.
From S2P Require Import Words.

Local Open Scope Z_scope.

(** ** The types [uint16], [int16] and [longlong] *)

Definition u16 (x : Z) : Z := x mod 2 ^ 16.
Definition i16 (x : Z) : Z := (x + 2 ^ 15) mod 2 ^ 16 - 2 ^ 15.
Definition i64 (x : Z) : Z := (x + 2 ^ 63) mod 2 ^ 64 - 2 ^ 63.

(** [(uchar) (A)[i]]. *)
Definition byte (A : list Z) (i : nat) : Z := u8 (nth i A 0).

(** ** Reading *)

(** The operands of [int16] and [uint16] are promoted to [int] before they are shifted and added. *)

Definition sint2korr (A : list Z) : Z :=
  i16 (i16 (byte A 0) + Z.shiftl (i16 (i16 (byte A 1))) 8).
Definition sint3korr (A : list Z) : Z :=
  i32 (if negb (Z.land (byte A 2) 128 =? 0)
       then Z.lor (Z.lor (Z.lor (u32 (Z.shiftl (u32 255) 24)) (u32 (Z.shiftl (u32 (byte A 2)) 16)))
              (u32 (Z.shiftl (u32 (byte A 1)) 8))) (u32 (byte A 0))
       else Z.lor (Z.lor (u32 (Z.shiftl (u32 (byte A 2)) 16)) (u32 (Z.shiftl (u32 (byte A 1)) 8)))
              (u32 (byte A 0))).
(** The last shift moves a byte into the sign; compilers wrap around. *)
Definition sint4korr (A : list Z) : Z :=
  i32 (i32 (byte A 0) + i32 (Z.shiftl (i32 (byte A 1)) 8) + i32 (Z.shiftl (i32 (byte A 2)) 16)
       + i32 (Z.shiftl (i32 (i16 (byte A 3))) 24)).
Definition uint2korr (A : list Z) : Z := u16 (u16 (byte A 0) + Z.shiftl (u16 (byte A 1)) 8).
Definition uint3korr (A : list Z) : Z :=
  u32 (u32 (byte A 0) + u32 (Z.shiftl (u32 (byte A 1)) 8) + u32 (Z.shiftl (u32 (byte A 2)) 16)).
Definition uint4korr (A : list Z) : Z :=
  u32 (u32 (byte A 0) + u32 (Z.shiftl (u32 (byte A 1)) 8) + u32 (Z.shiftl (u32 (byte A 2)) 16)
       + u32 (Z.shiftl (u32 (byte A 3)) 24)).
Definition uint5korr (A : list Z) : Z :=
  u64 (u64 (u32 (u32 (byte A 0) + u32 (Z.shiftl (u32 (byte A 1)) 8) + u32 (Z.shiftl (u32 (byte A 2)) 16)
            + u32 (Z.shiftl (u32 (byte A 3)) 24)))
       + u64 (Z.shiftl (u64 (byte A 4)) 32)).
Definition uint6korr (A : list Z) : Z :=
  u64 (u64 (u32 (u32 (byte A 0) + u32 (Z.shiftl (u32 (byte A 1)) 8) + u32 (Z.shiftl (u32 (byte A 2)) 16)
            + u32 (Z.shiftl (u32 (byte A 3)) 24)))
       + u64 (Z.shiftl (u64 (byte A 4)) 32) + u64 (Z.shiftl (u64 (byte A 5)) 40)).
Definition uint8korr (A : list Z) : Z :=
  u64 (u64 (u32 (u32 (byte A 0) + u32 (Z.shiftl (u32 (byte A 1)) 8) + u32 (Z.shiftl (u32 (byte A 2)) 16)
            + u32 (Z.shiftl (u32 (byte A 3)) 24)))
       + u64 (Z.shiftl (u64 (u32 (u32 (byte A 4) + u32 (Z.shiftl (u32 (byte A 5)) 8)
            + u32 (Z.shiftl (u32 (byte A 6)) 16) + u32 (Z.shiftl (u32 (byte A 7)) 24)))) 32)).
Definition sint8korr (A : list Z) : Z := i64 (uint8korr A).

(** ** Storing *)

Definition int2store (A : Z) : list Z :=
  let def_temp := u32 A in [u8 def_temp; u8 (Z.shiftr def_temp 8)].
Definition int3store (A : Z) : list Z := [u8 A; u8 (Z.shiftr A 8); u8 (Z.shiftr A 16)].
Definition int4store (A : Z) : list Z :=
  [u8 A; u8 (Z.shiftr A 8); u8 (Z.shiftr A 16); u8 (Z.shiftr A 24)].
Definition int5store (A : Z) : list Z :=
  [u8 A; u8 (Z.shiftr A 8); u8 (Z.shiftr A 16); u8 (Z.shiftr A 24); u8 (Z.shiftr A 32)].
Definition int6store (A : Z) : list Z :=
  [u8 A; u8 (Z.shiftr A 8); u8 (Z.shiftr A 16); u8 (Z.shiftr A 24); u8 (Z.shiftr A 32); u8 (Z.shiftr A 40)].
Definition int8store (A : Z) : list Z :=
  let def_temp := u32 A in
  let def_temp2 := u32 (Z.shiftr A 32) in
  (int4store def_temp ++ int4store def_temp2)%list.

(** ** The format: little-endian words *)

Lemma i16_range x : - 2 ^ 15 <= i16 x < 2 ^ 15.
Proof. unfold i16. pose proof (Z.mod_pos_bound (x + 2 ^ 15) (2 ^ 16)). lia. Qed.
Lemma i16_small x : - 2 ^ 15 <= x < 2 ^ 15 -> i16 x = x.
Proof. intros. unfold i16. rewrite Z.mod_small; lia. Qed.
Lemma i32_small_range x : - 2 ^ 31 <= x < 2 ^ 31 -> i32 x = x.
Proof. intros. unfold i32. rewrite Z.mod_small; lia. Qed.
Lemma u16_small x : 0 <= x < 2 ^ 16 -> u16 x = x.
Proof. apply Z.mod_small. Qed.

(** Signed words that agree modulo their width are equal. *)
Lemma i16_eqm x y : x mod 2 ^ 16 = y mod 2 ^ 16 -> i16 x = i16 y.
Proof. intros H. unfold i16. by rewrite (Z.add_mod x), (Z.add_mod y), H by done. Qed.
Lemma i32_eqm x y : x mod 2 ^ 32 = y mod 2 ^ 32 -> i32 x = i32 y.
Proof. intros H. unfold i32. by rewrite (Z.add_mod x), (Z.add_mod y), H by done. Qed.
Lemma i16_mod x : i16 x mod 2 ^ 16 = x mod 2 ^ 16.
Proof. unfold i16. rewrite Zminus_mod_idemp_l. f_equal. lia. Qed.
Lemma i32_mod x : i32 x mod 2 ^ 32 = x mod 2 ^ 32.
Proof.
  unfold i32. rewrite Zminus_mod_idemp_l. f_equal. lia.
Qed.

Lemma le_word_cons b bs : is_byte b -> le_word (b :: bs) = b + 2 ^ 8 * le_word bs.
Proof.
  intros Hb. cbn [le_word]. rewrite (Z.mul_comm (2 ^ 8)), <- Z.shiftl_mul_pow2 by lia.
  rewrite <- Z.add_lor_land.
  assert (Z.land b (Z.shiftl (le_word bs) 8) = 0) as ->; [|lia].
  apply Z.bits_inj'. intros i Hi. rewrite Z.land_spec, Z.bits_0. destruct (Z.ltb_spec i 8).
  - rewrite Z.shiftl_spec_low by lia. apply andb_false_r.
  - rewrite <- (Z.mod_small b (2 ^ 8) Hb), Z.mod_pow2_bits_high by lia. done.
Qed.
Lemma le_word_nil : le_word [] = 0.
Proof. done. Qed.

Lemma byte_cons b bs i : byte (b :: bs) (S i) = byte bs i.
Proof. done. Qed.
Lemma byte_head b bs : is_byte b -> byte (b :: bs) 0 = b.
Proof. apply Z.mod_small. Qed.

(** A buffer of at least [n] bytes. *)
Definition buffer (n : nat) (A : list Z) : Prop := Forall is_byte A /\ (n <= length A)%nat.

(** The bytes of a buffer, one by one. *)
Ltac open_buffer :=
  repeat match goal with
  | H : buffer (S _) ?A |- _ =>
      destruct A as [|? A]; destruct H as [Hall Hlen]; [simpl in Hlen; lia|];
      apply Forall_cons in Hall as [? Hall]; simpl in Hlen; apply le_S_n in Hlen;
      pose proof (conj Hall Hlen : buffer _ A); clear Hall Hlen
  end.
Create Rewrite HintDb korr.
#[export] Hint Rewrite byte_cons : korr.
#[export] Hint Rewrite byte_head using assumption : korr.
#[export] Hint Rewrite le_word_cons using assumption : korr.
#[export] Hint Rewrite Z.shiftl_mul_pow2 using lia : korr.
(** The innermost wrap-arounds that do not wrap are dropped. *)
Ltac small :=
  repeat match goal with |- context [?x mod ?y] =>
    lazymatch x with
    | context [_ mod _] => fail
    | _ => rewrite (Z.mod_small x y) by lia
    end end.
Ltac korr :=
  autorewrite with korr; rewrite ?take_0, ?le_word_nil; unfold is_byte, u16, u32, u64 in *; small.

Lemma uint2korr_word A : buffer 2 A -> uint2korr A = le_word (take 2 A).
Proof. intros H. open_buffer. unfold uint2korr. cbn [take]. korr. lia. Qed.
Lemma uint3korr_word A : buffer 3 A -> uint3korr A = le_word (take 3 A).
Proof. intros H. open_buffer. unfold uint3korr. cbn [take]. korr. lia. Qed.
Lemma uint4korr_word A : buffer 4 A -> uint4korr A = le_word (take 4 A).
Proof. intros H. open_buffer. unfold uint4korr. cbn [take]. korr. lia. Qed.
Lemma uint5korr_word A : buffer 5 A -> uint5korr A = le_word (take 5 A).
Proof. intros H. open_buffer. unfold uint5korr. cbn [take]. korr. lia. Qed.
Lemma uint6korr_word A : buffer 6 A -> uint6korr A = le_word (take 6 A).
Proof. intros H. open_buffer. unfold uint6korr. cbn [take]. korr. lia. Qed.
Lemma uint8korr_word A : buffer 8 A -> uint8korr A = le_word (take 8 A).
Proof. intros H. open_buffer. unfold uint8korr. cbn [take]. korr. lia. Qed.

(** The signed readers are the words read as two's complement. *)
Lemma sint2korr_word A : buffer 2 A -> sint2korr A = i16 (le_word (take 2 A)).
Proof.
  intros H. open_buffer. unfold sint2korr. cbn [take]. korr. apply i16_eqm.
  rewrite (i16_small z), !(i16_small z0) by lia. f_equal. lia.
Qed.
Lemma sint4korr_word A : buffer 4 A -> sint4korr A = i32 (le_word (take 4 A)).
Proof.
  intros H. open_buffer. unfold sint4korr. cbn [take]. korr. apply i32_eqm.
  rewrite (i16_small z2), (i32_small_range z), (i32_small_range z0), (i32_small_range z1),
    (i32_small_range z2), (i32_small_range (z0 * _)), (i32_small_range (z1 * _)) by lia. rewrite <- Zplus_mod_idemp_r, i32_mod, Zplus_mod_idemp_r.
  f_equal. lia.
Qed.
Lemma sint8korr_word A : buffer 8 A -> sint8korr A = i64 (le_word (take 8 A)).
Proof. intros H. unfold sint8korr. by rewrite uint8korr_word. Qed.

Lemma byte_sign b : is_byte b -> (Z.land b 128 =? 0) = (b <? 128).
Proof.
  intros Hb. apply eqb_prop. revert b Hb.
  apply (byte_forallb (fun b => Bool.eqb (Z.land b 128 =? 0) (b <? 128))). reflexivity.
Qed.

Lemma sint3korr_word A :
  buffer 3 A -> sint3korr A = le_word (take 3 A) - (if le_word (take 3 A) <? 2 ^ 23 then 0 else 2 ^ 24).
Proof.
  intros H. open_buffer. unfold sint3korr. cbn [take]. rewrite !byte_cons, !byte_head by done.
  rewrite byte_sign by done. unfold u32. rewrite !(Z.shiftl_mul_pow2 _ _) by lia. unfold is_byte in *. small.
  rewrite <- !Z.shiftl_mul_pow2 by lia.
  assert (Z.lor (Z.lor (Z.shiftl z1 16) (Z.shiftl z0 8)) z = le_word [z; z0; z1]) as Hw.
  { cbn [le_word]. rewrite !Z.shiftl_lor, !Z.shiftl_shiftl, Z.shiftl_0_l, Z.lor_0_r by lia.
    change (8 + 8) with 16. rewrite Z.lor_assoc. rewrite (Z.lor_comm (Z.shiftl z1 16)).
    rewrite Z.lor_comm. apply Z.lor_assoc. }
  assert (Z.lor (Z.lor (Z.lor (Z.shiftl 255 24) (Z.shiftl z1 16)) (Z.shiftl z0 8)) z
    = le_word [z; z0; z1; 255]) as Hs.
  { rewrite <- !Z.lor_assoc, (Z.lor_assoc (Z.shiftl z1 16)), Hw. cbn [le_word].
    rewrite !Z.shiftl_lor, !Z.shiftl_shiftl, !Z.shiftl_0_l, !Z.lor_0_r by lia.
    rewrite Z.lor_comm, <- !Z.lor_assoc. done. }
  rewrite Hw, Hs, take_0. rewrite !le_word_cons, le_word_nil by (unfold is_byte; lia).
  destruct (Z.ltb_spec z1 128), (Z.ltb_spec (z + 2 ^ 8 * (z0 + 2 ^ 8 * (z1 + 2 ^ 8 * 0))) (2 ^ 23)); try lia; cbn [negb].
  - rewrite i32_small_range; lia.
  - unfold i32. rewrite Z.add_comm, <- (Z_mod_plus_full _ (-1)), Z.mod_small; lia.
Qed.

(** ** What is stored *)

Lemma le_bytes_cons n x : le_bytes (S n) x = u8 x :: le_bytes n (Z.shiftr x 8).
Proof. done. Qed.
Ltac stores := cbn [le_bytes]; rewrite !Z.shiftr_shiftr by lia; reflexivity.

Lemma int3store_word x : int3store x = le_bytes 3 x.
Proof. unfold int3store. stores. Qed.
Lemma int4store_word x : int4store x = le_bytes 4 x.
Proof. unfold int4store. stores. Qed.
Lemma int5store_word x : int5store x = le_bytes 5 x.
Proof. unfold int5store. stores. Qed.
Lemma int6store_word x : int6store x = le_bytes 6 x.
Proof. unfold int6store. stores. Qed.
Lemma int2store_word x : int2store x = le_bytes 2 x.
Proof.
  unfold int2store. cbv zeta. pose proof (le_bytes_u32 x) as H. cbn [le_bytes] in *.
  injection H as H0 H1 _ _. by rewrite H0, H1.
Qed.
Lemma int8store_word x : int8store x = le_bytes 8 x.
Proof.
  unfold int8store. cbv zeta. rewrite !int4store_word, !le_bytes_u32. cbn [le_bytes app].
  rewrite !Z.shiftr_shiftr by lia. reflexivity.
Qed.

Lemma le_bytes_buffer n x : buffer n (le_bytes n x).
Proof. split; [apply le_bytes_bytes|]. by rewrite length_le_bytes. Qed.
Lemma word_of_store n x : le_word (take n (le_bytes n x)) = x mod 2 ^ (8 * Z.of_nat n).
Proof. rewrite take_ge by (by rewrite length_le_bytes). apply le_word_bytes. Qed.

(** Every unsigned store, of 2, 3, 4, 5, 6 or 8 bytes, reads back its argument modulo
    its width. *)
Theorem unsigned_roundtrip (x : Z) :
  uint2korr (int2store x) = x mod 2 ^ 16 /\ uint3korr (int3store x) = x mod 2 ^ 24 /\
  uint4korr (int4store x) = x mod 2 ^ 32 /\ uint5korr (int5store x) = x mod 2 ^ 40 /\
  uint6korr (int6store x) = x mod 2 ^ 48 /\ uint8korr (int8store x) = x mod 2 ^ 64.
Proof.
  rewrite int2store_word, int3store_word, int4store_word, int5store_word, int6store_word, int8store_word.
  rewrite uint2korr_word, uint3korr_word, uint4korr_word, uint5korr_word, uint6korr_word, uint8korr_word
    by apply le_bytes_buffer.
  rewrite !word_of_store. done.
Qed.

(** C31: a signed integer that fits 2, 3, 4 or 8 bytes is read back by the signed reader of
    that width. *)
Theorem signed_roundtrip (x : Z) :
  (- 2 ^ 15 <= x < 2 ^ 15 -> sint2korr (int2store x) = x) /\
  (- 2 ^ 23 <= x < 2 ^ 23 -> sint3korr (int3store x) = x) /\
  (- 2 ^ 31 <= x < 2 ^ 31 -> sint4korr (int4store x) = x) /\
  (- 2 ^ 63 <= x < 2 ^ 63 -> sint8korr (int8store x) = x).
Proof.
  rewrite int2store_word, int3store_word, int4store_word, int8store_word.
  rewrite sint2korr_word, sint3korr_word, sint4korr_word, sint8korr_word by apply le_bytes_buffer.
  rewrite !word_of_store. split_and!; intros Hx.
  - rewrite <- (i16_small x) at 2 by done. apply i16_eqm, Z.mod_mod. done.
  - change (2 ^ (8 * Z.of_nat 3)) with (2 ^ 24). destruct (Z.ltb_spec x 0).
    + rewrite <- (Z_mod_plus_full x 1), Z.mod_small by lia. rewrite (proj2 (Z.ltb_ge _ _)); lia.
    + rewrite Z.mod_small by lia. rewrite (proj2 (Z.ltb_lt _ _)); lia.
  - rewrite <- (i32_small_range x) at 2 by done. apply i32_eqm, Z.mod_mod. done.
  - unfold i64. change (2 ^ (8 * Z.of_nat 8)) with (2 ^ 64). rewrite Zplus_mod_idemp_l, Z.mod_small; lia.
Qed.

(** ** Words through a pointer *)

Lemma le_word_take_range n A : buffer n A -> 0 <= le_word (take n A) < 2 ^ (8 * Z.of_nat n).
Proof.
  intros [Hb Hl]. assert (length (take n A) = n) as Hn by (rewrite length_take; lia).
  rewrite <- (le_bytes_word (take n A)), Hn, le_word_bytes by (by apply Forall_take).
  apply Z.mod_pos_bound. lia.
Qed.
Lemma deref_small n A : buffer n A -> le_word (take n A) mod 2 ^ (8 * Z.of_nat n) = le_word (take n A).
Proof. intros H. apply Z.mod_small. by apply le_word_take_range. Qed.

(** The bytes written depend only on the bits they keep. *)
Lemma le_bytes_mod_ext n x y : x mod 2 ^ (8 * Z.of_nat n) = y mod 2 ^ (8 * Z.of_nat n) -> le_bytes n x = le_bytes n y.
Proof.
  intros H. rewrite <- !le_word_bytes in H. pose proof (f_equal (le_bytes n) H) as Hb.
  rewrite <- (le_bytes_word (le_bytes n x)), <- (le_bytes_word (le_bytes n y)) by apply le_bytes_bytes.
  by rewrite !length_le_bytes.
Qed.
Lemma le_bytes_mod n x : le_bytes n (x mod 2 ^ (8 * Z.of_nat n)) = le_bytes n x.
Proof. apply le_bytes_mod_ext, Z.mod_mod. lia. Qed.
Lemma le_bytes_i32 x : le_bytes 4 (i32 x) = le_bytes 4 x.
Proof. apply le_bytes_mod_ext, i32_mod. Qed.
Lemma u8_shiftr_u32 x k : 0 <= k <= 24 -> u8 (Z.shiftr (u32 x) k) = u8 (Z.shiftr x k).
Proof.
  intros Hk. apply Z.bits_inj'. intros i Hi. rewrite !u8_bits, !Z.shiftr_spec, u32_bits by lia.
  destruct (Z.ltb_spec i 8); [|done]. by rewrite (proj2 (Z.ltb_lt _ _)) by lia.
Qed.

(** ** Witnesses *)

Lemma signed_roundtrip_witness :
  sint2korr (int2store (-2)) = -2 /\ sint3korr (int3store (-70000)) = -70000 /\ sint4korr (int4store (-2)) = -2.
Proof.
  split; [apply (signed_roundtrip (-2)); lia|]. split; [apply (signed_roundtrip (-70000)); lia|].
  apply (signed_roundtrip (-2)). lia.
Defined.
