(* ===== verification/ByteOrderX86.v ===== *)
(** * Integers in the low-byte-first format, 32-bit x86

    [mysql/byte_order_generic_x86.h]: reads and stores of a whole word go through a pointer of the
    word's type, on a processor that keeps the low byte first; the other widths are done byte
    by byte.  They are the generic macros. *)
From Stdlib Require Import ZArith Lia.
From stdpp Require Import base tactics numbers list.
From S2P Require Import Prelude.
From S2P Require Import Words.
From S2P Require Import ByteOrderGeneric.

Local Open Scope Z_scope.

(** [*((const type * ) (A))] for a type of [n] bytes. *)
Definition deref (n : nat) (A : list Z) : Z := le_word (take n A).

(** ** Reading *)

Definition sint2korr (A : list Z) : Z := i16 (deref 2 A).
Definition sint3korr (A : list Z) : Z :=
  i32 (if negb (Z.land (byte A 2) 128 =? 0)
       then Z.lor (Z.lor (Z.lor (u32 (Z.shiftl (u32 255) 24)) (u32 (Z.shiftl (u32 (byte A 2)) 16)))
              (u32 (Z.shiftl (u32 (byte A 1)) 8))) (u32 (byte A 0))
       else Z.lor (Z.lor (u32 (Z.shiftl (u32 (byte A 2)) 16)) (u32 (Z.shiftl (u32 (byte A 1)) 8)))
              (u32 (byte A 0))).
Definition sint4korr (A : list Z) : Z := i32 (deref 4 A).
Definition uint2korr (A : list Z) : Z := u16 (deref 2 A).
Definition uint3korr (A : list Z) : Z :=
  u32 (u32 (byte A 0) + u32 (Z.shiftl (u32 (byte A 1)) 8) + u32 (Z.shiftl (u32 (byte A 2)) 16)).
Definition uint4korr (A : list Z) : Z := u32 (deref 4 A).
Definition uint5korr (A : list Z) : Z :=
  u64 (u64 (u32 (u32 (byte A 0) + u32 (Z.shiftl (u32 (byte A 1)) 8) + u32 (Z.shiftl (u32 (byte A 2)) 16)
            + u32 (Z.shiftl (u32 (byte A 3)) 24)))
       + u64 (Z.shiftl (u64 (byte A 4)) 32)).
Definition uint6korr (A : list Z) : Z :=
  u64 (u64 (u32 (u32 (byte A 0) + u32 (Z.shiftl (u32 (byte A 1)) 8) + u32 (Z.shiftl (u32 (byte A 2)) 16)
            + u32 (Z.shiftl (u32 (byte A 3)) 24)))
       + u64 (Z.shiftl (u64 (byte A 4)) 32) + u64 (Z.shiftl (u64 (byte A 5)) 40)).
Definition uint8korr (A : list Z) : Z := u64 (deref 8 A).
Definition sint8korr (A : list Z) : Z := i64 (deref 8 A).

(** ** Storing *)

Definition int2store (A : Z) : list Z := le_bytes 2 (u16 A).
Definition int3store (A : Z) : list Z := [u8 A; u8 (Z.shiftr (u32 A) 8); u8 (Z.shiftr A 16)].
Definition int4store (A : Z) : list Z := le_bytes 4 (i32 A).
Definition int5store (A : Z) : list Z :=
  [u8 A; u8 (Z.shiftr A 8); u8 (Z.shiftr A 16); u8 (Z.shiftr A 24); u8 (Z.shiftr A 32)].
Definition int6store (A : Z) : list Z :=
  [u8 A; u8 (Z.shiftr A 8); u8 (Z.shiftr A 16); u8 (Z.shiftr A 24); u8 (Z.shiftr A 32); u8 (Z.shiftr A 40)].
Definition int8store (A : Z) : list Z := le_bytes 8 (u64 A).

(** ** The generic macros *)

(** On a buffer of 8 bytes and for every argument, the macros of this processor are the
    generic ones. *)
Theorem byteorderx86_generic (A : list Z) (x : Z) :
  buffer 8 A ->
  (sint2korr A = ByteOrderGeneric.sint2korr A /\ sint3korr A = ByteOrderGeneric.sint3korr A /\
   sint4korr A = ByteOrderGeneric.sint4korr A /\ sint8korr A = ByteOrderGeneric.sint8korr A) /\
  (uint2korr A = ByteOrderGeneric.uint2korr A /\ uint3korr A = ByteOrderGeneric.uint3korr A /\
   uint4korr A = ByteOrderGeneric.uint4korr A /\ uint5korr A = ByteOrderGeneric.uint5korr A /\
   uint6korr A = ByteOrderGeneric.uint6korr A /\ uint8korr A = ByteOrderGeneric.uint8korr A) /\
  (int2store x = ByteOrderGeneric.int2store x /\ int3store x = ByteOrderGeneric.int3store x /\
   int4store x = ByteOrderGeneric.int4store x /\ int5store x = ByteOrderGeneric.int5store x /\
   int6store x = ByteOrderGeneric.int6store x /\ int8store x = ByteOrderGeneric.int8store x).
Proof.
  intros H8. assert (forall n, (n <= 8)%nat -> buffer n A) as H.
  { intros n Hn. destruct H8. split; [done|lia]. }
  split; [|split].
  - rewrite sint2korr_word, sint4korr_word, sint8korr_word by (apply H; lia). done.
  - rewrite uint2korr_word, uint4korr_word, uint8korr_word by (apply H; lia).
    split_and!; [apply (deref_small 2)|done|apply (deref_small 4)|done|done|apply (deref_small 8)];
      apply H; lia.
  - rewrite int2store_word, int4store_word, int8store_word. split_and!; try done.
    + apply (le_bytes_mod 2).
    + unfold int3store, ByteOrderGeneric.int3store. by rewrite u8_shiftr_u32 by lia.
    + apply le_bytes_i32.
    + apply (le_bytes_mod 8).
Qed.

Lemma byteorderx86_generic_witness :
  uint3korr [112; 17; 1; 0; 0; 0; 0; 255] = ByteOrderGeneric.uint3korr [112; 17; 1; 0; 0; 0; 0; 255].
Proof.
  apply (byteorderx86_generic [112; 17; 1; 0; 0; 0; 0; 255] 70000).
  split; [repeat constructor; discriminate|simpl; lia].
Defined.
