(* ===== verification/BigEndian.v ===== *)
(** * Machine format on a big-endian host

    [mysql/big_endian.h]: floats to and from the low-byte-first format, short and long
    integers to and from the host's own format.  A [float] or [double] is the list of the
    bytes of its representation in memory, an [int32] variable filled byte by byte is the
    big-endian word of its bytes. *)
From Stdlib Require Import ZArith Lia.
From stdpp Require Import base tactics numbers list.
From S2P Require Import Prelude.
From S2P Require Import Words.
From S2P Require Import ByteOrderGeneric.

Local Open Scope Z_scope.

(** ** Floats *)

Definition float4store (A : list Z) : list Z := [byte A 3; byte A 2; byte A 1; byte A 0].
Definition float4get (M : list Z) : list Z := [byte M 3; byte M 2; byte M 1; byte M 0].
Definition float8store (V : list Z) : list Z :=
  [byte V 7; byte V 6; byte V 5; byte V 4; byte V 3; byte V 2; byte V 1; byte V 0].
Definition float8get (M : list Z) : list Z :=
  [byte M 7; byte M 6; byte M 5; byte M 4; byte M 3; byte M 2; byte M 1; byte M 0].
Definition floatget (M : list Z) : list Z := take 4 M.
Definition floatstore (V : list Z) : list Z := take 4 V.
Definition doubleget (M : list Z) : list Z := take 8 M.
Definition doublestore (V : list Z) : list Z := take 8 V.
Definition longlongget (M : list Z) : list Z := take 8 M.
Definition longlongstore (V : list Z) : list Z := take 8 V.

(** ** Integers *)

Definition ushortget (M : list Z) : Z := u16 (u16 (byte M 1) + Z.shiftl (u16 (u16 (byte M 0))) 8).
Definition shortget (M : list Z) : Z := i16 (i16 (byte M 1) + Z.shiftl (i16 (i16 (byte M 0))) 8).

(** The value of a 32-bit variable with these bytes, on this host. *)
Definition be_word (bytes : list Z) : Z := le_word (rev bytes).
Definition longget (M : list Z) : Z := i32 (be_word [byte M 0; byte M 1; byte M 2; byte M 3]).
Definition ulongget (M : list Z) : Z := u32 (be_word [byte M 0; byte M 1; byte M 2; byte M 3]).

Definition shortstore (A : Z) : list Z :=
  let def_temp := u32 A in [u8 (Z.shiftr def_temp 8); u8 def_temp].
Definition longstore (A : Z) : list Z :=
  [u8 (Z.shiftr A 24); u8 (Z.shiftr A 16); u8 (Z.shiftr A 8); u8 A].

(** ** What is stored is read back *)

Lemma u8_idem x : u8 (u8 x) = u8 x.
Proof. by apply Z.mod_mod. Qed.
Lemma u8_small x : is_byte x -> u8 x = x.
Proof. apply Z.mod_small. Qed.

Lemma shortstore_word x : shortstore x = rev (le_bytes 2 x).
Proof. unfold shortstore. cbv zeta. rewrite u8_shiftr_u32 by lia. pose proof (le_bytes_u32 x) as H.
  cbn [le_bytes] in *. injection H as H _ _ _. cbn [rev app]. by rewrite H. Qed.
Lemma longstore_word x : longstore x = rev (le_bytes 4 x).
Proof. unfold longstore. cbn [le_bytes rev app]. by rewrite !Z.shiftr_shiftr by lia. Qed.

(** The readers, as the generic ones on the bytes reversed. *)
Lemma ushortget_rev a b : is_byte a -> is_byte b -> ushortget [a; b] = uint2korr [b; a].
Proof.
  intros Ha Hb. unfold ushortget, uint2korr, byte. cbn [nth]. f_equal. f_equal.
  unfold u16. by rewrite Z.mod_mod.
Qed.
Lemma shortget_rev a b : shortget [a; b] = sint2korr [b; a].
Proof. done. Qed.
Lemma longget_rev a b c d :
  is_byte a -> is_byte b -> is_byte c -> is_byte d -> longget [a; b; c; d] = sint4korr [d; c; b; a].
Proof.
  intros Ha Hb Hc Hd. rewrite sint4korr_word by (split; [by rewrite !Forall_cons|simpl; lia]).
  unfold longget, be_word, byte. cbn [nth rev app take]. by rewrite !u8_small.
Qed.
Lemma ulongget_rev a b c d :
  is_byte a -> is_byte b -> is_byte c -> is_byte d -> ulongget [a; b; c; d] = uint4korr [d; c; b; a].
Proof.
  intros Ha Hb Hc Hd. assert (buffer 4 [d; c; b; a]) as Hbuf by (split; [by rewrite !Forall_cons|simpl; lia]).
  rewrite uint4korr_word by done. unfold ulongget, be_word, byte. cbn [nth rev app].
  rewrite !u8_small by done. apply (deref_small 4 _ Hbuf).
Qed.

(** On a big-endian host what [shortstore] and [longstore] write, most significant byte
    first, is read back by the signed and the unsigned readers, and a float or double stored
    in the low-byte-first format is read back with the same representation. *)
Theorem big_endian_roundtrip (x : Z) (f d : list Z) :
  Forall is_byte f -> length f = 4%nat -> Forall is_byte d -> length d = 8%nat ->
  shortget (shortstore x) = i16 x /\ ushortget (shortstore x) = u16 x /\
  longget (longstore x) = i32 x /\ ulongget (longstore x) = u32 x /\
  float4get (float4store f) = f /\ float8get (float8store d) = d.
Proof.
  intros Hf Lf Hd Ld.
  rewrite shortstore_word, longstore_word. cbn [le_bytes rev app].
  rewrite shortget_rev, ushortget_rev, longget_rev, ulongget_rev by apply u8_byte.
  assert (forall n, buffer n (le_bytes n x)) as Hb by (intros; apply le_bytes_buffer).
  pose proof (sint2korr_word _ (Hb 2%nat)) as H2. pose proof (uint2korr_word _ (Hb 2%nat)) as U2.
  pose proof (sint4korr_word _ (Hb 4%nat)) as H4. pose proof (uint4korr_word _ (Hb 4%nat)) as U4.
  rewrite word_of_store in H2, U2, H4, U4. cbn [le_bytes] in H2, U2, H4, U4. rewrite H2, U2, H4, U4.
  split_and!; [apply i16_eqm, Z.mod_mod; done|done|apply i32_eqm, Z.mod_mod; done|done|..].
  - do 5 (destruct f as [|? f]; try done). rewrite !Forall_cons in Hf. destruct_and! Hf.
    unfold float4get, float4store, byte. cbn [nth]. by rewrite !u8_small by auto using u8_byte.
  - do 9 (destruct d as [|? d]; try done). rewrite !Forall_cons in Hd. destruct_and! Hd.
    unfold float8get, float8store, byte. cbn [nth]. by rewrite !u8_small by auto using u8_byte.
Qed.

Lemma big_endian_roundtrip_witness :
  shortget (shortstore (-2)) = i16 (-2) /\ float4get (float4store [63; 128; 0; 1]) = [63; 128; 0; 1].
Proof.
  split.
  - apply (big_endian_roundtrip (-2) [63; 128; 0; 1] [0; 0; 0; 0; 0; 0; 0; 0]);
      [repeat constructor; discriminate|done|repeat constructor; discriminate|done].
  - apply (big_endian_roundtrip 0 [63; 128; 0; 1] [0; 0; 0; 0; 0; 0; 0; 0]);
      [repeat constructor; discriminate|done|repeat constructor; discriminate|done].
Defined.
