(* ===== verification/LittleEndian.v ===== *)
(** * Machine format on a little-endian host

    [mysql/little_endian.h] without [MY_BYTE_ORDER_ARCH_OPTIMIZED], with the generic
    integer macros, and [int4net] of [mysql/my_byteorder.h].  The stored form of an integer,
    float or double does not depend on the host. *)
From Stdlib Require Import ZArith Lia.
From stdpp Require Import base tactics numbers list.
From S2P Require Import Prelude.
From S2P Require Import Words.
From S2P Require Import ByteOrderGeneric.
From S2P Require Import BigEndian.

Local Open Scope Z_scope.

Section little.
(** Whether the hardware keeps the two words of a double the other way round
    ([__FLOAT_WORD_ORDER == __BIG_ENDIAN]). *)
Context (bi_endian : bool).

Definition float4get (M : list Z) : list Z := take 4 M.
Definition float4store (V : list Z) : list Z := take 4 V.

Definition doublestore (V : list Z) : list Z :=
  if bi_endian
  then [byte V 4; byte V 5; byte V 6; byte V 7; byte V 0; byte V 1; byte V 2; byte V 3]
  else take 8 V.
Definition doubleget (M : list Z) : list Z :=
  if bi_endian
  then [byte M 4; byte M 5; byte M 6; byte M 7; byte M 0; byte M 1; byte M 2; byte M 3]
  else take 8 M.
Definition float8get (M : list Z) : list Z := doubleget M.
Definition float8store (V : list Z) : list Z := doublestore V.
End little.

Definition ushortget (M : list Z) : Z := uint2korr M.
Definition shortget (M : list Z) : Z := sint2korr M.
Definition longget (M : list Z) : Z := sint4korr M.
Definition ulongget (M : list Z) : Z := uint4korr M.
Definition shortstore (V : Z) : list Z := int2store V.
Definition longstore (V : Z) : list Z := int4store V.

Definition floatstore (V : list Z) : list Z := take 4 V.
Definition floatget (M : list Z) : list Z := take 4 M.
Definition longlongget (M : list Z) : list Z := take 8 M.
Definition longlongstore (V : list Z) : list Z := take 8 V.

(** Reading a 32-bit integer from network byte order. *)
Definition int4net (A : list Z) : Z :=
  i32 (Z.lor (Z.lor (Z.lor (u32 (byte A 3)) (u32 (Z.shiftl (u32 (byte A 2)) 8)))
                (u32 (Z.shiftl (u32 (byte A 1)) 16))) (u32 (Z.shiftl (u32 (byte A 0)) 24))).

(** ** Independence of the host *)

Lemma shiftl_byte b k : is_byte b -> 0 <= k <= 24 -> u32 (Z.shiftl (u32 b) k) = Z.shiftl b k.
Proof.
  intros Hb Hk. unfold is_byte, u32 in *. rewrite (Z.mod_small b) by lia. rewrite Z.shiftl_mul_pow2 by lia.
  apply Z.mod_small. pose proof (Z.pow_le_mono_r 2 k 24). nia.
Qed.

Lemma int4net_word a b c d :
  is_byte a -> is_byte b -> is_byte c -> is_byte d -> int4net [a; b; c; d] = i32 (le_word [d; c; b; a]).
Proof.
  intros Ha Hb Hc Hd. unfold int4net, byte. cbn [nth]. rewrite !u8_small, !shiftl_byte by (done || lia).
  unfold u32. rewrite (Z.mod_small d) by (unfold is_byte in *; lia). f_equal. cbn [le_word].
  rewrite !Z.shiftl_lor, !Z.shiftl_shiftl, Z.shiftl_0_l, Z.lor_0_r by lia. by rewrite <- !Z.lor_assoc.
Qed.

(** The representation in memory of a number with these bits: on a big-endian host, on a
    little-endian one, and on one with swapped words. *)
Definition native (big swapped : bool) (n : nat) (bits : Z) : list Z :=
  if big then rev (le_bytes n bits)
  else if swapped then drop 4 (le_bytes n bits) ++ take 4 (le_bytes n bits) else le_bytes n bits.

(** The stored form of a float and of a double is the little-endian form of its bits on
    every host, so that one host reads what another wrote; and a 32-bit integer in network
    order is read back whatever the host. *)
Theorem stored_form_portable (bits : Z) (swapped : bool) :
  BigEndian.float4store (native true false 4 bits) = le_bytes 4 bits /\
  float4store (native false false 4 bits) = le_bytes 4 bits /\
  BigEndian.float8store (native true false 8 bits) = le_bytes 8 bits /\
  float8store swapped (native false swapped 8 bits) = le_bytes 8 bits /\
  BigEndian.float8get (le_bytes 8 bits) = native true false 8 bits /\
  float8get swapped (le_bytes 8 bits) = native false swapped 8 bits /\
  int4net (BigEndian.longstore bits) = i32 bits.
Proof.
  split_and!.
  1-6: unfold BigEndian.float4store, BigEndian.float8store, BigEndian.float8get, float4store, float8store,
    float8get, doublestore, doubleget, native; try destruct swapped;
    cbn [le_bytes rev app take drop]; unfold byte; cbn [nth]; by rewrite ?u8_idem.
  rewrite longstore_word. cbn [le_bytes rev app]. rewrite int4net_word by apply u8_byte.
  change (i32 (le_word (le_bytes 4 bits)) = i32 bits). rewrite le_word_bytes. apply i32_eqm, Z.mod_mod. done.
Qed.

(** A host's own format reads back what it wrote, as on the big-endian host. *)
Lemma little_endian_roundtrip (x : Z) :
  shortget (shortstore x) = i16 x /\ ushortget (shortstore x) = u16 x /\
  longget (longstore x) = i32 x /\ ulongget (longstore x) = u32 x.
Proof.
  unfold shortget, ushortget, longget, ulongget, shortstore, longstore.
  rewrite int2store_word, int4store_word.
  rewrite sint2korr_word, uint2korr_word, sint4korr_word, uint4korr_word by apply le_bytes_buffer.
  rewrite !word_of_store. split_and!; [apply i16_eqm, Z.mod_mod; done|done|apply i32_eqm, Z.mod_mod; done|done].
Qed.
