(* ===== verification/Adapters.v ===== *)
(** * hiredis's event-loop adapters

    The headers of [hiredis/adapters]: each connects the five hooks of [async.h] to an event
    library.  A library is a parameter: a state [W], its functions, and as a class what its
    documentation says about which directions of the descriptor it watches.  A hook is a
    function on the adapter's private structure and the state of the library. *)
From Stdlib Require Import ZArith Lia.
From stdpp Require Import base tactics numbers list.
From S2P Require Import Prelude.
From S2P Require Import Effects.

Local Open Scope Z_scope.

(** ** Reading and writing *)

Inductive direction := Read | Write.
#[export] Instance direction_eq : EqDecision direction.
Proof. solve_decision. Defined.

Definition set_at (d : direction) (b : bool) (f : direction -> bool) (d' : direction) : bool :=
  if decide (d = d') then b else f d'.

(** What the libraries say of which directions they watch.  [fired] is the delivery of an
    event: the library calls the adapter's function for it.  A call that reports an error has
    no law but that it is counted: [failures] is the number of calls that have failed so
    far. *)
Definition failed_call (rc : Z) : nat := if rc =? 0 then 0 else 1.

(** Libraries whose switches report nothing, and which watch a direction until they are told
    to stop: libev's [ev_io_start] and [ev_io_stop], ivykis's handlers, set or not, and
    Qt's notifiers, created and deleted. *)
Class Switches (W : Type) := {
  watched : W -> direction -> bool;
  start : direction -> W -> W;
  stop : direction -> W -> W;
  (** Gives the descriptor up altogether ([iv_fd_unregister]). *)
  release : W -> W;
  fired : direction -> W -> W;
  start_law : forall d w d', watched (start d w) d' = set_at d true (watched w) d';
  stop_law : forall d w d', watched (stop d w) d' = set_at d false (watched w) d';
  release_law : forall w d, watched (release w) d = false;
  fired_law : forall d w d', watched (fired d w) d' = watched w d';
}.

(** Redis's [ae]: [aeCreateFileEvent] answers [AE_OK] or [AE_ERR]; [aeDeleteFileEvent]
    answers nothing.  A file event stays until it is deleted. *)
Definition AE_OK : Z := 0.
Definition AE_ERR : Z := -1.
Class FileEvents (W : Type) := {
  ae_watched : W -> direction -> bool;
  ae_failures : W -> nat;
  aeCreateFileEvent : direction -> W -> Z * W;
  aeDeleteFileEvent : direction -> W -> W;
  ae_fired : direction -> W -> W;
  ae_create_count : forall d w, ae_failures (aeCreateFileEvent d w).2 =
    (ae_failures w + failed_call (aeCreateFileEvent d w).1)%nat;
  ae_create_law : forall d w d', (aeCreateFileEvent d w).1 = AE_OK ->
    ae_watched (aeCreateFileEvent d w).2 d' = set_at d true (ae_watched w) d';
  ae_delete_count : forall d w, ae_failures (aeDeleteFileEvent d w) = ae_failures w;
  ae_delete_law : forall d w d', ae_watched (aeDeleteFileEvent d w) d' = set_at d false (ae_watched w) d';
  ae_fired_count : forall d w, ae_failures (ae_fired d w) = ae_failures w;
  ae_fired_law : forall d w d', ae_watched (ae_fired d w) d' = ae_watched w d';
}.

(** libevent's [struct event], by the flags given to [event_new].  [event_add] and
    [event_del] answer 0 or -1.  An event without [EV_PERSIST] is no longer pending once
    it has become active. *)
Definition EV_READ : Z := 2.
Definition EV_WRITE : Z := 4.
Definition EV_PERSIST : Z := 16.
Definition event_direction (e : Z) : direction := if Z.land e EV_READ =? 0 then Write else Read.
Class Events (W : Type) := {
  pending : W -> direction -> bool;
  event_failures : W -> nat;
  event_add : Z -> W -> Z * W;
  event_del : Z -> W -> Z * W;
  event_free : Z -> W -> W;
  event_active : Z -> W -> W;
  event_add_count : forall e w, event_failures (event_add e w).2 =
    (event_failures w + failed_call (event_add e w).1)%nat;
  event_add_law : forall e w d, (event_add e w).1 = 0 ->
    pending (event_add e w).2 d = set_at (event_direction e) true (pending w) d;
  event_del_count : forall e w, event_failures (event_del e w).2 =
    (event_failures w + failed_call (event_del e w).1)%nat;
  event_del_law : forall e w d, (event_del e w).1 = 0 ->
    pending (event_del e w).2 d = set_at (event_direction e) false (pending w) d;
  event_free_law : forall e w d, pending (event_free e w) d = set_at (event_direction e) false (pending w) d;
  event_active_count : forall e w, event_failures (event_active e w) = event_failures w;
  event_active_law : forall e w d, pending (event_active e w) d =
    if Z.land e EV_PERSIST =? 0 then set_at (event_direction e) false (pending w) d else pending w d;
}.

(** Core Foundation's [CFSocket].  Its read callback is enabled again by itself after a call,
    its write callback is not (the default flags of a socket). *)
Class SocketCallBacks (W : Type) := {
  enabled : W -> direction -> bool;
  CFSocketEnableCallBacks : direction -> W -> W;
  CFSocketDisableCallBacks : direction -> W -> W;
  (** [CFSocketCreateWithNative] with both callbacks, when it succeeds. *)
  CFSocketCreated : W -> W;
  CFSocketInvalidate : W -> W;
  called_back : direction -> W -> W;
  enable_law : forall d w d', enabled (CFSocketEnableCallBacks d w) d' = set_at d true (enabled w) d';
  disable_law : forall d w d', enabled (CFSocketDisableCallBacks d w) d' = set_at d false (enabled w) d';
  created_law : forall w d, enabled (CFSocketCreated w) d = true;
  invalidate_law : forall w d, enabled (CFSocketInvalidate w) d = false;
  called_back_law : forall d w d', enabled (called_back d w) d' =
    match d with Read => enabled w d' | Write => set_at Write false (enabled w) d' end;
}.

(** ** The context *)

Definition REDIS_ERR : Z := -1.
Definition REDIS_OK : Z := 0.

(** An address. *)
Abbreviation obj := positive.

Inductive adapter_name := Ae | Libev | Libevent | Ivykis | Libuv | Glib | MacOSX | Qt.

(** What the adapters use of [redisAsyncContext]: the descriptor, [ev.data], and the adapter
    whose functions the five hooks are (each attach sets all five). *)
Record redisAsyncContext := AsyncContext {
  c_fd : Z;
  ev_data : option obj;
  ev_hooks : option adapter_name;
}.
Definition set_hooks (ac : redisAsyncContext) (n : adapter_name) : redisAsyncContext :=
  AsyncContext (c_fd ac) (ev_data ac) (Some n).
Definition set_data (ac : redisAsyncContext) (e : obj) : redisAsyncContext :=
  AsyncContext (c_fd ac) (Some e) (ev_hooks ac).

(** ** [adapters/ae.h] *)
Section ae.
Context {W : Type} `{FileEvents W}.

Record redisAeEvents := AeEvents { ae_context : obj; ae_fd : Z; ae_reading : bool; ae_writing : bool }.

(** The result of [aeCreateFileEvent] is not looked at. *)
Definition redisAeAddRead (e : redisAeEvents) (w : W) : redisAeEvents * W :=
  if negb (ae_reading e)
  then (AeEvents (ae_context e) (ae_fd e) true (ae_writing e), (aeCreateFileEvent Read w).2)
  else (e, w).
Definition redisAeDelRead (e : redisAeEvents) (w : W) : redisAeEvents * W :=
  if ae_reading e
  then (AeEvents (ae_context e) (ae_fd e) false (ae_writing e), aeDeleteFileEvent Read w)
  else (e, w).
Definition redisAeAddWrite (e : redisAeEvents) (w : W) : redisAeEvents * W :=
  if negb (ae_writing e)
  then (AeEvents (ae_context e) (ae_fd e) (ae_reading e) true, (aeCreateFileEvent Write w).2)
  else (e, w).
Definition redisAeDelWrite (e : redisAeEvents) (w : W) : redisAeEvents * W :=
  if ae_writing e
  then (AeEvents (ae_context e) (ae_fd e) (ae_reading e) false, aeDeleteFileEvent Write w)
  else (e, w).

(** The structure is freed; the library remains. *)
Definition redisAeCleanup (e : redisAeEvents) (w : W) : W :=
  let '(e, w) := redisAeDelRead e w in
  let '(e, w) := redisAeDelWrite e w in
  w.

(** [malloc]'s result is used without a test: [e] is its address. *)
Definition redisAeAttach (self : obj) (ac : redisAsyncContext) (e : obj)
    : Z * redisAsyncContext * option redisAeEvents :=
  match ev_data ac with
  | Some _ => (REDIS_ERR, ac, None)
  | None => (REDIS_OK, set_data (set_hooks ac Ae) e, Some (AeEvents self (c_fd ac) false false))
  end.
End ae.

(** ** [adapters/libev.h] *)
Section libev.
Context {W : Type} `{Switches W}.

(** The watchers [rev] and [wev] are the library's. *)
Record redisLibevEvents := LibevEvents { ev_context : obj; ev_reading : bool; ev_writing : bool }.

Definition redisLibevAddRead (e : redisLibevEvents) (w : W) : redisLibevEvents * W :=
  if negb (ev_reading e) then (LibevEvents (ev_context e) true (ev_writing e), start Read w) else (e, w).
Definition redisLibevDelRead (e : redisLibevEvents) (w : W) : redisLibevEvents * W :=
  if ev_reading e then (LibevEvents (ev_context e) false (ev_writing e), stop Read w) else (e, w).
Definition redisLibevAddWrite (e : redisLibevEvents) (w : W) : redisLibevEvents * W :=
  if negb (ev_writing e) then (LibevEvents (ev_context e) (ev_reading e) true, start Write w) else (e, w).
Definition redisLibevDelWrite (e : redisLibevEvents) (w : W) : redisLibevEvents * W :=
  if ev_writing e then (LibevEvents (ev_context e) (ev_reading e) false, stop Write w) else (e, w).
Definition redisLibevCleanup (e : redisLibevEvents) (w : W) : W :=
  let '(e, w) := redisLibevDelRead e w in
  let '(e, w) := redisLibevDelWrite e w in
  w.
Definition redisLibevAttach (self : obj) (ac : redisAsyncContext) (e : obj)
    : Z * redisAsyncContext * option redisLibevEvents :=
  match ev_data ac with
  | Some _ => (REDIS_ERR, ac, None)
  | None => (REDIS_OK, set_data (set_hooks ac Libev) e, Some (LibevEvents self false false))
  end.
End libev.

(** ** [adapters/libevent.h] *)
Section libevent.
Context {W : Type} `{Events W}.

Record redisLibeventEvents := LibeventEvents { le_context : obj; rev : Z; wev : Z }.

(** The results of [event_add] and [event_del] are not looked at. *)
Definition redisLibeventAddRead (e : redisLibeventEvents) (w : W) : redisLibeventEvents * W :=
  (e, (event_add (rev e) w).2).
Definition redisLibeventDelRead (e : redisLibeventEvents) (w : W) : redisLibeventEvents * W :=
  (e, (event_del (rev e) w).2).
Definition redisLibeventAddWrite (e : redisLibeventEvents) (w : W) : redisLibeventEvents * W :=
  (e, (event_add (wev e) w).2).
Definition redisLibeventDelWrite (e : redisLibeventEvents) (w : W) : redisLibeventEvents * W :=
  (e, (event_del (wev e) w).2).
Definition redisLibeventCleanup (e : redisLibeventEvents) (w : W) : W :=
  event_free (wev e) (event_free (rev e) w).

(** [malloc]'s and [event_new]'s results are used without a test: [e] is the address. *)
Definition redisLibeventAttach (self : obj) (ac : redisAsyncContext) (e : obj) (w : W)
    : Z * redisAsyncContext * option redisLibeventEvents * W :=
  match ev_data ac with
  | Some _ => (REDIS_ERR, ac, None, w)
  | None =>
      let ev := LibeventEvents self EV_READ EV_WRITE in
      (REDIS_OK, set_data (set_hooks ac Libevent) e, Some ev,
       (event_add (wev ev) (event_add (rev ev) w).2).2)
  end.
End libevent.

(** ** [adapters/ivykis.h] *)
Section ivykis.
Context {W : Type} `{Switches W}.

(** A handler set is a direction watched; the [iv_fd] is registered with both set. *)
Record redisIvykisEvents := IvykisEvents { iv_context : obj; iv_fd : Z }.

Definition redisIvykisAddRead (e : redisIvykisEvents) (w : W) : redisIvykisEvents * W := (e, start Read w).
Definition redisIvykisDelRead (e : redisIvykisEvents) (w : W) : redisIvykisEvents * W := (e, stop Read w).
Definition redisIvykisAddWrite (e : redisIvykisEvents) (w : W) : redisIvykisEvents * W := (e, start Write w).
Definition redisIvykisDelWrite (e : redisIvykisEvents) (w : W) : redisIvykisEvents * W := (e, stop Write w).
Definition redisIvykisCleanup (e : redisIvykisEvents) (w : W) : W := release w.
Definition redisIvykisAttach (self : obj) (ac : redisAsyncContext) (e : obj) (w : W)
    : Z * redisAsyncContext * option redisIvykisEvents * W :=
  match ev_data ac with
  | Some _ => (REDIS_ERR, ac, None, w)
  | None =>
      (REDIS_OK, set_data (set_hooks ac Ivykis) e, Some (IvykisEvents self (c_fd ac)), start Write (start Read w))
  end.
End ivykis.

(** ** The calls back into hiredis *)

(** A handler may end the connection; its answer says whether the adapter's [cleanup] hook
    has run, after which the context is gone. *)
Inductive hiredis_call :=
| redisAsyncHandleRead (context : obj)
| redisAsyncHandleWrite (context : obj).
Definition hiredis : signature := Signature hiredis_call (fun _ => bool).

(** The event functions of [ae.h], [libev.h], [libevent.h] and [ivykis.h], and Qt's slots. *)
Definition on_read_event (context : obj) : tree hiredis bool :=
  perform (E := hiredis) (redisAsyncHandleRead context).
Definition on_write_event (context : obj) : tree hiredis bool :=
  perform (E := hiredis) (redisAsyncHandleWrite context).

(** ** [adapters/libuv.h] *)

(** libuv's [uv_poll_t]: started with the whole set of events, it watches them until it is
    started with another set or stopped.  Starting and stopping answer 0 or an error. *)
Definition UV_READABLE : Z := 1.
Definition UV_WRITABLE : Z := 2.
Class Poll (W : Type) := {
  uv_watched : W -> direction -> bool;
  uv_failures : W -> nat;
  uv_poll_init : W -> Z * W;
  uv_poll_start : Z -> W -> Z * W;
  uv_poll_stop : W -> Z * W;
  uv_close : W -> W;
  uv_fired : direction -> W -> W;
  poll_start_count : forall m w, uv_failures (uv_poll_start m w).2 =
    (uv_failures w + failed_call (uv_poll_start m w).1)%nat;
  poll_start_law : forall m w d, (uv_poll_start m w).1 = 0 ->
    uv_watched (uv_poll_start m w).2 d = Z.testbit m (match d with Read => 0 | Write => 1 end);
  poll_stop_count : forall w, uv_failures (uv_poll_stop w).2 =
    (uv_failures w + failed_call (uv_poll_stop w).1)%nat;
  poll_stop_law : forall w d, (uv_poll_stop w).1 = 0 -> uv_watched (uv_poll_stop w).2 d = false;
  poll_close_law : forall w d, uv_watched (uv_close w) d = false;
  poll_fired_count : forall d w, uv_failures (uv_fired d w) = uv_failures w;
  poll_fired_law : forall d w d', uv_watched (uv_fired d w) d' = uv_watched w d';
}.

Section libuv.
Context {W : Type} `{Poll W}.

Record redisLibuvEvents := LibuvEvents { uv_context : option obj; uv_events : Z }.

Definition redisLibuvPoll (p : redisLibuvEvents) (status events : Z) : tree hiredis redisLibuvEvents :=
  if negb (status =? 0) then Done p
  else
    (* the handler's cleanup sets [p->context] to NULL *)
    let gone (b : bool) := if b then LibuvEvents None (uv_events p) else p in
    let write (p : redisLibuvEvents) : tree hiredis redisLibuvEvents :=
      match uv_context p with
      | Some c =>
          if negb (Z.land events UV_WRITABLE =? 0)
          then Call (E := hiredis) (redisAsyncHandleWrite c) (fun b => Done (gone b))
          else Done p
      | None => Done p
      end in
    match uv_context p with
    | Some c =>
        if negb (Z.land events UV_READABLE =? 0)
        then Call (E := hiredis) (redisAsyncHandleRead c) (fun b => write (gone b))
        else write p
    | None => write p
    end.

Definition redisLibuvAddRead (p : redisLibuvEvents) (w : W) : redisLibuvEvents * W :=
  let events := Z.lor (uv_events p) UV_READABLE in
  (LibuvEvents (uv_context p) events, (uv_poll_start events w).2).
Definition redisLibuvDelRead (p : redisLibuvEvents) (w : W) : redisLibuvEvents * W :=
  let events := Z.ldiff (uv_events p) UV_READABLE in
  (LibuvEvents (uv_context p) events,
   if negb (events =? 0) then (uv_poll_start events w).2 else (uv_poll_stop w).2).
Definition redisLibuvAddWrite (p : redisLibuvEvents) (w : W) : redisLibuvEvents * W :=
  let events := Z.lor (uv_events p) UV_WRITABLE in
  (LibuvEvents (uv_context p) events, (uv_poll_start events w).2).
Definition redisLibuvDelWrite (p : redisLibuvEvents) (w : W) : redisLibuvEvents * W :=
  let events := Z.ldiff (uv_events p) UV_WRITABLE in
  (LibuvEvents (uv_context p) events,
   if negb (events =? 0) then (uv_poll_start events w).2 else (uv_poll_stop w).2).

(** The structure is freed by [on_close], when the library has closed the handle. *)
Definition redisLibuvCleanup (p : redisLibuvEvents) (w : W) : redisLibuvEvents * W :=
  (LibuvEvents None (uv_events p), uv_close w).
Definition on_close (heap : list obj) (p : obj) : list obj := filter (fun a => a <> p) heap.

(** [heap] is the list of the structures allocated; [p] is [malloc]'s result. *)
Definition redisLibuvAttach (self : obj) (ac : redisAsyncContext) (p : option obj) (heap : list obj) (w : W)
    : Z * redisAsyncContext * option redisLibuvEvents * list obj * W :=
  match ev_data ac with
  | Some _ => (REDIS_ERR, ac, None, heap, w)
  | None =>
      let ac := set_hooks ac Libuv in
      match p with
      | None => (REDIS_ERR, ac, None, heap, w)
      | Some p =>
          let heap := p :: heap in
          let '(rc, w) := uv_poll_init w in
          if negb (rc =? 0) then (REDIS_ERR, ac, None, heap, w)
          else (REDIS_OK, set_data ac p, Some (LibuvEvents (Some self) 0), heap, w)
      end
  end.
End libuv.

(** ** [adapters/glib.h] *)

Definition G_IO_IN : Z := 1.
Definition G_IO_OUT : Z := 4.

(** GLib's main context polls the descriptors added to a source with the events their
    [GPollFD] has at the time. *)
Class MainContext (W : Type) := {
  polled : W -> bool;
  add_poll : W -> W;
  remove_poll : W -> W;
  wakeup : W -> W;
  dispatched : direction -> W -> W;
  add_poll_law : forall w, polled (add_poll w) = true;
  remove_poll_law : forall w, polled (remove_poll w) = false;
  wakeup_law : forall w, polled (wakeup w) = polled w;
  dispatched_law : forall d w, polled (dispatched d w) = polled w;
}.

Section glib.
Context {W : Type} `{MainContext W}.

Record RedisSource := Source { gl_ac : obj; gl_fd : Z; gl_events : Z; gl_revents : Z }.
Definition with_events (s : RedisSource) (e : Z) : RedisSource := Source (gl_ac s) (gl_fd s) e (gl_revents s).
Definition with_revents (s : RedisSource) (r : Z) : RedisSource := Source (gl_ac s) (gl_fd s) (gl_events s) r.

Definition redis_source_add_read (s : RedisSource) (w : W) : RedisSource * W :=
  (with_events s (Z.lor (gl_events s) G_IO_IN), wakeup w).
Definition redis_source_del_read (s : RedisSource) (w : W) : RedisSource * W :=
  (with_events s (Z.ldiff (gl_events s) G_IO_IN), wakeup w).
Definition redis_source_add_write (s : RedisSource) (w : W) : RedisSource * W :=
  (with_events s (Z.lor (gl_events s) G_IO_OUT), wakeup w).
Definition redis_source_del_write (s : RedisSource) (w : W) : RedisSource * W :=
  (with_events s (Z.ldiff (gl_events s) G_IO_OUT), wakeup w).

Definition redis_source_finalize (s : RedisSource) (w : W) : RedisSource * W :=
  if 0 <=? gl_fd s then (Source (gl_ac s) (-1) (gl_events s) (gl_revents s), remove_poll w) else (s, w).
Definition redis_source_cleanup (s : RedisSource) (w : W) : RedisSource * W :=
  let '(s, w) := redis_source_del_read s w in
  let '(s, w) := redis_source_del_write s w in
  if 0 <=? gl_fd s then (Source (gl_ac s) (-1) (gl_events s) (gl_revents s), remove_poll w) else (s, w).

(** The result and the timeout. *)
Definition redis_source_prepare (s : RedisSource) : bool * Z :=
  (negb (Z.land (gl_events s) (gl_revents s) =? 0), -1).
Definition redis_source_check (s : RedisSource) : bool :=
  negb (Z.land (gl_events s) (gl_revents s) =? 0).

(** [callback] is the result of the user's callback, if there is one. *)
Definition redis_source_dispatch (s : RedisSource) (callback : option bool) : tree hiredis (RedisSource * bool) :=
  let result := match callback with Some b => b | None => true end in
  let read (s : RedisSource) : tree hiredis (RedisSource * bool) :=
    if negb (Z.land (gl_revents s) G_IO_IN =? 0)
    then Call (E := hiredis) (redisAsyncHandleRead (gl_ac s))
           (fun _ => Done (with_revents s (Z.ldiff (gl_revents s) G_IO_IN), result))
    else Done (s, result) in
  if negb (Z.land (gl_revents s) G_IO_OUT =? 0)
  then Call (E := hiredis) (redisAsyncHandleWrite (gl_ac s))
         (fun _ => read (with_revents s (Z.ldiff (gl_revents s) G_IO_OUT)))
  else read s.

(** Attaching; [source] is the address of the new source. *)
Definition redis_source_new (self : obj) (ac : redisAsyncContext) (source : obj) (w : W)
    : redisAsyncContext * RedisSource * W :=
  (set_data (set_hooks ac Glib) source, Source self (c_fd ac) 0 0, add_poll w).
End glib.

(** ** [adapters/macosx.h] *)
Section macosx.
Context {W : Type} `{SocketCallBacks W}.

Record RedisRunLoop := RunLoop { mac_context : obj; socketRef : option obj; sourceRef : option obj }.

(** The Core Foundation objects invalidated and released, and the structure freed: the
    state of the library, what was released, and the result. *)
Definition freeRedisRunLoop (l : option RedisRunLoop) (w : W) : W * list obj * Z :=
  match l with
  | None => (w, [], REDIS_ERR)
  | Some l =>
      let released := (from_option (fun s => [s]) [] (sourceRef l) ++ from_option (fun s => [s]) [] (socketRef l))%list in
      (match socketRef l with Some _ => CFSocketInvalidate w | None => w end, released, REDIS_ERR)
  end.

(** [None]: the callbacks of a null socket. *)
Definition redisMacOSAddRead (l : RedisRunLoop) (w : W) : option (RedisRunLoop * W) :=
  _ ← socketRef l; Some (l, CFSocketEnableCallBacks Read w).
Definition redisMacOSDelRead (l : RedisRunLoop) (w : W) : option (RedisRunLoop * W) :=
  _ ← socketRef l; Some (l, CFSocketDisableCallBacks Read w).
Definition redisMacOSAddWrite (l : RedisRunLoop) (w : W) : option (RedisRunLoop * W) :=
  _ ← socketRef l; Some (l, CFSocketEnableCallBacks Write w).
Definition redisMacOSDelWrite (l : RedisRunLoop) (w : W) : option (RedisRunLoop * W) :=
  _ ← socketRef l; Some (l, CFSocketDisableCallBacks Write w).
Definition redisMacOSCleanup (l : RedisRunLoop) (w : W) : W := (freeRedisRunLoop (Some l) w).1.1.

(** The types of callback that are handled; [None] is any other. *)
Definition redisMacOSAsyncCallback (callbackType : option direction) (context : obj) : tree hiredis unit :=
  match callbackType with
  | Some Read => Call (E := hiredis) (redisAsyncHandleRead context) (fun _ => Done tt)
  | Some Write => Call (E := hiredis) (redisAsyncHandleWrite context) (fun _ => Done tt)
  | None => Done tt
  end.

(** [l], [socket] and [source] are what [calloc], [CFSocketCreateWithNative] and
    [CFSocketCreateRunLoopSource] return; a socket is created with both callbacks. *)
Definition redisMacOSAttach (self : obj) (ac : redisAsyncContext) (l socket source : option obj) (w : W)
    : Z * redisAsyncContext * option RedisRunLoop * W :=
  match ev_data ac with
  | Some _ => (REDIS_ERR, ac, None, w)
  | None =>
      match l with
      | None => (REDIS_ERR, ac, None, w)
      | Some p =>
          let ac := set_data (set_hooks ac MacOSX) p in
          match socket with
          | None =>
              let '(w, _, rc) := freeRedisRunLoop (Some (RunLoop self None None)) w in (rc, ac, None, w)
          | Some s =>
              let w := CFSocketCreated w in
              match source with
              | None =>
                  let '(w, _, rc) := freeRedisRunLoop (Some (RunLoop self (Some s) None)) w in (rc, ac, None, w)
              | Some src => (REDIS_OK, ac, Some (RunLoop self (Some s) (Some src)), w)
              end
          end
      end
  end.
End macosx.

(** ** [adapters/qt.h] *)
Section qt.
Context {W : Type} `{Switches W}.

(** A notifier that exists watches its direction; deleting it ends that. *)
Record RedisQtAdapter := QtAdapter { m_ctx : option obj; m_read : option obj; m_write : option obj }.

Definition RedisQtAdapter_new : RedisQtAdapter := QtAdapter None None None.

(** [n] is the address of the notifier to be created.  [None]: [m_ctx->c.fd] of a null
    context, before [setContext]. *)
Definition RedisQtAddRead (n : obj) (a : RedisQtAdapter) (w : W) : option (RedisQtAdapter * W) :=
  match m_read a with
  | Some _ => Some (a, w)
  | None => _ ← m_ctx a; Some (QtAdapter (m_ctx a) (Some n) (m_write a), start Read w)
  end.
Definition RedisQtDelRead (a : RedisQtAdapter) (w : W) : RedisQtAdapter * W :=
  match m_read a with
  | None => (a, w)
  | Some _ => (QtAdapter (m_ctx a) None (m_write a), stop Read w)
  end.
Definition RedisQtAddWrite (n : obj) (a : RedisQtAdapter) (w : W) : option (RedisQtAdapter * W) :=
  match m_write a with
  | Some _ => Some (a, w)
  | None => _ ← m_ctx a; Some (QtAdapter (m_ctx a) (m_read a) (Some n), start Write w)
  end.
Definition RedisQtDelWrite (a : RedisQtAdapter) (w : W) : RedisQtAdapter * W :=
  match m_write a with
  | None => (a, w)
  | Some _ => (QtAdapter (m_ctx a) (m_read a) None, stop Write w)
  end.
Definition RedisQtCleanup (a : RedisQtAdapter) (w : W) : RedisQtAdapter * W :=
  let '(a, w) := RedisQtDelRead a w in RedisQtDelWrite a w.

(** [this] is the address of the adapter, [ac_at] that of the context. *)
Definition RedisQtAdapter_setContext (this ac_at : obj) (a : RedisQtAdapter) (ac : redisAsyncContext)
    : Z * redisAsyncContext * RedisQtAdapter :=
  match ev_data ac with
  | Some _ => (REDIS_ERR, ac, a)
  | None => (REDIS_OK, set_hooks (set_data ac this) Qt, QtAdapter (Some ac_at) (m_read a) (m_write a))
  end.

(** The destructor, on the context the adapter points to. *)
Definition RedisQtAdapter_destroy (a : RedisQtAdapter) (ac : redisAsyncContext) : redisAsyncContext :=
  match m_ctx a with
  | Some _ => AsyncContext (c_fd ac) None (ev_hooks ac)
  | None => ac
  end.
End qt.
