(* ===== verification/AdapterProps.v ===== *)
(** * The adapters keep the contract of the hooks

    [async.h] asks of an event library five hooks, "called when the library expects to start
    reading/writing" and "idempotent".  The class [Adapter] is that contract: what the event
    library watches afterwards is what the last hook asked for, as long as no call of the
    library failed and, where the library watches for one event only, none has come since.
    Each of the eight adapters is an instance.  Then attaching, cleaning up, and what a
    handler that ends the connection does to the dispatch of an event. *)
From Stdlib Require Import ZArith Lia.
From stdpp Require Import base tactics numbers list.
From S2P Require Import Prelude.
From S2P Require Import Effects.
From S2P Require Import Adapters.

Local Open Scope Z_scope.

(** ** The contract *)

Inductive hook := addRead | delRead | addWrite | delWrite.
Definition hook_direction (h : hook) : direction := match h with addRead | delRead => Read | _ => Write end.
Definition hook_adds (h : hook) : bool := match h with addRead | addWrite => true | _ => false end.

(** What happens to an adapter: hiredis runs a hook, the library delivers an event. *)
Inductive happening := Hook (h : hook) | Event (d : direction).

(** What is asked for after [x]: a hook sets its direction; an event ends the request for a
    direction that is watched for one event only. *)
Definition asked_after (once : direction -> bool) (x : happening) (f : direction -> bool) : direction -> bool :=
  match x with
  | Hook h => set_at (hook_direction h) (hook_adds h) f
  | Event d => if once d then set_at d false f else f
  end.

(** The structure [P] of an adapter over a library with state [W] that watches the directions
    of [once] for one event only.  [happen]: [None] is undefined behaviour.  [valid]: the
    structure can be used; [agrees]: it agrees with the library on what is watched, which
    a failed call may end. *)
Class Adapter (P W : Type) (once : direction -> bool) := {
  happen : happening -> P -> W -> option (P * W);
  interest : P -> W -> direction -> bool;
  failures : W -> nat;
  valid : P -> Prop;
  agrees : P -> W -> Prop;
  happen_law x p w : valid p -> exists p' w', happen x p w = Some (p', w') /\ valid p' /\
    (failures w <= failures w')%nat /\
    (agrees p w -> failures w' = failures w -> agrees p' w' /\
      forall d, interest p' w' d = asked_after once x (interest p w) d);
}.

Fixpoint run_all {P W once} `{Adapter P W once} (l : list happening) (p : P) (w : W) : option (P * W) :=
  match l with
  | [] => Some (p, w)
  | x :: l => '(p, w) ← happen x p w; run_all l p w
  end.

(** The last request for a direction that no event has used up, or what held before. *)
Definition requested (once : direction -> bool) (l : list happening) (f : direction -> bool)
    : direction -> bool := foldl (fun f x => asked_after once x f) f l.

Lemma asked_after_ext once x f g d :
  (forall d, f d = g d) -> asked_after once x f d = asked_after once x g d.
Proof.
  intros H. destruct x as [h|d']; cbn [asked_after]; [|destruct (once d')]; try apply H;
    unfold set_at; case_decide; auto.
Qed.

Lemma requested_ext once l f g d :
  (forall d, f d = g d) -> requested once l f d = requested once l g d.
Proof.
  unfold requested. revert f g. induction l as [|x l IH]; intros f g H; [apply H|].
  apply IH. intros d'. by apply asked_after_ext.
Qed.

(** Whatever happens is defined; and when no call of the library has failed meanwhile, the
    library watches what was asked for. *)
Definition follows_hooks (P W : Type) (once : direction -> bool) `{Adapter P W once} : Prop :=
  forall l p w, valid p -> exists p' w', run_all l p w = Some (p', w') /\ valid p' /\
    (failures w <= failures w')%nat /\
    (agrees p w -> failures w' = failures w -> agrees p' w' /\
      forall d, interest p' w' d = requested once l (interest p w) d).

Lemma hooks_follow (P W : Type) once `{Adapter P W once} : follows_hooks P W once.
Proof.
  intros l. induction l as [|x l IH]; intros p w Hp.
  { exists p, w. split_and!; [done|done|lia|done]. }
  destruct (happen_law x p w Hp) as (p1 & w1 & E1 & Hp1 & Hf1 & H1).
  destruct (IH p1 w1 Hp1) as (p2 & w2 & E2 & Hp2 & Hf2 & H2).
  exists p2, w2. split; [cbn [run_all]; by rewrite E1|]. split; [done|]. split; [lia|].
  intros Ha Hf. destruct (H1 Ha) as [Ha1 Hi1]; [lia|]. destruct (H2 Ha1) as [Ha2 Hi2]; [lia|].
  split; [done|]. intros d. rewrite Hi2.
  change (requested once (x :: l) (interest p w) d)
    with (requested once l (asked_after once x (interest p w)) d). by apply requested_ext.
Qed.

(** ** The instances *)

(** [flag]: the structure's own idea of what is watched. *)
Definition flags_agree (flag seen : direction -> bool) : Prop := forall d, flag d = seen d.

(** A hook of a structure that keeps flags: the direction is switched in the structure and in
    the library, unless the flag says that it is already. *)
Lemma flagged_hook d b (flag flag' seen seen' : direction -> bool) :
  flags_agree flag seen ->
  (forall d', flag' d' = set_at d b flag d') ->
  (flag d = b /\ seen' = seen \/ forall d', seen' d' = set_at d b seen d') ->
  flags_agree flag' seen' /\ forall d', seen' d' = set_at d b seen d'.
Proof.
  intros Ha Hflag Hseen. assert (Hs : forall d', seen' d' = set_at d b seen d').
  { destruct Hseen as [[Hd ->]|Hs]; [|exact Hs]. intros d'. unfold set_at.
    case_decide as E; [subst; by rewrite <- Ha|done]. }
  split; [|exact Hs]. intros d'. rewrite Hflag, Hs. unfold set_at. case_decide; [done|apply Ha].
Qed.

Definition never (d : direction) : bool := false.
Definition always (d : direction) : bool := true.
Definition is_write (d : direction) : bool := match d with Read => false | Write => true end.

Lemma failed_none n rc : (n + failed_call rc = n)%nat -> rc = 0.
Proof. unfold failed_call. destruct (Z.eqb_spec rc 0); [done|lia]. Qed.

(** The hooks of an adapter, as functions of the hook. *)
Definition by_hook {A} (add_read del_read add_write del_write : A) (h : hook) : A :=
  match h with addRead => add_read | delRead => del_read | addWrite => add_write | delWrite => del_write end.

Section ae.
Context {W : Type} `{FileEvents W}.

Definition ae_flags (e : redisAeEvents) (d : direction) : bool :=
  match d with Read => ae_reading e | Write => ae_writing e end.

#[export] Program Instance ae_adapter : Adapter redisAeEvents W never := {|
  happen x e w := match x with
    | Hook h => Some (by_hook redisAeAddRead redisAeDelRead redisAeAddWrite redisAeDelWrite h e w)
    | Event d => Some (e, ae_fired d w)
    end;
  interest _ w := ae_watched w;
  failures := ae_failures;
  valid _ := True;
  agrees e w := flags_agree (ae_flags e) (ae_watched w);
|}.
Next Obligation.
  intros [h|d] e w _.
  2: { exists e, (ae_fired d w). rewrite ae_fired_count. split_and!; try done.
       intros Ha _. split; [intros d'; by rewrite ae_fired_law|]. intros d'. apply ae_fired_law. }
  destruct e as [c fd r w'].
  destruct h, r, w'; cbn; do 2 eexists; (split; [reflexivity|]); (split; [done|]);
    rewrite ?ae_create_count, ?ae_delete_count; (split; [lia|]); intros Ha Hf;
    (apply (flagged_hook _ _ _ _ _ _ Ha); [by intros []|]);
    first [by left|right; intros d'; first [apply ae_create_law; by eapply failed_none|apply ae_delete_law]].
Qed.
End ae.

Section switches.
Context {W : Type} `{Switches W}.

Definition libev_flags (e : redisLibevEvents) (d : direction) : bool :=
  match d with Read => ev_reading e | Write => ev_writing e end.

#[export] Program Instance libev_adapter : Adapter redisLibevEvents W never := {|
  happen x e w := match x with
    | Hook h => Some (by_hook redisLibevAddRead redisLibevDelRead redisLibevAddWrite redisLibevDelWrite h e w)
    | Event d => Some (e, fired d w)
    end;
  interest _ w := watched w;
  failures _ := 0%nat;
  valid _ := True;
  agrees e w := flags_agree (libev_flags e) (watched w);
|}.
Next Obligation.
  intros [h|d] e w _.
  2: { exists e, (fired d w). split_and!; try done.
       intros Ha _. split; [intros d'; by rewrite fired_law|]. intros d'. apply fired_law. }
  destruct e as [c r w'].
  destruct h, r, w'; cbn; do 2 eexists; (split; [reflexivity|]); (split; [done|]); (split; [lia|]);
    intros Ha _; (apply (flagged_hook _ _ _ _ _ _ Ha); [by intros []|]);
    first [by left|right; intros d'; first [apply start_law|apply stop_law]].
Qed.

#[export] Program Instance ivykis_adapter : Adapter redisIvykisEvents W never := {|
  happen x e w := match x with
    | Hook h => Some (by_hook redisIvykisAddRead redisIvykisDelRead redisIvykisAddWrite redisIvykisDelWrite h e w)
    | Event d => Some (e, fired d w)
    end;
  interest _ w := watched w;
  failures _ := 0%nat;
  valid _ := True;
  agrees _ _ := True;
|}.
Next Obligation.
  intros [h|d] e w _; [destruct h|]; cbn; do 2 eexists; split_and!; try done; intros _ _; split; try done;
    intros d'; first [apply start_law|apply stop_law|apply fired_law].
Qed.

Definition qt_flags (a : RedisQtAdapter) (d : direction) : bool :=
  bool_decide (is_Some (match d with Read => m_read a | Write => m_write a end)).

(** The notifiers are created at address 1. *)
#[export] Program Instance qt_adapter : Adapter RedisQtAdapter W never := {|
  happen x a w := match x with
    | Hook h => by_hook (RedisQtAddRead 1) (fun a w => Some (RedisQtDelRead a w))
        (RedisQtAddWrite 1) (fun a w => Some (RedisQtDelWrite a w)) h a w
    | Event d => Some (a, fired d w)
    end;
  interest _ w := watched w;
  failures _ := 0%nat;
  valid a := is_Some (m_ctx a);
  agrees a w := flags_agree (qt_flags a) (watched w);
|}.
Next Obligation.
  intros [h|d] e w Hctx.
  2: { exists e, (fired d w). split_and!; try done.
       intros Ha _. split; [intros d'; by rewrite fired_law|]. intros d'. apply fired_law. }
  destruct e as [c r w']. destruct Hctx as [o Ho]. cbn in Ho. subst c.
  destruct h, r, w'; cbn; do 2 eexists; (split; [reflexivity|]); (split; [by eexists|]); (split; [lia|]);
    intros Ha _; (apply (flagged_hook _ _ _ _ _ _ Ha); [by intros []|]);
    first [by left|right; intros d'; first [apply start_law|apply stop_law]].
Qed.
End switches.

Section libevent.
Context {W : Type} `{Events W}.

(** The events as [redisLibeventAttach] makes them: without [EV_PERSIST]. *)
Definition libevent_valid (e : redisLibeventEvents) : Prop := rev e = EV_READ /\ wev e = EV_WRITE.

#[export] Program Instance libevent_adapter : Adapter redisLibeventEvents W always := {|
  happen x e w := match x with
    | Hook h => Some (by_hook redisLibeventAddRead redisLibeventDelRead redisLibeventAddWrite
        redisLibeventDelWrite h e w)
    | Event d => Some (e, event_active (match d with Read => rev e | Write => wev e end) w)
    end;
  interest _ w := pending w;
  failures := event_failures;
  valid := libevent_valid;
  agrees _ _ := True;
|}.
Next Obligation.
  intros x [c r w'] w [Hr Hw]. cbn in Hr, Hw. subst r w'.
  destruct x as [[]|[]]; cbn; do 2 eexists; (split; [reflexivity|]); (split; [done|]);
    rewrite ?event_add_count, ?event_del_count, ?event_active_count; (split; [lia|]); intros _ Hf;
    (split; [done|]); intros d';
    first [apply event_add_law; by eapply failed_none|apply event_del_law; by eapply failed_none
          |apply (event_active_law EV_READ)|apply (event_active_law EV_WRITE)].
Qed.
End libevent.

Section macosx.
Context {W : Type} `{SocketCallBacks W}.

#[export] Program Instance macosx_adapter : Adapter RedisRunLoop W is_write := {|
  happen x l w := match x with
    | Hook h => by_hook redisMacOSAddRead redisMacOSDelRead redisMacOSAddWrite redisMacOSDelWrite h l w
    | Event d => Some (l, called_back d w)
    end;
  interest _ w := enabled w;
  failures _ := 0%nat;
  valid l := is_Some (socketRef l);
  agrees _ _ := True;
|}.
Next Obligation.
  intros x [c s src] w [so Hs]. cbn in Hs. subst s.
  destruct x as [[]|[]]; cbn; do 2 eexists; (split; [reflexivity|]); (split; [by eexists|]); (split; [lia|]);
    intros _ _; (split; [done|]); intros d';
    first [apply enable_law|apply disable_law|apply (called_back_law Read)|apply (called_back_law Write)].
Qed.
End macosx.

Section masks.
(** A bit set or cleared in a mask of events, as a function of the direction. *)
Lemma mask_set (m b : Z) (bit : direction -> Z) d d' :
  b = 2 ^ bit d -> (forall d, 0 <= bit d) -> (bit Read <> bit Write) ->
  Z.testbit (Z.lor m b) (bit d') = set_at d true (fun d => Z.testbit m (bit d)) d'.
Proof.
  intros -> Hb Hne. rewrite Z.lor_spec, Z.pow2_bits_eqb by done. unfold set_at. case_decide as Hd.
  - subst. rewrite Z.eqb_refl. apply orb_true_r.
  - rewrite (proj2 (Z.eqb_neq _ _)); [apply orb_false_r|]. destruct d, d'; done || auto.
Qed.
Lemma mask_clear (m b : Z) (bit : direction -> Z) d d' :
  b = 2 ^ bit d -> (forall d, 0 <= bit d) -> (bit Read <> bit Write) ->
  Z.testbit (Z.ldiff m b) (bit d') = set_at d false (fun d => Z.testbit m (bit d)) d'.
Proof.
  intros -> Hb Hne. rewrite Z.ldiff_spec, Z.pow2_bits_eqb by done. unfold set_at. case_decide as Hd.
  - subst. rewrite Z.eqb_refl. apply andb_false_r.
  - rewrite (proj2 (Z.eqb_neq _ _)); [apply andb_true_r|]. destruct d, d'; done || auto.
Qed.
End masks.

Section libuv.
Context {V : Type} `{Poll V}.

Definition uv_bit (d : direction) : Z := match d with Read => 0 | Write => 1 end.
Definition uv_bits (m : Z) (d : direction) : bool := Z.testbit m (uv_bit d).

(** The library told of a new set of events: started with it, or stopped when it is empty. *)
Definition uv_told (m : Z) (w : V) : V :=
  if negb (m =? 0) then (uv_poll_start m w).2 else (uv_poll_stop w).2.

Lemma uv_start_told m w :
  (uv_failures w <= uv_failures (uv_poll_start m w).2)%nat /\
  (uv_failures (uv_poll_start m w).2 = uv_failures w ->
    forall d, uv_bits m d = uv_watched (uv_poll_start m w).2 d).
Proof.
  rewrite poll_start_count. split; [lia|]. intros Hf%failed_none d. symmetry. by apply poll_start_law.
Qed.
Lemma uv_told_bits m w :
  (uv_failures w <= uv_failures (uv_told m w))%nat /\
  (uv_failures (uv_told m w) = uv_failures w -> forall d, uv_bits m d = uv_watched (uv_told m w) d).
Proof.
  unfold uv_told. destruct (Z.eqb_spec m 0) as [->|]; cbn [negb]; [|apply uv_start_told].
  rewrite poll_stop_count. split; [lia|]. intros Hf%failed_none d.
  rewrite poll_stop_law by done. apply Z.bits_0.
Qed.

#[export] Program Instance libuv_adapter : Adapter redisLibuvEvents V never := {|
  happen x p w := match x with
    | Hook h => Some (by_hook redisLibuvAddRead redisLibuvDelRead redisLibuvAddWrite redisLibuvDelWrite h p w)
    | Event d => Some (p, uv_fired d w)
    end;
  interest _ w := uv_watched w;
  failures := uv_failures;
  valid _ := True;
  agrees p w := flags_agree (uv_bits (uv_events p)) (uv_watched w);
|}.
Next Obligation.
  intros [h|d] p w _.
  2: { exists p, (uv_fired d w). rewrite poll_fired_count. split_and!; try done.
       intros Ha _. split; [intros d'; by rewrite poll_fired_law|]. intros d'. apply poll_fired_law. }
  assert (Hhook : forall m w', (uv_failures w <= uv_failures w')%nat /\
      (uv_failures w' = uv_failures w -> forall d, uv_bits m d = uv_watched w' d) ->
    (forall d, uv_bits m d = set_at (hook_direction h) (hook_adds h) (uv_bits (uv_events p)) d) ->
    exists p' w'', Some (LibuvEvents (uv_context p) m, w') = Some (p', w'') /\ True /\
    (uv_failures w <= uv_failures w'')%nat /\
    (flags_agree (uv_bits (uv_events p)) (uv_watched w) -> uv_failures w'' = uv_failures w ->
     flags_agree (uv_bits (uv_events p')) (uv_watched w'') /\
     forall d, uv_watched w'' d = asked_after never (Hook h) (uv_watched w) d)).
  { intros m w' [Hle Hw] Hm. exists (LibuvEvents (uv_context p) m), w'.
    split; [done|]. split; [done|]. split; [done|]. intros Ha Hf. specialize (Hw Hf).
    split; [exact Hw|]. intros d. cbn [asked_after]. rewrite <- Hw, Hm.
    unfold set_at. case_decide; [done|apply Ha]. }
  destruct h; cbn [by_hook]; (apply Hhook; [first [apply uv_start_told | apply (uv_told_bits (Z.ldiff _ _))]|]);
    intros d; first [apply (mask_set _ UV_READABLE uv_bit Read) | apply (mask_clear _ UV_READABLE uv_bit Read)
          |apply (mask_set _ UV_WRITABLE uv_bit Write) | apply (mask_clear _ UV_WRITABLE uv_bit Write)];
    try done; intros []; done.
Qed.
End libuv.

Section glib.
Context {U : Type} `{MainContext U}.

Definition gl_bit (d : direction) : Z := match d with Read => 0 | Write => 2 end.

#[export] Program Instance glib_adapter : Adapter RedisSource U never := {|
  happen x s w := match x with
    | Hook h => Some (by_hook redis_source_add_read redis_source_del_read redis_source_add_write
        redis_source_del_write h s w)
    | Event d => Some (s, dispatched d w)
    end;
  interest s w d := polled w && Z.testbit (gl_events s) (gl_bit d);
  failures _ := 0%nat;
  valid _ := True;
  agrees _ w := polled w = true;
|}.
Next Obligation.
  intros [h|d] s w _.
  2: { exists s, (dispatched d w). split_and!; try done. intros Ha _. by rewrite dispatched_law. }
  destruct h; cbn -[Z.lor Z.ldiff Z.testbit set_at]; do 2 eexists; (split; [reflexivity|]); (split; [done|]);
    (split; [lia|]); intros Hp _; rewrite wakeup_law; (split; [exact Hp|]); intros d; rewrite Hp; cbn [andb];
    [apply (mask_set _ G_IO_IN gl_bit Read) | apply (mask_clear _ G_IO_IN gl_bit Read)
    |apply (mask_set _ G_IO_OUT gl_bit Write) | apply (mask_clear _ G_IO_OUT gl_bit Write)];
    try done; intros []; done.
Qed.
End glib.

(** ** The theorems *)
Section theorems.
Context {A : Type} `{FileEvents A} {W : Type} `{Switches W} {L : Type} `{Events L}.
Context {V : Type} `{Poll V} {U : Type} `{MainContext U} {C : Type} `{SocketCallBacks C}.

(** C29: for each of the eight adapters, over any sequence of hooks run by hiredis and events
    delivered by the library: no hook uses a null pointer, and when no call of the library
    has reported an error meanwhile, the library watches a direction exactly when the last
    hook for it asked to (as before, if there was none), and, where the library watches for
    one event only, none has come since.  Those are both directions of libevent, whose
    events are made without [EV_PERSIST], and the write callback on macOS. *)
Theorem adapters_follow :
  follows_hooks redisAeEvents A never /\ follows_hooks redisLibevEvents W never /\
  follows_hooks redisLibeventEvents L always /\ follows_hooks redisIvykisEvents W never /\
  follows_hooks redisLibuvEvents V never /\ follows_hooks RedisSource U never /\
  follows_hooks RedisRunLoop C is_write /\ follows_hooks RedisQtAdapter W never.
Proof. split_and!; apply hooks_follow. Qed.

(** When [aeCreateFileEvent] refuses, [ae]'s structure holds that the direction is watched
    all the same: until a hook stops it, no further request reaches the library. *)
Theorem ae_refusal_forgotten (e : redisAeEvents) (a : A) :
  ae_reading e = false ->
  forall e1 a1, redisAeAddRead e a = (e1, a1) ->
  a1 = (aeCreateFileEvent Read a).2 /\ ae_reading e1 = true /\
  forall a2, redisAeAddRead e1 a2 = (e1, a2).
Proof. intros He e1 a1. unfold redisAeAddRead. rewrite He. by intros [= <- <-]. Qed.

(** A Qt adapter that has no context yet cannot run the hooks that add. *)
Theorem qt_needs_context (n : obj) (w : W) :
  RedisQtAddRead n RedisQtAdapter_new w = None /\ RedisQtAddWrite n RedisQtAdapter_new w = None.
Proof. done. Qed.

(** Cleaning up leaves no direction watched, for each of the eight adapters in a state that
    agrees with its library (the macOS one with its socket, the GLib one with a
    descriptor). *)
Theorem adapters_cleanup (a : A) (w : W) (l : L) (v : V) (u : U) (c : C) :
  (forall e d, agrees e a -> ae_watched (redisAeCleanup e a) d = false) /\
  (forall e d, agrees e w -> watched (redisLibevCleanup e w) d = false) /\
  (forall e d, valid e -> pending (redisLibeventCleanup e l) d = false) /\
  (forall e d, watched (redisIvykisCleanup e w) d = false) /\
  (forall p d, uv_watched (redisLibuvCleanup p v).2 d = false) /\
  (forall s d, 0 <= gl_fd s -> interest (redis_source_cleanup s u).1 (redis_source_cleanup s u).2 d = false) /\
  (forall m d, socketRef m <> None -> enabled (redisMacOSCleanup m c) d = false) /\
  (forall q d, agrees q w -> watched (RedisQtCleanup q w).2 d = false).
Proof.
  split_and!.
  - intros [o fd [] []] d Ha; unfold redisAeCleanup; cbn; rewrite ?ae_delete_law; unfold set_at;
      destruct d; cbn; rewrite ?ae_delete_law; try done; symmetry; first [apply (Ha Read)|apply (Ha Write)].
  - intros [o [] []] d Ha; unfold redisLibevCleanup; cbn; rewrite ?stop_law; unfold set_at;
      destruct d; cbn; rewrite ?stop_law; try done; symmetry; first [apply (Ha Read)|apply (Ha Write)].
  - intros e d [Hr Hw]. unfold redisLibeventCleanup. rewrite Hr, Hw, event_free_law.
    unfold set_at. case_decide as Hd; [done|]. rewrite event_free_law. by destruct d.
  - intros e d. apply release_law.
  - intros p d. apply poll_close_law.
  - intros s d Hfd. cbn -[Z.leb]. rewrite (proj2 (Z.leb_le _ _) Hfd). cbn. by rewrite remove_poll_law.
  - intros m d Hs. unfold redisMacOSCleanup, freeRedisRunLoop. destruct (socketRef m); [apply invalidate_law|done].
  - intros [o [|] [|]] d Ha; unfold RedisQtCleanup; cbn; rewrite ?stop_law; unfold set_at;
      destruct d; cbn; rewrite ?stop_law; try done; symmetry; first [apply (Ha Read)|apply (Ha Write)].
Qed.

(** Attaching a context that is attached already is refused by seven adapters and leaves
    the context and the library alone; [redis_source_new] does not look, and takes the
    context over. *)
Theorem attach_once (self this e : obj) (m s src p : option obj) (heap : list obj) (q : RedisQtAdapter)
    (ac : redisAsyncContext) (w : W) (l : L) (v : V) (u : U) (c : C) :
  is_Some (ev_data ac) ->
  redisAeAttach self ac e = (REDIS_ERR, ac, None) /\
  redisLibevAttach self ac e = (REDIS_ERR, ac, None) /\
  redisLibeventAttach self ac e l = (REDIS_ERR, ac, None, l) /\
  redisIvykisAttach self ac e w = (REDIS_ERR, ac, None, w) /\
  redisLibuvAttach self ac p heap v = (REDIS_ERR, ac, None, heap, v) /\
  redisMacOSAttach self ac m s src c = (REDIS_ERR, ac, None, c) /\
  RedisQtAdapter_setContext this self q ac = (REDIS_ERR, ac, q) /\
  (redis_source_new self ac e u).1.1 = AsyncContext (c_fd ac) (Some e) (Some Glib).
Proof.
  intros [d Hd]. unfold redisAeAttach, redisLibevAttach, redisLibeventAttach, redisIvykisAttach,
    redisLibuvAttach, redisMacOSAttach, RedisQtAdapter_setContext. rewrite Hd. done.
Qed.

(** Attaching a fresh context on which everything the adapter asks for succeeds.  The
    context has the adapter's hooks and structure; the structure can be used and agrees with
    the library; and nothing is watched yet, except by libevent, ivykis and the macOS
    adapter, which start with both directions watched (libevent when no [event_add]
    failed). *)
Theorem attach_consistent (self e s src : obj) (heap : list obj)
    (fd : Z) (hooks : option adapter_name) (a : A) (w : W) (l : L) (v : V) (u : U) (c : C) :
  let ac := AsyncContext fd None hooks in
  let attached n := AsyncContext fd (Some e) (Some n) in
  (forall d, ae_watched a d = false) -> (forall d, watched w d = false) ->
  (forall d, uv_watched v d = false) -> (uv_poll_init v).1 = 0 ->
  (forall v d, uv_watched (uv_poll_init v).2 d = uv_watched v d) ->
  (exists p, redisAeAttach self ac e = (REDIS_OK, attached Ae, Some p) /\ valid p /\ agrees p a) /\
  (exists p, redisLibevAttach self ac e = (REDIS_OK, attached Libev, Some p) /\ valid p /\ agrees p w) /\
  (exists p l', redisLibeventAttach self ac e l = (REDIS_OK, attached Libevent, Some p, l') /\
    valid p /\ agrees p l' /\ (event_failures l' = event_failures l -> forall d, pending l' d = true)) /\
  (exists p w', redisIvykisAttach self ac e w = (REDIS_OK, attached Ivykis, Some p, w') /\
    valid p /\ agrees p w' /\ forall d, watched w' d = true) /\
  (exists p v', redisLibuvAttach self ac (Some e) heap v = (REDIS_OK, attached Libuv, Some p, e :: heap, v') /\
    valid p /\ agrees p v' /\ forall d, uv_watched v' d = false) /\
  (exists p u', redis_source_new self ac e u = (attached Glib, p, u') /\
    valid p /\ agrees p u' /\ forall d, interest p u' d = false) /\
  (exists p c', redisMacOSAttach self ac (Some e) (Some s) (Some src) c = (REDIS_OK, attached MacOSX, Some p, c') /\
    valid p /\ agrees p c' /\ forall d, enabled c' d = true) /\
  (exists p, RedisQtAdapter_setContext e self RedisQtAdapter_new ac = (REDIS_OK, attached Qt, p) /\
    valid p /\ agrees p w).
Proof.
  intros ac attached Ha Hw Hv Hi Hk. split_and!.
  - eexists. split; [reflexivity|]. split; [done|]. intros []; symmetry; apply Ha.
  - eexists. split; [reflexivity|]. split; [done|]. intros []; symmetry; apply Hw.
  - do 2 eexists. split; [reflexivity|]. split; [done|]. split; [done|]. cbn [rev wev].
    rewrite !event_add_count. intros Hf d.
    assert ((event_add EV_READ l).1 = 0 /\ (event_add EV_WRITE (event_add EV_READ l).2).1 = 0) as [Hr Hw0].
    { split; unfold failed_call in Hf; repeat case_match; bool_facts; lia. }
    rewrite event_add_law by done. unfold set_at at 1. case_decide; [done|].
    rewrite event_add_law by done. unfold set_at. by destruct d.
  - do 2 eexists. split; [reflexivity|]. split; [done|]. split; [done|]. intros d.
    rewrite start_law. unfold set_at. case_decide; [done|]. rewrite start_law. unfold set_at. by destruct d.
  - exists (LibuvEvents (Some self) 0), (uv_poll_init v).2. unfold redisLibuvAttach. cbn [ev_data].
    destruct (uv_poll_init v) as [rc v'] eqn:Hp. cbn [fst snd] in Hi |- *. subst rc. cbn.
    split; [done|]. assert (forall d, uv_watched v' d = false) as Hv'.
    { intros d. pose proof (Hk v d) as Hk'. rewrite Hp in Hk'. by rewrite <- (Hv d), <- Hk'. }
    split; [done|]. split; [intros d; rewrite Hv'; apply Z.bits_0|done].
  - do 2 eexists. split; [done|]. split; [done|]. split; [apply add_poll_law|].
    intros d. cbn. by rewrite Z.bits_0, andb_false_r.
  - do 2 eexists. split; [reflexivity|]. split; [by eexists|]. split; [done|]. intros d. apply created_law.
  - eexists. split; [reflexivity|]. split; [by eexists|]. intros []; symmetry; apply Hw.
Qed.

(** What a failed attach leaves behind.  When [uv_poll_init] fails, libuv's structure is
    allocated and nobody has its address, and the context has the hooks without their data.
    When the macOS adapter gets no socket or no source, the context keeps the address of
    the freed structure: it counts as attached, and a second attempt is refused. *)
Theorem attach_failures (self e s : obj) (heap : list obj) (ac : redisAsyncContext) (c : C) (v : V) :
  ev_data ac = None ->
  ((uv_poll_init v).1 <> 0 -> exists v',
    redisLibuvAttach self ac (Some e) heap v =
      (REDIS_ERR, AsyncContext (c_fd ac) None (Some Libuv), None, e :: heap, v')) /\
  (forall socket source, socket = None \/ source = None ->
    let '(rc, ac1, l, c1) := redisMacOSAttach self ac (Some e) socket source c in
    rc = REDIS_ERR /\ l = None /\ ev_data ac1 = Some e /\
    forall l' socket' source' c', redisMacOSAttach self ac1 l' socket' source' c' = (REDIS_ERR, ac1, None, c')).
Proof.
  intros Hac. split.
  - intros Hi. unfold redisLibuvAttach. rewrite Hac. destruct (uv_poll_init v) as [rc v'].
    cbn [fst] in Hi. rewrite (proj2 (Z.eqb_neq rc 0) Hi). unfold set_hooks. rewrite ?Hac. by eexists.
  - intros socket source Hor. unfold redisMacOSAttach. rewrite Hac.
    destruct socket as [s'|]; [destruct source as [src|]|]; [destruct Hor; done|done|done].
Qed.
End theorems.

(** ** Dispatching an event *)

(** No call follows a handler that has ended the connection. *)
Fixpoint calls_while_alive {A} (t : tree hiredis A) : Prop :=
  match t with
  | Done _ => True
  | Call o k => calls_while_alive (k false) /\ (exists a, k true = Done a)
  end.

(** Clearing the one event keeps the other. *)
Lemma out_keeps_in r : Z.land (Z.ldiff r G_IO_OUT) G_IO_IN = Z.land r G_IO_IN.
Proof.
  apply Z.bits_inj'. intros n Hn. rewrite !Z.land_spec, Z.ldiff_spec.
  unfold G_IO_IN, G_IO_OUT. rewrite (Z.pow2_bits_eqb 2), (Z.pow2_bits_eqb 0) by lia.
  destruct (Z.eqb_spec 2 n) as [<-|]; [by rewrite !andb_false_r|by rewrite andb_true_r].
Qed.

(** C34: while an event is dispatched, no adapter but GLib's calls hiredis with a context that
    a handler has given up: libuv's because its cleanup has cleared the pointer, the others
    because they make one call for an event.  GLib's dispatch does so exactly when both
    directions are ready: it then calls the read handler whatever the write handler did. *)
Theorem dispatch_alive :
  (forall p status events, calls_while_alive (redisLibuvPoll p status events)) /\
  (forall type context, calls_while_alive (redisMacOSAsyncCallback type context)) /\
  (forall context, calls_while_alive (on_read_event context) /\ calls_while_alive (on_write_event context)) /\
  (forall s callback, calls_while_alive (redis_source_dispatch s callback) <->
     Z.land (gl_revents s) G_IO_IN = 0 \/ Z.land (gl_revents s) G_IO_OUT = 0).
Proof.
  refine (conj _ (conj _ (conj _ _))).
  - intros [[c|] m] status events; unfold redisLibuvPoll; repeat case_match; cbn; eauto 6.
  - intros [[]|] c; cbn; eauto.
  - intros c. cbn. eauto 6.
  - intros s cb. unfold redis_source_dispatch.
    destruct (Z.eqb_spec (Z.land (gl_revents s) G_IO_OUT) 0) as [Ho|Ho],
      (Z.eqb_spec (Z.land (gl_revents s) G_IO_IN) 0) as [Hi|Hi];
      cbn -[Z.land Z.ldiff G_IO_IN G_IO_OUT]; rewrite ?out_keeps_in, ?(proj2 (Z.eqb_neq _ _) Hi), ?Hi; cbn.
    + split; eauto.
    + split; eauto.
    + split; eauto.
    + split; [intros (_ & a & Ha); done|tauto].
Qed.

(** ** A library *)

(** The directions watched, and how many calls have failed; [full] refuses every start. *)
Definition bits := direction -> bool.
Record polls := Polls { full : bool; failed : nat; seen : bits }.
(** The library after a start of [f]. *)
Definition started (f : bits) (w : polls) : Z * polls :=
  if full w then (-1, Polls true (S (failed w)) (seen w)) else (0, Polls false (failed w) f).
Definition sees (f : bits) (w : polls) : polls := Polls (full w) (failed w) f.

#[export, refine] Instance bits_switches : Switches bits := {|
  watched w := w;
  start d w := set_at d true w;
  stop d w := set_at d false w;
  release _ _ := false;
  fired _ w := w;
|}.
Proof. all: intros; reflexivity. Defined.
#[export, refine] Instance polls_ae : FileEvents polls := {|
  ae_watched := seen;
  ae_failures := failed;
  aeCreateFileEvent d w := started (set_at d true (seen w)) w;
  aeDeleteFileEvent d w := sees (set_at d false (seen w)) w;
  ae_fired _ w := w;
|}.
Proof. all: try (intros; reflexivity); intros d [[] n f]; cbn; intros; try done; lia. Defined.
#[export, refine] Instance polls_events : Events polls := {|
  pending := seen;
  event_failures := failed;
  event_add e w := started (set_at (event_direction e) true (seen w)) w;
  event_del e w := (0, sees (set_at (event_direction e) false (seen w)) w);
  event_free e w := sees (set_at (event_direction e) false (seen w)) w;
  event_active e w :=
    sees (if Z.land e EV_PERSIST =? 0 then set_at (event_direction e) false (seen w) else seen w) w;
|}.
Proof.
  all: try (intros; reflexivity).
  - intros e [[] n f]; cbn; lia.
  - intros e [[] n f]; done.
  - intros e [a n f]; cbn; lia.
  - intros e w d. cbn. by case_match.
Defined.
#[export, refine] Instance polls_poll : Poll polls := {|
  uv_watched := seen;
  uv_failures := failed;
  uv_poll_init w := if full w then (-12, w) else (0, w);
  uv_poll_start m w := started (uv_bits m) w;
  uv_poll_stop w := (0, sees (fun _ => false) w);
  uv_close w := sees (fun _ => false) w;
  uv_fired _ w := w;
|}.
Proof.
  all: try (intros; reflexivity).
  - intros m [[] n f]; cbn; lia.
  - by intros m [[] n f] [].
  - intros [a n f]; cbn; lia.
Defined.
#[export, refine] Instance bool_context : MainContext bool := {|
  polled w := w;
  add_poll _ := true;
  remove_poll _ := false;
  wakeup w := w;
  dispatched _ w := w;
|}.
Proof. all: intros; reflexivity. Defined.
#[export, refine] Instance bits_socket : SocketCallBacks bits := {|
  enabled w := w;
  CFSocketEnableCallBacks d w := set_at d true w;
  CFSocketDisableCallBacks d w := set_at d false w;
  CFSocketCreated _ _ := true;
  CFSocketInvalidate _ _ := false;
  called_back d w := match d with Read => w | Write => set_at Write false w end;
|}.
Proof. all: try (intros; reflexivity). by intros []. Defined.
Definition nothing : bits := fun _ => false.
Definition idle : polls := Polls false 0 nothing.

(** libevent: reading was asked for twice and an event has come in between and after; writing
    was asked for and no event has come. *)
Definition happenings : list happening :=
  [Hook addRead; Event Read; Hook addRead; Hook addWrite; Event Read].

Lemma adapters_follow_witness :
  exists p w, run_all happenings (LibeventEvents 1 EV_READ EV_WRITE) idle = Some (p, w) /\
    pending w Write = true /\ pending w Read = false.
Proof.
  destruct (adapters_follow (A := polls) (W := bits) (L := polls) (V := polls) (U := bool) (C := bits))
    as (_ & _ & Hle & _).
  destruct (Hle happenings (LibeventEvents 1 EV_READ EV_WRITE) idle) as (p & w & Hrun & _ & _ & Hok);
    [done|]. exists p, w. split; [exact Hrun|].
  assert (failures w = failures idle) as Hf.
  { change (run_all happenings (LibeventEvents 1 EV_READ EV_WRITE) idle)
      with (Some (LibeventEvents 1 EV_READ EV_WRITE,
        event_active EV_READ (event_add EV_WRITE (event_add EV_READ (event_active EV_READ (event_add EV_READ idle).2)).2).2)) in Hrun.
    by injection Hrun as _ <-. }
  destruct (Hok I Hf) as [_ Hi].
  split; (etransitivity; [apply Hi|reflexivity]).
Defined.

Lemma ae_refusal_forgotten_witness :
  ae_reading (redisAeAddRead (AeEvents 1 7 false false) (Polls true 0 nothing)).1 = true.
Proof.
  destruct (ae_refusal_forgotten (A := polls) (AeEvents 1 7 false false) (Polls true 0 nothing) eq_refl
    _ _ eq_refl) as (_ & Hr & _). exact Hr.
Defined.

Lemma adapters_cleanup_witness :
  ae_watched (redisAeCleanup (AeEvents 1 7 true false) (Polls false 0 (set_at Read true nothing))) Read = false.
Proof.
  destruct (adapters_cleanup (A := polls) (W := bits) (L := polls) (V := polls) (U := bool) (C := bits)
    (Polls false 0 (set_at Read true nothing)) nothing idle idle true nothing) as [Hae _].
  apply (Hae (AeEvents 1 7 true false) Read). intros []; reflexivity.
Defined.

Lemma attach_once_witness :
  redisAeAttach 1 (AsyncContext 7 (Some 5%positive) (Some Ae)) 9 =
    (REDIS_ERR, AsyncContext 7 (Some 5%positive) (Some Ae), None).
Proof.
  destruct (attach_once (W := bits) (L := polls) (V := polls) (U := bool) (C := bits) 1 1 9 None None None None []
    RedisQtAdapter_new (AsyncContext 7 (Some 5%positive) (Some Ae)) nothing idle idle true nothing)
    as [Hae _]; [by eexists|].
  exact Hae.
Defined.

Lemma attach_consistent_witness :
  exists p, redisAeAttach 1 (AsyncContext 7 None None) 9 =
    (REDIS_OK, AsyncContext 7 (Some 9%positive) (Some Ae), Some p) /\ agrees p idle.
Proof.
  destruct (attach_consistent (A := polls) (W := bits) (L := polls) (V := polls) (U := bool) (C := bits)
    1 9 3 4 [] 7 None idle nothing idle idle true nothing) as [(p & Hae & _ & Ha) _]; try reflexivity.
  - by intros [[] n f].
  - exists p. split; [exact Hae|exact Ha].
Defined.

Lemma attach_failures_witness :
  exists v', redisLibuvAttach (W := polls) 1 (AsyncContext 7 None None) (Some 9%positive) [] (Polls true 0 nothing) =
    (REDIS_ERR, AsyncContext 7 None (Some Libuv), None, [9%positive], v').
Proof.
  destruct (attach_failures (C := bits) (V := polls) 1 9 3 [] (AsyncContext 7 None None) nothing
    (Polls true 0 nothing)) as [Huv _]; [reflexivity|]. apply Huv. discriminate.
Defined.
