(* ===== verification/IoCache.v ===== *)
(** * Buffered files

    The inline functions of [mysql/my_sys.h] on an [IO_CACHE]: a read or write that the buffer
    can serve is a copy, any other is handed to a function of [mysys], which is not in the
    repository and a parameter here.  Addresses are integers, the memory a function to
    bytes. *)
From Stdlib Require Import ZArith Lia List.
From stdpp Require Import base tactics numbers list.
From S2P Require Import Prelude.

Local Open Scope Z_scope.

(** ** Memory *)

Abbreviation memory := (Z -> Z).

Definition memcpy (m : memory) (dst src n : Z) : memory := fun a =>
  if (dst <=? a) && (a <? dst + n) then m (src + (a - dst)) else m a.
Definition poke (m : memory) (a b : Z) : memory := fun a' => if a' =? a then b else m a'.

(** The [n] bytes from address [a]. *)
Definition bytes (m : memory) (a n : Z) : list Z :=
  map (fun i => m (a + Z.of_nat i)) (seq 0 (Z.to_nat n)).

(** ** The cache *)

(** The fields the inline functions use.  [current_pos] and [current_end] point to the fields of the write area in a WRITE_CACHE
    and to those of the read area otherwise. *)
Record IO_CACHE := IoCache {
  pos_in_file : Z;
  read_pos : Z;
  read_end : Z;
  buffer : Z;
  request_pos : Z;
  write_buffer : Z;
  write_pos : Z;
  write_end : Z;
  write_cache : bool;
  buffer_length : Z;
}.
Definition current_pos (c : IO_CACHE) : Z := if write_cache c then write_pos c else read_pos c.
Definition current_end (c : IO_CACHE) : Z := if write_cache c then write_end c else read_end c.

Definition with_buffer (c : IO_CACHE) (b : Z) : IO_CACHE :=
  IoCache (pos_in_file c) (read_pos c) (read_end c) b (request_pos c)
    (write_buffer c) (write_pos c) (write_end c) (write_cache c) (buffer_length c).
Definition with_read_pos (c : IO_CACHE) (p : Z) : IO_CACHE :=
  IoCache (pos_in_file c) p (read_end c) (buffer c) (request_pos c)
    (write_buffer c) (write_pos c) (write_end c) (write_cache c) (buffer_length c).
Definition with_write_pos (c : IO_CACHE) (p : Z) : IO_CACHE :=
  IoCache (pos_in_file c) (read_pos c) (read_end c) (buffer c) (request_pos c)
    (write_buffer c) p (write_end c) (write_cache c) (buffer_length c).

(** The cache, the memory, and what the library keeps: the file. *)
Record world (F : Type) := World { info : IO_CACHE; mem : memory; file : F }.
Arguments World {F}. Arguments info {F}. Arguments mem {F}. Arguments file {F}.

(** The functions of [mysys]; the two pairs of the slow paths of reading and writing. *)
Class IoLibrary (F : Type) := {
  _my_b_read : Z -> Z -> world F -> Z * world F;
  _my_b_write : Z -> Z -> world F -> Z * world F;
  _my_b_get : world F -> Z * world F;
  my_b_flush_io_cache : bool -> world F -> Z * world F;
}.

(** [INT_MIN]. *)
Definition my_b_EOF : Z := - 2 ^ 31.

Section io.
Context {F : Type} `{IoLibrary F}.

Definition my_b_clear (w : world F) : world F := World (with_buffer (info w) 0) (mem w) (file w).
Definition my_b_inited (w : world F) : Z := if negb (buffer (info w) =? 0) then 1 else 0.

Definition my_b_read (Buffer Count : Z) (w : world F) : Z * world F :=
  let c := info w in
  if read_pos c + Count <=? read_end c
  then (0, World (with_read_pos c (read_pos c + Count)) (memcpy (mem w) Buffer (read_pos c) Count) (file w))
  else _my_b_read Buffer Count w.

Definition my_b_write (Buffer Count : Z) (w : world F) : Z * world F :=
  let c := info w in
  if write_pos c + Count <=? write_end c
  then (0, World (with_write_pos c (write_pos c + Count)) (memcpy (mem w) (write_pos c) Buffer Count) (file w))
  else _my_b_write Buffer Count w.

Definition my_b_get (w : world F) : Z * world F :=
  let c := info w in
  if negb (read_pos c =? read_end c)
  then let c := with_read_pos c (read_pos c + 1) in
       (mem w (read_pos c - 1), World c (mem w) (file w))
  else _my_b_get w.

Definition my_b_write_byte (chr : Z) (w : world F) : world F :=
  let w := if write_end (info w) <=? write_pos (info w) then (my_b_flush_io_cache true w).2 else w in
  let c := info w in
  World (with_write_pos c (write_pos c + 1)) (poke (mem w) (write_pos c) chr) (file w).

Definition my_b_fill (w : world F) : Z * world F :=
  let w := World (with_read_pos (info w) (read_end (info w))) (mem w) (file w) in
  let '(r, w) := _my_b_read 0 0 w in
  (if negb (r =? 0) then 0 else read_end (info w) - read_pos (info w), w).

Definition my_b_tell (w : world F) : Z :=
  pos_in_file (info w) + (current_pos (info w) - request_pos (info w)).
Definition my_b_write_tell (w : world F) : Z :=
  pos_in_file (info w) + (write_pos (info w) - write_buffer (info w)).
Definition my_b_get_buffer_start (w : world F) : Z := request_pos (info w).
Definition my_b_get_bytes_in_buffer (w : world F) : Z := read_end (info w) - request_pos (info w).
Definition my_b_get_pos_in_file (w : world F) : Z := pos_in_file (info w).
Definition my_b_bytes_in_cache (w : world F) : Z := current_end (info w) - current_pos (info w).
End io.

(** ** Bytes *)

Lemma length_bytes m a n : length (bytes m a n) = Z.to_nat n.
Proof. unfold bytes. by rewrite length_map, length_seq. Qed.

Lemma bytes_ext m m' a a' n :
  (forall i, 0 <= i < n -> m (a + i) = m' (a' + i)) -> bytes m a n = bytes m' a' n.
Proof. intros Hm. apply map_ext_in. intros i [_ Hi]%in_seq. apply Hm. lia. Qed.

Lemma map_seq_add {A} (f : nat -> A) n k : map f (seq n k) = map (fun i => f (n + i)%nat) (seq 0 k).
Proof.
  rewrite <- (map_map (Nat.add n) f). f_equal. symmetry.
  rewrite <- (Nat.add_0_r n) at 2. apply (fmap_add_seq n 0 k).
Qed.

Lemma bytes_app m a n k : 0 <= n -> 0 <= k -> bytes m a (n + k) = bytes m a n ++ bytes m (a + n) k.
Proof.
  intros Hn Hk. unfold bytes. rewrite Z2Nat.inj_add, seq_app, map_app by done. f_equal.
  rewrite Nat.add_0_l, map_seq_add. apply map_ext. intros i. f_equal. rewrite Nat2Z.inj_add, Z2Nat.id by done. lia.
Qed.

Lemma bytes_0 m a : bytes m a 0 = [].
Proof. done. Qed.
Lemma bytes_1 m a : bytes m a 1 = [m a].
Proof. change (bytes m a 1) with [m (a + 0)]. by rewrite Z.add_0_r. Qed.

(** What a copy changes, and what it does not. *)
Lemma bytes_copied m dst src n : bytes (memcpy m dst src n) dst n = bytes m src n.
Proof.
  apply bytes_ext. intros i Hi. unfold memcpy.
  rewrite (proj2 (Z.leb_le _ _)), (proj2 (Z.ltb_lt _ _)) by lia. cbn [andb]. f_equal. lia.
Qed.
Definition apart (a n b k : Z) : Prop := a + n <= b \/ b + k <= a.
Lemma bytes_untouched m dst src n a k : apart a k dst n -> bytes (memcpy m dst src n) a k = bytes m a k.
Proof.
  intros Ha. apply bytes_ext. intros i Hi. unfold memcpy.
  destruct (Z.leb_spec dst (a + i)), (Z.ltb_spec (a + i) (dst + n)); cbn [andb]; [|done..].
  destruct Ha; lia.
Qed.
Lemma bytes_poked m p b a k : apart a k p 1 -> bytes (poke m p b) a k = bytes m a k.
Proof.
  intros Ha. apply bytes_ext. intros i Hi. unfold poke. destruct (Z.eqb_spec (a + i) p); [|done].
  destruct Ha; lia.
Qed.

Lemma drop_all_app {A} (l k : list A) n : n = length l -> drop n (l ++ k) = k.
Proof. intros ->. apply drop_app_length. Qed.
