(* ===== verification/IoCacheProps.v ===== *)
(** * Buffered files keep the stream

    A cache in front of a file is transparent: reads give the bytes of the file in order,
    whatever their sizes and wherever the buffer ends; writes that succeed are kept in order.
    What the functions of [mysys] contribute is stated as two classes of laws; a library that
    has them is given at the end. *)
From Stdlib Require Import ZArith Lia List.
From stdpp Require Import base tactics numbers list.
From S2P Require Import Prelude.
From S2P Require Import IoCache.

Local Open Scope Z_scope.

(** ** Reading *)

Section stream.
Context {F : Type} (ahead : F -> list Z).

(** The stream of bytes still to be read: those in the buffer, then those of the file that
    have not been buffered. *)
Definition buffered (w : world F) : Z := read_end (info w) - read_pos (info w).
Definition unread (w : world F) : list Z :=
  bytes (mem w) (read_pos (info w)) (buffered w) ++ ahead (file w).

(** The cache is in order. *)
Definition readable (w : world F) : Prop :=
  buffer (info w) <= read_pos (info w) <= read_end (info w) /\
  read_end (info w) <= buffer (info w) + buffer_length (info w) /\
  0 < buffer_length (info w) /\ write_cache (info w) = false.
(** Memory of the caller's, apart from the buffer. *)
Definition outside (w : world F) (Buffer n : Z) : Prop :=
  apart (buffer (info w)) (buffer_length (info w)) Buffer n.
Definition same_buffer (w w' : world F) : Prop :=
  buffer (info w') = buffer (info w) /\ buffer_length (info w') = buffer_length (info w).

(** [n] bytes of the stream have been consumed. *)
Definition consumed (w w' : world F) (n : Z) : Prop :=
  unread w' = drop (Z.to_nat n) (unread w) /\ readable w' /\ same_buffer w w' /\
  my_b_tell w' = my_b_tell w + n.
End stream.

(** What is documented of the slow paths, which are called when the buffer has too little, on a
    file whose reads do not fail: they give the next bytes of the stream if there are enough
    and fail otherwise; filling takes bytes of the file into the buffer. *)
Class ReadLibrary (F : Type) `{IoLibrary F} := {
  ahead : F -> list Z;
  read_law : forall Buffer n (w : world F),
    readable w -> outside w Buffer n -> buffered w < n ->
    let '(r, w') := _my_b_read Buffer n w in
    (n <= Z.of_nat (length (unread ahead w)) ->
      r = 0 /\ bytes (mem w') Buffer n = take (Z.to_nat n) (unread ahead w) /\ consumed ahead w w' n) /\
    (Z.of_nat (length (unread ahead w)) < n -> r <> 0);
  get_law : forall w : world F,
    readable w -> buffered w = 0 ->
    let '(r, w') := _my_b_get w in
    match unread ahead w with
    | [] => r = my_b_EOF
    | b :: _ => r = b /\ consumed ahead w w' 1
    end;
  fill_law : forall w : world F,
    readable w -> buffered w = 0 ->
    let '(r, w') := _my_b_read 0 0 w in
    if r =? 0 then consumed ahead w w' 0 /\ 0 < buffered w' else unread ahead w = [];
}.

Section reading.
Context {F : Type} `{ReadLibrary F}.

(** The fast path of a read. *)
Lemma read_from_buffer (w : world F) (m : memory) (n : Z) :
  readable w -> 0 <= n <= buffered w ->
  (forall a k, buffer (info w) <= a -> a + k <= buffer (info w) + buffer_length (info w) ->
    bytes m a k = bytes (mem w) a k) ->
  bytes (mem w) (read_pos (info w)) n = take (Z.to_nat n) (unread ahead w) /\
  consumed ahead w (World (with_read_pos (info w) (read_pos (info w) + n)) m (file w)) n.
Proof.
  intros (Hr1 & Hr2 & Hr4 & Hr3) Hn Hm. unfold consumed, unread, readable, same_buffer, my_b_tell, current_pos, buffered in *.
  cbn. rewrite Hr3.
  assert (read_end (info w) - read_pos (info w) = n + (read_end (info w) - (read_pos (info w) + n))) as -> by lia.
  rewrite bytes_app, <- app_assoc by lia. split_and!; try lia.
  - rewrite take_app_length'; [done|by rewrite length_bytes].
  - rewrite drop_all_app by (by rewrite length_bytes). by rewrite Hm by lia.
Qed.

(** [my_b_read] reads the stream, whether or not the buffer has the bytes: if [Count]
    bytes are left it returns 0, has copied the next [Count] bytes to the caller and has
    consumed exactly these, and [my_b_tell] has moved by [Count]; if not it fails. *)
Theorem my_b_read_next (Buffer Count : Z) (w : world F) :
  readable w -> outside w Buffer Count -> 0 <= Count ->
  let '(r, w') := my_b_read Buffer Count w in
  (Count <= Z.of_nat (length (unread ahead w)) ->
    r = 0 /\ bytes (mem w') Buffer Count = take (Z.to_nat Count) (unread ahead w) /\ consumed ahead w w' Count) /\
  (Z.of_nat (length (unread ahead w)) < Count -> r <> 0).
Proof.
  intros Hr Ho Hc. unfold my_b_read. destruct (Z.leb_spec (read_pos (info w) + Count) (read_end (info w))) as [Hl|Hl].
  - destruct (read_from_buffer w (memcpy (mem w) Buffer (read_pos (info w)) Count) Count Hr) as [Hb Hk].
    + unfold buffered. lia.
    + intros a k Ha Hk. apply bytes_untouched. unfold outside, apart in *. lia.
    + split; [|unfold unread, buffered; rewrite length_app, length_bytes; lia].
      intros _. split; [done|]. split; [|done]. cbn [mem]. by rewrite bytes_copied.
  - apply read_law; [done..|]. unfold buffered. lia.
Qed.

(** [my_b_get] gives the next byte of the stream, or [my_b_EOF] at its end. *)
Theorem my_b_get_next (w : world F) :
  readable w ->
  let '(r, w') := my_b_get w in
  match unread ahead w with
  | [] => r = my_b_EOF
  | b :: _ => r = b /\ consumed ahead w w' 1
  end.
Proof.
  intros Hr. unfold my_b_get. destruct (Z.eqb_spec (read_pos (info w)) (read_end (info w))) as [He|He]; cbn [negb].
  - apply get_law; [done|]. unfold buffered. lia.
  - destruct (read_from_buffer w (mem w) 1 Hr) as [Hb Hk]; [unfold buffered; destruct Hr; lia|done|].
    rewrite bytes_1 in Hb. destruct (unread ahead w) as [|b l]; [done|]. cbn in Hb. injection Hb as <-.
    split; [f_equal; cbn; lia|done].
Qed.

(** ** Any sequence of reads *)

Inductive request := Read (n : Z) | Get.
Definition size (q : request) : Z := match q with Read n => n | Get => 1 end.
Definition sizes (l : list request) : Z := foldr (fun q n => size q + n) 0 l.

(** All reads go to the caller's memory at [Buffer]; the bytes got are collected. *)
Definition read_one (Buffer : Z) (q : request) (w : world F) : list Z * world F :=
  match q with
  | Read n => let w := (my_b_read Buffer n w).2 in (bytes (mem w) Buffer n, w)
  | Get => let '(b, w) := my_b_get w in ([b], w)
  end.
Fixpoint read_all (Buffer : Z) (l : list request) (w : world F) : list Z * world F :=
  match l with
  | [] => ([], w)
  | q :: l =>
      let '(b, w) := read_one Buffer q w in
      let '(out, w) := read_all Buffer l w in ((b ++ out)%list, w)
  end.

(** The request can be made: a size, and memory for it. *)
Definition admissible (w : world F) (Buffer : Z) (q : request) : Prop :=
  match q with Read n => 0 <= n /\ outside w Buffer n | Get => True end.

Lemma consumed_trans w1 w2 w3 n k :
  0 <= n -> 0 <= k -> consumed ahead w1 w2 n -> consumed ahead w2 w3 k -> consumed ahead w1 w3 (n + k).
Proof.
  intros Hn Hk (Hu & _ & [Hb Hl] & Ht) (Hu' & Hr' & [Hb' Hl'] & Ht').
  split; [|split; [done|split; [split; congruence|lia]]].
  rewrite Hu', Hu, drop_drop. f_equal. lia.
Qed.

Lemma read_one_next Buffer q w :
  readable w -> admissible w Buffer q -> size q <= Z.of_nat (length (unread ahead w)) ->
  let '(b, w') := read_one Buffer q w in
  b = take (Z.to_nat (size q)) (unread ahead w) /\ consumed ahead w w' (size q).
Proof.
  intros Hr Hq Hs. destruct q as [n|]; simpl in *.
  - destruct Hq as [Hn Ho]. pose proof (my_b_read_next Buffer n w Hr Ho Hn) as Hnext.
    destruct (my_b_read Buffer n w) as [r w1]. destruct Hnext as [Hnext _]. by destruct Hnext as (_ & Hb & Hk).
  - pose proof (my_b_get_next w Hr) as Hnext. destruct (my_b_get w) as [b w1].
    destruct (unread ahead w) as [|b' s]; [simpl in Hs; lia|]. by destruct Hnext as [-> Hk].
Qed.

Lemma admissible_size w Buffer q : admissible w Buffer q -> 0 <= size q.
Proof. destruct q; simpl; [tauto|lia]. Qed.
Lemma admissible_sizes w Buffer l : Forall (admissible w Buffer) l -> 0 <= sizes l.
Proof. induction 1 as [|q l Hq _ IH]; simpl; [done|]. apply admissible_size in Hq. lia. Qed.

(** C36: reading a stream in pieces of any sizes, by [my_b_read] and [my_b_get] in any order,
    gives the bytes of the stream, in order, as far as the pieces go, and leaves the rest. *)
Theorem reads_stream (Buffer : Z) (l : list request) (w : world F) :
  readable w -> Forall (admissible w Buffer) l -> sizes l <= Z.of_nat (length (unread ahead w)) ->
  let '(out, w') := read_all Buffer l w in
  out = take (Z.to_nat (sizes l)) (unread ahead w) /\ consumed ahead w w' (sizes l).
Proof.
  revert w. induction l as [|q l IH]; intros w Hr Hl Hs; simpl.
  { split; [done|]. unfold consumed, same_buffer. rewrite Z2Nat.inj_0. split_and!; try done; try lia. }
  apply Forall_cons_1 in Hl as [Hq Hl].
  pose proof (admissible_size _ _ _ Hq) as Hp. pose proof (admissible_sizes _ _ _ Hl) as Hp'. simpl in Hs.
  pose proof (read_one_next Buffer q w Hr Hq) as Hone. destruct (read_one Buffer q w) as [b w1].
  destruct Hone as [-> Hk]; [lia|]. pose proof Hk as (Hu1 & Hr1 & [Hb1 Hl1] & _).
  specialize (IH w1 Hr1). destruct (read_all Buffer l w1) as [out w']. destruct IH as [-> Hk'].
  - eapply Forall_impl; [exact Hl|]. intros [k|]; [|done]. unfold admissible, outside. by rewrite Hb1, Hl1.
  - rewrite Hu1, length_drop. lia.
  - split; [|by apply (consumed_trans w w1)]. rewrite Hu1, Z2Nat.inj_add by done. apply take_take_drop.
Qed.

(** [my_b_fill] on a used-up buffer: the number of bytes it returns is what the buffer has
    then, nothing of the stream is lost, and it returns 0 only at the end of the stream. *)
Theorem my_b_fill_spec (w : world F) :
  readable w -> buffered w = 0 ->
  let '(n, w') := my_b_fill w in
  (n = 0 /\ unread ahead w = []) \/ (0 < n /\ n = buffered w' /\ consumed ahead w w' 0).
Proof.
  intros Hr Hb. unfold my_b_fill.
  assert (World (with_read_pos (info w) (read_end (info w))) (mem w) (file w) = w) as ->.
  { destruct w as [c m f]. unfold buffered in Hb. cbn in *. destruct c; unfold with_read_pos; cbn in *.
    f_equal. f_equal. lia. }
  pose proof (fill_law w Hr Hb) as Hf. destruct (_my_b_read 0 0 w) as [r w'].
  destruct (Z.eqb_spec r 0) as [->|Hne]; cbn [negb]; [|by left].
  right. unfold buffered in *. destruct Hf. split_and!; (done || lia).
Qed.
End reading.

(** ** Writing *)

Section output.
Context {F : Type} (written : F -> list Z).

(** Everything written so far: what is in the file, then what is in the buffer. *)
Definition output (w : world F) : list Z :=
  written (file w) ++ bytes (mem w) (write_buffer (info w)) (write_pos (info w) - write_buffer (info w)).

Definition writable (w : world F) : Prop :=
  write_buffer (info w) <= write_pos (info w) <= write_end (info w) /\
  write_buffer (info w) < write_end (info w) /\ write_cache (info w) = true.
Definition room (w : world F) : Z := write_end (info w) - write_pos (info w).
(** An address outside the write buffer. *)
Definition foreign (w : world F) (a : Z) : Prop := a < write_buffer (info w) \/ write_end (info w) <= a.

(** [l] has been appended; the buffer is where it was and the rest of the memory as it was. *)
Definition appended (w w' : world F) (l : list Z) : Prop :=
  output w' = output w ++ l /\ writable w' /\
  write_buffer (info w') = write_buffer (info w) /\ write_end (info w') = write_end (info w) /\
  (forall a, foreign w a -> mem w' a = mem w a) /\
  my_b_tell w' = my_b_tell w + Z.of_nat (length l).
End output.

(** What is documented of the slow path and of flushing.  On an error, a result other than 0,
    nothing is known of the state. *)
Class WriteLibrary (F : Type) `{IoLibrary F} := {
  written : F -> list Z;
  write_law : forall Buffer n (w : world F),
    writable w -> apart (write_buffer (info w)) (write_end (info w) - write_buffer (info w)) Buffer n ->
    room w < n ->
    let '(r, w') := _my_b_write Buffer n w in
    r = 0 -> appended written w w' (bytes (mem w) Buffer n);
  flush_law : forall b (w : world F),
    writable w ->
    let '(r, w') := my_b_flush_io_cache b w in
    r = 0 -> appended written w w' [] /\ 0 < room w';
}.

Section writing.
Context {F : Type} `{WriteLibrary F}.

(** A write within the buffer. *)
Lemma write_to_buffer (w : world F) (m : memory) (n : Z) (l : list Z) :
  writable w -> 0 <= n <= room w -> bytes m (write_pos (info w)) n = l ->
  (forall a, a < write_pos (info w) \/ write_pos (info w) + n <= a -> m a = mem w a) ->
  appended written w (World (with_write_pos (info w) (write_pos (info w) + n)) m (file w)) l.
Proof.
  intros (Hw1 & Hw2 & Hw3) Hn Hl Hm.
  unfold appended, output, writable, my_b_tell, current_pos, foreign, room in *. cbn. rewrite Hw3.
  split_and!; try done; try lia.
  - rewrite <- app_assoc. f_equal.
    replace (write_pos (info w) + n - write_buffer (info w))
      with (write_pos (info w) - write_buffer (info w) + n) by lia.
    rewrite bytes_app by lia. f_equal.
    + apply bytes_ext. intros i Hi. apply Hm. lia.
    + rewrite <- Hl. f_equal. lia.
  - intros a Ha. apply Hm. lia.
  - rewrite <- Hl, length_bytes, Z2Nat.id by lia. lia.
Qed.

(** [my_b_write] appends the caller's bytes, whether or not the buffer has room, unless
    it reports an error; within the buffer it never does. *)
Theorem my_b_write_appends (Buffer Count : Z) (w : world F) :
  writable w -> 0 <= Count ->
  apart (write_buffer (info w)) (write_end (info w) - write_buffer (info w)) Buffer Count ->
  let '(r, w') := my_b_write Buffer Count w in
  (r = 0 -> appended written w w' (bytes (mem w) Buffer Count)) /\ (Count <= room w -> r = 0).
Proof.
  intros Hw Hc Ha. unfold my_b_write.
  destruct (Z.leb_spec (write_pos (info w) + Count) (write_end (info w))) as [Hl|Hl].
  - split; [|done]. intros _. apply write_to_buffer; [done|unfold room; lia|by rewrite bytes_copied|].
    intros a Hout. unfold memcpy.
    destruct (Z.leb_spec (write_pos (info w)) a), (Z.ltb_spec a (write_pos (info w) + Count)); [|done..]; lia.
  - pose proof (write_law Buffer Count w Hw Ha) as Hlaw.
    destruct (_my_b_write Buffer Count w) as [r w']. unfold room in *. split; [apply Hlaw|]; lia.
Qed.

(** [my_b_write_byte] appends the byte if the buffer has room or can be flushed. *)
Theorem my_b_write_byte_appends (chr : Z) (w : world F) :
  writable w -> 0 < room w \/ (my_b_flush_io_cache true w).1 = 0 ->
  appended written w (my_b_write_byte chr w) [chr].
Proof.
  assert (forall v : world F, writable v -> 0 < room v ->
    appended written v (World (with_write_pos (info v) (write_pos (info v) + 1)) (poke (mem v) (write_pos (info v)) chr) (file v)) [chr])
    as Hstep.
  { intros v Hv Hroom. apply write_to_buffer; [done|lia| |].
    - rewrite bytes_1. unfold poke. by rewrite Z.eqb_refl.
    - intros a Ha. unfold poke. destruct (Z.eqb_spec a (write_pos (info v))); [lia|done]. }
  intros Hw Hor. unfold my_b_write_byte. destruct (Z.leb_spec (write_end (info w)) (write_pos (info w))) as [Hl|Hl].
  - destruct Hor as [Hroom|Hf]; [unfold room in Hroom; lia|].
    pose proof (flush_law true w Hw) as Hlaw. destruct (my_b_flush_io_cache true w) as [r w'].
    cbn in Hf. destruct (Hlaw Hf) as [(Ho & Hw' & Hb & He & Hm & Ht) Hroom]. cbn [snd].
    destruct (Hstep w' Hw' Hroom) as (Ho' & Hw'' & Hb' & He' & Hm' & Ht').
    unfold appended. rewrite app_nil_r in Ho. split_and!; [by rewrite Ho', Ho|done|congruence|congruence| |].
    + intros a Ha. rewrite Hm'; [by apply Hm|]. unfold foreign in *. by rewrite Hb, He.
    + rewrite Ht', Ht. cbn. lia.
  - apply Hstep; [done|]. unfold room. lia.
Qed.

(** C38: [my_b_write_byte] does not look at the result of the flush: when the buffer is full and
    flushing leaves it so, the byte is stored at the first address after the buffer. *)
Theorem my_b_write_byte_overruns (chr : Z) (w : world F) :
  room w = 0 -> (my_b_flush_io_cache true w).2 = w ->
  let w' := my_b_write_byte chr w in
  mem w' (write_end (info w)) = chr /\ foreign w (write_end (info w)) /\ room w' = -1.
Proof.
  intros Hr Hf. unfold my_b_write_byte, room in *. rewrite (proj2 (Z.leb_le _ _)), Hf by lia. cbn.
  unfold poke, foreign. replace (write_pos (info w)) with (write_end (info w)) by lia.
  rewrite Z.eqb_refl. split_and!; [done|by right|lia].
Qed.

(** ** Any sequence of writes *)

Fixpoint write_all (l : list (Z * Z)) (w : world F) : bool * world F :=
  match l with
  | [] => (true, w)
  | (Buffer, n) :: l =>
      let '(r, w) := my_b_write Buffer n w in
      if r =? 0 then write_all l w else (false, w)
  end.

Definition caller_memory (w : world F) (p : Z * Z) : Prop :=
  0 <= p.2 /\ apart (write_buffer (info w)) (write_end (info w) - write_buffer (info w)) p.1 p.2.

Lemma appended_bytes w w' l a n :
  writable w -> appended written w w' l -> caller_memory w (a, n) -> bytes (mem w') a n = bytes (mem w) a n.
Proof.
  intros _ (_ & _ & _ & _ & Hm & _) [Hn Ha]. apply bytes_ext. intros i Hi. apply Hm.
  unfold foreign, apart in *. cbn in *. lia.
Qed.

(** C37: any sequence of writes that succeed leaves in the file and the buffer the pieces, one
    after the other, after what was there. *)
Theorem writes_concatenate (l : list (Z * Z)) (w : world F) :
  writable w -> Forall (caller_memory w) l ->
  let '(ok, w') := write_all l w in
  ok = true -> appended written w w' (concat (map (fun p => bytes (mem w) p.1 p.2) l)).
Proof.
  revert w. induction l as [|[a n] l IH]; intros w Hw Hl; simpl.
  { intros _. unfold appended. rewrite app_nil_r. refine (conj eq_refl (conj Hw (conj eq_refl (conj eq_refl (conj _ _))))); [done|cbn; lia]. }
  apply Forall_cons_1 in Hl as [Hp Hl]. pose proof Hp as [Hn Ha]. cbn in Hn, Ha.
  pose proof (my_b_write_appends a n w Hw Hn Ha) as Hstep. destruct (my_b_write a n w) as [r w1].
  destruct Hstep as [Hstep _]. destruct (Z.eqb_spec r 0) as [->|]; [|done].
  specialize (Hstep eq_refl). pose proof Hstep as (Ho & Hw1 & Hb & He & Hm & Ht).
  specialize (IH w1 Hw1). destruct (write_all l w1) as [ok w']. intros ->.
  destruct IH as (Ho' & Hw' & Hb' & He' & Hm' & Ht').
  { eapply Forall_impl; [exact Hl|]. intros p. unfold caller_memory. by rewrite Hb, He. }
  { done. }
  assert (map (fun p => bytes (mem w1) p.1 p.2) l = map (fun p => bytes (mem w) p.1 p.2) l) as Heq.
  { apply map_ext_in. intros [b k] Hin. apply (appended_bytes w w1 _ b k Hw Hstep).
    rewrite Forall_forall in Hl. apply Hl. by apply list_elem_of_In. }
  rewrite Heq in Ho', Ht'.
  unfold appended. split_and!; [|done|congruence|congruence| |].
  - by rewrite Ho', Ho, app_assoc.
  - intros b Hb2. rewrite Hm'; [by apply Hm|]. unfold foreign in *. by rewrite Hb, He.
  - rewrite Ht', Ht, length_app. lia.
Qed.
End writing.

(** ** A library *)

(** The bytes of a list stored from an address on. *)
Definition store_list (m : memory) (a : Z) (l : list Z) : memory := fun x =>
  if (a <=? x) && (x <? a + Z.of_nat (length l)) then nth (Z.to_nat (x - a)) l 0 else m x.

Lemma bytes_stored m a l n : n = Z.of_nat (length l) -> bytes (store_list m a l) a n = l.
Proof.
  intros ->. apply (nth_ext _ _ 0 0); rewrite length_bytes, Nat2Z.id; [done|]. intros i Hi.
  unfold bytes. rewrite Nat2Z.id, (nth_indep _ 0 (store_list m a l (a + Z.of_nat 0)))
    by (by rewrite length_map, length_seq).
  rewrite (map_nth (fun i => store_list m a l (a + Z.of_nat i))), seq_nth by done.
  unfold store_list. rewrite (proj2 (Z.leb_le _ _)), (proj2 (Z.ltb_lt _ _)) by lia. cbn [andb].
  f_equal. lia.
Qed.

(** A file as the bytes ahead and the bytes written.  Reads past the buffer and writes that do
    not fit go to the file directly. *)
Abbreviation plain_file := (list Z * list Z)%type.

Definition plain_tell (c : IO_CACHE) (pos p : Z) (e : Z) : IO_CACHE :=
  IoCache pos p e (buffer c) (request_pos c) (write_buffer c) (write_pos c) (write_end c)
    (write_cache c) (buffer_length c).
Definition plain_read (Buffer n : Z) (w : world plain_file) : Z * world plain_file :=
  let c := info w in
  let '(f, out) := file w in
  let u := (bytes (mem w) (read_pos c) (buffered w) ++ f)%list in
  if n =? 0 then
    let got := take (Z.to_nat (buffer_length c)) f in
    if Z.of_nat (length got) =? 0 then (1, w)
    else (0, World (plain_tell c (pos_in_file c + read_pos c - buffer c) (buffer c) (buffer c + Z.of_nat (length got)))
                   (store_list (mem w) (buffer c) got) (drop (Z.to_nat (buffer_length c)) f, out))
  else if n <=? Z.of_nat (length u) then
    (0, World (plain_tell c (pos_in_file c + (n - buffered w)) (read_end c) (read_end c))
              (store_list (mem w) Buffer (take (Z.to_nat n) u)) (drop (Z.to_nat (n - buffered w)) f, out))
  else (1, w).
Definition plain_get (w : world plain_file) : Z * world plain_file :=
  let c := info w in
  match file w with
  | ([], _) => (my_b_EOF, w)
  | (b :: f, out) => (b, World (plain_tell c (pos_in_file c + 1) (read_pos c) (read_end c)) (mem w) (f, out))
  end.
Definition flushed (w : world plain_file) (l : list Z) : world plain_file :=
  let c := info w in
  World (IoCache (pos_in_file c + (write_pos c - write_buffer c) + Z.of_nat (length l)) (read_pos c) (read_end c)
           (buffer c) (request_pos c) (write_buffer c) (write_buffer c) (write_end c) (write_cache c) (buffer_length c))
        (mem w) ((file w).1, ((file w).2 ++ bytes (mem w) (write_buffer c) (write_pos c - write_buffer c) ++ l)%list).

#[export] Instance plain_library : IoLibrary plain_file := {|
  _my_b_read := plain_read;
  _my_b_write Buffer n w := (0, flushed w (bytes (mem w) Buffer n));
  _my_b_get := plain_get;
  my_b_flush_io_cache _ w := (0, flushed w []);
|}.

#[export, refine] Instance plain_reads : ReadLibrary plain_file := {| ahead f := f.1 |}.
Proof.
  - intros Buffer n w (Hr1 & Hr2 & Hr3 & Hr4) Ho Hn. cbn. unfold plain_read.
    destruct w as [c m [f out]]. unfold unread, buffered in *. cbn in *.
    destruct (Z.eqb_spec n 0); [lia|]. rewrite length_app, length_bytes.
    destruct (Z.leb_spec n (Z.of_nat (Z.to_nat (read_end c - read_pos c) + length f))); [|split; [lia|done]].
    split; [|lia]. intros _. split; [done|]. cbn. split.
    + apply bytes_stored. rewrite length_take, length_app, length_bytes. lia.
    + unfold consumed, unread, readable, same_buffer, my_b_tell, current_pos, buffered. cbn. rewrite Hr4.
      split_and!; try done; try lia. rewrite Z.sub_diag, bytes_0, drop_app, length_bytes. cbn.
      rewrite (drop_ge (bytes _ _ _)) by (rewrite length_bytes; lia). cbn. f_equal. lia.
  - intros w (Hr1 & Hr2 & Hr3 & Hr4) Hb. cbn. unfold plain_get, unread, consumed, readable, same_buffer, my_b_tell, current_pos, buffered in *.
    destruct w as [c m [f out]]. cbn in *. rewrite Hb, bytes_0. cbn. destruct f as [|b f]; cbn; [done|].
    unfold unread, buffered. cbn. rewrite Hb, Hr4. split_and!; try done; lia.
  - intros w (Hr1 & Hr2 & Hr3 & Hr4) Hb. cbn. unfold plain_read. destruct w as [c m [f out]].
    unfold buffered in Hb. cbn in *.
    pose proof (length_take f (Z.to_nat (buffer_length c))) as Hlen.
    pose proof (take_drop (Z.to_nat (buffer_length c)) f) as Htd.
    set (got := take _ _) in *. clearbody got. set (left := drop _ _) in *. clearbody left.
    unfold unread, buffered, consumed. cbn. rewrite Hb, bytes_0. cbn.
    destruct (Z.eqb_spec (Z.of_nat (length got)) 0) as [H0|H0]; cbn.
    + destruct f; [done|]. cbn [length] in *. lia.
    + unfold readable, same_buffer, my_b_tell, current_pos, unread, buffered. cbn. rewrite Hr4, Hb.
      replace (buffer c + Z.of_nat (length got) - buffer c) with (Z.of_nat (length got)) by lia.
      rewrite bytes_stored, bytes_0 by done. split_and!; try done; lia.
Defined.

Lemma flushed_appended (w : world plain_file) (l : list Z) :
  writable w -> appended snd w (flushed w l) l.
Proof.
  intros (Hw1 & Hw2 & Hw3). unfold appended, output, writable, my_b_tell, current_pos. cbn. rewrite Hw3.
  split_and!; try done; try lia. rewrite Z.sub_diag, bytes_0, app_nil_r. by rewrite app_assoc.
Qed.

#[export, refine] Instance plain_writes : WriteLibrary plain_file := {| written f := f.2 |}.
Proof.
  - intros Buffer n w Hw Ha Hn. cbn. intros _. by apply flushed_appended.
  - intros b w Hw. cbn. intros _. split; [by apply flushed_appended|].
    destruct Hw as (Hw1 & Hw2 & Hw3). unfold room. cbn. lia.
Defined.

(** One on which nothing can be done. *)
#[export] Instance full_disk : IoLibrary unit := {|
  _my_b_read _ _ w := (-1, w);
  _my_b_write _ _ w := (-1, w);
  _my_b_get w := (my_b_EOF, w);
  my_b_flush_io_cache _ w := (-1, w);
|}.

(** A read cache with 3 bytes in the buffer and 3 bytes in the file behind it. *)
Definition demo_read : world plain_file :=
  World (IoCache 0 100 103 100 100 0 0 0 false 3) (fun a => a) ([7; 8; 9], []).
(** A write cache of 4 bytes, one of them used. *)
Definition demo_write : world plain_file :=
  World (IoCache 0 0 0 100 100 100 101 104 true 4) (fun a => a) ([], [1]).

Lemma demo_readable : readable demo_read.
Proof. unfold readable. cbn. lia. Qed.
Lemma demo_writable : writable demo_write.
Proof. unfold writable. cbn. lia. Qed.

Lemma my_b_read_next_witness :
  let '(r, w') := my_b_read 200 5 demo_read in r = 0 /\ bytes (mem w') 200 5 = [100; 101; 102; 7; 8].
Proof.
  pose proof (my_b_read_next 200 5 demo_read demo_readable) as Hn.
  destruct (my_b_read 200 5 demo_read) as [r w']. destruct Hn as [Hn _]; [unfold outside, apart; cbn; lia|lia|].
  destruct Hn as (Hr & Hb & _); [by vm_compute|]. split; [exact Hr|exact Hb].
Defined.

Lemma my_b_get_next_witness : (my_b_get demo_read).1 = 100.
Proof.
  pose proof (my_b_get_next demo_read demo_readable) as Hn. destruct (my_b_get demo_read). exact (proj1 Hn).
Defined.

Lemma reads_stream_witness :
  (read_all 200 [Get; Read 4; Get] demo_read).1 = [100; 101; 102; 7; 8; 9].
Proof.
  pose proof (reads_stream 200 [Get; Read 4; Get] demo_read demo_readable) as Hs.
  destruct (read_all 200 [Get; Read 4; Get] demo_read). refine (proj1 (Hs _ _)); [|by vm_compute].
  repeat first [apply Forall_nil_2 | apply Forall_cons_2]; cbn; unfold outside, apart; cbn; lia.
Defined.

Lemma my_b_fill_spec_witness :
  (my_b_fill (World (with_read_pos (info demo_read) 103) (mem demo_read) (file demo_read))).1 = 3.
Proof.
  pose proof (my_b_fill_spec (World (with_read_pos (info demo_read) 103) (mem demo_read) (file demo_read))) as Hf.
  assert (Hf' := Hf ltac:(unfold readable; cbn; lia) eq_refl). clear Hf.
  set (w := my_b_fill _) in *. destruct w as [n w'] eqn:E. destruct Hf' as [[_ Hu]|(_ & Hn & _)]; [done|].
  cbn. rewrite Hn. replace w' with (snd w) by (by rewrite E). reflexivity.
Defined.

Lemma my_b_write_appends_witness :
  let '(r, w') := my_b_write 200 5 demo_write in r = 0 -> output snd w' = [1; 100; 200; 201; 202; 203; 204].
Proof.
  pose proof (my_b_write_appends 200 5 demo_write demo_writable) as Hw.
  destruct (my_b_write 200 5 demo_write) as [r w']. intros Hr.
  refine (proj1 (proj1 (Hw _ _) Hr)); [lia|unfold apart; cbn; lia].
Defined.

Lemma my_b_write_byte_appends_witness : output snd (my_b_write_byte 9 demo_write) = [1; 100; 9].
Proof. exact (proj1 (my_b_write_byte_appends 9 demo_write demo_writable (or_intror eq_refl))). Defined.

Lemma my_b_write_byte_overruns_witness :
  let w := World (IoCache 0 0 0 100 100 100 104 104 true 4) (fun a => a) tt in
  mem (my_b_write_byte 9 w) 104 = 9.
Proof.
  exact (proj1 (my_b_write_byte_overruns 9
    (World (IoCache 0 0 0 100 100 100 104 104 true 4) (fun a => a) tt) eq_refl eq_refl)).
Defined.

Lemma writes_concatenate_witness :
  let '(ok, w') := write_all [(200, 2); (300, 3)] demo_write in
  ok = true -> output snd w' = [1; 100; 200; 201; 300; 301; 302].
Proof.
  pose proof (writes_concatenate [(200, 2); (300, 3)] demo_write demo_writable) as Hw.
  destruct (write_all [(200, 2); (300, 3)] demo_write) as [ok w']. intros Hok.
  refine (proj1 (Hw _ Hok)).
  repeat first [apply Forall_nil_2 | apply Forall_cons_2]; unfold caller_memory, apart; cbn; lia.
Defined.
