(* ===== verification/Counters.v ===== *)
(** * Shared counters

    [mysql/my_pthread.h] has macros for counters that threads share: [thread_safe_add] and
    its like take an instrumented mutex around the addition, [statistic_add] and its like do
    so only in a build with SAFE_STATISTICS.  Threads of such additions are interleaved call
    by call: a load and a store of the variable are two steps, and the performance schema
    answers as it likes. *)
From Stdlib Require Import ZArith Lia String.
From stdpp Require Import base tactics numbers strings relations list.
From S2P Require Import Prelude Words Effects PsiThread.

Local Open Scope Z_scope.
Local Open Scope tree_scope.

(** ** Threads of trees *)

(** A program over fewer calls. *)
Fixpoint widen {E F G A} (t : tree (sig_sum E F) A) : tree (sig_sum E (sig_sum F G)) A :=
  match t with
  | Done a => Done a
  | Call o k =>
      match o return ((res (sig_sum E F) o -> tree (sig_sum E F) A) -> tree (sig_sum E (sig_sum F G)) A) with
      | inl e => fun k => Call (E := sig_sum E (sig_sum F G)) (inl e) (fun r => widen (k r))
      | inr f => fun k => Call (E := sig_sum E (sig_sum F G)) (inr (inl f)) (fun r => widen (k r))
      end k
  end.

Section tree_threads.
Context {E : signature} {S : Type} (serve : nat -> S -> forall o : op E, res E o -> S -> Prop).

(** One call of one thread. *)
Inductive tree_step {A} : S * list (tree E A) -> S * list (tree E A) -> Prop :=
| tree_step_call i s ts o k r s' :
    ts !! i = Some (Call o k) -> serve i s o r s' ->
    tree_step (s, ts) (s', <[i := k r]> ts).

Definition is_done {A} (t : tree E A) : bool := match t with Done _ => true | Call _ _ => false end.

Lemma not_all_done {A} (ts : list (tree E A)) :
  forallb is_done ts = false -> exists i o k, ts !! i = Some (Call o k).
Proof.
  induction ts as [|[a|o k] ts IH]; simpl; [done| |by exists 0%nat, o, k].
  intros (i & o & k & Hi)%IH. by exists (1 + i)%nat, o, k.
Qed.
Lemma all_done {A} (ts : list (tree E A)) i t :
  forallb is_done ts = true -> ts !! i = Some t -> exists a, t = Done a.
Proof.
  revert i. induction ts as [|[a|o k] ts IH]; intros [|i]; simpl; [done|done| |eauto|done|done].
  intros _ [= <-]. eauto.
Qed.

Section protocol.
Context {G : Type} (pre : G -> op E -> Prop) (upd : G -> forall o : op E, res E o -> G).

(** As [Threads.follows]: every call is allowed in the ghost state reached, and [Q] holds at
    the end. *)
Fixpoint tree_follows {A} (t : tree E A) (g : G) (Q : G -> A -> Prop) : Prop :=
  match t with
  | Done a => Q g a
  | Call o k => pre g o /\ forall r, tree_follows (k r) (upd g o r) Q
  end.

Lemma tree_follows_bind {A B} (t : tree E A) (f : A -> tree E B) g (Q : G -> B -> Prop) :
  tree_follows t g (fun g a => tree_follows (f a) g Q) -> tree_follows (tbind t f) g Q.
Proof.
  revert g. induction t as [a|o k IH]; intros g; simpl; [done|]. intros [Ho Hk]. auto.
Qed.

Lemma tree_follows_mono {A} (t : tree E A) g (Q Q' : G -> A -> Prop) :
  (forall g a, Q g a -> Q' g a) -> tree_follows t g Q -> tree_follows t g Q'.
Proof. intros HQ. revert g. induction t as [a|o k IH]; intros g; simpl; [auto|]. intros [Ho Hk]. auto. Qed.

Context (R : S -> list G -> Prop).
Hypothesis R_step : forall i s gs g o r s',
  R s gs -> gs !! i = Some g -> pre g o -> serve i s o r s' -> R s' (<[i := upd g o r]> gs).

Lemma tree_inv_reachable {A} (Q : G -> A -> Prop) x y :
  rtc tree_step x y ->
  (exists gs, R x.1 gs /\ Forall2 (fun t g => tree_follows t g Q) x.2 gs) ->
  (exists gs, R y.1 gs /\ Forall2 (fun t g => tree_follows t g Q) y.2 gs).
Proof using R_step.
  induction 1 as [x|x y z Hxy _ IH]; [done|]. intros (gs & HR & Hts). apply IH. clear IH.
  destruct Hxy as [i s ts o k r s' Hi Hs]. simpl in *.
  destruct (Forall2_lookup_l _ _ _ _ _ Hts Hi) as (g & Hg & [Hpre Hk]).
  exists (<[i := upd g o r]> gs). split; [by eapply R_step|]. by apply Forall2_insert.
Qed.
End protocol.

(** Programs are finite: every execution ends. *)
Definition goes_to {A} (t u : tree E A) : Prop :=
  match t with Done _ => False | Call o k => exists r, u = k r end.
Definition one_smaller {A} (l ts : list (tree E A)) : Prop :=
  exists i t u, ts !! i = Some t /\ goes_to t u /\ l = <[i := u]> ts.

Lemma one_smaller_acc {A} (ts : list (tree E A)) : Acc one_smaller ts.
Proof.
  induction ts as [|t ts IHts]; [constructor; intros l (i & t & u & [=] & _)|].
  revert ts IHts. induction t as [a|o k IHt]; intros ts Hacc; induction Hacc as [ts Hts IHts];
    constructor; intros l ([|i] & t' & u & Hi & Hu & ->); simpl in *.
  - by simplify_eq.
  - apply IHts. by exists i, t', u.
  - injection Hi as <-. destruct Hu as [r ->]. apply IHt. by constructor.
  - apply IHts. by exists i, t', u.
Qed.

Lemma tree_step_ends {A} (x : S * list (tree E A)) : Acc (flip tree_step) x.
Proof.
  destruct x as [s ts]. revert s. induction (one_smaller_acc ts) as [ts _ IH]. intros s.
  constructor. intros y Hstep. unfold flip in Hstep. inversion Hstep as [i s1 ts1 o k r s' Hi Hs]; subst.
  apply IH. exists i, (Call o k), (k r). repeat split; [done|by exists r].
Qed.
End tree_threads.

(** ** The macros *)

(** The accesses to a variable of type [ulong]. *)
Inductive var_call := load (V : obj) | store (V : obj) (x : Z).
Definition var_sig : signature := Signature var_call (fun c =>
  match c with load _ => Z | store _ _ => unit end).
Abbreviation counter_sig := (sig_sum psi_thread (sig_sum lib_thread var_sig)).
Abbreviation counter_tree := (tree counter_sig).

Definition var_op (c : var_call) : counter_tree (res var_sig c) :=
  Call (E := counter_sig) (inr (inr c)) Done.

(** [(V)+=(C)], [(V)-=(C)], [(V)++] and [(V)--]. *)
Definition add_assign (V : obj) (C : Z) : counter_tree unit :=
  tbind (var_op (load V)) (fun x => var_op (store V (u64 (x + C)))).
Definition sub_assign (V : obj) (C : Z) : counter_tree unit :=
  tbind (var_op (load V)) (fun x => var_op (store V (u64 (x - C)))).
Definition post_increment (V : obj) : counter_tree unit := add_assign V 1.
Definition post_decrement (V : obj) : counter_tree unit := sub_assign V 1.

Section macros.
Context (cfg : thread_build) (src_file : string) (src_line : Z).

(** [(mysql_mutex_lock((L)), ..., mysql_mutex_unlock((L)))]; the answers are not looked at. *)
Definition locked (L : mysql_mutex_t) (body : counter_tree unit) : counter_tree unit :=
  tbind (widen (inline_mysql_mutex_lock cfg L src_file src_line)) (fun _ =>
  tbind body (fun _ =>
  tbind (widen (inline_mysql_mutex_unlock cfg L src_file src_line)) (fun _ => Done tt))).

Definition thread_safe_increment (V : obj) (L : mysql_mutex_t) : counter_tree unit := locked L (post_increment V).
Definition thread_safe_decrement (V : obj) (L : mysql_mutex_t) : counter_tree unit := locked L (post_decrement V).
Definition thread_safe_add (V : obj) (C : Z) (L : mysql_mutex_t) : counter_tree unit := locked L (add_assign V C).
Definition thread_safe_sub (V : obj) (C : Z) (L : mysql_mutex_t) : counter_tree unit := locked L (sub_assign V C).

(** The build option. *)
Context (SAFE_STATISTICS : bool).

Definition statistic_increment (V : obj) (L : mysql_mutex_t) : counter_tree unit :=
  if SAFE_STATISTICS then thread_safe_increment V L else post_increment V.
Definition statistic_decrement (V : obj) (L : mysql_mutex_t) : counter_tree unit :=
  if SAFE_STATISTICS then thread_safe_decrement V L else post_decrement V.
Definition statistic_add (V : obj) (C : Z) (L : mysql_mutex_t) : counter_tree unit :=
  if SAFE_STATISTICS then thread_safe_add V C L else add_assign V C.
Definition statistic_sub (V : obj) (C : Z) (L : mysql_mutex_t) : counter_tree unit :=
  if SAFE_STATISTICS then thread_safe_sub V C L else sub_assign V C.

(** Counters owned by the thread. *)
Definition status_var_increment (V : obj) : counter_tree unit := post_increment V.
Definition status_var_decrement (V : obj) : counter_tree unit := post_decrement V.
Definition status_var_add (V : obj) (C : Z) : counter_tree unit := add_assign V C.
Definition status_var_sub (V : obj) (C : Z) : counter_tree unit := sub_assign V C.

(** With SAFE_MUTEX the detector of deadlocks is shown the order of two mutexes. *)
Definition mysql_mutex_record_order (A B : mysql_mutex_t) : counter_tree unit :=
  if SAFE_MUTEX cfg then
    tbind (widen (inline_mysql_mutex_lock cfg A src_file src_line)) (fun _ =>
    tbind (widen (inline_mysql_mutex_lock cfg B src_file src_line)) (fun _ =>
    tbind (widen (inline_mysql_mutex_unlock cfg B src_file src_line)) (fun _ =>
    tbind (widen (inline_mysql_mutex_unlock cfg A src_file src_line)) (fun _ => Done tt))))
  else Done tt.

(** ** Threads that count *)

Inductive bump :=
| Increment (V : obj) (L : mysql_mutex_t)
| Decrement (V : obj) (L : mysql_mutex_t)
| Add (V : obj) (C : Z) (L : mysql_mutex_t)
| Sub (V : obj) (C : Z) (L : mysql_mutex_t).

Definition count_once (b : bump) : counter_tree unit :=
  match b with
  | Increment V L => statistic_increment V L
  | Decrement V L => statistic_decrement V L
  | Add V C L => statistic_add V C L
  | Sub V C L => statistic_sub V C L
  end.

Fixpoint count (l : list bump) : counter_tree unit :=
  match l with
  | [] => Done tt
  | b :: l => tbind (count_once b) (fun _ => count l)
  end.
End macros.

Definition bumped (b : bump) : obj :=
  match b with Increment V _ | Decrement V _ | Add V _ _ | Sub V _ _ => V end.
Definition amount (b : bump) : Z :=
  match b with Increment _ _ => 1 | Decrement _ _ => -1 | Add _ C _ => C | Sub _ C _ => - C end.
Definition mutex_of (b : bump) : obj :=
  match b with Increment _ L | Decrement _ L | Add _ _ L | Sub _ _ L => m_mutex L end.

(** What a list of additions adds to [V]. *)
Definition total (V : obj) (l : list bump) : Z :=
  sum_of (fun b => if decide (bumped b = V) then amount b else 0) l.

(** ** The machine *)

(** Who holds each mutex, and the variables. *)
Record machine := Machine { owner : obj -> option nat; vars : obj -> Z }.

Definition update_at {A} (f : obj -> A) (a : obj) (x : A) : obj -> A :=
  fun b => if decide (b = a) then x else f b.

Inductive mutex_effect := Acquires (m : obj) | Releases (m : obj) | Other.

(** The library's functions behind [mysql_mutex_lock] and [mysql_mutex_unlock]. *)
Definition effect_of (c : lib_thread_call) : mutex_effect :=
  match c with
  | safe_mutex_lock m false _ _ | my_pthread_fastmutex_lock m | pthread_mutex_lock m => Acquires m
  | safe_mutex_unlock m _ _ | pthread_mutex_unlock (Whole m) | pthread_mutex_unlock (fast_inner m) => Releases m
  | _ => Other
  end.

(** A mutex is acquired when it is free and released by its holder; the instrumentation
    leaves the machine alone. *)
Definition counter_serve (hook_answer : forall c : psi_thread_call, res psi_thread c)
    (i : nat) (s : machine) (o : op counter_sig) : option (res counter_sig o * machine) :=
  match o return option (res counter_sig o * machine) with
  | inl c => Some (hook_answer c, s)
  | inr (inl c) =>
      match effect_of c with
      | Acquires m =>
          if owner s m is Some _ then None else Some (0, Machine (update_at (owner s) m (Some i)) (vars s))
      | Releases m =>
          if decide (owner s m = Some i) then Some (0, Machine (update_at (owner s) m None) (vars s)) else None
      | Other => None
      end
  | inr (inr (load V)) => Some (vars s V, s)
  | inr (inr (store V x)) => Some (tt, Machine (owner s) (update_at (vars s) V x))
  end.

Definition counter_serves (i : nat) (s : machine) (o : op counter_sig) (r : res counter_sig o) (s' : machine) : Prop :=
  exists hook_answer, counter_serve hook_answer i s o = Some (r, s').

Definition counting : relation (machine * list (counter_tree unit)) := tree_step counter_serves.

(** ** The protocol *)

Section safety.
Context (cfg : thread_build) (src_file : string) (src_line : Z).
(** The one mutex of each variable. *)
Context (guard : obj -> obj).

(** A thread's mutex, what it has loaded, and the additions it has not made. *)
Record progress := Progress { held : option obj; seen : option Z; todo : list bump }.

Definition may (g : progress) (o : op counter_sig) : Prop :=
  match o with
  | inl _ => True
  | inr (inl c) =>
      match effect_of c with
      | Acquires m => held g = None /\ seen g = None
      | Releases m => held g = Some m /\ seen g = None
      | Other => False
      end
  | inr (inr (load V)) => exists b l,
      todo g = b :: l /\ bumped b = V /\ held g = Some (guard V) /\ seen g = None
  | inr (inr (store V x)) => exists b l y,
      todo g = b :: l /\ bumped b = V /\ held g = Some (guard V) /\ seen g = Some y /\ x = u64 (y + amount b)
  end.

Definition advance (g : progress) (o : op counter_sig) : res counter_sig o -> progress :=
  match o return res counter_sig o -> progress with
  | inl _ => fun _ => g
  | inr (inl c) => fun _ =>
      match effect_of c with
      | Acquires m => Progress (Some m) (seen g) (todo g)
      | Releases m => Progress None (seen g) (todo g)
      | Other => g
      end
  | inr (inr (load V)) => fun x => Progress (held g) (Some x) (todo g)
  | inr (inr (store V x)) => fun _ => Progress (held g) None (tail (todo g))
  end.

Abbreviation obeys t g Q := (tree_follows may advance t g Q).

Lemma lock_obeys L l (Q : progress -> Z -> Prop) :
  (forall r, Q (Progress (Some (m_mutex L)) None l) r) ->
  obeys (widen (inline_mysql_mutex_lock cfg L src_file src_line)) (Progress None None l) Q.
Proof.
  intros HQ. unfold inline_mysql_mutex_lock, raw_mutex_lock.
  destruct (HAVE_PSI_MUTEX_INTERFACE cfg), (mutex_psi L), (SAFE_MUTEX cfg), (MY_PTHREAD_FASTMUTEX cfg);
    repeat (cbn; first [apply HQ | split; [done|] | match goal with |- context [match ?r with Some _ => _ | None => _ end] => destruct r end | intros ?]).
Qed.

Lemma unlock_obeys L l (Q : progress -> Z -> Prop) :
  (forall r, Q (Progress None None l) r) ->
  obeys (widen (inline_mysql_mutex_unlock cfg L src_file src_line)) (Progress (Some (m_mutex L)) None l) Q.
Proof.
  intros HQ. unfold inline_mysql_mutex_unlock, raw_mutex_unlock.
  destruct (HAVE_PSI_MUTEX_INTERFACE cfg), (mutex_psi L), (SAFE_MUTEX cfg), (MY_PTHREAD_FASTMUTEX cfg);
    repeat (cbn; first [apply HQ | split; [done|] | intros ?]).
Qed.

Lemma count_once_obeys b l (Q : progress -> unit -> Prop) :
  mutex_of b = guard (bumped b) -> Q (Progress None None l) tt ->
  obeys (count_once cfg src_file src_line true b) (Progress None None (b :: l)) Q.
Proof.
  intros Hb HQ. destruct b as [V L|V L|V C L|V C L]; simpl in Hb;
    apply tree_follows_bind, lock_obeys; intros _; cbn; rewrite Hb;
    (split; [by eexists _, l|]; intros x; split; [by eexists _, l, x|]; intros []);
    apply tree_follows_bind; rewrite <- Hb; by apply unlock_obeys.
Qed.

Definition guarded (l : list bump) : Prop := Forall (fun b => mutex_of b = guard (bumped b)) l.
Definition finished (g : progress) (_ : unit) : Prop := g = Progress None None [].

Lemma count_obeys l : guarded l ->
  obeys (count cfg src_file src_line true l) (Progress None None l) finished.
Proof.
  induction 1 as [|b l Hb _ IH]; [done|]. cbn. by apply tree_follows_bind, count_once_obeys.
Qed.

(** ** The invariant *)

Record sound (goal : obj -> Z) (s : machine) (gs : list progress) : Prop := Sound {
  owners i g : gs !! i = Some g -> forall m, owner s m = Some i <-> held g = Some m;
  owners_run m i : owner s m = Some i -> is_Some (gs !! i);
  words V : 0 <= vars s V < 2 ^ 64;
  balance V : u64 (vars s V + sum_of (fun g => total V (todo g)) gs) = goal V;
  fresh i g x : gs !! i = Some g -> seen g = Some x -> exists b l,
    todo g = b :: l /\ held g = Some (guard (bumped b)) /\ vars s (bumped b) = x;
}.

Lemma update_at_same {A} (f : obj -> A) a x : update_at f a x a = x.
Proof. unfold update_at. by rewrite decide_True. Qed.
Lemma update_at_other {A} (f : obj -> A) a x b : b <> a -> update_at f a x b = f b.
Proof. intros Hb. unfold update_at. by rewrite decide_False. Qed.

(** Nothing is added and nothing changes but the thread's mutex and what it has loaded. *)
Lemma sum_todo_insert (gs : list progress) i g g' V :
  gs !! i = Some g ->
  sum_of (fun g => total V (todo g)) (<[i := g']> gs) =
  sum_of (fun g => total V (todo g)) gs - total V (todo g) + total V (todo g').
Proof. apply (sum_of_insert (fun g => total V (todo g))). Qed.

Lemma sound_owner goal s gs i g m o' h :
  sound goal s gs -> gs !! i = Some g -> seen g = None ->
  (o' = Some i /\ h = Some m /\ owner s m = None /\ held g = None \/
   o' = None /\ h = None /\ held g = Some m) ->
  sound goal (Machine (update_at (owner s) m o') (vars s)) (<[i := Progress h (seen g) (todo g)]> gs).
Proof.
  intros [Ho Hr Hw Hb Hf] Hi Hseen Hcase. pose proof (Ho i g Hi) as Hg. split; simpl.
  - intros j gj Hj m'. pose proof (fun g Hg => Ho j g Hg m) as Hjm. unfold update_at.
    destruct (insert_cases _ _ _ _ _ Hj) as [[-> ->]|[Hne Hj']]; simpl;
      [pose proof (Hg m')|pose proof (Ho j gj Hj' m'); pose proof (Hjm gj Hj'); pose proof (Hg m)];
      destruct Hcase as [(-> & -> & Hm & Hh)|(-> & -> & Hh)]; case_decide; naive_solver congruence.
  - intros m' j. unfold update_at. destruct (decide (m' = m)) as [->|].
    + intros ->. destruct Hcase as [([= ->] & _)|([=] & _)]. rewrite list_lookup_insert_eq; [done|by eapply lookup_lt_Some].
    + intros [gj Hj]%Hr. apply list_lookup_insert_is_Some. eauto.
  - done.
  - intros V. rewrite (sum_todo_insert _ _ g) by done. simpl. rewrite <- (Hb V). f_equal. lia.
  - intros j gj x [[-> ->]|[Hne Hj]]%insert_cases; simpl; [congruence|eauto].
Qed.

Lemma sound_step goal i s gs g o r s' :
  sound goal s gs -> gs !! i = Some g -> may g o -> counter_serves i s o r s' ->
  sound goal s' (<[i := advance g o r]> gs).
Proof.
  intros HR Hi Hmay [h Hs]. destruct o as [c|[c|[V|V x]]]; simpl in *.
  - simplify_eq. by rewrite list_insert_id.
  - destruct (effect_of c) as [m|m|]; [| |done]; destruct Hmay as [Hheld Hseen].
    + destruct (owner s m) eqn:Hm; simplify_eq. eapply sound_owner; eauto 10.
    + case_decide; simplify_eq. eapply sound_owner; eauto 10.
  - simplify_eq. destruct Hmay as (b & l & Htodo & <- & Hheld & Hseen).
    destruct HR as [Ho Hr Hw Hb Hf]. split; simpl; [| |done| |].
    + intros j gj [[-> ->]|[Hne Hj]]%insert_cases; [by apply (Ho i g)|by apply Ho].
    + intros m j [gj Hj]%Hr. apply list_lookup_insert_is_Some. eauto.
    + intros V. rewrite (sum_todo_insert _ _ g) by done. simpl. rewrite <- (Hb V). f_equal. lia.
    + intros j gj x [[-> ->]|[Hne Hj]]%insert_cases; simpl; [|eauto]. intros [= <-]. eauto.
  - destruct Hmay as (b & l & y & Htodo & <- & Hheld & Hseen & ->). simplify_eq.
    destruct HR as [Ho Hr Hw Hb Hf]. destruct (Hf i g y Hi Hseen) as (b' & l' & Htodo' & _ & Hy).
    rewrite Htodo in Htodo'. simplify_eq. split; simpl.
    + intros j gj [[-> ->]|[Hne Hj]]%insert_cases; [by apply (Ho i g)|by apply Ho].
    + intros m j [gj Hj]%Hr. apply list_lookup_insert_is_Some. eauto.
    + intros V. unfold update_at. case_decide; [apply u64_range|done].
    + intros V. rewrite (sum_todo_insert _ _ g) by done. simpl. rewrite Htodo, <- (Hb V). simpl.
      unfold update_at, total. simpl. destruct (decide (V = bumped b')) as [->|].
      * rewrite decide_True by done. unfold u64. rewrite Zplus_mod_idemp_l. f_equal. lia.
      * rewrite decide_False by done. f_equal. lia.
    + intros j gj x [[-> ->]|[Hne Hj]]%insert_cases; simpl; [done|]. intros Hx.
      destruct (Hf j gj x Hj Hx) as (bj & lj & Htj & Hhj & Hvj). exists bj, lj.
      repeat split; [done|done|]. rewrite update_at_other; [done|]. intros Heq. rewrite Heq in Hhj.
      apply (Ho j gj Hj) in Hhj. apply (Ho i g Hi) in Hheld. congruence.
Qed.

(** A call is answered at once, or waits for a mutex someone holds. *)
Lemma sound_answered goal s gs i g o :
  sound goal s gs -> gs !! i = Some g -> may g o ->
  (exists r s', counter_serves i s o r s') \/ (held g = None /\ exists m j, owner s m = Some j).
Proof.
  intros HR Hi Hmay. unfold counter_serves.
  assert (Hh : exists h : forall c : psi_thread_call, res psi_thread c, True).
  { unshelve eexists; [|done]. intros []; simpl; first [exact tt|exact None|exact 0]. }
  destruct Hh as [h _]. destruct o as [c|[c|[V|V x]]]; simpl in *.
  - left. by exists (h c), s, h.
  - destruct (effect_of c) as [m|m|]; [| |done]; destruct Hmay as [Hheld _].
    + destruct (owner s m) as [j|] eqn:Hm; [right; eauto|left]. by eexists _, _, h.
    + left. eexists _, _, h. apply (owners _ _ _ HR i g Hi) in Hheld. by rewrite decide_True.
  - left. by eexists _, _, h.
  - left. by eexists _, _, h.
Qed.

Lemma sound_progress goal s gs ts :
  sound goal s gs -> Forall2 (fun t g => obeys t g finished) ts gs ->
  forallb is_done ts = false -> exists z, counting (s, ts) z.
Proof.
  intros HR Hts Hnot.
  assert (Hgo : forall i g o k, ts !! i = Some (Call o k) -> gs !! i = Some g -> held g <> None ->
    exists z, counting (s, ts) z).
  { intros i g o k Hi Hg Hheld. destruct (Forall2_lookup_l _ _ _ _ _ Hts Hi) as (g' & Hg' & Hmay & _).
    simplify_eq. destruct (sound_answered goal s gs i g o HR Hg Hmay) as [(r & s' & Hs)|[? _]]; [|done].
    eexists. by eapply tree_step_call. }
  destruct (not_all_done ts Hnot) as (i & o & k & Hi).
  destruct (Forall2_lookup_l _ _ _ _ _ Hts Hi) as (g & Hg & Hmay & _).
  destruct (sound_answered goal s gs i g o HR Hg Hmay) as [(r & s' & Hs)|(_ & m & j & Hm)].
  { eexists. by eapply tree_step_call. }
  destruct (owners_run _ _ _ HR m j Hm) as [gj Hj]. apply (owners _ _ _ HR j gj Hj) in Hm.
  destruct (Forall2_lookup_r _ _ _ _ _ Hts Hj) as ([a|oj kj] & Htj & Hdo); [|apply (Hgo j gj oj kj); congruence].
  simpl in Hdo. unfold finished in Hdo. subst. done.
Qed.

(** Threads that make the additions of [progs], one list each. *)
Definition start (v0 : obj -> Z) (progs : list (list bump)) : machine * list (counter_tree unit) :=
  (Machine (fun _ => None) v0, count cfg src_file src_line true <$> progs).

(** What each variable must come to. *)
Definition sum_total (v0 : obj -> Z) (progs : list (list bump)) (V : obj) : Z :=
  u64 (v0 V + sum_of (total V) progs).

Lemma start_sound v0 progs :
  (forall V, 0 <= v0 V < 2 ^ 64) -> Forall guarded progs ->
  exists gs, sound (sum_total v0 progs) (start v0 progs).1 gs /\
    Forall2 (fun t g => obeys t g finished) (start v0 progs).2 gs.
Proof.
  intros Hv Hprogs. exists (Progress None None <$> progs). split.
  - split; simpl; [| |done| |].
    + intros i g Hg m. apply list_lookup_fmap_Some in Hg as (l & -> & _). done.
    + done.
    + intros V. unfold sum_total. do 2 f_equal. clear Hprogs. induction progs as [|l progs IH]; [done|].
      rewrite fmap_cons. simpl. by rewrite IH.
    + intros i g x Hg. apply list_lookup_fmap_Some in Hg as (l & -> & _). done.
  - simpl. apply Forall2_fmap_l, Forall2_fmap_r, Forall_Forall2_diag.
    eapply Forall_impl; [exact Hprogs|]. intros l Hl. by apply count_obeys.
Qed.

(** C28: in a build with SAFE_STATISTICS, threads that add to shared counters, each counter
    under one mutex, always come to an end together, and every counter then holds its first
    value with all additions made, modulo 2^64: no update is lost and no thread waits for ever,
    in every build of the mutexes and whatever the performance schema answers. *)
Theorem counters_exact (v0 : obj -> Z) (progs : list (list bump)) (y : machine * list (counter_tree unit)) :
  (forall V, 0 <= v0 V < 2 ^ 64) -> Forall guarded progs ->
  rtc counting (start v0 progs) y ->
  Acc (flip counting) y /\
  (forallb is_done y.2 = false -> exists z, counting y z) /\
  (forallb is_done y.2 = true ->
    forall V, vars y.1 V = u64 (v0 V + sum_of (total V) progs) /\ owner y.1 V = None).
Proof.
  intros Hv Hprogs Hy. split; [apply tree_step_ends|].
  destruct (tree_inv_reachable counter_serves may advance (sound (sum_total v0 progs)) 
    (fun i s gs g o r s' => sound_step _ i s gs g o r s') finished _ _ Hy (start_sound v0 progs Hv Hprogs))
    as (gs & HR & Hts). destruct y as [s ts]. simpl in *. split; [by apply (sound_progress (sum_total v0 progs) s gs ts)|].
  intros Hdone.
  assert (Hg : forall i g, gs !! i = Some g -> g = Progress None None []).
  { intros i g Hg. destruct (Forall2_lookup_r _ _ _ _ _ Hts Hg) as (t & Hi & Hdo).
    by destruct (all_done ts i t Hdone Hi) as [a ->]. }
  intros V. split.
  - change (u64 (v0 V + _)) with (sum_total v0 progs V). rewrite <- (balance _ _ _ HR V).
    enough (sum_of (fun g => total V (todo g)) gs = 0) as ->.
    { rewrite Z.add_0_r. symmetry. apply u64_small, (words _ _ _ HR). }
    clear -Hg. induction gs as [|g gs IH]; simpl; [done|].
    specialize (IH (fun i => Hg (S i))). rewrite (Hg 0%nat g eq_refl). simpl. by rewrite IH.
  - destruct (owner s V) as [i|] eqn:Ho; [|done]. destruct (owners_run _ _ _ HR V i Ho) as [g Hi].
    apply (owners _ _ _ HR i g Hi) in Ho. by rewrite (Hg i g Hi) in Ho.
Qed.
End safety.

(** ** Schedules *)

Section schedules.
Context (hook_answer : forall c : psi_thread_call, res psi_thread c).

(** One step of thread [i]; nothing happens when it waits or is done. *)
Definition counter_turn (x : machine * list (counter_tree unit)) (i : nat) : machine * list (counter_tree unit) :=
  match x.2 !! i with
  | Some (Call o k) =>
      match counter_serve hook_answer i x.1 o with
      | Some (r, s') => (s', <[i := k r]> x.2)
      | None => x
      end
  | _ => x
  end.
Definition counter_play (schedule : list nat) (x : machine * list (counter_tree unit)) : machine * list (counter_tree unit) :=
  foldl counter_turn x schedule.

Lemma counter_play_reachable schedule x : rtc counting x (counter_play schedule x).
Proof.
  revert x. induction schedule as [|i l IH]; intros x; [done|]. cbn [counter_play foldl].
  transitivity (counter_turn x i); [|apply IH]. destruct x as [s ts]. unfold counter_turn. simpl.
  destruct (ts !! i) as [[a|o k]|] eqn:Hi; [done| |done].
  destruct (counter_serve hook_answer i s o) as [[r s']|] eqn:Hs; [|done].
  apply rtc_once. apply tree_step_call with o; [done|]. by exists hook_answer.
Qed.
End schedules.

(** ** Runs *)

(** An instrumentation that times every wait. *)
Definition timed (c : psi_thread_call) : res psi_thread c :=
  match c return res psi_thread c with
  | init_mutex _ _ | init_rwlock _ _ | init_cond _ _ | get_thread => None
  | start_mutex_wait _ _ _ _ | start_rwlock_rdwait _ _ _ _ | start_rwlock_wrwait _ _ _ _
  | start_cond_wait _ _ _ _ _ => Some 1%positive
  | spawn_thread _ _ _ _ _ => 0
  | _ => tt
  end.

Definition timed_build : thread_build := ThreadBuild true true true true false true.
Definition LOCK_status : mysql_mutex_t := Mutex 9 (Some 5%positive).
Definition demo_threads : list (list bump) :=
  [[Increment 1 LOCK_status; Sub 2 3 LOCK_status]; [Add 1 7 LOCK_status; Decrement 1 LOCK_status]].
Definition demo_end : machine * list (counter_tree unit) :=
  counter_play timed (concat (replicate 20 [0%nat; 1%nat; 0%nat]))
    (start timed_build "sql.cc" 1 (fun _ => 2) demo_threads).

Lemma counters_exact_witness :
  forallb is_done demo_end.2 = true /\ vars demo_end.1 1 = 9 /\ vars demo_end.1 2 = 2 ^ 64 - 1.
Proof.
  assert (Hdone : forallb is_done demo_end.2 = true) by (vm_compute; reflexivity).
  destruct (counters_exact timed_build "sql.cc" 1 (fun _ => 9%positive) (fun _ => 2) demo_threads demo_end)
    as (_ & _ & Hend).
  - intros _. lia.
  - unfold demo_threads, guarded. repeat constructor.
  - apply counter_play_reachable.
  - specialize (Hend Hdone). split; [exact Hdone|].
    split; [rewrite (proj1 (Hend 1%positive))|rewrite (proj1 (Hend 2%positive))]; reflexivity.
Defined.

(** Without SAFE_STATISTICS an update is lost: two increments of 0 make 1. *)
Lemma statistic_increment_loses :
  let y := counter_play timed [0; 1; 0; 1]%nat
    (Machine (fun _ => None) (fun _ => 0),
     count timed_build "sql.cc" 1 false <$> [[Increment 1 LOCK_status]; [Increment 1 LOCK_status]]) in
  forallb is_done y.2 = true /\ vars y.1 1 = 1.
Proof. vm_compute. done. Qed.

(** And so it is under two mutexes: a counter must have one. *)
Lemma two_mutexes_lose :
  let y := counter_play timed (concat (replicate 4 [0%nat; 1%nat]))
    (start timed_build "sql.cc" 1 (fun _ => 0)
       [[Increment 1 (Mutex 7 None)]; [Increment 1 (Mutex 8 None)]]) in
  forallb is_done y.2 = true /\ vars y.1 1 = 1.
Proof. vm_compute. done. Qed.
