(* ===== verification/Encryption.v ===== *)
(** * The encryption service

    The inline functions of [mysql/service_encryption.h], through which a consumer of the
    service encrypts a block of memory with an encryption plugin.  The plugin's functions are
    the calls of the programs; [CipherLaws] states what [mysql/plugin_encryption.h] documents
    of them. *)
From Stdlib Require Import ZArith Lia.
From stdpp Require Import base tactics numbers list.
From S2P Require Import Prelude Words Effects IoCache.

Local Open Scope Z_scope.

(** ** Constants and calls *)

Definition ENCRYPTION_KEY_VERSION_INVALID : Z := u32 (Z.lnot 0).
Definition ENCRYPTION_KEY_NOT_ENCRYPTED : Z := 0.
Definition ENCRYPTION_KEY_SYSTEM_DATA : Z := 1.
Definition ENCRYPTION_KEY_TEMPORARY_DATA : Z := 2.
Definition ENCRYPTION_KEY_BUFFER_TOO_SMALL : Z := 100.
Definition ENCRYPTION_FLAG_DECRYPT : Z := 0.
Definition ENCRYPTION_FLAG_ENCRYPT : Z := 1.
Definition ENCRYPTION_FLAG_NOPAD : Z := 2.

(** [struct encryption_service_st], and [alloca].  A length that a function stores through a
    pointer is part of its answer; [None]: it stores nothing. *)
Inductive encryption_call :=
| encryption_key_get_latest_version (key_id : Z)
| encryption_key_get (key_id key_version : Z) (buffer : option Z)
| encryption_ctx_size (key_id key_version : Z)
| alloca (size : Z)
| encryption_ctx_init (ctx key klen iv ivlen flags key_id key_version : Z)
| encryption_ctx_update (ctx src slen dst : Z)
| encryption_ctx_finish (ctx dst : Z).

Definition encryption_service : signature := Signature encryption_call (fun c =>
  match c with
  | encryption_key_get _ _ _ | encryption_ctx_update _ _ _ _ | encryption_ctx_finish _ _ => Z * option Z
  | _ => Z
  end)%type.
Abbreviation service := (tree encryption_service).

Definition ask (c : encryption_call) : service (res encryption_service c) := perform (E := encryption_service) c.

(** ** The functions *)

Definition encryption_key_id_exists (id : Z) : service bool :=
  tbind (ask (encryption_key_get_latest_version id)) (fun v =>
  Done (negb (v =? ENCRYPTION_KEY_VERSION_INVALID))).

Definition encryption_key_version_exists (id version : Z) : service bool :=
  tbind (ask (encryption_key_get id version None)) (fun '(r, unused) =>
  Done (negb (r =? ENCRYPTION_KEY_VERSION_INVALID))).

(** The result and what is stored in [*dlen]; [d1] and [d2] are uninitialised before the
    calls store in them. *)
Definition encryption_crypt (d1 d2 : Z) (src slen dst key klen iv ivlen flags key_id key_version : Z)
    : service (Z * option Z) :=
  tbind (ask (encryption_ctx_size key_id key_version)) (fun size : Z =>
  tbind (ask (alloca size)) (fun ctx : Z =>
  tbind (ask (encryption_ctx_init ctx key klen iv ivlen flags key_id key_version)) (fun res1 : Z =>
  if negb (res1 =? 0) then Done (res1, None) else
  tbind (ask (encryption_ctx_update ctx src slen dst)) (fun '((res1, stored) : Z * option Z) =>
  let d1 := default d1 stored in
  tbind (ask (encryption_ctx_finish ctx (dst + d1))) (fun '((res2, stored) : Z * option Z) =>
  let d2 := default d2 stored in
  Done (if negb (res1 =? 0) then res1 else res2, Some (u32 (d1 + d2)))))))).

(** ** What is called, whatever the plugin answers *)

(** The context is created, and when that succeeds it is always finished, once, also after an
    error; the first error is the result. *)
Lemma crypt_protocol {W} (h : forall o : encryption_call, W -> res encryption_service o * W) d1 d2
    src slen dst key klen iv ivlen flags key_id key_version w :
  let '(r, stored, calls, _) := trun (E := encryption_service) h
    (encryption_crypt d1 d2 src slen dst key klen iv ivlen flags key_id key_version) w in
  exists size ctx, let opening :=
    [encryption_ctx_size key_id key_version; alloca size;
     encryption_ctx_init ctx key klen iv ivlen flags key_id key_version] in
  r <> 0 /\ stored = None /\ calls = opening \/
  exists r1 d1' r2 d2',
    calls = opening ++ [encryption_ctx_update ctx src slen dst; encryption_ctx_finish ctx (dst + d1')] /\
    r = (if r1 =? 0 then r2 else r1) /\ stored = Some (u32 (d1' + d2')).
Proof.
  cbn. destruct (h (encryption_ctx_size _ _) w) as [size w1]. cbn.
  destruct (h (alloca _) w1) as [ctx w2]. cbn.
  destruct (h (encryption_ctx_init _ _ _ _ _ _ _ _) w2) as [r1 w3]. cbn in *.
  destruct (Z.eqb_spec r1 0) as [->|Hr]; cbn; [|exists size, ctx; by left].
  destruct (h (encryption_ctx_update _ _ _ _) w3) as [[r1 s1] w4]. cbn.
  destruct (h (encryption_ctx_finish _ _) w4) as [[r2 s2] w5]. cbn.
  exists size, ctx. right. exists r1, (default d1 s1), r2, (default d2 s2). repeat split. by destruct (r1 =? 0).
Qed.

(** A plugin whose update fails without storing a length leaves [d1] as it was, and the context
    is finished at an address that no one has chosen. *)
Lemma failed_update_finishes_anywhere {W} (h : forall o : encryption_call, W -> res encryption_service o * W)
    d1 d2 src slen dst key klen iv ivlen flags key_id key_version w r1 :
  (forall ctx w, (h (encryption_ctx_init ctx key klen iv ivlen flags key_id key_version) w).1 = 0) ->
  (forall ctx w, (h (encryption_ctx_update ctx src slen dst) w).1 = (r1, None)) ->
  exists ctx, List.In (encryption_ctx_finish ctx (dst + d1)) (trun (E := encryption_service) h
    (encryption_crypt d1 d2 src slen dst key klen iv ivlen flags key_id key_version) w).1.2.
Proof.
  intros Hinit Hupd. cbn. destruct (h (encryption_ctx_size _ _) w) as [size w1]. cbn.
  destruct (h (alloca _) w1) as [ctx w2]. cbn. specialize (Hinit ctx w2).
  destruct (h (encryption_ctx_init _ _ _ _ _ _ _ _) w2) as [r w3]. cbn in *. subst r. cbn.
  specialize (Hupd ctx w3). destruct (h (encryption_ctx_update _ _ _ _) w3) as [u w4]. cbn in *. subst u. cbn.
  destruct (h (encryption_ctx_finish _ _) w4) as [[r2 s2] w5]. cbn. exists ctx. simpl. auto 10.
Qed.

(** Only one error of [get_key] is one for [encryption_key_version_exists]; after any other the
    version is said to exist. *)
Lemma version_exists_errors {W} (h : forall o : encryption_call, W -> res encryption_service o * W) id version w :
  (trun (E := encryption_service) h (encryption_key_version_exists id version) w).1.1 = true <->
  (h (encryption_key_get id version None) w).1.1 <> 2 ^ 32 - 1.
Proof.
  cbn. destruct (h (encryption_key_get id version None) w) as [[r unused] w']. cbn.
  change ENCRYPTION_KEY_VERSION_INVALID with (2 ^ 32 - 1).
  destruct (Z.eqb_spec r (2 ^ 32 - 1)); simpl; split; congruence.
Qed.

(** ** What a plugin promises *)

(** The bytes [l] stored from address [a]. *)
Definition put (m : memory) (a : Z) (l : list Z) : memory := fun x =>
  if (a <=? x) && (x <? a + Z.of_nat (length l)) then nth (Z.to_nat (x - a)) l 0 else m x.

(** An encryption under way: how it was begun, what it has taken and given out. *)
Record session := Session {
  s_flags : Z; s_key : list Z; s_iv : list Z; s_id : Z; s_version : Z;
  taken : list Z; given : list Z;
}.

(** The plugin as a service over the memory, and what it computes of a whole message. *)
Class Cipher (W : Type) := {
  cipher : forall o : encryption_call, W -> res encryption_service o * W;
  cmem : W -> memory;
  session_at : W -> Z -> option session;
  code : Z -> list Z -> list Z -> Z -> Z -> list Z -> list Z;
}.

(** [update] takes all of a chunk and may hold back output; [finish] gives out the rest. *)
Class CipherLaws (W : Type) `{Cipher W} := {
  size_law id v w : cmem (cipher (encryption_ctx_size id v) w).2 = cmem w;
  alloca_law size w : cmem (cipher (alloca size) w).2 = cmem w;
  init_law ctx key klen iv ivlen flags id v w w' :
    cipher (encryption_ctx_init ctx key klen iv ivlen flags id v) w = (0, w') ->
    cmem w' = cmem w /\
    session_at w' ctx = Some (Session flags (bytes (cmem w) key klen) (bytes (cmem w) iv ivlen) id v [] []);
  update_law ctx src slen dst w stored w' s :
    session_at w ctx = Some s -> cipher (encryption_ctx_update ctx src slen dst) w = (0, stored, w') ->
    exists out, stored = Some (Z.of_nat (length out)) /\ cmem w' = put (cmem w) dst out /\
      session_at w' ctx = Some (Session (s_flags s) (s_key s) (s_iv s) (s_id s) (s_version s)
        (taken s ++ bytes (cmem w) src slen) (given s ++ out));
  finish_law ctx dst w stored w' s :
    session_at w ctx = Some s -> cipher (encryption_ctx_finish ctx dst) w = (0, stored, w') ->
    exists out, stored = Some (Z.of_nat (length out)) /\ cmem w' = put (cmem w) dst out /\
      given s ++ out = code (s_flags s) (s_key s) (s_iv s) (s_id s) (s_version s) (taken s);
  decrypt_law key iv id v l : Forall is_byte l ->
    code ENCRYPTION_FLAG_DECRYPT key iv id v (code ENCRYPTION_FLAG_ENCRYPT key iv id v l) = l;
}.

(** ** Memory *)

Lemma put_in m a l i d : (i < length l)%nat -> put m a l (a + Z.of_nat i) = nth i l d.
Proof.
  intros Hi. unfold put. rewrite (proj2 (Z.leb_le _ _)), (proj2 (Z.ltb_lt _ _)) by lia. simpl.
  replace (Z.to_nat _) with i by lia. by apply nth_indep.
Qed.
Lemma put_out m a l x : x < a \/ a + Z.of_nat (length l) <= x -> put m a l x = m x.
Proof.
  intros Hx. unfold put. destruct (Z.leb_spec a x), (Z.ltb_spec x (a + Z.of_nat (length l))); simpl; [lia|done..].
Qed.

Lemma bytes_put m a l : bytes (put m a l) a (Z.of_nat (length l)) = l.
Proof.
  unfold bytes. rewrite Nat2Z.id. apply (nth_ext _ _ 0 0); rewrite length_map, length_seq; [done|].
  intros i Hi. rewrite (nth_indep _ 0 (put m a l (a + Z.of_nat 0))) by by rewrite length_map, length_seq.
  rewrite (map_nth (fun i => put m a l (a + Z.of_nat i))), seq_nth by done. by apply put_in.
Qed.

(** Two stores, the second where the first ends. *)
Lemma put_put m a l k x : put (put m a l) (a + Z.of_nat (length l)) k x = put m a (l ++ k) x.
Proof.
  unfold put. rewrite length_app.
  destruct (Z.leb_spec a x), (Z.ltb_spec x (a + Z.of_nat (length l))),
    (Z.leb_spec (a + Z.of_nat (length l)) x), (Z.ltb_spec x (a + Z.of_nat (length l + length k))),
    (Z.ltb_spec x (a + Z.of_nat (length l) + Z.of_nat (length k))); simpl; try done; try lia.
  - by rewrite app_nth1 by lia.
  - rewrite app_nth2 by lia. f_equal. lia.
Qed.

(** ** What encryption does *)

Section crypt.
Context {W : Type} `{CipherLaws W}.

Abbreviation crypt d1 d2 src slen dst key klen iv ivlen flags id v w :=
  (trun (E := encryption_service) cipher
    (encryption_crypt d1 d2 src slen dst key klen iv ivlen flags id v) w).

(** When it returns 0, [encryption_crypt] has stored the code of the whole message in one piece
    from [dst], reported its length modulo 2^32, and changed nothing else. *)
Lemma crypt_code d1 d2 src slen dst key klen iv ivlen flags id v w n calls w' :
  crypt d1 d2 src slen dst key klen iv ivlen flags id v w = (0, n, calls, w') ->
  let out := code flags (bytes (cmem w) key klen) (bytes (cmem w) iv ivlen) id v (bytes (cmem w) src slen) in
  n = Some (u32 (Z.of_nat (length out))) /\ forall x, cmem w' x = put (cmem w) dst out x.
Proof.
  cbn. pose proof (size_law id v w) as Hm1. destruct (cipher (encryption_ctx_size id v) w) as [size w1]. cbn in *.
  pose proof (alloca_law size w1) as Hm2. destruct (cipher (alloca size) w1) as [ctx w2]. cbn in *.
  destruct (cipher (encryption_ctx_init _ _ _ _ _ _ _ _) w2) as [r1 w3] eqn:Hinit. cbn in *.
  destruct (Z.eqb_spec r1 0) as [->|Hr]; cbn; [|intros [=]; congruence].
  apply init_law in Hinit as [Hm3 Hs]. rewrite Hm2, Hm1 in *.
  destruct (cipher (encryption_ctx_update _ _ _ _) w3) as [[r1 s1] w4] eqn:Hupd. cbn in *.
  destruct (cipher (encryption_ctx_finish _ _) w4) as [[r2 s2] w5] eqn:Hfin. cbn in *.
  intros Heq. injection Heq as Hr <- _ <-. destruct (Z.eqb_spec r1 0) as [->|]; cbn in Hr; [|done]. subst r2.
  destruct (update_law _ _ _ _ _ _ _ _ Hs Hupd) as (o1 & -> & Hm4 & Hs4). simpl in *.
  destruct (finish_law _ _ _ _ _ _ Hs4 Hfin) as (o2 & -> & Hm5 & Hout). simpl in *.
  rewrite Hm3 in *. rewrite <- Hout, length_app, Nat2Z.inj_add. split; [done|].
  intros x. rewrite Hm5, Hm4. apply put_put.
Qed.

(** C30: what [encryption_crypt] encrypts it also decrypts.  If encrypting a message returns 0,
    and later decrypting the stored bytes with the same key, vector and version, wherever they
    lie now, returns 0 too, then the second run has stored the message, in one piece and of its
    length, and nothing else; whatever the uninitialised lengths held, and however much of its
    output the plugin holds back until [finish]. *)
Theorem crypt_roundtrip d1 d2 e1 e2 src slen dst key klen iv ivlen id v w n calls w1
    u src' dst' key' klen' iv' ivlen' m calls' u1 :
  Forall is_byte (bytes (cmem w) src slen) -> 0 <= slen < 2 ^ 32 ->
  crypt d1 d2 src slen dst key klen iv ivlen ENCRYPTION_FLAG_ENCRYPT id v w = (0, Some n, calls, w1) ->
  Z.of_nat (length (code ENCRYPTION_FLAG_ENCRYPT (bytes (cmem w) key klen) (bytes (cmem w) iv ivlen) id v
    (bytes (cmem w) src slen))) < 2 ^ 32 ->
  bytes (cmem u) src' n = bytes (cmem w1) dst n ->
  bytes (cmem u) key' klen' = bytes (cmem w) key klen -> bytes (cmem u) iv' ivlen' = bytes (cmem w) iv ivlen ->
  crypt e1 e2 src' n dst' key' klen' iv' ivlen' ENCRYPTION_FLAG_DECRYPT id v u = (0, m, calls', u1) ->
  m = Some slen /\ bytes (cmem u1) dst' slen = bytes (cmem w) src slen /\
  (forall x, x < dst' \/ dst' + slen <= x -> cmem u1 x = cmem u x) /\
  (forall x, x < dst \/ dst + n <= x -> cmem w1 x = cmem w x).
Proof.
  intros Hbytes Hslen Henc Hlen Hsrc Hkey Hiv Hdec.
  apply crypt_code in Henc as [[= ->] Hw1]. apply crypt_code in Hdec as [-> Hu1].
  set (out := code ENCRYPTION_FLAG_ENCRYPT _ _ _ _ _) in *. 
  assert (Hu : u32 (Z.of_nat (length out)) = Z.of_nat (length out)) by (apply u32_small; lia). rewrite Hu in *.
  assert (Hstored : bytes (cmem w1) dst (Z.of_nat (length out)) = out).
  { erewrite bytes_ext; [apply bytes_put|]. intros i _. apply Hw1. }
  rewrite Hkey, Hiv, Hsrc, Hstored in Hu1 |- *. unfold out in Hu1 |- *. rewrite decrypt_law in Hu1 |- * by done.
  rewrite length_bytes, Z2Nat.id, u32_small by lia. repeat split.
  - rewrite (bytes_ext _ _ _ _ _ (fun i _ => Hu1 (dst' + i))).
    pose proof (bytes_put (cmem u) dst' (bytes (cmem w) src slen)) as Hb.
    rewrite length_bytes, Z2Nat.id in Hb by lia. exact Hb.
  - intros x Hx. rewrite Hu1. apply put_out. rewrite length_bytes, Z2Nat.id by lia. done.
  - intros x Hx. rewrite Hw1. by apply put_out.
Qed.
End crypt.

(** ** A plugin *)

(** A cipher that shifts each byte by the sum of key and vector and holds the last byte of its
    output back. *)
Record shift_plugin := ShiftPlugin { p_mem : memory; p_session : Z -> option session }.

Definition shift_code (flags : Z) (key iv : list Z) (id v : Z) (l : list Z) : list Z :=
  let k := foldr Z.add 0 (key ++ iv) in
  map (fun b => u8 (if flags =? ENCRYPTION_FLAG_ENCRYPT then b + k else b - k)) l.

Definition shift_output (s : session) : list Z :=
  shift_code (s_flags s) (s_key s) (s_iv s) (s_id s) (s_version s) (taken s).

Definition with_session (w : shift_plugin) (ctx : Z) (s : option session) : shift_plugin :=
  ShiftPlugin (p_mem w) (fun c => if c =? ctx then s else p_session w c).

Definition shift_cipher (o : encryption_call) (w : shift_plugin) : res encryption_service o * shift_plugin :=
  match o return res encryption_service o * shift_plugin with
  | encryption_key_get_latest_version _ => (1, w)
  | encryption_key_get _ _ _ => (0, Some 16, w)
  | encryption_ctx_size _ _ => (8, w)
  | alloca _ => (4096, w)
  | encryption_ctx_init ctx key klen iv ivlen flags id v =>
      if klen =? 0 then (ENCRYPTION_KEY_BUFFER_TOO_SMALL, w) else
      (0, with_session w ctx (Some (Session flags (bytes (p_mem w) key klen) (bytes (p_mem w) iv ivlen) id v [] [])))
  | encryption_ctx_update ctx src slen dst =>
      match p_session w ctx with
      | None => (1, None, w)
      | Some s =>
          let s := Session (s_flags s) (s_key s) (s_iv s) (s_id s) (s_version s)
            (taken s ++ bytes (p_mem w) src slen) (given s) in
          let out := drop (length (given s)) (removelast (shift_output s)) in
          (0, Some (Z.of_nat (length out)),
           with_session (ShiftPlugin (put (p_mem w) dst out) (p_session w)) ctx
             (Some (Session (s_flags s) (s_key s) (s_iv s) (s_id s) (s_version s) (taken s) (given s ++ out))))
      end
  | encryption_ctx_finish ctx dst =>
      match p_session w ctx with
      | None => (1, None, w)
      | Some s =>
          if decide (take (length (given s)) (shift_output s) = given s) then
            let out := drop (length (given s)) (shift_output s) in
            (0, Some (Z.of_nat (length out)), with_session (ShiftPlugin (put (p_mem w) dst out) (p_session w)) ctx None)
          else (1, None, with_session w ctx None)
      end
  end.

#[export] Instance shift_plugin_cipher : Cipher shift_plugin := {
  cipher := shift_cipher; cmem := p_mem; session_at := p_session; code := shift_code }.

#[export] Instance shift_plugin_laws : CipherLaws shift_plugin.
Proof.
  split; try done.
  - intros ctx key klen iv ivlen flags id v w w'. simpl. destruct (klen =? 0); [done|]. intros [= <-].
    simpl. by rewrite Z.eqb_refl.
  - intros ctx src slen dst w stored w' s Hs. simpl in *. rewrite Hs. intros [= <- <-].
    eexists. repeat split. simpl. by rewrite Z.eqb_refl.
  - intros ctx dst w stored w' s Hs. simpl in *. rewrite Hs. case_decide as Hg; [|done]. intros [= <- <-].
    eexists. repeat split. rewrite <- Hg at 1. apply take_drop.
  - intros key iv id v l Hl. unfold code. simpl. unfold shift_code. rewrite map_map. simpl.
    erewrite map_ext_in; [apply map_id|]. intros b Hb. rewrite Forall_forall in Hl.
    specialize (Hl b ltac:(by apply list_elem_of_In)). unfold is_byte, u8 in *.
    rewrite Zminus_mod_idemp_l, Z.add_simpl_r. by apply Z.mod_small.
Qed.

Definition shift_start : shift_plugin := ShiftPlugin (fun a => a mod 256) (fun _ => None).
Definition shift_encrypted :=
  trun (E := encryption_service) cipher
    (encryption_crypt 77 (-5) 200 100 1000 10 16 40 8 ENCRYPTION_FLAG_ENCRYPT 1 1) shift_start.
Definition shift_decrypted :=
  trun (E := encryption_service) cipher
    (encryption_crypt 12 99 1000 100 3000 10 16 40 8 ENCRYPTION_FLAG_DECRYPT 1 1) shift_encrypted.2.

Lemma crypt_roundtrip_witness :
  bytes (cmem shift_encrypted.2) 1000 100 <> bytes (cmem shift_start) 200 100 /\
  bytes (cmem shift_decrypted.2) 3000 100 = bytes (cmem shift_start) 200 100.
Proof.
  split; [vm_compute; discriminate|].
  refine (proj1 (proj2 (crypt_roundtrip 77 (-5) 12 99 200 100 1000 10 16 40 8 1 1 shift_start 100
    shift_encrypted.1.2 shift_encrypted.2 shift_encrypted.2 1000 3000 10 16 40 8
    (Some 100) shift_decrypted.1.2 shift_decrypted.2 _ _ _ _ _ _ _ _))).
  - apply Forall_forall. intros b Hb. apply list_elem_of_In, in_map_iff in Hb as (i & <- & _).
    apply (Z.mod_pos_bound _ 256). lia.
  - lia.
  - vm_compute. reflexivity.
  - vm_compute. reflexivity.
  - reflexivity.
  - vm_compute. reflexivity.
  - vm_compute. reflexivity.
  - vm_compute. reflexivity.
Defined.
