(* ===== verification/Mysys.v ===== *)
(** * The computing macros of the MySQL headers

    Arithmetic on sizes and bits ([my_global.h]), deadlines ([my_pthread.h], [my_sys.h]),
    classes of characters ([m_ctype.h]), kinds of columns ([mysql.h], [mysql_com.h]),
    messages ([errmsg.h]), strings that may be null ([m_string.h]), decimals ([decimal.h]) and
    temporary memory ([my_sys.h]). *)
From Stdlib Require Import ZArith Lia Ascii String.
From stdpp Require Import base tactics numbers strings list.
From S2P Require Import Prelude Words CString.

Local Open Scope Z_scope.

(** ** Sizes and bits: [my_global.h] *)

Definition MY_TEST (a : Z) : Z := if negb (a =? 0) then 1 else 0.
Definition MY_MAX (a b : Z) : Z := if b <? a then a else b.
Definition MY_MIN (a b : Z) : Z := if a <? b then a else b.
Definition CMP_NUM (a b : Z) : Z := if a <? b then -1 else if a =? b then 0 else 1.

(** The new value of the variable. *)
Definition set_if_bigger (a b : Z) : Z := if a <? b then b else a.
Definition set_if_smaller (a b : Z) : Z := if b <? a then b else a.

(** The new values of the two variables. *)
Definition swap_variables {T} (a b : T) : T * T := let dummy := a in let a := b in let b := dummy in (a, b).

Section width.
(** The type is an unsigned one of [w] bits. *)
Context (w : Z).
Definition wrap (x : Z) : Z := x mod 2 ^ w.

Definition set_bits (bit_count : Z) : Z :=
  if w <=? bit_count then wrap (Z.lnot 0) else wrap (wrap (Z.shiftl 1 bit_count) - 1).
Definition test_all_bits (a b : Z) : bool := Z.land a b =? b.
Definition PREV_BITS (A : Z) : Z := wrap (wrap (Z.shiftl 1 A) - 1).

Definition MY_ALIGN (A L : Z) : Z := Z.land (wrap (wrap (A + L) - 1)) (wrap (Z.lnot (wrap (L - 1)))).
Definition MY_ALIGN_DOWN (A L : Z) : Z := Z.land A (wrap (Z.lnot (wrap (L - 1)))).
(** [sizeof(double)]. *)
Definition ALIGN_MAX_UNIT : Z := 8.
Definition ALIGN_SIZE (A : Z) : Z := MY_ALIGN A ALIGN_MAX_UNIT.
End width.

Lemma wrap_small w x : 0 <= x < 2 ^ w -> wrap w x = x.
Proof. apply Z.mod_small. Qed.

Lemma MY_TEST_bool a : MY_TEST a = b2z (negb (a =? 0)).
Proof. unfold MY_TEST. by destruct (a =? 0). Qed.
Lemma MY_MAX_MIN a b : MY_MAX a b = Z.max a b /\ MY_MIN a b = Z.min a b.
Proof. unfold MY_MAX, MY_MIN. split; [destruct (Z.ltb_spec b a)|destruct (Z.ltb_spec a b)]; lia. Qed.
Lemma set_if_bounds a b : set_if_bigger a b = Z.max a b /\ set_if_smaller a b = Z.min a b.
Proof. unfold set_if_bigger, set_if_smaller. split; [destruct (Z.ltb_spec a b)|destruct (Z.ltb_spec b a)]; lia. Qed.
Lemma CMP_NUM_compare a b :
  CMP_NUM a b = match a ?= b with Lt => -1 | Eq => 0 | Gt => 1 end.
Proof.
  unfold CMP_NUM, Z.ltb, Z.eqb. destruct (Z.compare_spec a b); try done.
  - subst. by destruct b; rewrite ?Pos.eqb_refl.
  - assert (Hab : a <> b) by lia. by destruct a, b; try done; destruct (Pos.eqb_spec p p0); subst.
Qed.

Lemma set_bits_ones w n : 0 <= n -> 0 <= w -> set_bits w n = Z.ones (Z.min n w).
Proof.
  intros Hn Hw. unfold set_bits, wrap. rewrite Z.ones_equiv, <- Z.sub_1_r. pose proof (Z.pow_pos_nonneg 2 w).
  destruct (Z.leb_spec w n).
  - rewrite Z.min_r by done. change (Z.lnot 0) with (-1). symmetry. apply Z.mod_unique with (-1); lia.
  - rewrite Z.min_l, Z.shiftl_1_l by lia. pose proof (Z.pow_lt_mono_r 2 n w).
    pose proof (Z.pow_pos_nonneg 2 n). rewrite (Z.mod_small (2 ^ n)) by lia. by rewrite Z.mod_small by lia.
Qed.

Lemma PREV_BITS_ones w A : 0 <= A < w -> PREV_BITS w A = Z.ones A.
Proof.
  intros HA. transitivity (set_bits w A); [|by rewrite set_bits_ones, Z.min_l by lia].
  unfold set_bits. by rewrite (proj2 (Z.leb_gt _ _)) by lia.
Qed.

Lemma test_all_bits_spec a b :
  test_all_bits a b = true <-> forall i, Z.testbit b i = true -> Z.testbit a i = true.
Proof.
  unfold test_all_bits. rewrite Z.eqb_eq. split.
  - intros Hab i Hi. rewrite <- Hab, Z.land_spec, andb_true_iff in Hi. naive_solver.
  - intros Hab. apply Z.bits_inj. intros i. rewrite Z.land_spec. specialize (Hab i).
    destruct (Z.testbit a i), (Z.testbit b i); naive_solver.
Qed.

(** Clearing the low bits rounds down. *)
Lemma align_mask w k x : 0 <= k < w -> 0 <= x < 2 ^ w ->
  Z.land x (wrap w (Z.lnot (wrap w (2 ^ k - 1)))) = x - x mod 2 ^ k.
Proof.
  intros Hk Hx. pose proof (Z.pow_pos_nonneg 2 k). pose proof (Z.pow_lt_mono_r 2 k w).
  rewrite (wrap_small w (2 ^ k - 1)) by lia. unfold wrap.
  rewrite Z.sub_1_r, <- Z.ones_equiv. transitivity (Z.ldiff x (Z.ones k)).
  - apply Z.bits_inj'. intros i Hi. rewrite Z.land_spec, Z.ldiff_spec.
    destruct (Z.ltb_spec i w).
    + by rewrite Z.mod_pow2_bits_low, Z.lnot_spec by lia.
    + rewrite <- (Z.mod_small x (2 ^ w)) by done. by rewrite Z.mod_pow2_bits_high by lia.
  - rewrite Z.ldiff_ones_r, Z.shiftl_mul_pow2, Z.shiftr_div_pow2 by lia.
    pose proof (Z.div_mod x (2 ^ k)). lia.
Qed.

(** Rounding up to a power of two, as long as it does not wrap round. *)
Lemma align_spec w k A : 0 <= k < w -> 0 <= A <= 2 ^ w - 2 ^ k ->
  let r := MY_ALIGN w A (2 ^ k) in (2 ^ k | r) /\ A <= r < A + 2 ^ k.
Proof.
  intros Hk HA. pose proof (Z.pow_pos_nonneg 2 k). pose proof (Z.pow_lt_mono_r 2 k w). cbv zeta.
  assert (Heq : MY_ALIGN w A (2 ^ k) = A + 2 ^ k - 1 - (A + 2 ^ k - 1) mod 2 ^ k).
  { unfold MY_ALIGN. replace (wrap w (wrap w (A + 2 ^ k) - 1)) with (A + 2 ^ k - 1).
    - apply align_mask; lia.
    - unfold wrap. rewrite Zminus_mod_idemp_l, Z.mod_small; lia. }
  rewrite Heq. pose proof (Z.mod_pos_bound (A + 2 ^ k - 1) (2 ^ k)). split; [|lia].
  apply Z.mod_divide; [lia|]. rewrite Zminus_mod, Z.mod_mod, Z.sub_diag by lia. done.
Qed.

(** Above that the aligned size is 0. *)
Lemma align_wraps w k A : 0 <= k < w -> 2 ^ w - 2 ^ k < A < 2 ^ w -> MY_ALIGN w A (2 ^ k) = 0.
Proof.
  intros Hk HA. pose proof (Z.pow_pos_nonneg 2 k). pose proof (Z.pow_lt_mono_r 2 k w). unfold MY_ALIGN.
  replace (wrap w (wrap w (A + 2 ^ k) - 1)) with (A + 2 ^ k - 1 - 2 ^ w).
  - rewrite align_mask, Z.mod_small by lia. lia.
  - unfold wrap. rewrite Zminus_mod_idemp_l. apply Z.mod_unique with 1; lia.
Qed.

(** ** Deadlines: [my_pthread.h] and [my_sys.h] *)

Record timespec := Timespec { tv_sec : Z; tv_nsec : Z }.

Definition set_timespec_time_nsec (NSEC : Z) : timespec :=
  let _now_ := u64 NSEC in Timespec (_now_ / 1000000000) (_now_ mod 1000000000).
(** [now] is [my_hrtime().val], in microseconds. *)
Definition set_timespec_nsec (now NSEC : Z) : timespec := set_timespec_time_nsec (u64 (u64 (now * 1000) + NSEC)).
Definition set_timespec (now SEC : Z) : timespec := set_timespec_nsec now (u64 (SEC * 1000000000)).

Definition cmp_timespec (TS1 TS2 : timespec) : Z :=
  if (tv_sec TS2 <? tv_sec TS1) || ((tv_sec TS1 =? tv_sec TS2) && (tv_nsec TS2 <? tv_nsec TS1)) then 1
  else if (tv_sec TS1 <? tv_sec TS2) || ((tv_sec TS1 =? tv_sec TS2) && (tv_nsec TS1 <? tv_nsec TS2)) then -1
  else 0.

Definition HRTIME_RESOLUTION : Z := 1000000.
Definition microsecond_interval_timer (ns : Z) : Z := ns / 1000.
Definition hrtime_to_time (val : Z) : Z := val / HRTIME_RESOLUTION.
Definition hrtime_from_time (X : Z) : Z := u64 (X * HRTIME_RESOLUTION).
Definition hrtime_sec_part (val : Z) : Z := val mod HRTIME_RESOLUTION.
Definition my_time (now : Z) : Z := hrtime_to_time now.

(** The instant a [timespec] stands for. *)
Definition nanoseconds (t : timespec) : Z := tv_sec t * 1000000000 + tv_nsec t.
Definition normalised (t : timespec) : Prop := 0 <= tv_nsec t < 1000000000.

Lemma set_timespec_time_spec n :
  normalised (set_timespec_time_nsec n) /\ nanoseconds (set_timespec_time_nsec n) = u64 n.
Proof.
  unfold normalised, nanoseconds, set_timespec_time_nsec. simpl. pose proof (Z.mod_pos_bound (u64 n) 1000000000).
  pose proof (Z.div_mod (u64 n) 1000000000). lia.
Qed.

(** On normalised times [cmp_timespec] is the order of instants. *)
Lemma cmp_timespec_order s t : normalised s -> normalised t ->
  cmp_timespec s t = CMP_NUM (nanoseconds s) (nanoseconds t).
Proof.
  unfold normalised, nanoseconds, cmp_timespec, CMP_NUM. destruct s as [a b], t as [c d]. simpl. intros Hb Hd.
  destruct (Z.ltb_spec c a), (Z.eqb_spec a c), (Z.ltb_spec d b), (Z.ltb_spec a c), (Z.ltb_spec b d); simpl;
    destruct (Z.ltb_spec (a * 1000000000 + b) (c * 1000000000 + d)),
      (Z.eqb_spec (a * 1000000000 + b) (c * 1000000000 + d)); simpl; lia.
Qed.

(** A deadline is the moment asked for, until the nanoseconds no longer fit into 64 bits. *)
Lemma set_timespec_deadline now SEC :
  0 <= now -> 0 <= SEC -> now * 1000 + SEC * 1000000000 < 2 ^ 64 ->
  nanoseconds (set_timespec now SEC) = now * 1000 + SEC * 1000000000.
Proof.
  intros Hn HS Hsum. unfold set_timespec, set_timespec_nsec. rewrite (proj2 (set_timespec_time_spec _)).
  rewrite (u64_small (now * 1000)), (u64_small (SEC * 1000000000)) by lia.
  by rewrite (u64_small (now * 1000 + _)), u64_small by lia.
Qed.

Lemma hrtime_split val : 0 <= val < 2 ^ 64 ->
  u64 (hrtime_from_time (hrtime_to_time val) + hrtime_sec_part val) = val.
Proof.
  intros Hv. unfold hrtime_from_time, hrtime_to_time, hrtime_sec_part.
  pose proof (Z.div_mod val HRTIME_RESOLUTION ltac:(done)). pose proof (Z.mod_pos_bound val HRTIME_RESOLUTION ltac:(done)).
  unfold HRTIME_RESOLUTION in *. pose proof (Z.div_pos val 1000000).
  rewrite (u64_small (val / 1000000 * 1000000)), u64_small; lia.
Qed.

(** ** Characters: [m_ctype.h] *)

Definition _MY_U : Z := 1.
Definition _MY_L : Z := 2.
Definition _MY_NMR : Z := 4.
Definition _MY_SPC : Z := 8.
Definition _MY_PNT : Z := 16.
Definition _MY_CTR : Z := 32.
Definition _MY_B : Z := 64.
Definition _MY_X : Z := 128.

(** The tables of a character set; [ctype] starts with an entry for EOF. *)
Record CHARSET_INFO := Charset { ctype : Z -> Z; to_upper : Z -> Z; to_lower : Z -> Z }.

(** C's [(char)], where it is signed. *)
Definition i8 (x : Z) : Z := (x + 128) mod 2 ^ 8 - 128.

Definition my_isascii (c : Z) : bool := Z.land c (Z.lnot 127) =? 0.
Definition my_toascii (c : Z) : Z := Z.land c 127.
Definition my_tocntrl (c : Z) : Z := Z.land c 31.
Definition my_toprint (c : Z) : Z := Z.lor c 64.

Section charset.
Context (s : CHARSET_INFO).
Definition my_toupper (c : Z) : Z := i8 (to_upper s (u8 c)).
Definition my_tolower (c : Z) : Z := i8 (to_lower s (u8 c)).

(** [((s)->ctype+1)[(uchar) (c)]]. *)
Definition class_of (c : Z) : Z := ctype s (1 + u8 c).
Definition my_isalpha (c : Z) : Z := Z.land (class_of c) (Z.lor _MY_U _MY_L).
Definition my_isupper (c : Z) : Z := Z.land (class_of c) _MY_U.
Definition my_islower (c : Z) : Z := Z.land (class_of c) _MY_L.
Definition my_isdigit (c : Z) : Z := Z.land (class_of c) _MY_NMR.
Definition my_isxdigit (c : Z) : Z := Z.land (class_of c) _MY_X.
Definition my_isalnum (c : Z) : Z := Z.land (class_of c) (Z.lor (Z.lor _MY_U _MY_L) _MY_NMR).
Definition my_isspace (c : Z) : Z := Z.land (class_of c) _MY_SPC.
Definition my_ispunct (c : Z) : Z := Z.land (class_of c) _MY_PNT.
Definition my_isprint (c : Z) : Z :=
  Z.land (class_of c) (Z.lor (Z.lor (Z.lor (Z.lor _MY_PNT _MY_U) _MY_L) _MY_NMR) _MY_B).
Definition my_isgraph (c : Z) : Z :=
  Z.land (class_of c) (Z.lor (Z.lor (Z.lor _MY_PNT _MY_U) _MY_L) _MY_NMR).
Definition my_iscntrl (c : Z) : Z := Z.land (class_of c) _MY_CTR.

(** The code of an underscore is 95. *)
Definition my_isvar (c : Z) : bool := negb (my_isalnum c =? 0) || (c =? 95).
Definition my_isvar_start (c : Z) : bool := negb (my_isalpha c =? 0) || (c =? 95).

(** A test for several classes is the test for one of them. *)
Lemma land_lor_0 x a b : Z.land x (Z.lor a b) = 0 <-> Z.land x a = 0 /\ Z.land x b = 0.
Proof. rewrite Z.land_lor_distr_r. apply Z.lor_eq_0_iff. Qed.

Lemma ctype_classes c :
  (my_isalpha c <> 0 <-> my_isupper c <> 0 \/ my_islower c <> 0) /\
  (my_isalnum c <> 0 <-> my_isalpha c <> 0 \/ my_isdigit c <> 0) /\
  (my_isgraph c <> 0 <-> my_isalnum c <> 0 \/ my_ispunct c <> 0) /\
  (my_isprint c <> 0 <-> my_isgraph c <> 0 \/ Z.land (class_of c) _MY_B <> 0).
Proof.
  unfold my_isalpha, my_isupper, my_islower, my_isalnum, my_isdigit, my_isgraph, my_ispunct, my_isprint.
  rewrite !land_lor_0. lia.
Qed.

(** What may start a name may be part of one. *)
Lemma my_isvar_start_isvar c : my_isvar_start c = true -> my_isvar c = true.
Proof.
  unfold my_isvar_start, my_isvar. rewrite !orb_true_iff, !negb_true_iff, !Z.eqb_neq.
  intros [Hc|Hc]; [left|by right]. apply (ctype_classes c). by left.
Qed.
End charset.

Lemma my_isascii_spec c : my_isascii c = true <-> 0 <= c < 128.
Proof.
  unfold my_isascii. rewrite Z.eqb_eq. change 127 with (Z.ones 7).
  rewrite <- Z.ldiff_land, Z.ldiff_ones_r, Z.shiftl_mul_pow2, Z.shiftr_div_pow2 by lia.
  change (2 ^ 7) with 128. pose proof (Z.div_mod c 128). pose proof (Z.mod_pos_bound c 128). split; [lia|].
  intros Hc. rewrite Z.div_small by done. done.
Qed.

Lemma my_toascii_ascii c : my_isascii (my_toascii c) = true.
Proof.
  apply my_isascii_spec. unfold my_toascii. change 127 with (Z.ones 7). rewrite Z.land_ones by lia.
  apply (Z.mod_pos_bound c 128). lia.
Qed.

(** Two bytes of a table of characters that holds them in big-endian order; [i386]: the
    store is that of a little-endian word. *)
Definition MB2 (i386 : bool) (x : Z) : Z := if i386 then Z.shiftr x 8 + Z.shiftl (Z.land x 255) 8 else x.
Definition MY_PUT_MB2 (i386 : bool) (code : Z) : list Z :=
  if i386 then le_bytes 2 (code mod 2 ^ 16) else [u8 (Z.shiftr code 8); Z.land code 255].

(** On every processor the same bytes are stored. *)
Lemma put_mb2_same i386 x : 0 <= x < 2 ^ 16 -> MY_PUT_MB2 i386 (MB2 i386 x) = MY_PUT_MB2 false (MB2 false x).
Proof.
  intros Hx. destruct i386; [|done]. unfold MY_PUT_MB2, MB2, le_bytes, u8.
  change 255 with (Z.ones 8). rewrite Z.land_ones, Z.shiftl_mul_pow2, !Z.shiftr_div_pow2 by lia.
  change (2 ^ 8) with 256. assert (Hq : 0 <= x / 256 < 256) by (split; [apply Z.div_pos|apply Z.div_lt_upper_bound]; lia).
  pose proof (Z.mod_pos_bound x 256 ltac:(lia)) as Hr.
  rewrite (Z.mod_small (x / 256 + x mod 256 * 256)) by lia.
  by rewrite Z.mod_add, Z.div_add, (Z.div_small (x / 256)), Z.add_0_l, Z.mod_mod by lia.
Qed.

Definition MY_CS_TOOSMALL : Z := -101.
Definition MY_CS_TOOSMALL6 : Z := -106.
Definition MY_CS_TOOSMALLN (n : Z) : Z := -100 - n.
Definition MY_CS_IS_TOOSMALL (rc : Z) : bool := (MY_CS_TOOSMALL6 <=? rc) && (rc <=? MY_CS_TOOSMALL).

Lemma toosmall_spec rc : MY_CS_IS_TOOSMALL rc = true <-> exists n, 1 <= n <= 6 /\ rc = MY_CS_TOOSMALLN n.
Proof.
  unfold MY_CS_IS_TOOSMALL, MY_CS_TOOSMALLN, MY_CS_TOOSMALL6, MY_CS_TOOSMALL.
  rewrite andb_true_iff, !Z.leb_le. split; [|intros (n & Hn & ->); lia].
  intros Hrc. exists (- 100 - rc). lia.
Qed.

(** ** Columns: [mysql_com.h] and [mysql.h] *)

Inductive enum_field_types :=
| MYSQL_TYPE_DECIMAL | MYSQL_TYPE_TINY | MYSQL_TYPE_SHORT | MYSQL_TYPE_LONG
| MYSQL_TYPE_FLOAT | MYSQL_TYPE_DOUBLE | MYSQL_TYPE_NULL | MYSQL_TYPE_TIMESTAMP
| MYSQL_TYPE_LONGLONG | MYSQL_TYPE_INT24 | MYSQL_TYPE_DATE | MYSQL_TYPE_TIME
| MYSQL_TYPE_DATETIME | MYSQL_TYPE_YEAR | MYSQL_TYPE_NEWDATE | MYSQL_TYPE_VARCHAR
| MYSQL_TYPE_BIT | MYSQL_TYPE_TIMESTAMP2 | MYSQL_TYPE_DATETIME2 | MYSQL_TYPE_TIME2
| MYSQL_TYPE_NEWDECIMAL | MYSQL_TYPE_ENUM | MYSQL_TYPE_SET | MYSQL_TYPE_TINY_BLOB
| MYSQL_TYPE_MEDIUM_BLOB | MYSQL_TYPE_LONG_BLOB | MYSQL_TYPE_BLOB | MYSQL_TYPE_VAR_STRING
| MYSQL_TYPE_STRING | MYSQL_TYPE_GEOMETRY.

(** The numbers of the enumeration. *)
Definition type_code (t : enum_field_types) : Z :=
  match t with
  | MYSQL_TYPE_DECIMAL => 0 | MYSQL_TYPE_TINY => 1 | MYSQL_TYPE_SHORT => 2 | MYSQL_TYPE_LONG => 3
  | MYSQL_TYPE_FLOAT => 4 | MYSQL_TYPE_DOUBLE => 5 | MYSQL_TYPE_NULL => 6 | MYSQL_TYPE_TIMESTAMP => 7
  | MYSQL_TYPE_LONGLONG => 8 | MYSQL_TYPE_INT24 => 9 | MYSQL_TYPE_DATE => 10 | MYSQL_TYPE_TIME => 11
  | MYSQL_TYPE_DATETIME => 12 | MYSQL_TYPE_YEAR => 13 | MYSQL_TYPE_NEWDATE => 14 | MYSQL_TYPE_VARCHAR => 15
  | MYSQL_TYPE_BIT => 16 | MYSQL_TYPE_TIMESTAMP2 => 17 | MYSQL_TYPE_DATETIME2 => 18 | MYSQL_TYPE_TIME2 => 19
  | MYSQL_TYPE_NEWDECIMAL => 246 | MYSQL_TYPE_ENUM => 247 | MYSQL_TYPE_SET => 248
  | MYSQL_TYPE_TINY_BLOB => 249 | MYSQL_TYPE_MEDIUM_BLOB => 250 | MYSQL_TYPE_LONG_BLOB => 251
  | MYSQL_TYPE_BLOB => 252 | MYSQL_TYPE_VAR_STRING => 253 | MYSQL_TYPE_STRING => 254
  | MYSQL_TYPE_GEOMETRY => 255
  end.

Definition NOT_NULL_FLAG : Z := 1.
Definition PRI_KEY_FLAG : Z := 2.
Definition BLOB_FLAG : Z := 16.

Definition IS_PRI_KEY (n : Z) : Z := Z.land n PRI_KEY_FLAG.
Definition IS_NOT_NULL (n : Z) : Z := Z.land n NOT_NULL_FLAG.
Definition IS_BLOB (n : Z) : Z := Z.land n BLOB_FLAG.

Definition IS_NUM (t : Z) : bool :=
  ((t <=? type_code MYSQL_TYPE_INT24) && negb (t =? type_code MYSQL_TYPE_TIMESTAMP))
  || (t =? type_code MYSQL_TYPE_YEAR) || (t =? type_code MYSQL_TYPE_NEWDECIMAL).
Definition IS_LONGDATA (t : Z) : bool :=
  (type_code MYSQL_TYPE_TINY_BLOB <=? t) && (t <=? type_code MYSQL_TYPE_STRING).

(** The types that need no quotes, NULL among them. *)
Definition unquoted (t : enum_field_types) : bool :=
  match t with
  | MYSQL_TYPE_DECIMAL | MYSQL_TYPE_TINY | MYSQL_TYPE_SHORT | MYSQL_TYPE_LONG | MYSQL_TYPE_FLOAT
  | MYSQL_TYPE_DOUBLE | MYSQL_TYPE_NULL | MYSQL_TYPE_LONGLONG | MYSQL_TYPE_INT24 | MYSQL_TYPE_YEAR
  | MYSQL_TYPE_NEWDECIMAL => true
  | _ => false
  end.

Lemma IS_NUM_unquoted t : IS_NUM (type_code t) = unquoted t.
Proof. by destruct t. Qed.

(** What may be sent in pieces is never a number. *)
Lemma long_data_quoted t : IS_LONGDATA t = true -> IS_NUM t = false.
Proof.
  unfold IS_LONGDATA, IS_NUM. simpl. rewrite andb_true_iff, !Z.leb_le. intros Ht.
  rewrite !orb_false_iff, andb_false_iff, Z.leb_gt, !Z.eqb_neq. lia.
Qed.

(** ** Messages of the client: [errmsg.h] *)

Definition CR_ERROR_FIRST : Z := 2000.
Definition CR_UNKNOWN_ERROR : Z := 2000.
Definition CR_ERROR_LAST : Z := 2061.

(** [client_errors] is the library's table; [None]: the table is read out of its bounds. *)
Definition ER (client_errors : list string) (X : Z) : option string :=
  if (CR_ERROR_FIRST <=? X) && (X <=? CR_ERROR_LAST)
  then client_errors !! Z.to_nat (X - CR_ERROR_FIRST)
  else client_errors !! Z.to_nat CR_UNKNOWN_ERROR.

(** With one message per error number, every number has its message, and any other number
    reads far behind the table instead of the message of CR_UNKNOWN_ERROR, its first. *)
Lemma ER_bounds client_errors X :
  Z.of_nat (length client_errors) = CR_ERROR_LAST - CR_ERROR_FIRST + 1 ->
  is_Some (ER client_errors X) <-> CR_ERROR_FIRST <= X <= CR_ERROR_LAST.
Proof.
  unfold ER, CR_ERROR_LAST, CR_ERROR_FIRST, CR_UNKNOWN_ERROR. intros Hlen.
  destruct (Z.leb_spec 2000 X), (Z.leb_spec X 2061); cbn [andb]; rewrite lookup_lt_is_Some; lia.
Qed.

(** ** Strings that may be null: [m_string.h] and [my_sys.h] *)

(** A string in memory with whatever follows its end. *)
Definition strlen (s : string) : Z := Z.of_nat (String.length (c_str s)).

Record LEX_STRING := LexString { lex_str : string; lex_length : Z }.
Definition lex_string_set (c_str : string) : LEX_STRING := LexString c_str (strlen c_str).
Definition safe_str (str : option string) : string := default EmptyString str.
Definition safe_strlen (str : option string) : Z := match str with Some s => strlen s | None => 0 end.
Definition safe_strdup_root {A} (strdup_root : string -> option A) (str : option string) : option A :=
  match str with Some s => strdup_root s | None => None end.

Lemma safe_strlen_str str : safe_strlen str = strlen (safe_str str).
Proof. by destruct str. Qed.
Lemma lex_string_safe str : lex_length (lex_string_set (safe_str str)) = safe_strlen str.
Proof. symmetry. apply safe_strlen_str. Qed.

(** ** Decimals: [decimal.h] *)

Record decimal_t := Decimal { intg : Z; frac : Z; len : Z; sign : Z; buf : list Z }.

Definition decimal_make_zero (dec : decimal_t) : decimal_t := Decimal 1 0 (len dec) 0 (<[0%nat := 0]> (buf dec)).
Definition decimal_string_size (dec : decimal_t) : Z :=
  (if negb (intg dec =? 0) then intg dec else 1) + frac dec + (if 0 <? frac dec then 1 else 0) + 2.
Definition decimal_neg (dec : decimal_t) : decimal_t :=
  Decimal (intg dec) (frac dec) (len dec) (Z.lxor (sign dec) 1) (buf dec).

(** A decimal as it is written: sign, at least one digit, and a point before further digits. *)
Definition decimal_text (negative : bool) (int_digits frac_digits : list ascii) : list ascii :=
  (if negative then ["-"%char] else []) ++
  (match int_digits with [] => ["0"%char] | _ => int_digits end) ++
  (match frac_digits with [] => [] | _ => "."%char :: frac_digits end).

(** The size is enough for the text and its terminator, and exact for a negative number. *)
Lemma decimal_string_size_spec dec negative int_digits frac_digits :
  intg dec = Z.of_nat (length int_digits) -> frac dec = Z.of_nat (length frac_digits) ->
  Z.of_nat (length (decimal_text negative int_digits frac_digits)) + 1 =
  decimal_string_size dec - (if negative then 0 else 1).
Proof.
  intros Hi Hf. unfold decimal_string_size, decimal_text. rewrite Hi, Hf, !length_app.
  destruct (Z.eqb_spec (Z.of_nat (length int_digits)) 0), (Z.ltb_spec 0 (Z.of_nat (length frac_digits)));
    destruct negative, int_digits, frac_digits; simpl in *; lia.
Qed.

Lemma decimal_neg_involutive dec : decimal_neg (decimal_neg dec) = dec.
Proof.
  destruct dec as [i f l s b]. unfold decimal_neg. simpl. f_equal.
  by rewrite Z.lxor_assoc, Z.lxor_nilpotent, Z.lxor_0_r.
Qed.

(** ** Temporary memory: [my_sys.h] *)

Inductive place := on_stack (size : Z) | on_heap (size : Z).

Definition MAX_ALLOCA_SZ : Z := 4096.
(** [have_alloca]: the build option HAVE_ALLOCA. *)
Definition my_safe_alloca (have_alloca : bool) (size : Z) : place :=
  if have_alloca then if size <=? MAX_ALLOCA_SZ then on_stack size else on_heap size else on_heap size.
(** Is [my_free] called? *)
Definition my_safe_afree (have_alloca : bool) (size : Z) : bool :=
  if have_alloca then MAX_ALLOCA_SZ <? size else true.

(** What was taken from the heap is freed, and nothing else. *)
Lemma safe_alloca_paired have_alloca size :
  my_safe_afree have_alloca size = match my_safe_alloca have_alloca size with on_heap _ => true | on_stack _ => false end.
Proof.
  unfold my_safe_afree, my_safe_alloca. destruct have_alloca; [|done].
  destruct (Z.leb_spec size MAX_ALLOCA_SZ), (Z.ltb_spec MAX_ALLOCA_SZ size); done || lia.
Qed.
